(* ===== verification/_CoqProject ===== *)
-Q . S2P
Prelude.v
Text.v
NetAddr.v
Remote.v
Counted.v
State.v
Ledger.v
Atomic.v
Locks.v
Framing.v
Server.v
Socks.v
Proxy.v
Client.v
Tls.v
Cli.v
Udp.v
Admin.v
Tcp.v
Json.v
Ctl.v
Cert.v
Session.v
Tunnel.v
Args.v
Build.v
Main.v
Service.v
Connect.v
System.v
UdpConn.v
Exit.v
Tools.v
