(* ===== verification/Prelude.v ===== *)
(** * Rusnel: a verification development

    Rusnel ([src/]) is a tunnel: a client connects to a server over QUIC, declares
    its _remotes_ (TCP, UDP or SOCKS5, forward or reverse) in one session hello, and
    from then on every proxied connection (_conn_) is one bidirectional stream that
    starts with an [OpenConn] frame naming the tunnel. The server keeps an
    observability state of clients, tunnels and conns that an admin API reports.

    ** The program and the files that model it

    - [Prelude] (this file): bytes and text, results, panics, fixed-width integers,
      sums over maps, and the tactics the other files share.
    - [Text], [NetAddr]: the parts of Rust's standard library the sources use:
      [str], integer parsing and printing, UTF-8, IP and socket addresses with
      their [FromStr] and [Display].
    - [Remote] ([src/common/remote.rs]): the declarations, the control messages and
      the parser of the remote syntax ([from_str], [split_addr_tokens], ...).
    - [Counted] ([src/common/counted.rs]): counters as shared cells, the counting
      reader and the two places that count writes.
    - [State] ([src/server/state.rs]): the shared entries as a store with locations
      ([World]), every operation of [ServerState] and the DTOs. The iteration order of
      the concurrent maps is the class [MapOrder].
    - [Ledger]: runs of the state operations in any order ([exec], [run],
      [reachable]), the well-formedness invariant [wf], and an abstract ledger of
      traffic per tunnel that the reported totals refine.
    - [Atomic] ([src/server/state.rs]): registering and closing a conn and reading the
      totals of a tunnel broken into their single accesses to atomics and to the shards
      of the concurrent maps (class [Shards]), by any number of threads at once.
    - [Locks] ([src/server/state.rs], [src/server/admin.rs], the relay tables of
      [src/common/udp.rs] and [src/common/socks.rs]): which locks every operation and
      every admin route takes and holds, over an interface for the concurrent map (class
      [DashMap], with the instance [sharded]) and for the choice a lock makes among those
      that wait (class [RwPolicy]).
    - [Framing] ([src/common/tunnel.rs], [src/common/utils.rs], the framing of
      [src/common/udp.rs]): frames and exchanges on a stream. Streams are the class
      [ByteStreams] and the MessagePack codec the class [SerdeHelper], with the
      behaviour the program relies on as laws; [memory_streams] implements them.
    - [Server] ([src/server/mod.rs]): policy, session hello, dispatch and service of
      client-opened conns, the life of a connection, and the accept loop with its
      connection cap (class [Semaphore]).
    - [Socks] ([src/common/socks.rs]): the SOCKS5 handshake, replies and the UDP
      header, over [Framing]'s conversations.
    - [Proxy] ([src/common/proxy.rs]): the outbound proxy: its URL, the UDP ASSOCIATE
      exchange, the control connection that keeps the relay alive, and the socket that
      wraps and unwraps QUIC datagrams.
    - [Client] ([src/client/mod.rs]): the reconnect loop, the endpoint pool, the
      Happy Eyeballs race, and the acceptance of server-opened conns.
    - [Tls] ([src/common/tls.rs], [src/common/quic.rs]): fingerprints, the persisted
      identity over a file system with faults (class [Faults]), verifiers and TLS
      configurations against an interface for the X.509 code (class [Pki]).
    - [Cli] ([src/main.rs], [src/config_file.rs], [src/embedded.rs], [src/lib.rs]):
      from flags, file and embedded constants to the configuration of a run
      ([server_main], [client_main]).
    - [Udp] ([src/common/udp.rs], the relay of [src/common/socks.rs]): the relay
      table and its conn tasks as a transition system over tokio's channel (class
      [Mpsc]), generic in the key, and the pumps of one conn.
    - [Admin] ([src/server/admin.rs]): the handlers as functions of the state.
    - [Tcp] ([src/common/tcp.rs]): the two joined copies of a TCP conn and of the stdio
      tunnel over counted readers, and the signal between them; sockets and streams are
      the class [AsyncIo] and tokio's [copy_buf] the class [CopyBuf].
    - [Json] (the DTOs of [src/server/state.rs], the rows of [src/ctl/mod.rs]): the
      documents the admin API writes and [ctl] reads, with the class [Reads] that says
      which reader understands which writer.
    - [Ctl] ([src/ctl/mod.rs], [run_ctl] of [src/main.rs], the router of
      [src/server/admin.rs]): tables, requests and routes, over an HTTP interface
      (classes [AdminHttp], [Axum]).
    - [Cert] ([src/cert.rs], [run_cert]): certificate generation over the file system of
      [Tls] and an interface for rcgen (class [Rcgen]); what certificate verification
      makes of what rcgen signs is the class [RcgenPki].
    - [Session] ([run_connection] and [run_with_reconnect] of [src/client/mod.rs]): the
      client as a state machine with its await points, its subscriptions to the
      shutdown channel and the races of its [select!]s.
    - [Tunnel]: the listeners and conn tasks of both ends ([src/common/tcp.rs],
      [src/common/socks.rs], the reverse handlers of [src/server/mod.rs]), and one
      declaration followed end to end through [Server], [Client], [Framing] and
      [Ledger].
    - [Args] (the clap declarations of [src/main.rs]): the arguments of the server and
      the client as data, what clap guarantees of its matches (class [Clap]), and the
      derived readers.
    - [Build] ([build.rs], [any_embedded] of [src/embedded.rs]): the build script, from
      the environment to the constants in the binary.
    - [Main] ([main], [src/config_file.rs]): the schema of the configuration file (class
      [TomlParser]) and [main], from the argv to the configuration that is run.
    - [Service] ([run_async] of [src/server/mod.rs], [bind] and [serve] of
      [src/server/admin.rs]): the server process from the creation of its endpoint to its
      exit, with ^C, the admin task, whose system calls to bind its socket interleave with
      the rest, and the socket on the file system.
    - [Connect] ([src/client/mod.rs], [src/common/quic.rs], [src/common/proxy.rs]): the
      connects of a client run, directly and through the proxy, down to the endpoint
      with its verifier and its socket (class [Quinn]), and the signature checks of the
      verifiers (class [CryptoProvider]).
    - [System] ([src/server/mod.rs]): the server process as a transition system: the
      accept loop and any number of connection tasks, each advancing from one await
      point to the next, with the handlers of their [JoinSet]s, which the end of a session
      aborts, over the one [World] of [State]; its invariant ties every reachable state to
      a run of [Ledger].
    - [UdpConn] ([src/common/udp.rs], [src/common/socks.rs]): the task of one UDP conn
      with its idle timeout, on a clock in milliseconds, and its accounting.
    - [Exit] ([src/main.rs], [src/embedded.rs]): the set-up of logging, the process-wide
      cell of the materialised credentials, and the exit statuses.
    - [Tools] ([src/main.rs]): the command lines of [rusnel ctl] and [rusnel cert], from
      the declared subcommands (class [ClapCommand]) to the end of the process.

    Text and buffers are lists of bytes, errors are values of [result] with the text
    the program prints (the outermost context for [anyhow] errors), asynchronous code
    is explicit state passing, and concurrent code is a list of atomic steps in any
    order. What is logged is left out, except for the set-up of the logger, the line a
    failed run ends with ([Exit]) and the paths [rusnel cert] has written.

    ** What the theorems show

    - _Parsing and printing_: the tokenizer accepts exactly the documented syntax
      ([split_tokens_iff]), every declaration has a spelling that parses to it
      ([from_str_spec_of]), fingerprints, frames, datagrams and SOCKS5 headers are
      read back as written.
    - _Server state_: in every interleaving the totals reported for a tunnel are the
      bytes counted on its conns ([reported_totals]), conns and tunnels are listed
      exactly while they should be ([no_conn_leak], [deregister_clears],
      [tunnel_listed_iff]), the history is the last 256 disconnects, the views of
      the admin API agree ([admin_views_agree]), and counting changes neither the bytes
      nor their order ([counting_transparent]).
    - _Concurrency_: the accesses of a thread that is not interrupted are the operations
      above ([atomic_sequential]); in every interleaving of single accesses the indexes
      keep no conn that is closed ([concurrent_no_leak]), the totals are exact at rest
      ([totals_at_rest]), a read during traffic is never short and over by at most the
      conns that close meanwhile ([concurrent_totals]). Whatever the maps hold, threads
      that run the operations and the admin routes never deadlock, and each comes to its
      end ([locks_deadlock_free]).
    - _The server as a whole_, in every interleaving of its tasks: who is listed and how
      many connections run ([server_listing]), that no client is forgotten or reported
      twice ([history_complete]), that what the flags forbid never exists
      ([policy_enforced]), that the admin API shows the running sessions
      ([api_shows_sessions]), and that the shutdown of a session ends within a bounded
      number of its steps, whatever its handlers wait for ([shutdown_ends]).
    - _Sessions_: the whole hello exchange on both ends ([hello_accepted],
      [hello_rejected]), what policy lets through, which conns are dispatched and
      where to ([resolve_dispatch_spec], [reverse_conn_safe]), that a served conn is
      accounted for and removed ([open_conn_served]), and the cap of the accept loop.
    - _Data plane_: conns of a relay never see each other's datagrams
      ([relay_isolation]), nothing leaks from its table ([relay_no_leak]), datagrams
      go end to end unchanged ([udp_end_to_end], and from the relay through the conn to
      the far end [udp_tunnel_end_to_end]), a UDP conn stays open while its sender is
      heard and has ended when nothing passes for the timeout ([udp_conn_life],
      [silent_conn_ends]) and is accounted for ([udp_conn_accounted]), TCP copies are
      faithful and counted exactly ([tcp_copies_faithful]) and end together on an error
      ([tcp_error_ends_both]).
    - _End to end_: a conn on a declaration reaches exactly the declared target, at any
      time of the session and in both directions ([forward_end_to_end],
      [reverse_end_to_end]), and its bytes are accounted for ([reverse_conn_served]).
    - _Client_: when the reconnect loop gives up and how long it waits, that the state
      machine of the client implements that loop ([client_loop_refines]), that racing the
      addresses fails only when every attempt did, and the proxy exchange
      ([associate_spec], [proxied_round_trip]).
    - _Server process_: over every interleaving it touches only its admin socket, which
      is private while it serves and removed after ^C, and the identity files of a
      self-signed server, and a failing admin task does not concern the tunnels
      ([service_life]).
    - _Observation from outside_: what [rusnel ctl] prints is the table of what the
      state holds ([ctl_shows_state], from the command line to the exit
      [ctl_end_to_end]), printed as declared ([table_render_reference],
      [table_aligned]); and what the tools print, log and exit with ([tools_report]).
    - _Authentication and configuration_: what each TLS mode demands of the peer
      ([client_verifies], [server_requires]), that every connection a client gets on any
      route was verified so ([connection_authenticated]), that the self-signed identity is stable
      ([self_signed_stable]), that generated certificates are accepted for the names they
      were asked for, as far as these can be server names ([pki_workflow], [server_cert_safe], [printed_fingerprint_pins]),
      that the flags alone decide the TLS mode ([server_tls_from_flags],
      [client_tls_from_flags]), that the file cannot change what was given on the
      command line ([server_file_scope], [client_tls_not_downgraded]), and that what
      [main] starts is well formed ([main_starts_wf]).
    - _Builds_: what a build embeds and when it fails ([build_embeds], [build_opt_in]),
      that the binary then runs with it ([drop_and_run], [embedded_server_starts]), and
      that it writes the credentials once ([materialize_once]).
    - Some theorems state behaviour that differs from the documentation:
      [oversized_accepted_then_rejected], [scoped_target_never_delivers],
      [parse_fingerprint_panics], [file_overrides_explicit],
      [udp_stream_outlives_quic], [stale_removal], [tcp_signal_lost],
      [conn_outlives_client], [signal_lost_in_hello], [shared_socket_lost],
      [client_named_ca], [history_forged], [client_cert_ignored],
      [proxy_tls_checked_late], [counted_twice], [conn_on_foreign_tunnel], [control_connection],
      [serve_never_returns], [secret_left_readable], [exit_statuses], [udp_conn_exact],
      [ctl_json_reprinted], [socket_left_behind].

    ** Bounds

    Integers have their width written out ([wrap64], [u16_max], ...). Fuel is used in
    the tokenizer (the length of the text, since every round consumes a byte), in
    printing integers (one more than the number of bits), in trimming (the length of
    the text) and in reading datagrams until the stream ends (one more than the number
    of datagrams, which [udp_end_to_end] shows to be enough). Loops that wait for the
    outside world take the list of what happens as an argument and say when they are
    still waiting.

    ** Not modelled

    Network and file I/O as such, quinn, rustls, rcgen, tokio, axum, hyper, clap, serde,
    toml and shlex: they are interfaces with laws, or inputs. SHA-256 is a parameter. The
    wake-ups of asynchronous tasks (the write poller of the proxied socket, the wait for
    endpoints to become idle) have no counterpart, since a step of the model may be taken
    whenever it is enabled. In [Atomic] the relaxed atomics are interleaved in program
    order, and of [deregister_client] only the removals from the index of conns are
    interleaved with the rest; [Locks] has all its accesses to locks, and no data. A handler
    of an aborted session may take further steps of its own in [System] before it is
    cancelled, which is more than the runtime lets it do. The opening of the stream of a UDP conn has no timeout in
    the code, so the bound of [silent_conn_ends] is one for conns whose stream is open. The
    variants for systems other than unix and the tests are left out. *)

From stdpp Require Export base tactics decidable list numbers option.
From stdpp Require Export strings gmap fin_maps.
From Stdlib Require Export Ascii ZifyBool ZifyN ZifyNat.

#[global] Open Scope N_scope.

(** ** Bytes and text

    Rust's [String], [&str], [Vec<u8>] and [&[u8]] are all sequences of octets
    (UTF-8 encoded in the first two cases), so the model uses one type for the
    four of them: a list of [ascii], whose 256 inhabitants are the octets. *)

Abbreviation byte := ascii.
Abbreviation bytes := (list ascii).

(** The bytes of a literal of the source. *)
Definition str (s : string) : bytes := String.list_ascii_of_string s.

(** The numeric value of an octet and the octet of the low eight bits. *)
Definition b2n (b : byte) : N := N_of_ascii b.
Definition n2b (n : N) : byte := ascii_of_N n.

(** A byte-array literal such as [&[0x05, 0x00]] in the source. *)
Definition octets (l : list N) : bytes := map n2b l.

(** [buf.len()] *)
Abbreviation len l := (N.of_nat (length l)) (only parsing).

Lemma b2n_lt b : b2n b < 256.
Proof. apply N_ascii_bounded. Qed.

Lemma n2b_b2n b : n2b (b2n b) = b.
Proof. apply ascii_N_embedding. Qed.

Lemma b2n_n2b n : n < 256 → b2n (n2b n) = n.
Proof. intros. by apply N_ascii_embedding. Qed.

Lemma b2n_inj b c : b2n b = b2n c → b = c.
Proof. intros H. by rewrite <-(n2b_b2n b), H, n2b_b2n. Qed.

(** A decidable fact about every octet, by computation. *)
Lemma forall_byte (P : byte → Prop) `{∀ b, Decision (P b)} :
  bool_decide (Forall P (map (λ i, n2b (N.of_nat i)) (seq 0 256))) = true → ∀ b, P b.
Proof.
  intros HP%bool_decide_eq_true b. rewrite <-(n2b_b2n b), <-(N2Nat.id (b2n b)).
  apply (proj1 (Forall_forall _ _) HP). apply (list_elem_of_fmap_2 (λ i, n2b (N.of_nat i))).
  apply elem_of_seq. pose proof (b2n_lt b). lia.
Qed.

(** [as u8]: truncation to the low eight bits. *)
Definition as_u8 (n : N) : byte := n2b (n mod 256).

Lemma b2n_as_u8 n : b2n (as_u8 n) = n mod 256.
Proof. apply b2n_n2b. by apply N.mod_lt. Qed.

(** ** Results

    [Result<A, E>] of the source. *)

Inductive result (E A : Type) : Type :=
| Ok (a : A)
| Err (e : E).
Arguments Ok {E A} a.
Arguments Err {E A} e.

#[export] Instance result_ret E : MRet (result E) := λ A a, Ok a.
#[export] Instance result_bind E : MBind (result E) := λ A B f r,
  match r with Ok a => f a | Err e => Err e end.
#[export] Instance result_fmap E : FMap (result E) := λ A B f r,
  match r with Ok a => Ok (f a) | Err e => Err e end.

#[export] Instance result_eq_dec E A `{EqDecision E, EqDecision A} : EqDecision (result E A).
Proof. solve_decision. Defined.

(** [Option::ok_or] *)
Definition ok_or {E A} (o : option A) (e : E) : result E A :=
  match o with Some a => Ok a | None => Err e end.

(** [Result::map_err] *)
Definition map_err {E F A} (f : E → F) (r : result E A) : result F A :=
  match r with Ok a => Ok a | Err e => Err (f e) end.

(** [Result::ok] *)
Definition ok {E A} (r : result E A) : option A :=
  match r with Ok a => Some a | Err _ => None end.

Definition is_ok {E A} (r : result E A) : bool :=
  match r with Ok _ => true | Err _ => false end.

(** A computation of the source that may also panic. *)
Inductive panicking (A : Type) : Type :=
| Returns (a : A)
| Panics.
Arguments Returns {A} a.
Arguments Panics {A}.

#[export] Instance panicking_ret : MRet panicking := λ A a, Returns a.
#[export] Instance panicking_bind : MBind panicking := λ A B f r,
  match r with Returns a => f a | Panics => Panics end.

(** ** Fixed-width integers

    Unsigned machine integers are [N] with the wrap-around written out. *)

Definition u16_max : N := 65535.
Definition u32_max : N := 2 ^ 32 - 1.
Definition u64_max : N := 2 ^ 64 - 1.

(** [AtomicU64::fetch_add] and the release-mode [+] of [u64] wrap. *)
Definition wrap64 (n : N) : N := n mod 2 ^ 64.
Definition wadd64 (a b : N) : N := wrap64 (a + b).

Lemma wrap64_lt n : wrap64 n < 2 ^ 64.
Proof. by apply N.mod_lt. Qed.

Lemma wrap64_id n : n < 2 ^ 64 → wrap64 n = n.
Proof. apply N.mod_small. Qed.

Lemma wrap64_add_l a b : wrap64 (wrap64 a + b) = wrap64 (a + b).
Proof. apply N.Div0.add_mod_idemp_l. Qed.

Lemma wrap64_add_r a b : wrap64 (a + wrap64 b) = wrap64 (a + b).
Proof. apply N.Div0.add_mod_idemp_r. Qed.

(** [u16::to_be_bytes], [u16::from_be_bytes] and the little-endian variants. *)
Definition to_be16 (n : N) : bytes := [as_u8 (n / 256); as_u8 n].
Definition to_le16 (n : N) : bytes := [as_u8 n; as_u8 (n / 256)].
Definition from_be16 (hi lo : byte) : N := b2n hi * 256 + b2n lo.
Definition from_le16 (lo hi : byte) : N := b2n lo + 256 * b2n hi.
Definition to_le32 (n : N) : bytes :=
  [as_u8 n; as_u8 (n / 2 ^ 8); as_u8 (n / 2 ^ 16); as_u8 (n / 2 ^ 24)].
Definition from_le32 (b0 b1 b2 b3 : byte) : N :=
  b2n b0 + 2 ^ 8 * b2n b1 + 2 ^ 16 * b2n b2 + 2 ^ 24 * b2n b3.

(** ** Automation *)

(** [lia] with division and remainder turned into equations. *)
Ltac divlia := zify; Z.to_euclidean_division_equations; lia.

Lemma from_be16_lt hi lo : from_be16 hi lo < 65536.
Proof. unfold from_be16. pose proof (b2n_lt hi). pose proof (b2n_lt lo). lia. Qed.

Lemma from_to_be16 n :
  n < 65536 → from_be16 (as_u8 (n / 256)) (as_u8 n) = n.
Proof. intros. unfold from_be16. rewrite !b2n_as_u8. divlia. Qed.

Lemma from_to_le16 n :
  n < 65536 → from_le16 (as_u8 n) (as_u8 (n / 256)) = n.
Proof. intros. unfold from_le16. rewrite !b2n_as_u8. divlia. Qed.

Lemma from_to_le32 n :
  n < 2 ^ 32 →
  from_le32 (as_u8 n) (as_u8 (n / 2 ^ 8)) (as_u8 (n / 2 ^ 16)) (as_u8 (n / 2 ^ 24)) = n.
Proof. intros. unfold from_le32. rewrite !b2n_as_u8. divlia. Qed.

Lemma as_u8_b2n b : as_u8 (b2n b) = b.
Proof. apply b2n_inj. rewrite b2n_as_u8. apply N.mod_small, b2n_lt. Qed.

Lemma to_from_be16 hi lo : to_be16 (from_be16 hi lo) = [hi; lo].
Proof.
  unfold to_be16, from_be16.
  assert ((b2n hi * 256 + b2n lo) / 256 = b2n hi) as ->.
  { pose proof (b2n_lt lo). divlia. }
  rewrite as_u8_b2n. do 2 f_equal. apply b2n_inj. rewrite b2n_as_u8.
  pose proof (b2n_lt lo). divlia.
Qed.

Create HintDb rusnel.
Create Rewrite HintDb rusnel.
#[export] Hint Rewrite from_to_be16 from_to_le16 from_to_le32 using lia : rusnel.
#[export] Hint Rewrite to_from_be16 b2n_as_u8 n2b_b2n as_u8_b2n : rusnel.
#[export] Hint Resolve b2n_lt from_be16_lt wrap64_lt : rusnel.

(** Split a hypothesis that some computation returned [Ok] into the successful
    steps it is made of, and discard the failing branches. *)
Ltac simplify_result :=
  repeat (progress simplify_eq/= ||
    match goal with
    | H : context [match ?x with Ok _ => _ | Err _ => _ end] |- _ =>
        let E := fresh "E" in destruct x eqn:E
    | H : context [match ?x with Some _ => _ | None => _ end] |- _ =>
        let E := fresh "E" in destruct x eqn:E
    | H : context [if ?x then _ else _] |- _ =>
        let E := fresh "E" in destruct x eqn:E
    end).

Lemma Ok_inj {E A} (a b : A) : @Ok E A a = Ok b → a = b.
Proof. by intros [=]. Qed.

(** Split the hypothesis that a chain of fallible steps returned [Ok] without
    reducing the values it binds. *)
Ltac destruct_ok :=
  repeat match goal with
  | H : Err _ = Ok _ |- _ => discriminate H
  | H : Ok ?a = Ok ?b |- _ => apply Ok_inj in H; try (subst b || subst a)
  | H : (if decide ?P then _ else _) = Ok _ |- _ => destruct (decide P)
  | H : (?m ≫= _) = Ok _ |- _ =>
      let E := fresh "E" in destruct m eqn:E; [cbn [mbind result_bind] in H|discriminate H]
  | H : (let '(_, _) := ?p in _) = Ok _ |- _ => destruct p
  end.

(** ** Lists *)

(** [slice[i..j]] for [i <= j <= len]. *)
Definition slice {A} (i j : nat) (l : list A) : list A := take (j - i) (drop i l).

Lemma length_slice {A} i j (l : list A) :
  (i ≤ j)%nat → (j ≤ length l)%nat → length (slice i j l) = (j - i)%nat.
Proof. intros. unfold slice. rewrite length_take, length_drop. lia. Qed.

(** Membership in a list that is written out. *)
Ltac in_list := first [left | right; in_list].

(** ** Sums *)

Definition nsum (l : list N) : N := foldr N.add 0 l.

Lemma nsum_app l k : nsum (l ++ k) = nsum l + nsum k.
Proof. induction l as [|x l IH]; simpl; [done|]. rewrite IH. lia. Qed.

#[export] Instance nsum_perm : Proper ((≡ₚ) ==> (=)) nsum.
Proof. intros l k H. induction H; simpl; lia. Qed.

(** The sum of a measure over the values of a map. *)
Definition map_sum {A} (f : A → N) (m : gmap N A) : N := nsum (f <$> (map_to_list m).*2).

Lemma map_sum_empty {A} (f : A → N) : map_sum f ∅ = 0.
Proof. unfold map_sum. by rewrite map_to_list_empty. Qed.

Lemma map_sum_insert {A} (f : A → N) m i x :
  m !! i = None → map_sum f (<[i := x]> m) = f x + map_sum f m.
Proof. intros. unfold map_sum. by rewrite map_to_list_insert. Qed.

Lemma map_sum_delete {A} (f : A → N) m i x :
  m !! i = Some x → map_sum f m = f x + map_sum f (delete i m).
Proof.
  intros. rewrite <-(map_sum_insert f (delete i m) i x) by apply lookup_delete_eq.
  by rewrite insert_delete_id.
Qed.

Lemma map_sum_ext {A} (f g : A → N) m :
  (∀ i x, m !! i = Some x → f x = g x) → map_sum f m = map_sum g m.
Proof.
  intros Hfg. unfold map_sum. f_equal. apply list_fmap_ext.
  intros j x Hx. apply list_lookup_fmap_Some in Hx as ([i x'] & -> & Hj).
  eapply Hfg. apply elem_of_map_to_list. by eapply list_elem_of_lookup_2.
Qed.

Lemma map_sum_add {A} (f g : A → N) m :
  map_sum (λ x, f x + g x) m = map_sum f m + map_sum g m.
Proof.
  unfold map_sum. induction (map_to_list m) as [|[i x] l IH]; [done|].
  rewrite !fmap_cons. cbn [nsum foldr fst snd] in *. unfold nsum in IH. rewrite IH. lia.
Qed.

Lemma map_sum_perm {A} (f : A → N) m (l : list (N * A)) :
  l ≡ₚ map_to_list m → nsum ((λ kx, f kx.2) <$> l) = map_sum f m.
Proof. intros ->. unfold map_sum. by rewrite <-list_fmap_compose. Qed.

Lemma map_sum_size {A} (m : gmap N A) : map_sum (λ _, 1) m = N.of_nat (size m).
Proof.
  unfold map_sum. rewrite <-length_map_to_list. induction (map_to_list m) as [|x l IH]; [done|].
  rewrite !fmap_cons, length_cons. cbn [nsum foldr] in *. unfold nsum in IH. rewrite IH. lia.
Qed.

(** The same for a measure that depends on the keys. *)
Definition key_sum {A} (f : N → A → N) (m : gmap N A) : N := nsum (uncurry f <$> map_to_list m).

Lemma key_sum_empty {A} (f : N → A → N) : key_sum f ∅ = 0.
Proof. unfold key_sum. by rewrite map_to_list_empty. Qed.

Lemma key_sum_insert {A} (f : N → A → N) m i x :
  m !! i = None → key_sum f (<[i := x]> m) = f i x + key_sum f m.
Proof. intros. unfold key_sum. by rewrite map_to_list_insert. Qed.

Lemma key_sum_delete {A} (f : N → A → N) m i x :
  m !! i = Some x → key_sum f m = f i x + key_sum f (delete i m).
Proof.
  intros. rewrite <-(key_sum_insert f (delete i m) i x) by apply lookup_delete_eq.
  by rewrite insert_delete_id.
Qed.

Lemma key_sum_mono {A} (f g : N → A → N) m :
  (∀ i x, m !! i = Some x → f i x ≤ g i x) → key_sum f m ≤ key_sum g m.
Proof.
  intros Hfg. unfold key_sum. assert (∀ i x, (i, x) ∈ map_to_list m → f i x ≤ g i x) as Hl
    by (intros i x Hi%elem_of_map_to_list; by apply Hfg). clear Hfg.
  induction (map_to_list m) as [|[i x] l IH]; [done|]. cbn. apply N.add_le_mono.
  - apply Hl. by left.
  - apply IH. intros j y Hj. apply Hl. by right.
Qed.

Lemma key_sum_ext {A} (f g : N → A → N) m :
  (∀ i x, m !! i = Some x → f i x = g i x) → key_sum f m = key_sum g m.
Proof. intros Hfg. apply N.le_antisymm; apply key_sum_mono; intros i x Hi; by rewrite (Hfg i x Hi). Qed.

(** One value of the map changes, and with it only its own measure. *)
Lemma key_sum_update {A} (f g : N → A → N) m i x y :
  m !! i = Some x → (∀ j z, j ≠ i → m !! j = Some z → g j z = f j z) →
  key_sum g (<[i := y]> m) + f i x = key_sum f m + g i y.
Proof.
  intros Hi Hfg. rewrite (key_sum_delete g (<[i := y]> m) i y) by apply lookup_insert_eq.
  rewrite (key_sum_delete f m i x Hi), delete_insert_eq.
  rewrite (key_sum_ext g f (delete i m)); [lia|].
  intros j z [Hne Hj]%lookup_delete_Some. by apply Hfg.
Qed.

Lemma key_sum_plus {A} (f g : N → A → N) m :
  key_sum (λ i x, f i x + g i x) m = key_sum f m + key_sum g m.
Proof.
  unfold key_sum. induction (map_to_list m) as [|[i x] l IH]; [done|].
  rewrite !fmap_cons. cbn [nsum foldr uncurry] in *. unfold nsum in IH. rewrite IH. lia.
Qed.

Lemma key_sum_zero {A} (m : gmap N A) : key_sum (λ _ _, 0) m = 0.
Proof. unfold key_sum. by induction (map_to_list m) as [|[i x] l IH]. Qed.

Lemma key_sum_ge {A} (f : N → A → N) m i x : m !! i = Some x → f i x ≤ key_sum f m.
Proof. intros Hi. rewrite (key_sum_delete f m i x Hi). lia. Qed.

(** A map of selected values sums up to what is selected. *)
Lemma map_sum_select {A B} (g : A → B) (f : B → N) (P : N * A → Prop) `{∀ x, Decision (P x)} m :
  map_sum f (g <$> filter P m) = key_sum (λ i x, if decide (P (i, x)) then f (g x) else 0) m.
Proof.
  induction m as [|i x m Hi IH] using map_ind.
  - by rewrite map_filter_empty, fmap_empty, map_sum_empty, key_sum_empty.
  - rewrite key_sum_insert by done. case_decide.
    + rewrite map_filter_insert_True, fmap_insert by done. rewrite map_sum_insert; [by rewrite IH|].
      rewrite lookup_fmap, (map_lookup_filter_None_2 P m i); [done|by left].
    + rewrite map_filter_insert_False, delete_id by done. by rewrite IH.
Qed.

(** A loop that adds with wrap-around computes the sum with wrap-around. *)
Lemma foldl_wadd64 {A} (f : A → N) l a :
  foldl (λ acc x, wadd64 acc (f x)) (wrap64 a) l = wrap64 (a + nsum (f <$> l)).
Proof.
  revert a. induction l as [|x l IH]; intros a; simpl; [by rewrite N.add_0_r|].
  unfold wadd64 at 2. rewrite wrap64_add_l, IH. unfold nsum. by rewrite N.add_assoc.
Qed.

Lemma foldl_pair {A B C} (f : A → C → A) (g : B → C → B) l a b :
  foldl (λ acc x, (f acc.1 x, g acc.2 x)) (a, b) l = (foldl f a l, foldl g b l).
Proof. revert a b. induction l as [|x l IH]; intros a b; simpl; [done|]. apply IH. Qed.

Lemma wadd64_wrap a b : wadd64 (wrap64 a) (wrap64 b) = wrap64 (a + b).
Proof. unfold wadd64. by rewrite wrap64_add_l, wrap64_add_r. Qed.

Lemma alter_insert_Some {A} (f : A → A) (m : gmap N A) i x :
  m !! i = Some x → alter f i m = <[i := f x]> m.
Proof.
  intros Hi. apply map_eq. intros j. destruct (decide (i = j)) as [<-|].
  - by rewrite lookup_alter_eq, Hi, lookup_insert_eq.
  - by rewrite lookup_alter_ne, lookup_insert_ne by done.
Qed.
