(* ===== verification/Text.v ===== *)
(** * Text: the part of Rust's [str], [char] and integer parsing the sources use

    Executable models of [str::strip_prefix], [split_once], [rsplit_once],
    [contains], [trim], [FromStr] and [from_str_radix] of the unsigned integers,
    the decimal and hexadecimal [Display], and [String::from_utf8_lossy], with the
    lemmas the components share: splitting is inverse to joining, printing an
    integer and parsing it back is the identity, and lossy decoding is the
    identity on valid UTF-8. *)

From S2P Require Import Prelude.

(** ** Searching and splitting *)

(** [s.strip_prefix(p)] *)
Fixpoint strip_prefix (p s : bytes) : option bytes :=
  match p, s with
  | [], _ => Some s
  | c :: p', d :: s' => if decide (c = d) then strip_prefix p' s' else None
  | _ :: _, [] => None
  end.

(** [s.split_once(c)]: around the first [c]. *)
Fixpoint split_once (c : byte) (s : bytes) : option (bytes * bytes) :=
  match s with
  | [] => None
  | d :: s' =>
      if decide (d = c) then Some ([], s')
      else match split_once c s' with
           | Some (h, t) => Some (d :: h, t)
           | None => None
           end
  end.

(** [s.rsplit_once(c)]: around the last [c]. *)
Fixpoint rsplit_once (c : byte) (s : bytes) : option (bytes * bytes) :=
  match s with
  | [] => None
  | d :: s' =>
      match rsplit_once c s' with
      | Some (h, t) => Some (d :: h, t)
      | None => if decide (d = c) then Some ([], s') else None
      end
  end.

(** [bytes.iter().position(|&b| b == c)] *)
Fixpoint position (c : byte) (s : bytes) : option nat :=
  match s with
  | [] => None
  | d :: s' => if decide (d = c) then Some 0%nat else S <$> position c s'
  end.

(** [s.contains(sub)] for a string pattern. *)
Fixpoint contains_str (sub s : bytes) : bool :=
  match strip_prefix sub s with
  | Some _ => true
  | None => match s with [] => false | _ :: s' => contains_str sub s' end
  end.

(** [s.contains(c)] for a character pattern. *)
Definition contains_char (c : byte) (s : bytes) : bool := bool_decide (c ∈ s).

(** [s.starts_with(c)], [s.ends_with(c)] for a character pattern. *)
Definition starts_with (c : byte) (s : bytes) : bool := bool_decide (head s = Some c).
Definition ends_with (c : byte) (s : bytes) : bool := bool_decide (last s = Some c).

(** ** Integers *)

(** [char::to_digit(radix)] for an ASCII character. *)
Definition to_digit (radix : N) (c : byte) : option N :=
  let n := b2n c in
  let d := if (48 <=? n) && (n <=? 57) then Some (n - 48)
           else if (97 <=? n) && (n <=? 122) then Some (n - 87)
           else if (65 <=? n) && (n <=? 90) then Some (n - 55)
           else None in
  match d with
  | Some d => if d <? radix then Some d else None
  | None => None
  end.

(** The lower-case digit [Display] and [LowerHex] write. *)
Definition digit_char (d : N) : byte := n2b (if d <? 10 then d + 48 else d + 87).

(** [std::num::IntErrorKind], as far as the unsigned parsers return it. *)
Inductive IntError := IntEmpty | InvalidDigit | PosOverflow.

#[export] Instance IntError_eq_dec : EqDecision IntError.
Proof. solve_decision. Defined.

(** The digit loop of [from_str_radix]: the digit is checked before the
    multiplication and the addition are checked for overflow. *)
Fixpoint parse_digits (radix max acc : N) (s : bytes) : result IntError N :=
  match s with
  | [] => Ok acc
  | c :: s' =>
      match to_digit radix c with
      | None => Err InvalidDigit
      | Some d =>
          if max <? acc * radix then Err PosOverflow
          else if max <? acc * radix + d then Err PosOverflow
          else parse_digits radix max (acc * radix + d) s'
      end
  end.

(** [uN::from_str_radix(s, radix)] where [max] is [uN::MAX]: a single sign is an
    invalid digit, a leading [+] is skipped, a leading [-] is not a digit. *)
Definition from_str_radix (radix max : N) (s : bytes) : result IntError N :=
  match s with
  | [] => Err IntEmpty
  | [c] => if decide (c = "+"%char ∨ c = "-"%char) then Err InvalidDigit
           else parse_digits radix max 0 [c]
  | c :: s' => if decide (c = "+"%char) then parse_digits radix max 0 s'
               else parse_digits radix max 0 s
  end.

(** [Display] of [ParseIntError] *)
Definition fmt_int_error (e : IntError) : bytes :=
  match e with
  | IntEmpty => str "cannot parse integer from empty string"
  | InvalidDigit => str "invalid digit found in string"
  | PosOverflow => str "number too large to fit in target type"
  end.

(** [s.parse::<u16>()] and [s.parse::<u64>()]. *)
Definition parse_u16 (s : bytes) : result IntError N := from_str_radix 10 u16_max s.
Definition parse_u64 (s : bytes) : result IntError N := from_str_radix 10 u64_max s.

(** The digits of [n] in base [radix], most significant first. *)
Fixpoint digits_aux (fuel : nat) (radix n : N) (acc : bytes) : bytes :=
  match fuel with
  | O => acc
  | S f =>
      let acc' := digit_char (n mod radix) :: acc in
      if n <? radix then acc' else digits_aux f radix (n / radix) acc'
  end.

(** [N.size n + 1] rounds are enough in any base from 2. *)
Definition fmt_radix (radix n : N) : bytes := digits_aux (S (N.to_nat (N.size n))) radix n [].

(** [format!("{n}")] and [format!("{n:x}")] *)
Definition fmt_dec (n : N) : bytes := fmt_radix 10 n.
Definition fmt_hex (n : N) : bytes := fmt_radix 16 n.

(** [format!("{b:02x}")] *)
Definition fmt_hex02 (b : byte) : bytes :=
  [digit_char (b2n b / 16); digit_char (b2n b mod 16)].

(** ** UTF-8 *)

(** [b & 0xC0 == 0x80] *)
Definition is_cont (b : byte) : bool := (128 <=? b2n b) && (b2n b <? 192).

(** The ranges [core::str::validations] allows for the second byte. *)
Definition second_ok (b0 b1 : byte) : bool :=
  let x := b2n b0 in
  let y := b2n b1 in
  if x =? 0xE0 then (0xA0 <=? y) && (y <=? 0xBF)
  else if x =? 0xED then (0x80 <=? y) && (y <=? 0x9F)
  else if x =? 0xF0 then (0x90 <=? y) && (y <=? 0xBF)
  else if x =? 0xF4 then (0x80 <=? y) && (y <=? 0x8F)
  else is_cont b1.

(** [core::str::utf8_char_width]; 0 for a byte that starts no character. *)
Definition utf8_width (b : byte) : N :=
  let x := b2n b in
  if x <? 0x80 then 1
  else if (0xC2 <=? x) && (x <=? 0xDF) then 2
  else if (0xE0 <=? x) && (x <=? 0xEF) then 3
  else if (0xF0 <=? x) && (x <=? 0xF4) then 4
  else 0.

(** U+FFFD in UTF-8. *)
Definition replacement : bytes := octets [0xEF; 0xBF; 0xBD].

(** [String::from_utf8_lossy]: every maximal invalid sequence is replaced. *)
Fixpoint from_utf8_lossy (s : bytes) : bytes :=
  match s with
  | [] => []
  | b0 :: s1 =>
      match utf8_width b0 with
      | 1 => b0 :: from_utf8_lossy s1
      | 2 =>
          match s1 with
          | b1 :: s2 => if is_cont b1 then b0 :: b1 :: from_utf8_lossy s2
                        else replacement ++ from_utf8_lossy s1
          | [] => replacement
          end
      | 3 =>
          match s1 with
          | b1 :: s2 =>
              if second_ok b0 b1 then
                match s2 with
                | b2 :: s3 => if is_cont b2 then b0 :: b1 :: b2 :: from_utf8_lossy s3
                              else replacement ++ from_utf8_lossy s2
                | [] => replacement
                end
              else replacement ++ from_utf8_lossy s1
          | [] => replacement
          end
      | 4 =>
          match s1 with
          | b1 :: s2 =>
              if second_ok b0 b1 then
                match s2 with
                | b2 :: s3 =>
                    if is_cont b2 then
                      match s3 with
                      | b3 :: s4 => if is_cont b3 then b0 :: b1 :: b2 :: b3 :: from_utf8_lossy s4
                                    else replacement ++ from_utf8_lossy s3
                      | [] => replacement
                      end
                    else replacement ++ from_utf8_lossy s2
                | [] => replacement
                end
              else replacement ++ from_utf8_lossy s1
          | [] => replacement
          end
      | _ => replacement ++ from_utf8_lossy s1
      end
  end.

(** The invariant of [str]: well-formed UTF-8. *)
Fixpoint utf8_valid (s : bytes) : bool :=
  match s with
  | [] => true
  | b0 :: s1 =>
      match utf8_width b0, s1 with
      | 1, _ => utf8_valid s1
      | 2, b1 :: s2 => is_cont b1 && utf8_valid s2
      | 3, b1 :: b2 :: s3 => second_ok b0 b1 && is_cont b2 && utf8_valid s3
      | 4, b1 :: b2 :: b3 :: s4 =>
          second_ok b0 b1 && is_cont b2 && is_cont b3 && utf8_valid s4
      | _, _ => false
      end
  end.

(** [s.is_char_boundary(i)] *)
Definition is_char_boundary (i : nat) (s : bytes) : bool :=
  match s !! i with
  | Some b => (i =? 0)%nat || negb (is_cont b)
  | None => (i =? length s)%nat
  end.

(** The UTF-8 encodings of the characters [char::is_whitespace] accepts. *)
Definition whitespace : list bytes :=
  map octets
    ([[9]; [10]; [11]; [12]; [13]; [32]; [0xC2; 0x85]; [0xC2; 0xA0]; [0xE1; 0x9A; 0x80];
      [0xE2; 0x80; 0xA8]; [0xE2; 0x80; 0xA9]; [0xE2; 0x80; 0xAF]; [0xE2; 0x81; 0x9F];
      [0xE3; 0x80; 0x80]] ++
     map (λ i, [0xE2; 0x80; 0x80 + N.of_nat i]) (seq 0 11)).

Fixpoint strip_any (ws : list bytes) (s : bytes) : option bytes :=
  match ws with
  | [] => None
  | w :: ws' => match strip_prefix w s with Some s' => Some s' | None => strip_any ws' s end
  end.

(** Strip encodings of [ws] from the front; each round shortens [s]. *)
Fixpoint trim_start_aux (fuel : nat) (ws : list bytes) (s : bytes) : bytes :=
  match fuel with
  | O => s
  | S f => match strip_any ws s with Some s' => trim_start_aux f ws s' | None => s end
  end.

(** [s.trim()] *)
Definition trim (s : bytes) : bytes :=
  let s1 := trim_start_aux (length s) whitespace s in
  rev (trim_start_aux (length s1) (map (@rev byte) whitespace) (rev s1)).

(** ** Lemmas *)

Lemma strip_prefix_app p s : strip_prefix p (p ++ s) = Some s.
Proof. induction p; simpl; [done|]. by rewrite decide_True. Qed.

Lemma strip_prefix_Some p s r : strip_prefix p s = Some r ↔ s = p ++ r.
Proof.
  split; [|intros ->; apply strip_prefix_app].
  revert s. induction p as [|c p IH]; intros [|d s] H; simplify_eq/=; [done..|].
  case_decide; simplify_eq. by f_equal; apply IH.
Qed.

Lemma split_once_Some c s h t :
  split_once c s = Some (h, t) ↔ s = h ++ c :: t ∧ c ∉ h.
Proof.
  revert h. induction s as [|d s IH]; intros h; simpl.
  - split; [done|]. by intros [?%eq_sym%app_eq_nil _]; naive_solver.
  - case_decide as Hd; subst.
    + split; [intros; simplify_eq; split; [done|set_solver]|].
      intros [H Hc]. destruct h; simplify_eq/=; [done|set_solver].
    + destruct (split_once c s) as [[h' t']|]; split.
      * intros; simplify_eq. destruct (proj1 (IH h') eq_refl) as [-> ?]. set_solver.
      * intros [H Hc]. destruct h as [|? h]; simplify_eq/=.
        assert (Some (h', t') = Some (h, t)) by (apply IH; set_solver). by simplify_eq.
      * done.
      * intros [H Hc]. destruct h as [|? h]; simplify_eq/=.
        assert (None = Some (h, t)) by (apply IH; set_solver). done.
Qed.

Lemma split_once_None c s : split_once c s = None ↔ c ∉ s.
Proof.
  induction s as [|d s IH]; simpl; [set_solver|].
  case_decide; [set_solver|].
  destruct (split_once c s) as [[h t]|]; [|set_solver].
  split; [done|]. intros Hc. by assert (Some (h, t) = None) by (apply IH; set_solver).
Qed.

Lemma rsplit_once_None c s : rsplit_once c s = None ↔ c ∉ s.
Proof.
  induction s as [|d s IH]; simpl; [set_solver|].
  destruct (rsplit_once c s) as [[h t]|].
  - split; [done|]. intros Hc. by assert (Some (h, t) = None) by (apply IH; set_solver).
  - case_decide; set_solver.
Qed.

Lemma rsplit_once_app c h t : c ∉ t → rsplit_once c (h ++ c :: t) = Some (h, t).
Proof.
  intros Hc. induction h as [|d h IH]; simpl.
  - by rewrite (proj2 (rsplit_once_None c t)), decide_True.
  - by rewrite IH.
Qed.

Lemma rsplit_once_Some c s h t :
  rsplit_once c s = Some (h, t) ↔ s = h ++ c :: t ∧ c ∉ t.
Proof.
  split; [|intros [-> ?]; by apply rsplit_once_app].
  revert h. induction s as [|d s IH]; intros h H; simplify_eq/=.
  destruct (rsplit_once c s) as [[h' t']|] eqn:E; simplify_eq.
  - by destruct (IH h' eq_refl) as [-> ?].
  - case_decide; simplify_eq. split; [done|]. by apply rsplit_once_None.
Qed.

Lemma position_app c h t : c ∉ h → position c (h ++ c :: t) = Some (length h).
Proof.
  intros Hc. induction h as [|d h IH]; simpl; [by rewrite decide_True|].
  rewrite decide_False by set_solver. by rewrite IH by set_solver.
Qed.

Lemma position_Some c s i :
  position c s = Some i → ∃ h t, s = h ++ c :: t ∧ (c ∉ h) ∧ length h = i.
Proof.
  revert i. induction s as [|d s IH]; intros i H; simplify_eq/=.
  case_decide; simplify_eq; [exists [], s; set_solver|].
  apply fmap_Some in H as (j & (h & t & -> & ? & <-)%IH & ->).
  exists (d :: h), t. set_solver.
Qed.

Lemma position_None c s : position c s = None ↔ c ∉ s.
Proof.
  induction s as [|d s IH]; simpl; [set_solver|].
  case_decide; [set_solver|]. rewrite fmap_None, IH. set_solver.
Qed.

(** *** Digits *)

Lemma to_digit_lt radix c d : to_digit radix c = Some d → d < radix.
Proof.
  unfold to_digit. intros H. simplify_result.
  all: by match goal with H : (_ <? _) = true |- _ => apply N.ltb_lt in H end.
Qed.

Lemma to_digit_digit_char radix d : d < radix → radix ≤ 36 → to_digit radix (digit_char d) = Some d.
Proof.
  intros Hd Hr. unfold to_digit, digit_char.
  destruct (d <? 10) eqn:E; rewrite b2n_n2b by lia.
  - replace ((48 <=? d + 48) && (d + 48 <=? 57)) with true by lia.
    replace (d + 48 - 48) with d by lia. by replace (d <? radix) with true by lia.
  - replace ((48 <=? d + 87) && (d + 87 <=? 57)) with false by lia.
    replace ((97 <=? d + 87) && (d + 87 <=? 122)) with true by lia.
    replace (d + 87 - 87) with d by lia. by replace (d <? radix) with true by lia.
Qed.

(** Horner's value of a sequence of digits. *)
Definition horner (radix acc : N) (ds : list N) : N :=
  fold_left (λ a d, a * radix + d) ds acc.
Arguments horner : simpl never.

Lemma horner_cons radix acc d ds : horner radix acc (d :: ds) = horner radix (acc * radix + d) ds.
Proof. done. Qed.

Lemma horner_ge radix acc ds : 0 < radix → acc ≤ horner radix acc ds.
Proof.
  intros. revert acc. induction ds as [|d ds IH]; intros acc; [done|].
  rewrite horner_cons. etrans; [|apply IH]. nia.
Qed.

(** The digit loop computes Horner's value when it stays in range. *)
Lemma parse_digits_horner radix max acc s ds :
  0 < radix → mapM (to_digit radix) s = Some ds → horner radix acc ds ≤ max →
  parse_digits radix max acc s = Ok (horner radix acc ds).
Proof.
  intros Hr. revert acc ds. induction s as [|c s IH]; intros acc ds Hs Hm.
  - by injection Hs as <-.
  - apply mapM_Some in Hs. inversion Hs as [|? d ? ds' Hd Hs']; subst.
    apply mapM_Some in Hs'. rewrite horner_cons in *. simpl. rewrite Hd.
    pose proof (horner_ge radix (acc * radix + d) ds' Hr).
    replace (max <? acc * radix) with false by lia.
    replace (max <? acc * radix + d) with false by lia. by apply IH.
Qed.

Lemma digits_aux_spec radix : 2 ≤ radix ≤ 36 → ∀ fuel n acc ds,
  n < 2 ^ N.of_nat fuel → mapM (to_digit radix) acc = Some ds →
  ∃ ds', mapM (to_digit radix) (digits_aux (S fuel) radix n acc) = Some ds' ∧
         horner radix 0 ds' = horner radix n ds.
Proof.
  intros Hr. induction fuel as [|fuel IH]; intros n acc ds Hn Hacc.
  - assert (n = 0) as -> by (simpl in Hn; lia). cbn [digits_aux].
    replace (0 <? radix) with true by lia. rewrite N.Div0.mod_0_l.
    exists (0 :: ds). split; [|done]. simpl. rewrite to_digit_digit_char by lia.
    simpl. by rewrite Hacc.
  - remember (S fuel) as fuel'. cbn [digits_aux]. 
    assert (n mod radix < radix) by (apply N.mod_lt; lia).
    assert (mapM (to_digit radix) (digit_char (n mod radix) :: acc) = Some (n mod radix :: ds)) as Hacc'.
    { simpl. rewrite to_digit_digit_char by lia. simpl. by rewrite Hacc. }
    destruct (n <? radix) eqn:E.
    + exists (n mod radix :: ds). split; [done|].
      rewrite N.mod_small by lia. rewrite horner_cons. by rewrite N.mul_0_l, N.add_0_l.
    + subst. edestruct (IH (n / radix)) as (ds' & ? & ?); [|exact Hacc'|].
      * apply N.Div0.div_lt_upper_bound. rewrite Nat2N.inj_succ, N.pow_succ_r in Hn by lia. nia.
      * exists ds'. split; [done|]. rewrite H1, horner_cons. f_equal.
        pose proof (N.div_mod n radix). lia.
Qed.

Lemma size_nat_bound n : n < 2 ^ N.of_nat (N.to_nat (N.size n)).
Proof. rewrite N2Nat.id. apply N.size_gt. Qed.

(** Printing in a base and reading the digits back is the identity. *)
Lemma fmt_radix_digits radix n :
  2 ≤ radix ≤ 36 →
  ∃ ds, mapM (to_digit radix) (fmt_radix radix n) = Some ds ∧ horner radix 0 ds = n.
Proof.
  intros Hr. destruct (digits_aux_spec radix Hr (N.to_nat (N.size n)) n [] []) as (ds & ? & ?);
    [apply size_nat_bound|done|]. by exists ds.
Qed.

Lemma digits_aux_nonempty fuel radix n acc : digits_aux (S fuel) radix n acc ≠ [].
Proof.
  revert n acc. induction fuel as [|fuel IH]; intros n acc; cbn [digits_aux].
  - by case_match.
  - case_match; [done|]. apply IH.
Qed.

Lemma fmt_radix_nonempty radix n : fmt_radix radix n ≠ [].
Proof. apply digits_aux_nonempty. Qed.

Lemma to_digit_not_sign radix c d : to_digit radix c = Some d → c ≠ "+"%char ∧ c ≠ "-"%char.
Proof. by intros H; split; intros ->. Qed.

(** Parsing a sequence of digits that starts with no sign. *)
Lemma from_str_radix_digits radix max s ds :
  0 < radix → s ≠ [] → mapM (to_digit radix) s = Some ds → horner radix 0 ds ≤ max →
  from_str_radix radix max s = Ok (horner radix 0 ds).
Proof.
  intros Hr Hne Hds Hm. rewrite <-(parse_digits_horner radix max 0 s ds) by done.
  destruct s as [|c s]; [done|].
  apply mapM_Some in Hds. inversion Hds as [|? d ? ? Hd]; subst.
  apply to_digit_not_sign in Hd as [??].
  unfold from_str_radix. destruct s; [rewrite decide_False by naive_solver|rewrite decide_False by done]; done.
Qed.

Lemma from_str_radix_fmt radix max n :
  2 ≤ radix ≤ 36 → n ≤ max → from_str_radix radix max (fmt_radix radix n) = Ok n.
Proof.
  intros Hr Hn. destruct (fmt_radix_digits radix n Hr) as (ds & Hds & Hv).
  rewrite <-Hv at 2. apply from_str_radix_digits; [lia|apply fmt_radix_nonempty|done|lia].
Qed.

Lemma parse_u16_fmt_dec n : n < 65536 → parse_u16 (fmt_dec n) = Ok n.
Proof. intros. apply from_str_radix_fmt; unfold u16_max; lia. Qed.

Lemma parse_digits_le radix max acc s n :
  acc ≤ max → parse_digits radix max acc s = Ok n → n ≤ max.
Proof.
  revert acc. induction s as [|c s IH]; intros acc Ha H; simplify_result; [done|].
  eapply IH; [|done]. by apply N.ltb_ge.
Qed.

(** A parsed integer fits its type. *)
Lemma from_str_radix_le radix max s n : from_str_radix radix max s = Ok n → n ≤ max.
Proof.
  unfold from_str_radix. intros H. destruct s as [|c [|c' s]]; try done; case_decide; try done;
    (refine (parse_digits_le _ _ 0 _ _ _ H); lia).
Qed.

Lemma parse_u16_lt s n : parse_u16 s = Ok n → n < 65536.
Proof. intros H%from_str_radix_le. unfold u16_max in H. lia. Qed.

(** Two printed digits are a byte. *)
Lemma to_digit_fmt_hex02 b :
  mapM (to_digit 16) (fmt_hex02 b) = Some [b2n b / 16; b2n b mod 16].
Proof.
  pose proof (b2n_lt b). simpl. rewrite !to_digit_digit_char by divlia. done.
Qed.

Lemma parse_fmt_hex02 b : from_str_radix 16 255 (fmt_hex02 b) = Ok (b2n b).
Proof.
  pose proof (b2n_lt b).
  assert (horner 16 0 [b2n b / 16; b2n b mod 16] = b2n b) as Hh.
  { unfold horner. simpl. divlia. }
  pose proof (from_str_radix_digits 16 255 (fmt_hex02 b) _ eq_refl ltac:(done)
    (to_digit_fmt_hex02 b)) as Hp. rewrite Hh in Hp. apply Hp. lia.
Qed.

#[export] Hint Resolve fmt_radix_nonempty : rusnel.

(** *** UTF-8 *)

Ltac destruct_list :=
  match goal with
  | H : context [match ?l with [] => _ | _ :: _ => _ end] |- _ => destruct l
  end.

Lemma utf8_width_cases b :
  utf8_width b = 0 ∨ utf8_width b = 1 ∨ utf8_width b = 2 ∨ utf8_width b = 3 ∨ utf8_width b = 4.
Proof. unfold utf8_width. repeat case_match; auto. Qed.

(** Lossy decoding is the identity on well-formed UTF-8. *)
Lemma from_utf8_lossy_valid s : utf8_valid s = true → from_utf8_lossy s = s.
Proof.
  remember (length s) as n eqn:Hn. revert s Hn.
  induction n as [n IH] using (well_founded_ind Nat.lt_wf_0). intros s -> H.
  destruct s as [|b0 s1]; [done|]. simpl in *.
  destruct (utf8_width_cases b0) as [E|[E|[E|[E|E]]]]; rewrite E in *;
    repeat (done || destruct_list || match goal with
      | H : _ && _ = true |- _ => apply andb_true_iff in H as [H ?]
      | H : ?c = true |- context [?c] => rewrite H
      | |- _ :: _ = _ :: _ => f_equal
      | |- from_utf8_lossy _ = _ => eapply IH; [|reflexivity|done]; simpl; lia
      end).
Qed.

(** Printable ASCII is never trimmed. *)
Definition printable (c : byte) : Prop := 33 ≤ b2n c ≤ 126.

Lemma strip_any_printable ws c s :
  Forall (λ w, ∃ b w', w = b :: w' ∧ ¬ printable b) ws → printable c → strip_any ws (c :: s) = None.
Proof.
  induction 1 as [|w ws (b & w' & -> & Hb) _ IH]; intros Hc; [done|]. simpl.
  rewrite decide_False by (by intros ->). by apply IH.
Qed.

Lemma whitespace_start : Forall (λ w, ∃ b w', w = b :: w' ∧ ¬ printable b) whitespace.
Proof. unfold printable. repeat constructor; eexists _, _; (split; [reflexivity|]); vm_compute; by intros []. Qed.

Lemma whitespace_end :
  Forall (λ w, ∃ b w', w = b :: w' ∧ ¬ printable b) (map (@rev byte) whitespace).
Proof. unfold printable. repeat constructor; eexists _, _; (split; [reflexivity|]); vm_compute; by intros []. Qed.

Lemma trim_start_printable fuel ws c s :
  Forall (λ w, ∃ b w', w = b :: w' ∧ ¬ printable b) ws → printable c →
  trim_start_aux fuel ws (c :: s) = c :: s.
Proof. intros. destruct fuel; cbn [trim_start_aux]; [done|]. by rewrite strip_any_printable. Qed.

Lemma trim_printable c s d : printable c → printable d → trim (c :: s ++ [d]) = c :: s ++ [d].
Proof.
  intros Hc Hd. unfold trim. rewrite (trim_start_printable _ _ c) by (done || apply whitespace_start).
  rewrite app_comm_cons, rev_app_distr. cbn [rev app].
  rewrite trim_start_printable by (done || apply whitespace_end).
  cbn [rev]. by rewrite rev_app_distr, rev_involutive.
Qed.
