(* ===== verification/NetAddr.v ===== *)
(** * NetAddr: [std::net] addresses and their text

    [Ipv4Addr], [Ipv6Addr], [IpAddr] and [SocketAddr] with their [Display] and
    [FromStr] (the recursive-descent parser of [core::net::parser]). Octets are
    ranged by construction, so every value of these types is an address. The
    main lemmas say that parsing a printed address gives the address back. *)

From S2P Require Import Prelude Text.

(** ** Addresses *)

Record Ipv4Addr := mkV4 { v4a : byte; v4b : byte; v4c : byte; v4d : byte }.

(** A segment of an IPv6 address, as its big-endian octets. *)
Abbreviation segment := (byte * byte)%type.

Record Ipv6Addr := mkV6 {
  v6a : segment; v6b : segment; v6c : segment; v6d : segment;
  v6e : segment; v6f : segment; v6g : segment; v6h : segment }.

Inductive IpAddr := IpV4 (a : Ipv4Addr) | IpV6 (a : Ipv6Addr).

Record SocketAddrV4 := mkSockV4 { sa4_ip : Ipv4Addr; sa4_port : N }.
Record SocketAddrV6 := mkSockV6 {
  sa6_ip : Ipv6Addr; sa6_port : N; sa6_flowinfo : N; sa6_scope_id : N }.

Inductive SocketAddr := SAV4 (a : SocketAddrV4) | SAV6 (a : SocketAddrV6).

#[export] Instance Ipv4Addr_eq_dec : EqDecision Ipv4Addr.
Proof. solve_decision. Defined.
#[export] Instance Ipv6Addr_eq_dec : EqDecision Ipv6Addr.
Proof. solve_decision. Defined.
#[export] Instance IpAddr_eq_dec : EqDecision IpAddr.
Proof. solve_decision. Defined.
#[export] Instance SocketAddrV4_eq_dec : EqDecision SocketAddrV4.
Proof. solve_decision. Defined.
#[export] Instance SocketAddrV6_eq_dec : EqDecision SocketAddrV6.
Proof. solve_decision. Defined.
#[export] Instance SocketAddr_eq_dec : EqDecision SocketAddr.
Proof. solve_decision. Defined.

(** [SocketAddr::new] *)
Definition socket_addr_new (ip : IpAddr) (port : N) : SocketAddr :=
  match ip with
  | IpV4 a => SAV4 (mkSockV4 a port)
  | IpV6 a => SAV6 (mkSockV6 a port 0 0)
  end.

(** [SocketAddr::ip], [SocketAddr::port], [SocketAddr::is_ipv6] *)
Definition sa_ip (a : SocketAddr) : IpAddr :=
  match a with SAV4 a => IpV4 (sa4_ip a) | SAV6 a => IpV6 (sa6_ip a) end.
Definition sa_port (a : SocketAddr) : N :=
  match a with SAV4 a => sa4_port a | SAV6 a => sa6_port a end.
Definition is_ipv6 (a : SocketAddr) : bool :=
  match a with SAV4 _ => false | SAV6 _ => true end.

Definition v4_octets (a : Ipv4Addr) : bytes := [v4a a; v4b a; v4c a; v4d a].
Definition v6_segs (a : Ipv6Addr) : list segment :=
  [v6a a; v6b a; v6c a; v6d a; v6e a; v6f a; v6g a; v6h a].
Definition v6_octets (a : Ipv6Addr) : bytes := s ← v6_segs a; [s.1; s.2].

(** [Ipv6Addr::segments] *)
Definition segments (a : Ipv6Addr) : list N := map (λ s, from_be16 s.1 s.2) (v6_segs a).

Definition seg_of (n : N) : segment := (as_u8 (n / 256), as_u8 n).

(** [Ipv6Addr::from([u16; 8])]; [None] only when the list has not eight elements. *)
Definition v6_from_segments (l : list N) : option Ipv6Addr :=
  match map seg_of l with
  | [a; b; c; d; e; f; g; h] => Some (mkV6 a b c d e f g h)
  | _ => None
  end.

(** [Ipv4Addr::from([u8; 4])] and [Ipv6Addr::from([u8; 16])]. *)
Definition v4_from_octets (l : bytes) : option Ipv4Addr :=
  match l with [a; b; c; d] => Some (mkV4 a b c d) | _ => None end.
Definition v6_from_octets (l : bytes) : option Ipv6Addr :=
  match l with
  | [a; b; c; d; e; f; g; h; i; j; k; l; m; n; o; p] =>
      Some (mkV6 (a, b) (c, d) (e, f) (g, h) (i, j) (k, l) (m, n) (o, p))
  | _ => None
  end.

Definition v4_unspecified : Ipv4Addr := mkV4 zero zero zero zero.
Definition v4_localhost : Ipv4Addr := mkV4 (n2b 127) zero zero (n2b 1).

(** [IpAddr::is_unspecified] *)
Definition is_unspecified (ip : IpAddr) : bool :=
  match ip with
  | IpV4 a => bool_decide (v4_octets a = repeat zero 4)
  | IpV6 a => bool_decide (v6_octets a = repeat zero 16)
  end.

(** ** Display *)

Definition fmt_v4 (a : Ipv4Addr) : bytes :=
  fmt_dec (b2n (v4a a)) ++ "."%char :: fmt_dec (b2n (v4b a)) ++ "."%char ::
  fmt_dec (b2n (v4c a)) ++ "."%char :: fmt_dec (b2n (v4d a)).

(** [Ipv6Addr::to_ipv4_mapped] *)
Definition to_ipv4_mapped (a : Ipv6Addr) : option Ipv4Addr :=
  if decide (take 6 (segments a) = [0; 0; 0; 0; 0; 0xffff])
  then Some (mkV4 (v6g a).1 (v6g a).2 (v6h a).1 (v6h a).2) else None.

(** The first longest run of zero segments: (start, length), accumulating the
    current and the longest span as [Display] does. *)
Fixpoint zero_span (i : nat) (cur longest : nat * nat) (l : list N) : nat * nat :=
  match l with
  | [] => longest
  | s :: l' =>
      if s =? 0 then
        let cur' := (if (cur.2 =? 0)%nat then i else cur.1, S cur.2) in
        zero_span (S i) cur' (if (longest.2 <? cur'.2)%nat then cur' else longest) l'
      else zero_span (S i) (0, 0)%nat longest l'
  end.

(** [fmt_subslice]: hexadecimal segments separated by colons. *)
Fixpoint fmt_segs (l : list N) : bytes :=
  match l with
  | [] => []
  | [s] => fmt_hex s
  | s :: l' => fmt_hex s ++ ":"%char :: fmt_segs l'
  end.

Definition fmt_v6 (a : Ipv6Addr) : bytes :=
  match to_ipv4_mapped a with
  | Some v4 => str "::ffff:" ++ fmt_v4 v4
  | None =>
      let segs := segments a in
      let z := zero_span 0 (0, 0)%nat (0, 0)%nat segs in
      if (1 <? z.2)%nat
      then fmt_segs (take z.1 segs) ++ str "::" ++ fmt_segs (drop (z.1 + z.2) segs)
      else fmt_segs segs
  end.

Definition fmt_ip (a : IpAddr) : bytes :=
  match a with IpV4 a => fmt_v4 a | IpV6 a => fmt_v6 a end.

Definition fmt_socket (a : SocketAddr) : bytes :=
  match a with
  | SAV4 a => fmt_v4 (sa4_ip a) ++ ":"%char :: fmt_dec (sa4_port a)
  | SAV6 a =>
      if sa6_scope_id a =? 0
      then "["%char :: fmt_v6 (sa6_ip a) ++ str "]:" ++ fmt_dec (sa6_port a)
      else "["%char :: fmt_v6 (sa6_ip a) ++ "%"%char :: fmt_dec (sa6_scope_id a) ++
           str "]:" ++ fmt_dec (sa6_port a)
  end.

(** ** FromStr *)

(** [Parser::read_given_char] *)
Definition read_given (c : byte) (s : bytes) : option bytes :=
  match s with d :: s' => if decide (d = c) then Some s' else None | [] => None end.

(** [Parser::read_separator]: the separator is read before every element but
    the first. *)
Definition read_sep (sep : byte) (i : nat) (s : bytes) : option bytes :=
  if (i =? 0)%nat then Some s else read_given sep s.

(** The digit loop of [Parser::read_number] with a digit limit: value, number of
    digits, rest. *)
Fixpoint read_digits (radix : N) (maxd count : nat) (acc : N) (s : bytes) :
    option (N * nat * bytes) :=
  match s with
  | c :: s' =>
      match to_digit radix c with
      | Some d => if (maxd <? S count)%nat then None
                  else read_digits radix maxd (S count) (acc * radix + d) s'
      | None => Some (acc, count, s)
      end
  | [] => Some (acc, count, [])
  end.

(** [Parser::read_number(radix, Some(maxd), allow_zero_prefix)] *)
Definition read_number (radix : N) (maxd : nat) (allow_zero : bool) (max : N) (s : bytes) :
    option (N * bytes) :=
  match read_digits radix maxd 0 0 s with
  | None => None
  | Some (v, count, r) =>
      if (count =? 0)%nat then None
      else if negb allow_zero && bool_decide (head s = Some "0"%char) && (1 <? count)%nat
      then None
      else if v <=? max then Some (v, r) else None
  end.

(** [Parser::read_number(10, None, true)] with its checked arithmetic. *)
Fixpoint read_checked (max : N) (count : nat) (acc : N) (s : bytes) : option (N * bytes) :=
  match s with
  | c :: s' =>
      match to_digit 10 c with
      | Some d => if max <? acc * 10 + d then None
                  else read_checked max (S count) (acc * 10 + d) s'
      | None => if (count =? 0)%nat then None else Some (acc, s)
      end
  | [] => if (count =? 0)%nat then None else Some (acc, [])
  end.

(** One decimal octet of an IPv4 address, preceded by a dot but for the first. *)
Definition read_octet (i : nat) (s : bytes) : option (byte * bytes) :=
  s1 ← read_sep "."%char i s;
  '(n, r) ← read_number 10 3 false 255 s1;
  Some (n2b n, r).

Definition read_ipv4 (s : bytes) : option (Ipv4Addr * bytes) :=
  '(a, s1) ← read_octet 0 s;
  '(b, s2) ← read_octet 1 s1;
  '(c, s3) ← read_octet 2 s2;
  '(d, s4) ← read_octet 3 s3;
  Some (mkV4 a b c d, s4).

(** [read_groups]: [k] is the number of slots left, [i] the index of the next. *)
Fixpoint read_groups (k i : nat) (s : bytes) : list N * bool * bytes :=
  match k with
  | O => ([], false, s)
  | S k' =>
      let v4 := if (1 <? k)%nat then s1 ← read_sep ":"%char i s; read_ipv4 s1 else None in
      match v4 with
      | Some (a, r) =>
          ([from_be16 (v4a a) (v4b a); from_be16 (v4c a) (v4d a)], true, r)
      | None =>
          match s1 ← read_sep ":"%char i s; read_number 16 4 true 0xffff s1 with
          | Some (g, r) => let '(gs, v, r') := read_groups k' (S i) r in (g :: gs, v, r')
          | None => ([], false, s)
          end
      end
  end.

Definition read_ipv6 (s : bytes) : option (Ipv6Addr * bytes) :=
  let '(hd, hd_v4, s1) := read_groups 8 0 s in
  if (length hd =? 8)%nat then a ← v6_from_segments hd; Some (a, s1)
  else if hd_v4 then None
  else
    s2 ← read_given ":"%char s1;
    s3 ← read_given ":"%char s2;
    let '(tl, _, s4) := read_groups (8 - (length hd + 1)) 0 s3 in
    a ← v6_from_segments (hd ++ repeat 0 (8 - length hd - length tl) ++ tl);
    Some (a, s4).

(** [Parser::parse_with]: the whole input must be consumed. *)
Definition parse_all {A} (p : bytes → option (A * bytes)) (s : bytes) : option A :=
  match p s with Some (a, []) => Some a | _ => None end.

(** [s.parse::<Ipv4Addr>()]: longer texts are refused up front. *)
Definition parse_ipv4 (s : bytes) : option Ipv4Addr :=
  if 15 <? len s then None else parse_all read_ipv4 s.

(** [s.parse::<Ipv6Addr>()] *)
Definition parse_ipv6 (s : bytes) : option Ipv6Addr := parse_all read_ipv6 s.

(** [s.parse::<IpAddr>()] *)
Definition read_ip (s : bytes) : option (IpAddr * bytes) :=
  match read_ipv4 s with
  | Some (a, r) => Some (IpV4 a, r)
  | None => '(a, r) ← read_ipv6 s; Some (IpV6 a, r)
  end.
Definition parse_ipaddr (s : bytes) : option IpAddr := parse_all read_ip s.

(** [s.parse::<SocketAddr>()] *)
Definition read_port (s : bytes) : option (N * bytes) :=
  s1 ← read_given ":"%char s; read_checked u16_max 0 0 s1.
Definition read_socket_v4 (s : bytes) : option (SocketAddr * bytes) :=
  '(ip, s1) ← read_ipv4 s;
  '(port, s2) ← read_port s1;
  Some (SAV4 (mkSockV4 ip port), s2).
Definition read_scope_id (s : bytes) : option (N * bytes) :=
  s1 ← read_given "%"%char s; read_checked u32_max 0 0 s1.
Definition read_socket_v6 (s : bytes) : option (SocketAddr * bytes) :=
  s1 ← read_given "["%char s;
  '(ip, s2) ← read_ipv6 s1;
  let '(scope, s3) := match read_scope_id s2 with Some r => r | None => (0, s2) end in
  s4 ← read_given "]"%char s3;
  '(port, s5) ← read_port s4;
  Some (SAV6 (mkSockV6 ip port 0 scope), s5).
Definition read_socket (s : bytes) : option (SocketAddr * bytes) :=
  match read_socket_v4 s with Some r => Some r | None => read_socket_v6 s end.
Definition parse_socket (s : bytes) : option SocketAddr := parse_all read_socket s.

(** ** Reading back numbers *)

(** The text [r] does not start with a digit of the base. *)
Definition no_digit (radix : N) (r : bytes) : Prop :=
  ∀ c r', r = c :: r' → to_digit radix c = None.

Lemma no_digit_nil radix : no_digit radix [].
Proof. by intros ???. Qed.

Lemma no_digit_cons radix c r : to_digit radix c = None → no_digit radix (c :: r).
Proof. intros ????. by simplify_eq. Qed.

Create HintDb netaddr.
#[export] Hint Resolve no_digit_nil : netaddr.
#[export] Hint Extern 1 (no_digit _ (_ :: _)) => apply no_digit_cons; reflexivity : netaddr.

Lemma read_digits_app radix maxd s ds r : ∀ count acc,
  mapM (to_digit radix) s = Some ds → no_digit radix r → (count + length s ≤ maxd)%nat →
  read_digits radix maxd count acc (s ++ r) = Some (horner radix acc ds, (count + length s)%nat, r).
Proof.
  revert ds. induction s as [|c s IH]; intros ds count acc Hds Hr Hl.
  - injection Hds as <-. rewrite Nat.add_0_r. destruct r as [|c r]; [done|].
    simpl. by rewrite (Hr c r).
  - apply mapM_Some in Hds. inversion Hds as [|? d ? ds' Hd Hs]; subst.
    apply mapM_Some in Hs. simpl in *. rewrite Hd.
    replace (maxd <? S count)%nat with false by lia.
    rewrite (IH ds') by (done || lia). by rewrite horner_cons, Nat.add_succ_r.
Qed.

Lemma length_digits_aux radix : 2 ≤ radix → ∀ fuel k n acc,
  n < radix ^ N.of_nat (S k) →
  (length (digits_aux fuel radix n acc) ≤ S k + length acc)%nat.
Proof.
  intros Hr. induction fuel as [|fuel IH]; intros k n acc Hn; simpl; [lia|].
  destruct (n <? radix) eqn:E; simpl; [lia|].
  destruct k as [|k]; [rewrite N.pow_1_r in Hn; lia|].
  etrans; [apply (IH k)|simpl; lia].
  apply N.Div0.div_lt_upper_bound. by rewrite <-N.pow_succ_r', <-Nat2N.inj_succ.
Qed.

Lemma length_fmt_radix radix k n :
  2 ≤ radix → n < radix ^ N.of_nat (S k) → (length (fmt_radix radix n) ≤ S k)%nat.
Proof.
  intros Hr Hn. etrans; [by apply (length_digits_aux radix Hr _ k)|]. simpl. lia.
Qed.

Lemma read_number_fmt radix maxd max n r :
  2 ≤ radix ≤ 36 → n ≤ max → n < radix ^ N.of_nat (S maxd) → no_digit radix r →
  read_number radix (S maxd) true max (fmt_radix radix n ++ r) = Some (n, r).
Proof.
  intros Hr Hn Hp Hnd. destruct (fmt_radix_digits radix n Hr) as (ds & Hds & Hv).
  unfold read_number. rewrite (read_digits_app _ _ _ ds) by (done || by apply length_fmt_radix; [lia|]).
  pose proof (fmt_radix_nonempty radix n). destruct (fmt_radix radix n); [done|].
  simpl. rewrite Hv. by replace (n <=? max) with true by lia.
Qed.

(** The printed octets have no superfluous zero. *)
Lemma fmt_dec_octet_zero b : head (fmt_dec (b2n b)) = Some "0"%char → length (fmt_dec (b2n b)) = 1%nat.
Proof.
  assert (forallb (λ n, implb (bool_decide (head (fmt_dec n) = Some "0"%char))
    (length (fmt_dec n) =? 1)%nat) (map N.of_nat (seq 0 256)) = true) as Hall by (vm_compute; reflexivity).
  rewrite forallb_forall in Hall. specialize (Hall (b2n b)). intros H.
  rewrite bool_decide_true in Hall by done. apply Nat.eqb_eq, Hall, in_map_iff.
  exists (N.to_nat (b2n b)). rewrite N2Nat.id, in_seq. pose proof (b2n_lt b). lia.
Qed.

Lemma read_number_octet b r :
  no_digit 10 r → read_number 10 3 false 255 (fmt_dec (b2n b) ++ r) = Some (b2n b, r).
Proof.
  intros Hnd. pose proof (b2n_lt b) as Hb.
  pose proof (read_number_fmt 10 2 255 (b2n b) r) as H. unfold read_number in *.
  fold fmt_dec in H. change (fmt_radix 10) with fmt_dec in H.
  destruct (fmt_radix_digits 10 (b2n b)) as (ds & Hds & Hv); [lia|].
  change (fmt_radix 10) with fmt_dec in Hds.
  assert (length (fmt_dec (b2n b)) ≤ 3)%nat.
  { apply length_fmt_radix; [lia|]. change (10 ^ N.of_nat 3) with 1000. lia. }
  rewrite (read_digits_app _ _ _ ds) in * by (done || lia).
  rewrite <-H; [|lia..|change (10 ^ N.of_nat 3) with 1000; lia|done].
  simpl. destruct (bool_decide _) eqn:E; [|done].
  apply bool_decide_eq_true in E. rewrite fmt_dec_octet_zero; [done|].
  pose proof (fmt_radix_nonempty 10 (b2n b)) as Hne. fold (fmt_dec (b2n b)) in Hne.
  by destruct (fmt_dec (b2n b)).
Qed.

Lemma read_checked_app max s ds r : ∀ count acc,
  mapM (to_digit 10) s = Some ds → no_digit 10 r → horner 10 acc ds ≤ max →
  (0 < count + length s)%nat →
  read_checked max count acc (s ++ r) = Some (horner 10 acc ds, r).
Proof.
  revert ds. induction s as [|c s IH]; intros ds count acc Hds Hr Hm Hc.
  - injection Hds as <-. simpl in *. destruct r as [|c r]; simpl.
    + by replace (count =? 0)%nat with false by lia.
    + rewrite (Hr c r) by done. by replace (count =? 0)%nat with false by lia.
  - apply mapM_Some in Hds. inversion Hds as [|? d ? ds' Hd Hs]; subst.
    apply mapM_Some in Hs. rewrite horner_cons in *. simpl. rewrite Hd.
    pose proof (horner_ge 10 (acc * 10 + d) ds' eq_refl).
    replace (max <? acc * 10 + d) with false by lia. apply IH; (done || lia).
Qed.

Lemma read_checked_fmt max n r :
  n ≤ max → no_digit 10 r → read_checked max 0 0 (fmt_dec n ++ r) = Some (n, r).
Proof.
  intros Hn Hr. destruct (fmt_radix_digits 10 n) as (ds & Hds & Hv); [lia|].
  pose proof (fmt_radix_nonempty 10 n). unfold fmt_dec.
  rewrite (read_checked_app _ _ ds), Hv; try done; [by rewrite Hv|].
  destruct (fmt_radix 10 n); [done|simpl; lia].
Qed.

Lemma read_port_fmt n r :
  n < 65536 → no_digit 10 r → read_port (":"%char :: fmt_dec n ++ r) = Some (n, r).
Proof. intros. apply read_checked_fmt; [unfold u16_max; lia|done]. Qed.

(** ** Reading back addresses *)

Lemma read_octet_0 b r :
  no_digit 10 r → read_octet 0 (fmt_dec (b2n b) ++ r) = Some (b, r).
Proof.
  intros. unfold read_octet. simpl. rewrite read_number_octet by done. simpl. by rewrite n2b_b2n.
Qed.

Lemma read_octet_S i b r :
  no_digit 10 r → read_octet (S i) ("."%char :: fmt_dec (b2n b) ++ r) = Some (b, r).
Proof.
  intros. unfold read_octet. simpl. rewrite read_number_octet by done. simpl. by rewrite n2b_b2n.
Qed.

Lemma read_fmt_v4 a r : no_digit 10 r → read_ipv4 (fmt_v4 a ++ r) = Some (a, r).
Proof.
  intros Hr. destruct a as [a b c d]. unfold fmt_v4, read_ipv4. simpl.
  rewrite <-!app_assoc, <-!app_comm_cons, <-!app_assoc, <-!app_comm_cons, <-!app_assoc, <-!app_comm_cons.
  rewrite read_octet_0 by auto with netaddr. simpl.
  rewrite read_octet_S by auto with netaddr. simpl.
  rewrite read_octet_S by auto with netaddr. simpl.
  by rewrite read_octet_S by done.
Qed.

Lemma length_fmt_dec_octet b : (length (fmt_dec (b2n b)) ≤ 3)%nat.
Proof.
  apply length_fmt_radix; [lia|]. change (10 ^ N.of_nat 3) with 1000.
  pose proof (b2n_lt b). lia.
Qed.

Lemma length_fmt_v4 a : (length (fmt_v4 a) ≤ 15)%nat.
Proof.
  unfold fmt_v4. repeat (rewrite length_app; simpl).
  pose proof (length_fmt_dec_octet (v4a a)). pose proof (length_fmt_dec_octet (v4b a)).
  pose proof (length_fmt_dec_octet (v4c a)). pose proof (length_fmt_dec_octet (v4d a)). lia.
Qed.

Lemma parse_fmt_v4 a : parse_ipv4 (fmt_v4 a) = Some a.
Proof.
  unfold parse_ipv4, parse_all. pose proof (length_fmt_v4 a).
  replace (15 <? len (fmt_v4 a)) with false by lia.
  rewrite <-(app_nil_r (fmt_v4 a)). by rewrite read_fmt_v4 by auto with netaddr.
Qed.

Lemma read_given_Some c s r : read_given c s = Some r ↔ s = c :: r.
Proof.
  unfold read_given. destruct s as [|d s]; [done|]. case_decide; naive_solver.
Qed.

(** An IPv4 address is only read from a text with a dot in it. *)
Lemma read_digits_suffix radix maxd s : ∀ count acc v n r,
  read_digits radix maxd count acc s = Some (v, n, r) → ∃ p, s = p ++ r.
Proof.
  induction s as [|c s IH]; intros count acc v n r H; simplify_eq/=; [by exists []|].
  destruct (to_digit radix c); [|simplify_eq; by exists []].
  destruct (maxd <? S count)%nat; [done|].
  apply IH in H as [p ->]. by exists (c :: p).
Qed.

Lemma read_number_suffix radix maxd z max s v r :
  read_number radix maxd z max s = Some (v, r) → ∃ p, s = p ++ r.
Proof.
  unfold read_number. intros H.
  destruct (read_digits radix maxd 0 0 s) as [[[v' n] r']|] eqn:E; [|done].
  repeat case_match; simplify_eq. by eapply read_digits_suffix.
Qed.

Lemma read_ipv4_dot s a r : read_ipv4 s = Some (a, r) → "."%char ∈ s.
Proof.
  unfold read_ipv4, read_octet. intros H. cbn [read_sep Nat.eqb mbind option_bind] in H.
  destruct (read_number 10 3 false 255 s) as [[v l]|] eqn:E; [|done].
  apply read_number_suffix in E as [p ->]. cbn [mbind option_bind] in H.
  destruct (read_given "."%char l) as [l'|] eqn:Eg; [|done].
  apply read_given_Some in Eg as ->. set_solver.
Qed.

Lemma read_ipv4_no_dot s : "."%char ∉ s → read_ipv4 s = None.
Proof.
  intros H. destruct (read_ipv4 s) as [[a r]|] eqn:E; [|done]. by apply read_ipv4_dot in E.
Qed.

Lemma read_ipv4_no_digit s : no_digit 10 s → read_ipv4 s = None.
Proof.
  intros H. unfold read_ipv4, read_octet, read_number. simpl.
  destruct s as [|c s]; [done|]. simpl. by rewrite (H c s).
Qed.

Lemma read_number_no_digit radix maxd z max s :
  no_digit radix s → read_number radix maxd z max s = None.
Proof.
  intros H. unfold read_number. destruct s as [|c s]; [done|]. simpl. by rewrite (H c s).
Qed.

(** No further group can be read from [r] at index [i]. *)
Definition stops (i : nat) (r : bytes) : Prop :=
  (s1 ← read_sep ":"%char i r; read_number 16 4 true 0xffff s1) = None.

Lemma stops_double_colon i r : stops i (str "::" ++ r).
Proof. by destruct i. Qed.

Lemma stops_end i r : no_digit 16 r → head r ≠ Some ":"%char → stops i r.
Proof.
  intros Hr Hh. unfold stops, read_sep. destruct i; [by apply read_number_no_digit|].
  cbn [Nat.eqb]. destruct (read_given ":"%char r) as [r'|] eqn:E; [|done].
  by apply read_given_Some in E as ->.
Qed.

(** The groups of [l] with the separators the parser expects from index [i]. *)
Fixpoint sep_segs (i : nat) (l : list N) : bytes :=
  match l with
  | [] => []
  | s :: l' => (if (i =? 0)%nat then [] else [":"%char]) ++ fmt_hex s ++ sep_segs (S i) l'
  end.

Lemma fmt_segs_S s i l : fmt_segs (s :: l) = fmt_hex s ++ sep_segs (S i) l.
Proof.
  revert s i. induction l as [|t l IH]; intros s i; [by rewrite app_nil_r|].
  change (fmt_segs (s :: t :: l)) with (fmt_hex s ++ ":"%char :: fmt_segs (t :: l)).
  by rewrite (IH t (S i)).
Qed.

Lemma fmt_segs_sep l : fmt_segs l = sep_segs 0 l.
Proof. destruct l as [|s l]; [done|]. by rewrite (fmt_segs_S _ 0). Qed.

Lemma sep_segs_head i l r : no_digit 16 r → no_digit 16 (sep_segs (S i) l ++ r).
Proof. destruct l; [done|]. simpl. intros. by apply no_digit_cons. Qed.

Lemma read_groups_segs r : ∀ l k i,
  Forall (λ s, s < 65536) l → (length l ≤ k)%nat → "."%char ∉ sep_segs i l ++ r →
  no_digit 16 r → (length l = k ∨ stops (i + length l) r) →
  read_groups k i (sep_segs i l ++ r) = (l, false, r).
Proof.
  induction l as [|s l IH]; intros k i Hl Hk Hdot Hr Hstop.
  - destruct k as [|k]; [done|]. destruct Hstop as [|Hstop]; [done|].
    rewrite Nat.add_0_r in Hstop. cbn [read_groups sep_segs app] in *.
    assert (∀ s1, read_sep ":"%char i r = Some s1 → read_ipv4 s1 = None) as H4.
    { intros s1 H1. apply read_ipv4_no_dot. unfold read_sep, read_given in H1.
      repeat case_match; simplify_eq; set_solver. }
    unfold stops in Hstop. rewrite Hstop.
    destruct (1 <? S k)%nat; [|done]. destruct (read_sep ":"%char i r) as [s1|]; [|done].
    simpl. by rewrite (H4 s1).
  - destruct k as [|k]; [simpl in Hk; lia|].
    inversion Hl as [|?? Hs Hl']; subst. cbn [read_groups].
    assert (read_sep ":"%char i (sep_segs i (s :: l) ++ r)
            = Some (fmt_hex s ++ sep_segs (S i) l ++ r)) as ->.
    { cbn [sep_segs]. unfold read_sep. destruct (i =? 0)%nat; simpl; by rewrite <-app_assoc. }
    simpl. rewrite read_ipv4_no_dot.
    2: { intros Hin. apply Hdot. cbn [sep_segs]. destruct (i =? 0)%nat; simpl; set_solver. }
    rewrite read_number_fmt; [|lia|lia|by change (16 ^ N.of_nat 4) with 65536|by apply sep_segs_head].
    rewrite IH; try done; [by destruct (1 <? S k)%nat|simpl in Hk; lia| |].
    + intros Hin. apply Hdot. cbn [sep_segs]. set_solver.
    + destruct Hstop as [H|H]; [left; simpl in H; lia|right]. simpl in H. by rewrite Nat.add_succ_r in H.
Qed.

Lemma digit_not_in radix c n : 2 ≤ radix ≤ 36 → to_digit radix c = None → c ∉ fmt_radix radix n.
Proof.
  intros Hr Hc Hin. destruct (fmt_radix_digits radix n Hr) as (ds & Hds & _).
  apply mapM_Some in Hds. apply list_elem_of_lookup in Hin as [i Hi].
  eapply Forall2_lookup_l in Hds as (d & _ & Hd); [|done]. by rewrite Hc in Hd.
Qed.

Lemma sep_segs_not_in c i l :
  to_digit 16 c = None → c ≠ ":"%char → c ∉ sep_segs i l.
Proof.
  intros Hc Hcol. revert i. induction l as [|s l IH]; intros i; simpl; [set_solver|].
  rewrite !not_elem_of_app. repeat split; [destruct (i =? 0)%nat; set_solver| |apply IH].
  by apply digit_not_in.
Qed.

(** *** The compressed run of zeros *)

(** [z] is a run of zero segments of [l]. *)
Definition zero_run (l : list N) (z : nat * nat) : Prop :=
  (z.1 + z.2 ≤ length l)%nat ∧ take z.2 (drop z.1 l) = repeat 0 z.2.

Lemma zero_run_nil l i : (i ≤ length l)%nat → zero_run l (i, 0%nat).
Proof. split; simpl; [lia|done]. Qed.

Lemma zero_run_snoc pre rest i n :
  length pre = (i + n)%nat → zero_run pre (i, n) →
  zero_run (pre ++ 0 :: rest) (i, S n) ∧ zero_run (pre ++ [0]) (i, S n).
Proof.
  intros Hlen [_ Hz]. simpl in Hz.
  assert (∀ r, take (S n) (drop i (pre ++ 0 :: r)) = repeat 0 (S n)) as Ht.
  { intros r. rewrite drop_app_le by lia.
    rewrite take_app_ge by (rewrite length_drop; lia). rewrite length_drop.
    replace (S n - (length pre - i))%nat with 1%nat by lia. simpl.
    rewrite <-(firstn_all (drop i pre)), length_drop.
    replace (length pre - i)%nat with n by lia. rewrite take_0, Hz.
    change (0 :: []) with (repeat 0 1). rewrite <-repeat_app. by rewrite Nat.add_1_r. }
  split; (split; simpl; [rewrite length_app; simpl; lia|apply Ht]).
Qed.

Lemma zero_run_app l r z : zero_run l z → zero_run (l ++ r) z.
Proof.
  intros [Hl Hz]. split; [rewrite length_app; lia|].
  rewrite drop_app_le by lia. rewrite take_app_le; [done|rewrite length_drop; lia].
Qed.

Lemma zero_span_run rest : ∀ pre cur longest,
  zero_run pre cur → zero_run pre longest → (cur.2 = 0 ∨ cur.1 + cur.2 = length pre)%nat →
  zero_run (pre ++ rest) (zero_span (length pre) cur longest rest).
Proof.
  induction rest as [|s rest IH]; intros pre cur longest Hc Hl Hend; simpl.
  - by apply zero_run_app.
  - assert (pre ++ s :: rest = (pre ++ [s]) ++ rest) as -> by by rewrite <-app_assoc.
    replace (S (length pre)) with (length (pre ++ [s])) by (rewrite length_app; simpl; lia).
    destruct (s =? 0) eqn:E.
    + apply N.eqb_eq in E as ->.
      set (cur' := (if (cur.2 =? 0)%nat then length pre else cur.1, S cur.2)).
      assert (zero_run (pre ++ [0]) cur' ∧ (cur'.1 + cur'.2 = S (length pre))%nat) as [Hc' He'].
      { subst cur'. destruct cur as [i n]. simpl in *. destruct (n =? 0)%nat eqn:E; simpl.
        - apply Nat.eqb_eq in E as ->. split; [|lia].
          apply (zero_run_snoc pre []); [lia|]. by apply zero_run_nil.
        - apply Nat.eqb_neq in E. destruct Hend as [?|Hend]; [done|].
          split; [|lia]. by apply (zero_run_snoc pre []). }
      clearbody cur'. apply IH; [done| |right; rewrite length_app; simpl; lia].
      case_match; [done|by apply zero_run_app].
    + apply IH; [apply zero_run_nil; lia|by apply zero_run_app|by left].
Qed.

Lemma zero_span_spec l :
  let z := zero_span 0 (0, 0)%nat (0, 0)%nat l in
  (z.1 + z.2 ≤ length l)%nat ∧ take z.1 l ++ repeat 0 z.2 ++ drop (z.1 + z.2) l = l.
Proof.
  intros z. assert (zero_run l z) as [Hlen Hz].
  { apply (zero_span_run l []); [by apply zero_run_nil..|by left]. }
  split; [done|]. rewrite <-Hz, <-drop_drop. by rewrite take_drop, take_drop.
Qed.

Lemma v6_from_segments_segments a : v6_from_segments (segments a) = Some a.
Proof.
  assert (∀ hi lo, seg_of (from_be16 hi lo) = (hi, lo)) as Hs.
  { intros hi lo. pose proof (to_from_be16 hi lo) as H. unfold to_be16 in H.
    injection H as H1 H2. unfold seg_of. by rewrite H1, H2. }
  destruct a as [[][][][][][][][]]. unfold v6_from_segments, segments. simpl. by rewrite !Hs.
Qed.

Lemma segments_lt a : Forall (λ s, s < 65536) (segments a).
Proof. unfold segments. apply Forall_map, Forall_true. intros. apply from_be16_lt. Qed.

(** What may follow an address in a larger text. *)
Definition addr_end (r : bytes) : Prop :=
  no_digit 16 r ∧ no_digit 10 r ∧ head r ≠ Some ":"%char ∧ "."%char ∉ r.

Lemma addr_end_nil : addr_end [].
Proof. repeat split; auto with netaddr. set_solver. Qed.

Lemma addr_end_cons c r :
  to_digit 16 c = None → to_digit 10 c = None → c ≠ ":"%char → c ≠ "."%char → "."%char ∉ r →
  addr_end (c :: r).
Proof.
  intros. repeat split; [by apply no_digit_cons..|simpl; congruence|set_solver].
Qed.

Lemma to_ipv4_mapped_Some a v4 :
  to_ipv4_mapped a = Some v4 →
  segments a = [0; 0; 0; 0; 0; 0xffff; from_be16 (v4a v4) (v4b v4); from_be16 (v4c v4) (v4d v4)].
Proof.
  unfold to_ipv4_mapped. case_decide as H; [|done]. intros [= <-].
  destruct a as [[][][][][][][][]]. cbn in *. by injection H as -> -> -> -> -> ->.
Qed.

Lemma read_mapped v4 r : no_digit 10 r →
  read_ipv6 (str "::ffff:" ++ fmt_v4 v4 ++ r) =
    (a ← v6_from_segments [0; 0; 0; 0; 0; 0xffff; from_be16 (v4a v4) (v4b v4);
                           from_be16 (v4c v4) (v4d v4)]; Some (a, r)).
Proof.
  intros Hr. unfold read_ipv6.
  assert (read_groups 8 0 (str "::ffff:" ++ fmt_v4 v4 ++ r)
    = ([], false, str "::ffff:" ++ fmt_v4 v4 ++ r)) as -> by done.
  cbn [length Nat.eqb str String.list_ascii_of_string app].
  rewrite !(proj2 (read_given_Some _ _ _) eq_refl). cbn [mbind option_bind].
  rewrite !(proj2 (read_given_Some _ _ _) eq_refl). cbn [mbind option_bind].
  assert (read_groups (8 - (0 + 1)) 0 (str "ffff:" ++ fmt_v4 v4 ++ r)
    = ([0xffff; from_be16 (v4a v4) (v4b v4); from_be16 (v4c v4) (v4d v4)], true, r)) as Hg.
  { change (8 - (0 + 1))%nat with 7%nat.
    change (str "ffff:" ++ fmt_v4 v4 ++ r) with (fmt_radix 16 0xffff ++ ":"%char :: fmt_v4 v4 ++ r).
    cbn [read_groups Nat.ltb Nat.leb read_sep Nat.eqb mbind option_bind].
    rewrite read_ipv4_no_digit by (apply no_digit_cons; done).
    rewrite (read_number_fmt 16 3 0xffff 0xffff (":"%char :: fmt_v4 v4 ++ r));
      [|lia|lia|by vm_compute|by apply no_digit_cons].
    rewrite (proj2 (read_given_Some _ _ _) eq_refl). cbn [mbind option_bind].
    by rewrite read_fmt_v4. }
  cbn [str String.list_ascii_of_string app] in Hg. rewrite Hg. done.
Qed.

Lemma read_fmt_v6 a r : addr_end r → read_ipv6 (fmt_v6 a ++ r) = Some (a, r).
Proof.
  intros (Hr16 & Hr10 & Hcol & Hdot). unfold fmt_v6.
  destruct (to_ipv4_mapped a) as [v4|] eqn:Em.
  { rewrite <-app_assoc, read_mapped by done.
    rewrite <-(to_ipv4_mapped_Some _ _ Em), v6_from_segments_segments. done. }
  pose proof (segments_lt a) as Hlt. pose proof (zero_span_spec (segments a)) as [Hz Hsplit].
  set (z := zero_span 0 (0, 0)%nat (0, 0)%nat (segments a)) in *.
  change (length (segments a)) with 8%nat in Hz.
  unfold read_ipv6. rewrite !fmt_segs_sep.
  assert (∀ i l r', "."%char ∉ r' → "."%char ∉ sep_segs i l ++ r') as Hnd.
  { intros i l r' ?. apply not_elem_of_app. split; [by apply sep_segs_not_in|done]. }
  destruct (1 <? z.2)%nat eqn:Ez.
  - rewrite <-!app_assoc. rewrite read_groups_segs.
    + rewrite length_take. change (length (segments a)) with 8%nat.
      replace (z.1 `min` 8)%nat with z.1 by lia. replace (z.1 =? 8)%nat with false by lia.
      cbn [str String.list_ascii_of_string app].
      rewrite !(proj2 (read_given_Some _ _ _) eq_refl). cbn [mbind option_bind].
      rewrite !(proj2 (read_given_Some _ _ _) eq_refl). cbn [mbind option_bind].
      rewrite read_groups_segs;
        [|by apply Forall_drop|rewrite length_drop; simpl; lia|by apply Hnd|done|right; by apply stops_end].
      rewrite length_drop. change (length (segments a)) with 8%nat.
      replace (8 - z.1 - (8 - (z.1 + z.2)))%nat with z.2 by lia.
      by rewrite Hsplit, v6_from_segments_segments.
    + by apply Forall_take.
    + rewrite length_take. lia.
    + apply Hnd. apply not_elem_of_app. split; [by vm_compute; set_solver|]. by apply Hnd.
    + by apply no_digit_cons.
    + right. apply stops_double_colon.
  - rewrite read_groups_segs; try done; [|by apply Hnd|by left].
    change (length (segments a)) with 8%nat. cbn [Nat.eqb].
    by rewrite v6_from_segments_segments.
Qed.

Lemma parse_fmt_v6 a : parse_ipv6 (fmt_v6 a) = Some a.
Proof.
  unfold parse_ipv6, parse_all. rewrite <-(app_nil_r (fmt_v6 a)).
  by rewrite read_fmt_v6 by apply addr_end_nil.
Qed.

(** The text of an IPv6 address never starts with an IPv4 address. *)
Lemma read_ipv4_fmt_v6 a r : "."%char ∉ r → read_ipv4 (fmt_v6 a ++ r) = None.
Proof.
  intros Hr. unfold fmt_v6. destruct (to_ipv4_mapped a) as [v4|].
  - by apply read_ipv4_no_digit, no_digit_cons.
  - apply read_ipv4_no_dot. rewrite !fmt_segs_sep.
    destruct (1 <? _)%nat; rewrite !not_elem_of_app; repeat split;
      try (by apply sep_segs_not_in); [|done..]. by vm_compute; set_solver.
Qed.

Lemma parse_ipv4_fmt_v6 a : parse_ipv4 (fmt_v6 a) = None.
Proof.
  unfold parse_ipv4, parse_all. rewrite <-(app_nil_r (fmt_v6 a)) at 2.
  rewrite read_ipv4_fmt_v6 by set_solver. by case_match.
Qed.

Lemma parse_ipv6_fmt_v4 a : parse_ipv6 (fmt_v4 a) = None.
Proof.
  unfold parse_ipv6, parse_all, read_ipv6. cbn [read_groups Nat.ltb Nat.leb].
  unfold read_sep. cbn [Nat.eqb mbind option_bind].
  rewrite <-(app_nil_r (fmt_v4 a)), read_fmt_v4 by auto with netaddr. done.
Qed.

Lemma parse_fmt_ip ip : parse_ipaddr (fmt_ip ip) = Some ip.
Proof.
  unfold parse_ipaddr, parse_all, read_ip. rewrite <-(app_nil_r (fmt_ip ip)).
  destruct ip as [a|a]; simpl.
  - by rewrite read_fmt_v4 by auto with netaddr.
  - rewrite read_ipv4_fmt_v6 by set_solver. by rewrite read_fmt_v6 by apply addr_end_nil.
Qed.

(** The ranges a socket address keeps: the port is a [u16] and the IPv6 fields
    are [u32]. *)
Definition socket_ok (a : SocketAddr) : Prop :=
  match a with
  | SAV4 a => sa4_port a < 65536
  | SAV6 a => sa6_port a < 65536 ∧ sa6_flowinfo a < 2 ^ 32 ∧ sa6_scope_id a < 2 ^ 32
  end.

Lemma socket_addr_new_ok ip port : port < 65536 → socket_ok (socket_addr_new ip port).
Proof. destruct ip; simpl; lia. Qed.

Lemma read_socket_v6_fmt a port scope :
  port < 65536 → scope < 2 ^ 32 →
  read_socket_v6 (fmt_socket (SAV6 (mkSockV6 a port 0 scope))) =
    Some (SAV6 (mkSockV6 a port 0 scope), []).
Proof.
  intros Hp Hs. unfold read_socket_v6, fmt_socket. cbn [sa6_ip sa6_port sa6_scope_id].
  destruct (scope =? 0) eqn:E.
  - apply N.eqb_eq in E as ->. rewrite (proj2 (read_given_Some _ _ _) eq_refl). cbn [mbind option_bind].
    rewrite read_fmt_v6.
    2: { apply addr_end_cons; [done..|]. cbn [str String.list_ascii_of_string app].
         pose proof (digit_not_in 10 "."%char port ltac:(lia) eq_refl). set_solver. }
    cbn [mbind option_bind]. assert (read_scope_id (str "]:" ++ fmt_dec port) = None) as -> by done.
    cbn [str String.list_ascii_of_string app].
    rewrite (proj2 (read_given_Some _ _ _) eq_refl). cbn [mbind option_bind].
    rewrite <-(app_nil_r (fmt_dec port)). by rewrite read_port_fmt by auto with netaddr.
  - rewrite (proj2 (read_given_Some _ _ _) eq_refl). cbn [mbind option_bind].
    rewrite read_fmt_v6.
    2: { apply addr_end_cons; [done..|]. cbn [str String.list_ascii_of_string app].
         pose proof (digit_not_in 10 "."%char port ltac:(lia) eq_refl).
         pose proof (digit_not_in 10 "."%char scope ltac:(lia) eq_refl). set_solver. }
    cbn [mbind option_bind]. unfold read_scope_id.
    rewrite (proj2 (read_given_Some _ _ _) eq_refl). cbn [mbind option_bind].
    rewrite read_checked_fmt; [|unfold u32_max; lia|by apply no_digit_cons].
    cbn [str String.list_ascii_of_string app].
    rewrite (proj2 (read_given_Some _ _ _) eq_refl). cbn [mbind option_bind].
    rewrite <-(app_nil_r (fmt_dec port)). by rewrite read_port_fmt by auto with netaddr.
Qed.

Lemma parse_fmt_socket a :
  socket_ok a → (∀ a6, a = SAV6 a6 → sa6_flowinfo a6 = 0) → parse_socket (fmt_socket a) = Some a.
Proof.
  unfold parse_socket, parse_all, read_socket. intros Hok Hflow. destruct a as [[ip port]|[ip port flow scope]].
  - unfold read_socket_v4, fmt_socket. cbn [sa4_ip sa4_port].
    rewrite read_fmt_v4 by auto with netaddr. cbn [mbind option_bind].
    rewrite <-(app_nil_r (fmt_dec port)), read_port_fmt by (done || auto with netaddr). done.
  - pose proof (Hflow _ eq_refl) as Hf. simpl in Hf. subst flow. destruct Hok as (? & _ & ?).
    assert (read_socket_v4 (fmt_socket (SAV6 (mkSockV6 ip port 0 scope))) = None) as ->.
    { unfold read_socket_v4. rewrite read_ipv4_no_digit; [done|]. unfold fmt_socket.
      by case_match; apply no_digit_cons. }
    by rewrite read_socket_v6_fmt.
Qed.
