(* ===== verification/Remote.v ===== *)
(** * Remote: tunnel declarations and their parser ([src/common/remote.rs])

    The data model of a tunnel declaration ([RemoteRequest]) and of the control
    messages, the [Display] used in logs and in the admin API, and the parser of
    the [--remote] argument: direction prefix, protocol suffix, bracket-aware
    tokenizer, and the dispatch on the number of tokens. Errors carry the text the
    source reports. *)

From S2P Require Import Prelude Text NetAddr.

(** ** Data *)

Inductive Protocol := Tcp | Udp.
Inductive Direction := Forward | Reverse.

Record HostPort := mkHostPort { host : bytes; port : N }.

Inductive RemoteKind :=
| KTcp (local : SocketAddr) (remote : HostPort)
| KUdp (local : SocketAddr) (remote : HostPort)
| KSocks5 (local : SocketAddr).

Record RemoteRequest := mkRemoteRequest {
  direction : Direction;
  kind : RemoteKind;
  stdio : bool }.

#[export] Instance Protocol_eq_dec : EqDecision Protocol.
Proof. solve_decision. Defined.
#[export] Instance Direction_eq_dec : EqDecision Direction.
Proof. solve_decision. Defined.
#[export] Instance HostPort_eq_dec : EqDecision HostPort.
Proof. solve_decision. Defined.
#[export] Instance RemoteKind_eq_dec : EqDecision RemoteKind.
Proof. solve_decision. Defined.
#[export] Instance RemoteRequest_eq_dec : EqDecision RemoteRequest.
Proof. solve_decision. Defined.

(** [RemoteRequest::new] *)
Definition RemoteRequest_new (d : Direction) (k : RemoteKind) : RemoteRequest :=
  mkRemoteRequest d k false.

(** [HostPort::to_addr_string]: IPv6 literals are bracketed. *)
Definition to_addr_string (h : HostPort) : bytes :=
  match parse_ipv6 (host h) with
  | Some _ => "["%char :: host h ++ str "]:" ++ fmt_dec (port h)
  | None => host h ++ ":"%char :: fmt_dec (port h)
  end.

(** [RemoteKind::local], [RemoteKind::protocol] *)
Definition kind_local (k : RemoteKind) : SocketAddr :=
  match k with KTcp local _ | KUdp local _ | KSocks5 local => local end.
Definition kind_protocol (k : RemoteKind) : option Protocol :=
  match k with KTcp _ _ => Some Tcp | KUdp _ _ => Some Udp | KSocks5 _ => None end.

Definition is_socks (r : RemoteRequest) : bool :=
  match kind r with KSocks5 _ => true | _ => false end.
Definition is_reversed (r : RemoteRequest) : bool :=
  match direction r with Reverse => true | Forward => false end.
Definition is_stdio (r : RemoteRequest) : bool := stdio r.
Definition local_socket_addr (r : RemoteRequest) : SocketAddr := kind_local (kind r).
Definition remote_addr_string (r : RemoteRequest) : option bytes :=
  match kind r with
  | KTcp _ remote | KUdp _ remote => Some (to_addr_string remote)
  | KSocks5 _ => None
  end.

(** [Display for RemoteRequest] *)
Definition fmt_remote (r : RemoteRequest) : bytes :=
  (if is_reversed r then str "R:" else []) ++
  if stdio r then
    match kind r with
    | KTcp _ remote => str "stdio=>" ++ to_addr_string remote ++ str "/tcp"
    | KUdp _ remote => str "stdio=>" ++ to_addr_string remote ++ str "/udp"
    | KSocks5 _ => str "stdio=>socks"
    end
  else
    match kind r with
    | KSocks5 local => fmt_dec (sa_port local) ++ str "=>socks"
    | KTcp local remote =>
        fmt_dec (sa_port local) ++ str "=>" ++ to_addr_string remote ++ str "/tcp"
    | KUdp local remote =>
        fmt_dec (sa_port local) ++ str "=>" ++ to_addr_string remote ++ str "/udp"
    end.

(** ** Control messages *)

Record SessionHello := mkSessionHello { hello_remotes : list RemoteRequest }.

Inductive SessionHelloResponse :=
| HelloOk (tunnel_ids : list N)
| HelloFailed (reason : bytes).

Inductive DynamicTarget := DynTcp (h : HostPort) | DynUdp (h : HostPort).

Record OpenConn := mkOpenConn { oc_tunnel_id : N; oc_dynamic : option DynamicTarget }.

Inductive OpenConnResponse := OpenOk | OpenFailed (reason : bytes).

#[export] Instance DynamicTarget_eq_dec : EqDecision DynamicTarget.
Proof. solve_decision. Defined.
#[export] Instance OpenConn_eq_dec : EqDecision OpenConn.
Proof. solve_decision. Defined.
#[export] Instance SessionHello_eq_dec : EqDecision SessionHello.
Proof. solve_decision. Defined.

(** ** Parser *)

Definition SOCKS_KEYWORD : bytes := str "socks".
Definition STDIO_KEYWORD : bytes := str "stdio".
Definition ANY_V4 : bytes := str "0.0.0.0".
Definition SOCKS_DEFAULT_LOCAL : bytes := str "127.0.0.1".
Definition SOCKS_DEFAULT_PORT : N := 1080.
Definition STDIO_DEFAULT_REMOTE_HOST : bytes := str "127.0.0.1".

Definition parse_direction (s : bytes) : result bytes (Direction * bytes) :=
  match strip_prefix (str "R:") s with
  | Some rest =>
      if decide (rest = []) then Err (str "Invalid format: Missing details after R:")
      else Ok (Reverse, rest)
  | None =>
      if decide (s = str "R") then Err (str "Invalid format: Missing details after R")
      else Ok (Forward, s)
  end.

Definition parse_protocol (s : bytes) : result bytes (option Protocol * bytes) :=
  match rsplit_once "/"%char s with
  | Some (hd, tl) =>
      if decide (tl = str "tcp") then Ok (Some Tcp, hd)
      else if decide (tl = str "udp") then Ok (Some Udp, hd)
      else Err (str "Invalid protocol: Must be 'tcp' or 'udp'")
  | None => Ok (None, s)
  end.

(** The loop of [split_addr_tokens] over the bytes not yet consumed. Every round
    consumes at least one byte, so [S (length s)] rounds are enough. *)
Fixpoint split_loop (fuel : nat) (s : bytes) : result bytes (list bytes) :=
  match fuel with
  | O => Ok []
  | S fuel' =>
      match s with
      | [] => Ok []
      | c :: rest =>
          if decide (c = "["%char) then
            match position "]"%char rest with
            | None => Err (str "Invalid format: unterminated '['")
            | Some close_rel =>
                let token := take (close_rel + 2) s in
                match drop (close_rel + 2) s with
                | [] => Ok [token]
                | d :: s' =>
                    if decide (d = ":"%char) then
                      if decide (s' = []) then Err (str "Invalid format: trailing ':' after ']'")
                      else tokens ← split_loop fuel' s'; Ok (token :: tokens)
                    else Err (str "Invalid format: expected ':' after ']'")
                end
            end
          else
            let next := default (length s) (position ":"%char s) in
            let token := take next s in
            match drop next s with
            | [] => Ok [token]
            | _ :: s' =>
                if decide (s' = []) then Err (str "Invalid format: trailing ':'")
                else tokens ← split_loop fuel' s'; Ok (token :: tokens)
            end
      end
  end.

Definition split_addr_tokens (s : bytes) : result bytes (list bytes) :=
  split_loop (S (length s)) s.

Definition unbracket (s : bytes) : bytes :=
  if (2 <=? length s)%nat && starts_with "["%char s && ends_with "]"%char s
  then slice 1 (length s - 1) s else s.

Definition parse_ip (s what : bytes) : result bytes IpAddr :=
  ok_or (parse_ipaddr (unbracket s)) (str "Invalid " ++ what).

Definition parse_port (s what : bytes) : result bytes N :=
  map_err (λ _, str "Invalid " ++ what) (parse_u16 s).

Definition any_v4 : IpAddr := default (IpV4 v4_unspecified) (parse_ipaddr ANY_V4).
Definition socks_default_local : IpAddr :=
  default (IpV4 v4_localhost) (parse_ipaddr SOCKS_DEFAULT_LOCAL).

Definition make_host_port_kind (local : SocketAddr) (remote : HostPort)
    (protocol : option Protocol) : RemoteKind :=
  match default Tcp protocol with
  | Tcp => KTcp local remote
  | Udp => KUdp local remote
  end.

Definition parse_one_token (token : bytes) (protocol : option Protocol) :
    result bytes RemoteKind :=
  if decide (token = SOCKS_KEYWORD) then
    Ok (KSocks5 (socket_addr_new socks_default_local SOCKS_DEFAULT_PORT))
  else
    port ← parse_port token (str "remote port");
    Ok (make_host_port_kind (socket_addr_new any_v4 port) (mkHostPort ANY_V4 port) protocol).

Definition parse_two_tokens (t0 t1 : bytes) (protocol : option Protocol) :
    result bytes RemoteKind :=
  if decide (t1 = SOCKS_KEYWORD) then
    local_port ← parse_port t0 (str "remote port");
    Ok (KSocks5 (socket_addr_new socks_default_local local_port))
  else
    let remote_host := unbracket t0 in
    remote_port ← parse_port t1 (str "remote port");
    Ok (make_host_port_kind (socket_addr_new any_v4 remote_port)
          (mkHostPort remote_host remote_port) protocol).

Definition parse_three_tokens (t0 t1 t2 : bytes) (protocol : option Protocol) :
    result bytes RemoteKind :=
  if decide (t2 = SOCKS_KEYWORD) then
    local_host ← parse_ip t0 (str "local host");
    local_port ← parse_port t1 (str "local port");
    Ok (KSocks5 (socket_addr_new local_host local_port))
  else
    local_port ← parse_port t0 (str "local port");
    let remote_host := unbracket t1 in
    remote_port ← parse_port t2 (str "remote port");
    Ok (make_host_port_kind (socket_addr_new any_v4 local_port)
          (mkHostPort remote_host remote_port) protocol).

Definition parse_four_tokens (t0 t1 t2 t3 : bytes) (protocol : option Protocol) :
    result bytes RemoteKind :=
  local_host ← parse_ip t0 (str "local host");
  local_port ← parse_port t1 (str "local port");
  let remote_host := unbracket t2 in
  remote_port ← parse_port t3 (str "remote port");
  Ok (make_host_port_kind (socket_addr_new local_host local_port)
        (mkHostPort remote_host remote_port) protocol).

Definition tokens_to_kind (tokens : list bytes) (protocol : option Protocol) :
    result bytes RemoteKind :=
  match tokens with
  | [] => Err (str "Invalid format: Missing parts")
  | [t0] => parse_one_token t0 protocol
  | [t0; t1] => parse_two_tokens t0 t1 protocol
  | [t0; t1; t2] => parse_three_tokens t0 t1 t2 protocol
  | [t0; t1; t2; t3] => parse_four_tokens t0 t1 t2 t3 protocol
  | _ => Err (str "Invalid format: Unexpected number of address parts")
  end.

Definition tokens_to_stdio_kind (tokens : list bytes) (protocol : option Protocol) :
    result bytes RemoteKind :=
  if decide (SOCKS_KEYWORD ∈ tokens) then
    Err (str "Invalid format: stdio cannot be combined with socks")
  else
    let local := socket_addr_new any_v4 0 in
    match tokens with
    | [t0] =>
        port ← parse_port t0 (str "remote port");
        Ok (make_host_port_kind local (mkHostPort STDIO_DEFAULT_REMOTE_HOST port) protocol)
    | [t0; t1] =>
        let remote_host := unbracket t0 in
        remote_port ← parse_port t1 (str "remote port");
        Ok (make_host_port_kind local (mkHostPort remote_host remote_port) protocol)
    | [] => Err (str "Invalid format: stdio requires a remote host:port or port")
    | _ => Err (str "Invalid format: stdio expects '<host>:<port>' or '<port>'")
    end.

(** [FromStr for RemoteRequest] *)
Definition from_str (input : bytes) : result bytes RemoteRequest :=
  '(dir, after_dir) ← parse_direction input;
  '(protocol_hint, body) ← parse_protocol after_dir;
  tokens ← split_addr_tokens body;
  match tokens with
  | t0 :: addr_tokens =>
      if decide (t0 = STDIO_KEYWORD) then
        match dir with
        | Reverse => Err (str "Invalid format: stdio cannot be reversed")
        | Forward =>
            k ← tokens_to_stdio_kind addr_tokens protocol_hint;
            Ok (mkRemoteRequest dir k true)
        end
      else k ← tokens_to_kind tokens protocol_hint; Ok (mkRemoteRequest dir k false)
  | [] => k ← tokens_to_kind tokens protocol_hint; Ok (mkRemoteRequest dir k false)
  end.

(** ** The tokenizer *)

(** The tokens joined by colons. *)
Fixpoint join (tokens : list bytes) : bytes :=
  match tokens with
  | [] => []
  | [t] => t
  | t :: ts => t ++ ":"%char :: join ts
  end.

(** A bracketed token, atomic up to its first closing bracket, or a plain token
    without a colon that does not open a bracket. *)
Definition token_ok (t : bytes) : Prop :=
  (∃ body, t = "["%char :: body ++ ["]"%char] ∧ "]"%char ∉ body) ∨
  ((":"%char ∉ t) ∧ head t ≠ Some "["%char).

Lemma join_cons t ts : ts ≠ [] → join (t :: ts) = t ++ ":"%char :: join ts.
Proof. by destruct ts. Qed.

Lemma join_nonempty ts : ts ≠ [] → last ts ≠ Some [] → join ts ≠ [].
Proof.
  destruct ts as [|t [|u ts]]; [done|simpl; congruence|].
  intros _ _. rewrite join_cons by done. by intros [_ ?]%app_eq_nil.
Qed.

Lemma split_loop_bracket fuel body r :
  "]"%char ∉ body →
  split_loop (S fuel) ("["%char :: body ++ "]"%char :: r) =
    match r with
    | [] => Ok ["["%char :: body ++ ["]"%char]]
    | d :: s' =>
        if decide (d = ":"%char) then
          if decide (s' = []) then Err (str "Invalid format: trailing ':' after ']'")
          else tokens ← split_loop fuel s'; Ok (("["%char :: body ++ ["]"%char]) :: tokens)
        else Err (str "Invalid format: expected ':' after ']'")
    end.
Proof.
  intros Hb. cbn [split_loop]. rewrite decide_True by done.
  rewrite position_app by done.
  assert (take (length body + 2) ("["%char :: body ++ "]"%char :: r)
          = "["%char :: body ++ ["]"%char]) as ->.
  { rewrite Nat.add_comm. simpl. f_equal. 
    rewrite take_app_ge by lia. f_equal. by replace (S (length body) - length body)%nat with 1%nat by lia. }
  assert (drop (length body + 2) ("["%char :: body ++ "]"%char :: r) = r) as ->.
  { rewrite Nat.add_comm. simpl. rewrite drop_app_ge by lia.
    by replace (S (length body) - length body)%nat with 1%nat by lia. }
  done.
Qed.

Lemma split_loop_plain fuel c t r :
  ":"%char ∉ c :: t → c ≠ "["%char →
  split_loop (S fuel) (c :: t ++ ":"%char :: r) =
    if decide (r = []) then Err (str "Invalid format: trailing ':'")
    else tokens ← split_loop fuel r; Ok ((c :: t) :: tokens).
Proof.
  intros Ht Hc. cbn [split_loop]. rewrite decide_False by done.
  change (c :: t ++ ":"%char :: r) with ((c :: t) ++ ":"%char :: r).
  rewrite position_app by done. cbn [default from_option id].
  by rewrite take_app_length, drop_app_length.
Qed.

Lemma split_loop_last fuel c t :
  ":"%char ∉ c :: t → c ≠ "["%char → split_loop (S fuel) (c :: t) = Ok [c :: t].
Proof.
  intros Ht Hc. cbn [split_loop]. rewrite decide_False by done.
  rewrite (proj2 (position_None _ _)) by done. cbn [default from_option].
  by rewrite firstn_all, drop_all.
Qed.

Lemma split_loop_empty_token fuel r :
  split_loop (S fuel) (":"%char :: r) =
    if decide (r = []) then Err (str "Invalid format: trailing ':'")
    else tokens ← split_loop fuel r; Ok ([] :: tokens).
Proof. done. Qed.

(** Joining well-formed tokens and splitting the text gives the tokens back. *)
Lemma split_loop_join ts : ∀ fuel,
  Forall token_ok ts → last ts ≠ Some [] → (length (join ts) < fuel)%nat →
  split_loop fuel (join ts) = Ok ts.
Proof.
  induction ts as [|t ts IH]; intros fuel Hok Hlast Hfuel.
  { by destruct fuel. }
  destruct fuel as [|fuel]; [lia|]. inversion Hok as [|?? Ht Hts]; subst.
  destruct (decide (ts = [])) as [->|Hne].
  - cbn [join]. destruct Ht as [(body & -> & Hb)|[Hc Hh]].
    + by rewrite split_loop_bracket.
    + destruct t as [|c t]; [done|]. apply split_loop_last; [done|]. by intros ->.
  - rewrite join_cons in * by done. rewrite length_app in Hfuel. simpl in Hfuel.
    assert (last ts ≠ Some []) as Hl by (by destruct ts).
    pose proof (join_nonempty ts Hne Hl).
    destruct Ht as [(body & -> & Hb)|[Hc Hh]].
    + rewrite <-app_comm_cons, <-app_assoc. cbn [app]. rewrite split_loop_bracket by done.
      rewrite decide_True, decide_False by done. by rewrite IH by (done || lia).
    + destruct t as [|c t]; cbn [app].
      * rewrite split_loop_empty_token, decide_False by done. by rewrite IH by (done || lia).
      * rewrite split_loop_plain; [|done|by intros ->]. rewrite decide_False by done.
        by rewrite IH by (done || simpl in *; lia).
Qed.

(** A successful split is a decomposition into well-formed tokens. *)
Lemma split_loop_sound : ∀ fuel s ts,
  (length s < fuel)%nat → split_loop fuel s = Ok ts →
  s = join ts ∧ Forall token_ok ts ∧ last ts ≠ Some [] ∧ (s ≠ [] → ts ≠ []).
Proof.
  induction fuel as [|fuel IH]; intros s ts Hf H; [lia|].
  assert (∀ t s', (length s' < fuel)%nat → s' ≠ [] → token_ok t →
    (tokens ← split_loop fuel s'; Ok (t :: tokens)) = Ok ts →
    t ++ ":"%char :: s' = join ts ∧ Forall token_ok ts ∧ last ts ≠ Some [] ∧ ts ≠ []) as Hstep.
  { intros t s' Hl Hs' Ht E. destruct (split_loop fuel s') as [ts'|] eqn:E'; [|done].
    injection E as <-.
    apply IH in E' as (-> & ? & ? & Hne); [|done]. specialize (Hne Hs').
    rewrite join_cons by done. repeat split; [by constructor|by destruct ts'|done]. }
  destruct s as [|c rest]; [by injection H as <-|].
  destruct (decide (c = "["%char)) as [->|Hc].
  - destruct (position "]"%char rest) as [i|] eqn:Ep.
    2: { cbn [split_loop] in H. by rewrite Ep in H. }
    apply position_Some in Ep as (body & r & -> & Hb & <-).
    rewrite split_loop_bracket in H by done.
    assert (token_ok ("["%char :: body ++ ["]"%char])) as Hok by (left; by exists body).
    destruct r as [|d s'].
    + simplify_eq/=. split_and!; [done|by apply Forall_singleton|done|done].
    + case_decide; [|done]. case_decide; [done|]. subst.
      apply Hstep in H as (<- & ? & ? & ?); [|rewrite length_cons, length_app in Hf; simpl in Hf; lia|done|done].
      split_and!; try done. by rewrite <-app_comm_cons, <-app_assoc.
  - destruct (decide (":"%char ∈ c :: rest)) as [Hin|Hin].
    + destruct (split_once ":"%char (c :: rest)) as [[t r]|] eqn:Es.
      2: { by apply split_once_None in Es. }
      apply split_once_Some in Es as [Es Ht]. rewrite Es in *.
      destruct t as [|c' t]; simpl in Es; simplify_eq.
      * cbn [app] in H. rewrite split_loop_empty_token in H. case_decide; [done|].
        apply Hstep in H as (<- & ? & ? & ?);
          [done|simpl in Hf; lia|done|right; split; [set_solver|done]].
      * cbn [app] in H. rewrite split_loop_plain in H by done. case_decide; [done|].
        apply Hstep in H as (<- & ? & ? & ?);
          [done|simpl in Hf; rewrite length_app in Hf; simpl in Hf; lia|done|].
        right. split; [done|simpl; congruence].
    + rewrite split_loop_last in H by done. simplify_eq/=.
      split_and!; [done| |done|done]. apply Forall_singleton. right. split; [done|simpl; congruence].
Qed.

(** ** What the parser accepts *)

(** The invariant of a parsed declaration: ports fit in sixteen bits, the local
    address carries no IPv6 flow label or zone, and a stdio declaration is a
    forward TCP or UDP one whose local address is the unbound dummy. *)
Definition remote_wf (r : RemoteRequest) : Prop :=
  (∃ ip p, local_socket_addr r = socket_addr_new ip p ∧ p < 65536) ∧
  (∀ h, kind r = KTcp (local_socket_addr r) h ∨ kind r = KUdp (local_socket_addr r) h →
        port h < 65536) ∧
  (stdio r = true → direction r = Forward ∧ is_socks r = false ∧
                    local_socket_addr r = socket_addr_new any_v4 0).

Definition kind_wf (k : RemoteKind) : Prop :=
  (∃ ip p, kind_local k = socket_addr_new ip p ∧ p < 65536) ∧
  (∀ h, k = KTcp (kind_local k) h ∨ k = KUdp (kind_local k) h → port h < 65536).

Lemma parse_port_lt s what p : parse_port s what = Ok p → p < 65536.
Proof.
  unfold parse_port. destruct (parse_u16 s) eqn:E; simpl; [|done].
  intros [= <-]. by eapply parse_u16_lt.
Qed.
#[export] Hint Resolve parse_port_lt : rusnel.

Lemma kind_wf_socks ip p : p < 65536 → kind_wf (KSocks5 (socket_addr_new ip p)).
Proof. intros. split; [by eauto|]. by intros h [|]. Qed.

Lemma kind_wf_host_port ip p h pr :
  p < 65536 → port h < 65536 → kind_wf (make_host_port_kind (socket_addr_new ip p) h pr).
Proof.
  intros. split; [exists ip, p; by destruct pr as [[]|]|].
  destruct pr as [[]|]; intros h' [E|E]; by inversion E; subst.
Qed.
#[export] Hint Resolve kind_wf_socks kind_wf_host_port : rusnel.

Lemma tokens_to_kind_wf ts pr k : tokens_to_kind ts pr = Ok k → kind_wf k.
Proof.
  intros H. destruct ts as [|t0 [|t1 [|t2 [|t3 [|]]]]]; try done; cbn [tokens_to_kind] in H.
  - unfold parse_one_token in H. destruct_ok; eauto with rusnel. by apply kind_wf_socks.
  - unfold parse_two_tokens in H. destruct_ok; eauto with rusnel.
  - unfold parse_three_tokens in H. destruct_ok; eauto with rusnel.
  - unfold parse_four_tokens in H. destruct_ok; eauto with rusnel.
Qed.

Lemma tokens_to_stdio_kind_wf ts pr k :
  tokens_to_stdio_kind ts pr = Ok k →
  kind_wf k ∧ kind_local k = socket_addr_new any_v4 0 ∧ ∀ local, k ≠ KSocks5 local.
Proof.
  unfold tokens_to_stdio_kind. intros H.
  destruct (decide _); [done|].
  assert (∀ h, port h < 65536 → make_host_port_kind (socket_addr_new any_v4 0) h pr = k →
    kind_wf k ∧ kind_local k = socket_addr_new any_v4 0 ∧ ∀ local, k ≠ KSocks5 local) as Hk.
  { intros h Hh <-. split_and!; [by apply kind_wf_host_port|by destruct pr as [[]|]..]. }
  destruct ts as [|t0 [|t1 [|]]]; try done; destruct_ok; (eapply Hk; [|done]); simpl;
    eauto with rusnel.
Qed.

Lemma parse_direction_Ok s d rest :
  parse_direction s = Ok (d, rest) →
  (d = Reverse ∧ s = str "R:" ++ rest ∧ rest ≠ []) ∨
  (d = Forward ∧ s = rest ∧ strip_prefix (str "R:") s = None ∧ s ≠ str "R").
Proof.
  unfold parse_direction. intros H.
  destruct (strip_prefix _ _) as [r|] eqn:E; case_decide; simplify_eq; [|by right].
  left. by apply strip_prefix_Some in E.
Qed.

Lemma from_str_Ok s r :
  from_str s = Ok r → remote_wf r ∧ ∃ rest, parse_direction s = Ok (direction r, rest).
Proof.
  unfold from_str. intros H. destruct_ok. rename a into tokens.
  assert (remote_wf r ∧ direction r = d) as [? <-]; [|by eauto].
  destruct tokens as [|t0 ts]; [done|]. destruct (decide (t0 = STDIO_KEYWORD)).
  - destruct d; [|done]. destruct_ok.
    apply tokens_to_stdio_kind_wf in E2 as ([??] & ? & Hn). split; [|done].
    split_and!; [done..|]. intros _. split_and!; [done| |done].
    unfold is_socks. simpl. destruct a; [done..|by destruct (Hn local)].
  - destruct_ok. apply tokens_to_kind_wf in E2 as [??]. by repeat split.
Qed.

(** A declaration the parser returns satisfies [remote_wf], and it is a
    reverse one exactly when the text starts with [R:]. *)
Theorem from_str_wf s r :
  from_str s = Ok r →
  remote_wf r ∧ (is_reversed r = true ↔ ∃ rest, s = str "R:" ++ rest).
Proof.
  intros [Hwf [rest Hd]]%from_str_Ok. split; [done|]. unfold is_reversed.
  apply parse_direction_Ok in Hd as [(-> & -> & ?)|(-> & -> & Hp & ?)]; [naive_solver|].
  split; [done|]. intros [rest' ->]. by rewrite strip_prefix_app in Hp.
Qed.

Lemma from_str_wf_witness :
  remote_wf (mkRemoteRequest Reverse (KUdp (socket_addr_new any_v4 53)
               (mkHostPort (str "1.1.1.1") 53)) false).
Proof. by apply (from_str_wf (str "R:53:1.1.1.1:53/udp")). Defined.

(** ** The canonical spelling *)

Definition bracket (s : bytes) : bytes := "["%char :: s ++ ["]"%char].

Definition spec_tokens (r : RemoteRequest) : list bytes :=
  let local := [bracket (fmt_ip (sa_ip (local_socket_addr r)));
                fmt_dec (sa_port (local_socket_addr r))] in
  (if stdio r then [STDIO_KEYWORD] else local) ++
  match kind r with
  | KTcp _ h | KUdp _ h => [bracket (host h); fmt_dec (port h)]
  | KSocks5 _ => [SOCKS_KEYWORD]
  end.

Definition spec_suffix (r : RemoteRequest) : bytes :=
  match kind r with KTcp _ _ => str "/tcp" | KUdp _ _ => str "/udp" | KSocks5 _ => [] end.

(** Every part written out and bracketed:
    [R:[127.0.0.1]:8080:[example.com]:80/tcp]. *)
Definition spec_of (r : RemoteRequest) : bytes :=
  (if is_reversed r then str "R:" else []) ++ join (spec_tokens r) ++ spec_suffix r.

Lemma unbracket_bracket s : unbracket (bracket s) = s.
Proof.
  unfold unbracket, bracket, starts_with, ends_with, slice.
  replace (length ("["%char :: s ++ ["]"%char])) with (length s + 2)%nat
    by (rewrite length_cons, length_app; simpl; lia).
  rewrite app_comm_cons, last_snoc, !bool_decide_true by done.
  replace (2 <=? length s + 2)%nat with true by lia. cbn [andb].
  replace (length s + 2 - 1 - 1)%nat with (length s) by lia. simpl. apply take_app_length.
Qed.

Lemma token_ok_bracket s : "]"%char ∉ s → token_ok (bracket s).
Proof. intros. left. by exists s. Qed.

Lemma fmt_dec_not_in c n : to_digit 10 c = None → c ∉ fmt_dec n.
Proof. by apply digit_not_in. Qed.

Lemma token_ok_dec n : token_ok (fmt_dec n).
Proof.
  right. split; [by apply fmt_dec_not_in|].
  pose proof (fmt_dec_not_in "["%char n eq_refl). intros Hh.
  destruct (fmt_dec n); set_solver.
Qed.

Lemma fmt_ip_not_in c ip :
  to_digit 16 c = None → to_digit 10 c = None → c ≠ ":"%char → c ≠ "."%char → c ∉ fmt_ip ip.
Proof.
  intros H16 H10 Hc Hd.
  assert (∀ a, c ∉ fmt_v4 a) as H4.
  { intros a. unfold fmt_v4. pose proof (λ n, fmt_dec_not_in c n H10). set_solver. }
  destruct ip as [a|a]; [apply H4|]. simpl. unfold fmt_v6.
  destruct (to_ipv4_mapped a); [rewrite not_elem_of_app; split; [|by apply H4]|].
  - intros Hin. change (str "::ffff:") with ([":"; ":"; "f"; "f"; "f"; "f"; ":"]%char : bytes) in Hin.
    assert (c = "f"%char) as -> by set_solver. done.
  - rewrite !fmt_segs_sep. pose proof (λ l, sep_segs_not_in c 0 l H16 Hc).
    case_match; rewrite ?not_elem_of_app; [split_and!|]; [done| |done|done].
    change (str "::") with ([":"; ":"]%char : bytes). set_solver.
Qed.

Lemma parse_ip_bracket ip what : parse_ip (bracket (fmt_ip ip)) what = Ok ip.
Proof. unfold parse_ip. by rewrite unbracket_bracket, parse_fmt_ip. Qed.

Lemma parse_port_fmt p what : p < 65536 → parse_port (fmt_dec p) what = Ok p.
Proof. intros. unfold parse_port. by rewrite parse_u16_fmt_dec. Qed.

Lemma fmt_dec_not_socks p : p < 65536 → fmt_dec p ≠ SOCKS_KEYWORD.
Proof. intros Hp E. pose proof (parse_u16_fmt_dec p Hp) as H. by rewrite E in H. Qed.

Lemma socket_addr_new_ip_port ip p :
  sa_ip (socket_addr_new ip p) = ip ∧ sa_port (socket_addr_new ip p) = p.
Proof. by destruct ip. Qed.

(** What a declaration must satisfy to have a canonical spelling. *)
Definition spellable (r : RemoteRequest) : Prop :=
  match kind r with KTcp _ h | KUdp _ h => "]"%char ∉ host h | KSocks5 _ => True end.

Lemma spec_tokens_ok r : spellable r → Forall token_ok (spec_tokens r).
Proof.
  intros Hs. assert (Forall token_ok [bracket (fmt_ip (sa_ip (local_socket_addr r)));
                fmt_dec (sa_port (local_socket_addr r))]).
  { apply Forall_cons. split; [|apply Forall_singleton, token_ok_dec].
    by apply token_ok_bracket, fmt_ip_not_in. }
  unfold spec_tokens. apply Forall_app. split.
  - destruct (stdio r); [|done]. apply Forall_singleton. right. split; [|done].
    by apply (bool_decide_unpack _).
  - unfold spellable in Hs. destruct (kind r);
      [apply Forall_cons; split; [by apply token_ok_bracket|apply Forall_singleton, token_ok_dec]..|].
    apply Forall_singleton. right. split; [by apply (bool_decide_unpack _)|done].
Qed.

Lemma parse_direction_spec r c body :
  c ≠ "R"%char →
  parse_direction ((if is_reversed r then str "R:" else []) ++ c :: body) =
    Ok (direction r, c :: body).
Proof.
  intros Hc. unfold is_reversed, parse_direction. destruct (direction r).
  - rewrite app_nil_l. replace (strip_prefix (str "R:") (c :: body)) with (@None bytes).
    + rewrite decide_False; [done|]. by intros [= -> ?].
    + symmetry. cbn [strip_prefix str String.list_ascii_of_string].
      by rewrite decide_False by congruence.
  - by rewrite strip_prefix_app, decide_False.
Qed.

Lemma spec_tokens_socks_no_slash r k :
  kind r = KSocks5 k → "/"%char ∉ join (spec_tokens r).
Proof.
  intros E. unfold spec_tokens. rewrite E. destruct (stdio r).
  - by apply (bool_decide_unpack _).
  - cbn [join app]. unfold bracket.
    pose proof (fmt_ip_not_in "/"%char (sa_ip (local_socket_addr r))).
    pose proof (fmt_dec_not_in "/"%char (sa_port (local_socket_addr r)) eq_refl).
    assert ("/"%char ∉ SOCKS_KEYWORD) by (by apply (bool_decide_unpack _)).
    assert ("/"%char ∉ fmt_ip (sa_ip (local_socket_addr r))) by auto.
    set_solver.
Qed.

Lemma parse_protocol_spec r :
  parse_protocol (join (spec_tokens r) ++ spec_suffix r) =
    Ok (kind_protocol (kind r), join (spec_tokens r)).
Proof.
  unfold parse_protocol, spec_suffix. destruct (kind r) eqn:E.
  - by rewrite (rsplit_once_app "/"%char _ (str "tcp")) by (by apply (bool_decide_unpack _)).
  - by rewrite (rsplit_once_app "/"%char _ (str "udp")) by (by apply (bool_decide_unpack _)).
  - rewrite app_nil_r. by rewrite (proj2 (rsplit_once_None _ _)) by eauto using spec_tokens_socks_no_slash.
Qed.

Lemma spec_of_head r : ∃ c body, c ≠ "R"%char ∧ join (spec_tokens r) ++ spec_suffix r = c :: body.
Proof.
  unfold spec_tokens. destruct (stdio r), (kind r); eexists _, _; (split; [|reflexivity]); done.
Qed.

Lemma spec_tokens_ne r : spec_tokens r ≠ [].
Proof. unfold spec_tokens. by destruct (stdio r), (kind r). Qed.

Lemma spec_tokens_last r : last (spec_tokens r) ≠ Some [].
Proof.
  unfold spec_tokens. rewrite last_app.
  destruct (kind r) as [l h|l h|l]; [..|done]; simpl; intros [= E];
    by apply (fmt_radix_nonempty 10 (port h)).
Qed.

Lemma spec_tokens_kind r :
  remote_wf r → stdio r = false →
  tokens_to_kind (spec_tokens r) (kind_protocol (kind r)) = Ok (kind r).
Proof.
  intros ((ip & p & Hl & Hp) & Hport & _) Hs. unfold spec_tokens. rewrite Hs, Hl.
  destruct (socket_addr_new_ip_port ip p) as [-> ->].
  destruct (kind r) as [l h|l h|l] eqn:E; unfold local_socket_addr in *; rewrite E in *;
    simpl in Hl; subst l; cbn [app tokens_to_kind].
  1,2: unfold parse_four_tokens; rewrite parse_ip_bracket, !parse_port_fmt by eauto;
    destruct h; cbn [mbind result_bind host port]; by rewrite unbracket_bracket.
  unfold parse_three_tokens. rewrite decide_True by done.
  by rewrite parse_ip_bracket, parse_port_fmt.
Qed.

Lemma bracket_not_socks s : bracket s ≠ SOCKS_KEYWORD.
Proof. done. Qed.

Lemma spec_tokens_stdio_kind r ts :
  remote_wf r → stdio r = true → spec_tokens r = STDIO_KEYWORD :: ts →
  tokens_to_stdio_kind ts (kind_protocol (kind r)) = Ok (kind r).
Proof.
  intros (_ & Hport & Hst) Hs. destruct (Hst Hs) as (_ & Hsk & Hl).
  unfold spec_tokens. rewrite Hs. unfold is_socks, local_socket_addr in *.
  destruct (kind r) as [l h|l h|l]; [..|done]; simpl in Hl; subst l;
    intros [= <-]; specialize (Hport h);
    (unfold tokens_to_stdio_kind; rewrite decide_False;
     [|rewrite !elem_of_cons, elem_of_nil; intros [E|[E|[]]];
       [by apply (bracket_not_socks (host h))|by apply (fmt_dec_not_socks (port h)); auto]]);
    rewrite parse_port_fmt by auto; destruct h; cbn [mbind result_bind host port];
    by rewrite unbracket_bracket.
Qed.

(** C8: parsing the canonical spelling of a declaration gives the declaration
    back, for every direction, protocol, address family and host text without a
    closing bracket. *)
Theorem from_str_spec_of r :
  remote_wf r → spellable r → from_str (spec_of r) = Ok r.
Proof.
  intros Hwf Hs. unfold from_str, spec_of.
  destruct (spec_of_head r) as (c & body & Hc & E). rewrite E, parse_direction_spec by done.
  cbn [mbind result_bind]. rewrite <-E, parse_protocol_spec. cbn [mbind result_bind].
  unfold split_addr_tokens. rewrite split_loop_join;
    [|by apply spec_tokens_ok|by apply spec_tokens_last|lia].
  cbn [mbind result_bind]. destruct (stdio r) eqn:Est.
  - destruct (spec_tokens r) as [|t0 ts] eqn:Et; [by apply spec_tokens_ne in Et|].
    assert (t0 = STDIO_KEYWORD) as -> by (unfold spec_tokens in Et; rewrite Est in Et; by injection Et).
    rewrite decide_True by done. destruct Hwf as (? & ? & Hst). destruct (Hst Est) as (Hd & _).
    rewrite Hd. rewrite spec_tokens_stdio_kind by done.
    destruct r; cbn in *. by subst.
  - destruct (spec_tokens r) as [|t0 ts] eqn:Et; [by apply spec_tokens_ne in Et|].
    assert (t0 ≠ STDIO_KEYWORD).
    { unfold spec_tokens in Et. rewrite Est in Et. by injection Et as <-. }
    rewrite decide_False by done. rewrite <-Et, spec_tokens_kind by done.
    destruct r; cbn in *. by subst.
Qed.

Lemma from_str_spec_of_witness :
  from_str (str "R:[::1]:8080:[2001:db8::7]:80/udp") =
    Ok (mkRemoteRequest Reverse
          (KUdp (SAV6 (mkSockV6 (default (mkV6 (zero, zero) (zero, zero) (zero, zero) (zero, zero)
                    (zero, zero) (zero, zero) (zero, zero) (zero, zero)) (parse_ipv6 (str "::1"))) 8080 0 0))
             (mkHostPort (str "2001:db8::7") 80)) false).
Proof.
  refine (from_str_spec_of (mkRemoteRequest Reverse (KUdp (socket_addr_new
    (default any_v4 (parse_ipaddr (str "::1"))) 8080) (mkHostPort (str "2001:db8::7") 80)) false) _ _).
  - split_and!; [eexists _, 8080; split; [reflexivity|lia]| |done].
    intros h [H|H]; [done|]. by injection H as <-.
  - by apply (bool_decide_unpack _).
Defined.

(** C26: the tokenizer succeeds exactly on the colon-joined sequences of
    well-formed tokens that do not end with an empty token, and returns that
    sequence: bracketed parts are atomic, no byte of the input is lost, and the
    decomposition is unique. *)
Theorem split_tokens_iff s ts :
  split_addr_tokens s = Ok ts ↔
    s = join ts ∧ Forall token_ok ts ∧ last ts ≠ Some [].
Proof.
  unfold split_addr_tokens. split.
  - intros H. apply split_loop_sound in H as (? & ? & ? & _); [done|lia].
  - intros (-> & ? & ?). apply split_loop_join; [done..|lia].
Qed.

(** The address text handed to [connect] for a numeric host is the socket
    address with that address and port; IPv6 literals are bracketed. *)
Theorem to_addr_string_parse ip p :
  p < 65536 →
  parse_socket (to_addr_string (mkHostPort (fmt_ip ip) p)) = Some (socket_addr_new ip p).
Proof.
  intros Hp.
  assert (to_addr_string (mkHostPort (fmt_ip ip) p) = fmt_socket (socket_addr_new ip p)) as ->.
  { unfold to_addr_string. cbn [host port]. destruct ip as [a|a]; cbn [fmt_ip].
    - by rewrite parse_ipv6_fmt_v4.
    - by rewrite parse_fmt_v6. }
  apply parse_fmt_socket; [by apply socket_addr_new_ok|].
  destruct ip; intros a6 E; by simplify_eq/=.
Qed.

Lemma to_addr_string_parse_witness :
  parse_socket (str "[::1]:443") =
    Some (socket_addr_new (default any_v4 (parse_ipaddr (str "::1"))) 443).
Proof.
  refine (to_addr_string_parse (default any_v4 (parse_ipaddr (str "::1"))) 443 _). lia.
Defined.
