(* ===== verification/Counted.v ===== *)
(** * Counted: the byte counters of a conn ([src/common/counted.rs], [count_in] and
      [count_out] of [src/common/tcp.rs])

    The two counters of a conn are atomics behind [Arc]s: the conn's entry and the readers
    of the data plane hold handles of the same cells. The cells are a store here, so that
    what a reader adds is what the entry's snapshot loads. *)

From S2P Require Import Prelude.

(** The cells, by location. *)
Abbreviation Atomics := (gmap N N).

Definition load_relaxed (a : N) (m : Atomics) : N := default 0 (m !! a).
Definition fetch_add (a : N) (n : N) (m : Atomics) : Atomics := <[a := wadd64 (load_relaxed a m) n]> m.

Record TunnelCounters := mkCounters { bytes_in : N; bytes_out : N }.

(** [TunnelCounters::new] at two cells that are not in use. *)
Definition counters_new (i o : N) (m : Atomics) : TunnelCounters * Atomics :=
  (mkCounters i o, <[i := 0]> (<[o := 0]> m)).

(** [in_handle], [out_handle]: another [Arc] of the same cell. *)
Definition in_handle (c : TunnelCounters) : N := bytes_in c.
Definition out_handle (c : TunnelCounters) : N := bytes_out c.

(** [TunnelCounters::add_in], [add_out], [snapshot] *)
Definition counters_add_in (c : TunnelCounters) (n : N) (m : Atomics) : Atomics :=
  if 0 <? n then fetch_add (bytes_in c) n m else m.
Definition counters_add_out (c : TunnelCounters) (n : N) (m : Atomics) : Atomics :=
  if 0 <? n then fetch_add (bytes_out c) n m else m.
Definition counters_snapshot (c : TunnelCounters) (m : Atomics) : N * N :=
  (load_relaxed (bytes_in c) m, load_relaxed (bytes_out c) m).

(** ** Readers *)

(** [std::task::Poll] *)
Inductive Poll (A : Type) := Ready (a : A) | Pending.
Arguments Ready {A} a.
Arguments Pending {A}.

Section readers.
Context {R E : Type}.

(** [poll_read] of the wrapped reader: what it becomes, the answer and the buffer. *)
Variable inner_poll : R → bytes → R * (Poll (result E unit) * bytes).

Record CountedReader := mkCountedReader { cr_inner : R; cr_counter : N }.

(** [CountedReader::poll_read] over the cells. *)
Definition counted_poll (r : CountedReader) (buf : bytes) (m : Atomics) :
    CountedReader * (Poll (result E unit) * bytes) * Atomics :=
  let before := len buf in
  let '(inner, (res, buf')) := inner_poll (cr_inner r) buf in
  (mkCountedReader inner (cr_counter r), (res, buf'),
   match res with
   | Ready (Ok _) =>
       let delta := len buf' - before in
       if 0 <? delta then fetch_add (cr_counter r) delta m else m
   | _ => m
   end).

(** The box [count_in] and [count_out] return. *)
Inductive BoxedReader := Plain (r : R) | Counted (r : CountedReader).

Definition count_in (inner : R) (counters : option TunnelCounters) : BoxedReader :=
  match counters with Some c => Counted (mkCountedReader inner (in_handle c)) | None => Plain inner end.
Definition count_out (inner : R) (counters : option TunnelCounters) : BoxedReader :=
  match counters with Some c => Counted (mkCountedReader inner (out_handle c)) | None => Plain inner end.

Definition boxed_poll (r : BoxedReader) (buf : bytes) (m : Atomics) :
    BoxedReader * (Poll (result E unit) * bytes) * Atomics :=
  match r with
  | Plain r => let '(r, answer) := inner_poll r buf in (Plain r, answer, m)
  | Counted r => let '(r, answer, m) := counted_poll r buf m in (Counted r, answer, m)
  end.

(** The answers to polls with these buffers, in turn. *)
Fixpoint boxed_polls (r : BoxedReader) (bufs : list bytes) (m : Atomics) :
    list (Poll (result E unit) * bytes) * Atomics :=
  match bufs with
  | [] => ([], m)
  | buf :: bufs =>
      let '(r, answer, m) := boxed_poll r buf m in
      let '(answers, m) := boxed_polls r bufs m in
      (answer :: answers, m)
  end.

Fixpoint inner_polls (r : R) (bufs : list bytes) : list (Poll (result E unit) * bytes) :=
  match bufs with
  | [] => []
  | buf :: bufs => let '(r, answer) := inner_poll r buf in answer :: inner_polls r bufs
  end.

(** The bytes successful polls put into their buffers. *)
Definition filled (buf : bytes) (answer : Poll (result E unit) * bytes) : N :=
  match answer.1 with Ready (Ok _) => len answer.2 - len buf | _ => 0 end.
Definition delivered (bufs : list bytes) (answers : list (Poll (result E unit) * bytes)) : N :=
  nsum (zip_with filled bufs answers).

(** One poll: the inner answer, and the cell grows by what was filled. *)
Lemma counted_poll_spec r buf m :
  load_relaxed (cr_counter r) m < 2 ^ 64 →
  let '(r', answer, m') := counted_poll r buf m in
  inner_poll (cr_inner r) buf = (cr_inner r', answer) ∧ cr_counter r' = cr_counter r ∧
  load_relaxed (cr_counter r) m' = wadd64 (load_relaxed (cr_counter r) m) (filled buf answer) ∧
  ∀ a, a ≠ cr_counter r → load_relaxed a m' = load_relaxed a m.
Proof.
  intros Hb. unfold counted_poll. destruct (inner_poll (cr_inner r) buf) as [inner [res buf']].
  unfold filled, fetch_add, load_relaxed in *. cbn [fst snd].
  destruct res as [[[]|e]|]; cbn [fst snd cr_inner cr_counter];
    [|split_and!; [done..|by unfold wadd64; rewrite N.add_0_r, wrap64_id|done]..].
  destruct (N.ltb_spec 0 (len buf' - len buf)) as [Hlt|Hge]; split_and!; try done.
  - by rewrite lookup_insert_eq.
  - intros a Ha. by rewrite lookup_insert_ne.
  - replace (len buf' - len buf) with 0 by lia. unfold wadd64. by rewrite N.add_0_r, wrap64_id.
Qed.

Lemma counted_polls_spec bufs : ∀ r m,
  load_relaxed (cr_counter r) m < 2 ^ 64 →
  let '(answers, m') := boxed_polls (Counted r) bufs m in
  answers = inner_polls (cr_inner r) bufs ∧
  load_relaxed (cr_counter r) m' = wrap64 (load_relaxed (cr_counter r) m + delivered bufs answers) ∧
  ∀ a, a ≠ cr_counter r → load_relaxed a m' = load_relaxed a m.
Proof.
  induction bufs as [|buf bufs IH]; intros r m Hb; cbn [boxed_polls inner_polls].
  - split_and!; [done| |done]. unfold delivered. cbn. by rewrite N.add_0_r, wrap64_id.
  - cbn [boxed_poll]. pose proof (counted_poll_spec r buf m Hb) as Hp.
    destruct (counted_poll r buf m) as [[r' answer] m1]. destruct Hp as (Hi & Hc & Hl & Ho).
    assert (load_relaxed (cr_counter r') m1 < 2 ^ 64) as Hb' by (rewrite Hc, Hl; apply wrap64_lt).
    specialize (IH r' m1 Hb'). destruct (boxed_polls (Counted r') bufs m1) as [answers m2].
    destruct IH as (-> & Hl' & Ho'). rewrite Hi, Hc in *. split_and!; [done| |].
    + rewrite Hl', Hl. unfold wadd64. rewrite wrap64_add_l. unfold delivered. cbn [zip_with nsum foldr]. by rewrite N.add_assoc.
    + intros a Ha. by rewrite Ho', Ho.
Qed.

(** C33: counting is invisible to the data plane and exact: the readers the copies of a
    TCP conn go through answer every poll as the socket or the stream would, with or
    without counters; and with counters the snapshot of the conn grows, modulo 2^64, by
    the bytes the successful polls filled in, in on the stream's side and out on the
    socket's, and in no other cell. *)
Theorem counting_transparent from_quic from_tcp i o m bufs_in bufs_out :
  i ≠ o →
  let '(c, m0) := counters_new i o m in
  let '(a_in, m1) := boxed_polls (count_in from_quic (Some c)) bufs_in m0 in
  let '(a_out, m2) := boxed_polls (count_out from_tcp (Some c)) bufs_out m1 in
  a_in = inner_polls from_quic bufs_in ∧ a_out = inner_polls from_tcp bufs_out ∧
  counters_snapshot c m2 = (wrap64 (delivered bufs_in a_in), wrap64 (delivered bufs_out a_out)) ∧
  (∀ a, a ≠ i → a ≠ o → load_relaxed a m2 = load_relaxed a m).
Proof.
  intros Hne. unfold counters_new, count_in, count_out, counters_snapshot. cbn [in_handle out_handle bytes_in bytes_out].
  set (m0 := <[i := 0]> _).
  assert (load_relaxed i m0 = 0) as Hi by (unfold load_relaxed, m0; by rewrite lookup_insert_eq).
  assert (load_relaxed o m0 = 0) as Ho by (unfold load_relaxed, m0; by rewrite lookup_insert_ne, lookup_insert_eq by done).
  pose proof (counted_polls_spec bufs_in (mkCountedReader from_quic i) m0) as H1. cbn [cr_counter cr_inner] in H1.
  rewrite Hi in H1. specialize (H1 ltac:(done)). destruct (boxed_polls _ bufs_in m0) as [a_in m1]. destruct H1 as (-> & L1 & O1).
  pose proof (counted_polls_spec bufs_out (mkCountedReader from_tcp o) m1) as H2. cbn [cr_counter cr_inner] in H2.
  rewrite (O1 o), Ho in H2 by done. specialize (H2 ltac:(done)). destruct (boxed_polls _ bufs_out m1) as [a_out m2].
  destruct H2 as (-> & L2 & O2). rewrite N.add_0_l in L1, L2. split_and!; [done..| |].
  - by rewrite L2, O2, L1 by done.
  - intros a Hai Hao. rewrite O2, O1 by done. unfold load_relaxed, m0. by rewrite !lookup_insert_ne.
Qed.

(** Without counters the readers are the socket and the stream themselves. *)
Lemma uncounted_plain r bufs m :
  boxed_polls (count_in r None) bufs m = (inner_polls r bufs, m) ∧
  boxed_polls (count_out r None) bufs m = (inner_polls r bufs, m).
Proof.
  cut (∀ r, boxed_polls (Plain r) bufs m = (inner_polls r bufs, m)); [by intros Hp; split; apply Hp|].
  clear r. induction bufs as [|buf bufs IH]; intros r; cbn [boxed_polls inner_polls boxed_poll]; [done|].
  destruct (inner_poll r buf) as [r' answer]. by rewrite IH.
Qed.

End readers.

(** A reader that hands out a string in pieces, with a poll that is not ready. *)
Definition demo_reader (r : list bytes) (buf : bytes) : list bytes * (Poll (result bytes unit) * bytes) :=
  match r with
  | [] => ([], (Ready (Ok tt), buf))
  | [] :: r => (r, (Pending, buf))
  | chunk :: r => (r, (Ready (Ok tt), buf ++ chunk))
  end.

Lemma counting_transparent_witness :
  (λ x : list (Poll (result bytes unit) * bytes) * Atomics, counters_snapshot (mkCounters 1 2) x.2)
    (boxed_polls demo_reader (count_out [str "abc"] (Some (mkCounters 1 2))) [[]; []]
       (boxed_polls demo_reader (count_in [str "xy"; []; str "z"] (Some (mkCounters 1 2))) [str "k"; []; []]
          (counters_new 1 2 ∅).2).2) = (3, 3).
Proof.
  assert (1%N ≠ 2%N) as Hne by lia.
  pose proof (counting_transparent demo_reader [str "xy"; []; str "z"] [str "abc"] 1 2 ∅ [str "k"; []; []] [[]; []] Hne) as Hc.
  cbn [counters_new] in Hc.
  destruct (boxed_polls demo_reader (count_in [str "xy"; []; str "z"] (Some (mkCounters 1 2))) [str "k"; []; []]
    (<[1 := 0]> (<[2 := 0]> ∅))) as [a_in m1] eqn:E1.
  destruct (boxed_polls demo_reader (count_out [str "abc"] (Some (mkCounters 1 2))) [[]; []] m1) as [a_out m2] eqn:E2.
  destruct Hc as (Ha & Hb & Hs & _). cbn [counters_new snd]. rewrite E1. cbn [snd]. rewrite E2. cbn [snd]. rewrite Hs, Ha, Hb.
  vm_compute. reflexivity.
Defined.
