(* ===== verification/State.v ===== *)
(** * State: the server's observability state ([src/server/state.rs], [src/common/counted.rs])

    Clients, tunnels and conns are reference-counted entries that several tasks
    share: a tunnel entry is reachable from the global index, from its client's
    map and from every guard of its conns. The model keeps the entries in a store
    indexed by locations and lets the maps hold locations, so the aliasing is the
    source's. The runs of the server over these operations, with their abstract
    ledger of the bytes that flowed, are in [Ledger]; the interleavings of the
    single accesses inside an operation are in [Atomic]. *)

From S2P Require Import Prelude Text NetAddr Remote.

(** ** Iteration over a concurrent map

    [DashMap::iter] visits every entry once, in an order that depends on the
    hasher: the order is a parameter. *)
Class MapOrder := {
  iter : ∀ {A}, gmap N A → list (N * A);
  iter_perm : ∀ {A} (m : gmap N A), iter m ≡ₚ map_to_list m }.

Definition by_tree : MapOrder := {| iter := λ A m, map_to_list m; iter_perm := λ A m, reflexivity _ |}.

(** ** Data *)

(** An [Arc]. *)
Abbreviation loc := N.

(** [SystemTime], in nanoseconds relative to the epoch. *)
Abbreviation SystemTime := Z.

Record ConnEntry := mkConn {
  ce_id : N;
  ce_tunnel_id : N;
  ce_client_id : N;
  ce_opened_at : SystemTime;
  ce_peer : option bytes;
  ce_in : N;   (* counters.bytes_in *)
  ce_out : N   (* counters.bytes_out *) }.

Record TunnelEntry := mkTunnel {
  te_id : N;
  te_client_id : N;
  te_direction : Direction;
  te_kind : RemoteKind;
  te_spec : bytes;
  te_opened_at : SystemTime;
  te_conns : gmap N loc;
  te_cumulative_in : N;
  te_cumulative_out : N;
  te_total_conns : N }.

Record ClientEntry := mkClient {
  cl_id : N;
  cl_remote : SocketAddr;
  cl_connected_at : SystemTime;
  cl_tunnels : gmap N loc }.

Record HistoryEntry := mkHistory {
  hi_client_id : N;
  hi_remote : bytes;
  hi_connected_at_ms : N;
  hi_disconnected_at_ms : N;
  hi_reason : bytes;
  hi_bytes_in : N;
  hi_bytes_out : N;
  hi_total_conns : N }.

(** [TunnelTotals] and [ClientTotals] have the same fields. *)
Record Totals := mkTotals {
  active_in : N;
  active_out : N;
  cumulative_in : N;
  cumulative_out : N;
  active_conns : N;
  total_conns : N }.

Definition Totals_default : Totals := mkTotals 0 0 0 0 0 0.

(** [Inner], followed by the store of the entries. *)
Record World := mkWorld {
  started_at : SystemTime;
  listen_addr : SocketAddr;
  next_tunnel_id : N;
  next_conn_id : N;
  clients : gmap N loc;
  tunnels : gmap N loc;
  conns : gmap N loc;
  history : list HistoryEntry;
  hc : gmap loc ClientEntry;
  ht : gmap loc TunnelEntry;
  hn : gmap loc ConnEntry;
  next_loc : loc }.

Definition HISTORY_CAPACITY : nat := 256.

(** ** Field updates *)

Definition set_next_tunnel_id n w :=
  mkWorld (started_at w) (listen_addr w) n (next_conn_id w) (clients w) (tunnels w) (conns w)
    (history w) (hc w) (ht w) (hn w) (next_loc w).
Definition set_next_conn_id n w :=
  mkWorld (started_at w) (listen_addr w) (next_tunnel_id w) n (clients w) (tunnels w) (conns w)
    (history w) (hc w) (ht w) (hn w) (next_loc w).
Definition set_clients m w :=
  mkWorld (started_at w) (listen_addr w) (next_tunnel_id w) (next_conn_id w) m (tunnels w) (conns w)
    (history w) (hc w) (ht w) (hn w) (next_loc w).
Definition set_tunnels m w :=
  mkWorld (started_at w) (listen_addr w) (next_tunnel_id w) (next_conn_id w) (clients w) m (conns w)
    (history w) (hc w) (ht w) (hn w) (next_loc w).
Definition set_conns m w :=
  mkWorld (started_at w) (listen_addr w) (next_tunnel_id w) (next_conn_id w) (clients w) (tunnels w) m
    (history w) (hc w) (ht w) (hn w) (next_loc w).
Definition set_history h w :=
  mkWorld (started_at w) (listen_addr w) (next_tunnel_id w) (next_conn_id w) (clients w) (tunnels w)
    (conns w) h (hc w) (ht w) (hn w) (next_loc w).
Definition set_hc m w :=
  mkWorld (started_at w) (listen_addr w) (next_tunnel_id w) (next_conn_id w) (clients w) (tunnels w)
    (conns w) (history w) m (ht w) (hn w) (next_loc w).
Definition set_ht m w :=
  mkWorld (started_at w) (listen_addr w) (next_tunnel_id w) (next_conn_id w) (clients w) (tunnels w)
    (conns w) (history w) (hc w) m (hn w) (next_loc w).
Definition set_hn m w :=
  mkWorld (started_at w) (listen_addr w) (next_tunnel_id w) (next_conn_id w) (clients w) (tunnels w)
    (conns w) (history w) (hc w) (ht w) m (next_loc w).
Definition set_next_loc n w :=
  mkWorld (started_at w) (listen_addr w) (next_tunnel_id w) (next_conn_id w) (clients w) (tunnels w)
    (conns w) (history w) (hc w) (ht w) (hn w) n.

Definition te_set_conns m te :=
  mkTunnel (te_id te) (te_client_id te) (te_direction te) (te_kind te) (te_spec te) (te_opened_at te)
    m (te_cumulative_in te) (te_cumulative_out te) (te_total_conns te).
Definition te_set_cumulative i o te :=
  mkTunnel (te_id te) (te_client_id te) (te_direction te) (te_kind te) (te_spec te) (te_opened_at te)
    (te_conns te) i o (te_total_conns te).
Definition te_set_total n te :=
  mkTunnel (te_id te) (te_client_id te) (te_direction te) (te_kind te) (te_spec te) (te_opened_at te)
    (te_conns te) (te_cumulative_in te) (te_cumulative_out te) n.
Definition cl_set_tunnels m e :=
  mkClient (cl_id e) (cl_remote e) (cl_connected_at e) m.
Definition ce_set_bytes i o c :=
  mkConn (ce_id c) (ce_tunnel_id c) (ce_client_id c) (ce_opened_at c) (ce_peer c) i o.

(** Mutation through an [Arc]. *)
Definition upd_tunnel (t : loc) (f : TunnelEntry → TunnelEntry) (w : World) : World :=
  set_ht (alter f t (ht w)) w.
Definition upd_client (l : loc) (f : ClientEntry → ClientEntry) (w : World) : World :=
  set_hc (alter f l (hc w)) w.
Definition upd_conn (c : loc) (f : ConnEntry → ConnEntry) (w : World) : World :=
  set_hn (alter f c (hn w)) w.

(** ** Time and counters *)

(** [unix_ms]: 0 before the epoch, and [as u64] of the milliseconds after. *)
Definition unix_ms (t : SystemTime) : N :=
  if (t <? 0)%Z then 0 else wrap64 (Z.to_N (t / 1000000)).

(** [TunnelCounters::add_in], [add_out] and [snapshot] on a conn's counters. *)
Definition add_in (n : N) (c : ConnEntry) : ConnEntry :=
  if 0 <? n then ce_set_bytes (wadd64 (ce_in c) n) (ce_out c) c else c.
Definition add_out (n : N) (c : ConnEntry) : ConnEntry :=
  if 0 <? n then ce_set_bytes (ce_in c) (wadd64 (ce_out c) n) c else c.
Definition snapshot (c : ConnEntry) : N * N := (ce_in c, ce_out c).

(** The counters behind an [Arc]; every location a map holds is allocated. *)
Definition snapshot_at (w : World) (c : loc) : N * N :=
  match hn w !! c with Some e => snapshot e | None => (0, 0) end.

(** ** Operations *)

Section operations.
Context `{MapOrder}.

(** [ServerState::new] *)
Definition new (now : SystemTime) (addr : SocketAddr) : World :=
  mkWorld now addr 0 0 ∅ ∅ ∅ [] ∅ ∅ ∅ 0.

Definition client_count (w : World) : N := N.of_nat (size (clients w)).
Definition tunnel_count (w : World) : N := N.of_nat (size (tunnels w)).
Definition conn_count (w : World) : N := N.of_nat (size (conns w)).

(** [TunnelEntry::totals]; the release build's [+] wraps. *)
Definition tunnel_totals (w : World) (te : TunnelEntry) : Totals :=
  let '(i, o) :=
    foldl (λ acc kc, let '(i, o) := snapshot_at w kc.2 in (wadd64 acc.1 i, wadd64 acc.2 o))
      (0, 0) (iter (te_conns te)) in
  mkTotals i o (te_cumulative_in te) (te_cumulative_out te)
    (N.of_nat (size (te_conns te))) (te_total_conns te).

(** The entry behind a tunnel's location. *)
Definition tunnel_totals_at (w : World) (t : loc) : Totals :=
  match ht w !! t with Some te => tunnel_totals w te | None => Totals_default end.

(** [ClientEntry::totals] *)
Definition add_totals (t tot : Totals) : Totals :=
  mkTotals (wadd64 (active_in t) (active_in tot)) (wadd64 (active_out t) (active_out tot))
    (wadd64 (cumulative_in t) (cumulative_in tot)) (wadd64 (cumulative_out t) (cumulative_out tot))
    (wadd64 (active_conns t) (active_conns tot)) (wadd64 (total_conns t) (total_conns tot)).
Definition client_totals (w : World) (e : ClientEntry) : Totals :=
  foldl (λ t kt, add_totals t (tunnel_totals_at w kt.2)) Totals_default (iter (cl_tunnels e)).

(** [ServerState::register_client] *)
Definition register_client (id : N) (remote : SocketAddr) (now : SystemTime) (w : World) :
    World * loc :=
  let l := next_loc w in
  let entry := mkClient id remote now ∅ in
  let w := set_next_loc (l + 1) (set_hc (<[l := entry]> (hc w)) w) in
  (set_clients (<[id := l]> (clients w)) w, l).

(** The body of the loop of [register_tunnels]; [now] is the clock's reading. *)
Definition register_tunnel (client : loc) (client_id : N) (req : RemoteRequest) (now : SystemTime)
    (w : World) : World * loc :=
  let id := wadd64 (next_tunnel_id w) 1 in
  let t := next_loc w in
  let entry := mkTunnel id client_id (direction req) (kind req) (fmt_remote req) now ∅ 0 0 0 in
  let w := set_next_tunnel_id id w in
  let w := set_next_loc (t + 1) (set_ht (<[t := entry]> (ht w)) w) in
  let w := upd_client client (λ e, cl_set_tunnels (<[id := t]> (cl_tunnels e)) e) w in
  (set_tunnels (<[id := t]> (tunnels w)) w, t).

(** [ServerState::register_tunnels] *)
Fixpoint register_tunnels (client : loc) (client_id : N) (reqs : list (RemoteRequest * SystemTime))
    (w : World) : World * list loc :=
  match reqs with
  | [] => (w, [])
  | (req, now) :: reqs' =>
      let '(w, t) := register_tunnel client client_id req now w in
      let '(w, ts) := register_tunnels client client_id reqs' w in
      (w, t :: ts)
  end.

(** [ServerState::tunnel], [conn], [client] *)
Definition tunnel (id : N) (w : World) : option loc := tunnels w !! id.
Definition conn (id : N) (w : World) : option loc := conns w !! id.
Definition client (id : N) (w : World) : option loc := clients w !! id.

(** [tunnels_snapshot], [conns_snapshot], [clients_snapshot] *)
Definition tunnels_snapshot (w : World) : list loc := (iter (tunnels w)).*2.
Definition conns_snapshot (w : World) : list loc := (iter (conns w)).*2.
Definition clients_snapshot (w : World) : list loc := (iter (clients w)).*2.

(** [ServerState::register_conn] (and [TunnelHandle::open_conn]) on the entry
    [te] at [t]; the conn's location is what the guard holds. *)
Definition register_conn (t : loc) (te : TunnelEntry) (peer : option bytes) (now : SystemTime)
    (w : World) : World * loc :=
  let id := wadd64 (next_conn_id w) 1 in
  let c := next_loc w in
  let entry := mkConn id (te_id te) (te_client_id te) now peer 0 0 in
  let w := set_next_conn_id id w in
  let w := set_next_loc (c + 1) (set_hn (<[c := entry]> (hn w)) w) in
  let w := upd_tunnel t (λ te, te_set_conns (<[id := c]> (te_conns te)) te) w in
  let w := set_conns (<[id := c]> (conns w)) w in
  (upd_tunnel t (λ te, te_set_total (wadd64 (te_total_conns te) 1) te) w, c).

(** [ServerState::close_conn], run by the drop of the guard of conn [c]. *)
Definition close_conn (t : loc) (c : loc) (ce : ConnEntry) (w : World) : World :=
  let '(i, o) := snapshot ce in
  let w := upd_tunnel t (λ te, te_set_cumulative (wadd64 (te_cumulative_in te) i)
                                 (te_cumulative_out te) te) w in
  let w := upd_tunnel t (λ te, te_set_cumulative (te_cumulative_in te)
                                 (wadd64 (te_cumulative_out te) o) te) w in
  let w := upd_tunnel t (λ te, te_set_conns (delete (ce_id ce) (te_conns te)) te) w in
  set_conns (delete (ce_id ce) (conns w)) w.

(** The ring buffer of [deregister_client]. *)
Definition push_history (h : HistoryEntry) (hist : list HistoryEntry) : list HistoryEntry :=
  (if (length hist =? HISTORY_CAPACITY)%nat then drop 1 hist else hist) ++ [h].

(** The conns of a tunnel leave the global index. *)
Definition drop_conns (te : TunnelEntry) (w : World) : World :=
  foldl (λ w kc, match hn w !! kc.2 with
                 | Some c => set_conns (delete (ce_id c) (conns w)) w
                 | None => w
                 end) w (iter (te_conns te)).

(** The loop of [deregister_client] over the ids of the client's tunnels. *)
Definition drop_tunnel (w : World) (id : N) : World :=
  match tunnels w !! id with
  | Some t =>
      let w := set_tunnels (delete id (tunnels w)) w in
      match ht w !! t with Some te => drop_conns te w | None => w end
  | None => w
  end.

(** [entry.tunnels.iter().map(|t| t.value().id)] *)
Definition tunnel_ids (w : World) (e : ClientEntry) : list N :=
  omap (λ kt, te_id <$> ht w !! kt.2) (iter (cl_tunnels e)).

Definition history_of (w : World) (e : ClientEntry) (reason : bytes) (now : SystemTime) :
    HistoryEntry :=
  let totals := client_totals w e in
  mkHistory (cl_id e) (fmt_socket (cl_remote e)) (unix_ms (cl_connected_at e)) (unix_ms now) reason
    (wadd64 (active_in totals) (cumulative_in totals))
    (wadd64 (active_out totals) (cumulative_out totals)) (total_conns totals).

(** [ServerState::deregister_client]; the lock of the history is never poisoned,
    because nothing panics while it is held. *)
Definition deregister_client (id : N) (reason : bytes) (now : SystemTime) (w : World) : World :=
  match clients w !! id with
  | None => w
  | Some l =>
      let w := set_clients (delete id (clients w)) w in
      match hc w !! l with
      | None => w
      | Some e =>
          let h := history_of w e reason now in
          let w := foldl drop_tunnel w (tunnel_ids w e) in
          set_history (push_history h (history w)) w
      end
  end.

(** [ServerState::history_snapshot] *)
Definition history_snapshot (limit : nat) (w : World) : list HistoryEntry :=
  let take_n := Nat.min limit (length (history w)) in
  take take_n (rev (history w)).

(** ** DTOs *)

Record ServerInfoDto := mkServerInfo {
  si_version : bytes; si_listen_addr : bytes; si_started_at_ms : N; si_uptime_ms : N;
  si_client_count : N; si_tunnel_count : N; si_active_conn_count : N }.

Record ClientSummaryDto := mkClientSummary {
  cs_id : N; cs_remote : bytes; cs_connected_at_ms : N; cs_tunnel_count : N;
  cs_active_conn_count : N; cs_total_conns : N; cs_bytes_in : N; cs_bytes_out : N }.

Record TunnelDto := mkTunnelDto {
  td_id : N; td_client_id : N; td_direction : bytes; td_kind : bytes; td_spec : bytes;
  td_opened_at_ms : N; td_active_conn_count : N; td_total_conns : N;
  td_active_bytes_in : N; td_active_bytes_out : N; td_bytes_in : N; td_bytes_out : N }.

Record ConnDto := mkConnDto {
  cd_id : N; cd_tunnel_id : N; cd_client_id : N; cd_opened_at_ms : N; cd_peer : option bytes;
  cd_bytes_in : N; cd_bytes_out : N }.

(** [ClientSummaryDto::from_entry] *)
Definition client_summary (w : World) (e : ClientEntry) : ClientSummaryDto :=
  let t := client_totals w e in
  mkClientSummary (cl_id e) (fmt_socket (cl_remote e)) (unix_ms (cl_connected_at e))
    (N.of_nat (size (cl_tunnels e))) (active_conns t) (total_conns t)
    (wadd64 (active_in t) (cumulative_in t)) (wadd64 (active_out t) (cumulative_out t)).

(** [TunnelDto::from_entry] *)
Definition tunnel_dto (w : World) (te : TunnelEntry) : TunnelDto :=
  let t := tunnel_totals w te in
  mkTunnelDto (te_id te) (te_client_id te)
    (match te_direction te with Forward => str "forward" | Reverse => str "reverse" end)
    (match te_kind te with
     | KTcp _ _ => str "tcp" | KUdp _ _ => str "udp" | KSocks5 _ => str "socks5" end)
    (te_spec te) (unix_ms (te_opened_at te)) (active_conns t) (total_conns t)
    (active_in t) (active_out t)
    (wadd64 (active_in t) (cumulative_in t)) (wadd64 (active_out t) (cumulative_out t)).

(** [ConnDto::from_entry] *)
Definition conn_dto (c : ConnEntry) : ConnDto :=
  let '(i, o) := snapshot c in
  mkConnDto (ce_id c) (ce_tunnel_id c) (ce_client_id c) (unix_ms (ce_opened_at c)) (ce_peer c) i o.

(** [server_info]; [CARGO_PKG_VERSION] is the version of [Cargo.toml]. *)
Definition server_info (w : World) (now : SystemTime) : ServerInfoDto :=
  let uptime_ms :=
    if (now <? started_at w)%Z then 0
    else wrap64 (Z.to_N ((now - started_at w) / 1000000)) in
  mkServerInfo (str "0.11.2") (fmt_socket (listen_addr w)) (unix_ms (started_at w)) uptime_ms
    (client_count w) (tunnel_count w) (conn_count w).

End operations.
