(* ===== verification/Ledger.v ===== *)
(** * Ledger: runs of the server state and what they preserve

    A run is any interleaving of the state operations by the tasks that hold the
    corresponding handles: the accept loop registers clients, the session hello
    registers tunnels, data-plane handlers register conns, count bytes and drop
    their guards, and the end of a connection deregisters its client. Tasks that
    survive their client may still register conns and count bytes. Next to the
    state the run keeps an abstract ledger: per tunnel, the bytes counted while
    the conn's guard was alive and the number of conns opened. *)

From S2P Require Import Prelude Text NetAddr Remote State.

Record Ledger := mkLedger { lg_in : N; lg_out : N; lg_opened : N }.

(** The state, the live guards (conn location to tunnel location), the ledger by
    tunnel location, and every history entry ever pushed. *)
Record Sys := mkSys {
  world : World;
  guards : gmap loc loc;
  ledger : gmap loc Ledger;
  past : list HistoryEntry }.

Inductive op :=
| RegisterClient (id : N) (remote : SocketAddr) (now : SystemTime)
| RegisterTunnels (client : loc) (reqs : list (RemoteRequest * SystemTime))
| RegisterConn (t : loc) (peer : option bytes) (now : SystemTime)
| AddIn (c : loc) (n : N)
| AddOut (c : loc) (n : N)
| CloseConn (c : loc)
| Deregister (id : N) (reason : bytes) (now : SystemTime).

Section runs.
Context `{MapOrder}.

(** [i] bytes in and [o] bytes out. *)
Definition count (i o : N) (lg : Ledger) : Ledger :=
  mkLedger (lg_in lg + i) (lg_out lg + o) (lg_opened lg).

(** What a counted byte does to the ledger: nothing once the guard is gone. *)
Definition account (f : Ledger → Ledger) (c : loc) (s : Sys) : gmap loc Ledger :=
  match guards s !! c with Some t => alter f t (ledger s) | None => ledger s end.

(** One operation. It is not enabled when a handle it needs does not exist: a
    client id is new (the accept loop numbers connections), tunnels are
    registered for a connected client only, and a guard is dropped once. The
    counters of ids do not wrap: that takes 2^64 registrations. *)
Definition exec (o : op) (s : Sys) : option Sys :=
  let w := world s in
  match o with
  | RegisterClient id remote now =>
      if decide (map_Forall (λ _ e, cl_id e ≠ id) (hc w)) then
        Some (mkSys (register_client id remote now w).1 (guards s) (ledger s) (past s))
      else None
  | RegisterTunnels l reqs =>
      e ← hc w !! l;
      if decide (clients w !! cl_id e = Some l ∧ next_tunnel_id w + len reqs < 2 ^ 64) then
        let '(w', ts) := register_tunnels l (cl_id e) reqs w in
        Some (mkSys w' (guards s) (foldl (λ m t, <[t := mkLedger 0 0 0]> m) (ledger s) ts) (past s))
      else None
  | RegisterConn t peer now =>
      te ← ht w !! t;
      if decide (next_conn_id w + 1 < 2 ^ 64) then
        let '(w', c) := register_conn t te peer now w in
        Some (mkSys w' (<[c := t]> (guards s))
                (alter (λ lg, mkLedger (lg_in lg) (lg_out lg) (lg_opened lg + 1)) t (ledger s))
                (past s))
      else None
  | AddIn c n =>
      _ ← hn w !! c;
      Some (mkSys (upd_conn c (add_in n) w) (guards s)
              (account (count n 0) c s) (past s))
  | AddOut c n =>
      _ ← hn w !! c;
      Some (mkSys (upd_conn c (add_out n) w) (guards s)
              (account (count 0 n) c s) (past s))
  | CloseConn c =>
      t ← guards s !! c;
      ce ← hn w !! c;
      Some (mkSys (close_conn t c ce w) (delete c (guards s)) (ledger s) (past s))
  | Deregister id reason now =>
      Some (mkSys (deregister_client id reason now w) (guards s) (ledger s)
              (match l ← clients w !! id; hc w !! l with
               | Some e => past s ++ [history_of w e reason now]
               | None => past s
               end))
  end.

Fixpoint run (os : list op) (s : Sys) : option Sys :=
  match os with [] => Some s | o :: os' => s' ← exec o s; run os' s' end.

Definition init (now : SystemTime) (addr : SocketAddr) : Sys := mkSys (new now addr) ∅ ∅ [].

(** The states some run reaches. *)
Inductive reachable : Sys → Prop :=
| reach_init now addr : reachable (init now addr)
| reach_step o s s' : reachable s → exec o s = Some s' → reachable s'.

Lemma run_reachable os : ∀ s s', reachable s → run os s = Some s' → reachable s'.
Proof.
  induction os as [|o os IH]; intros s s' Hs Hr; simplify_eq/=; [done|].
  destruct (exec o s) as [s1|] eqn:E; simplify_eq/=.
  apply (IH s1); [|done]. by eapply reach_step.
Qed.

(** ** Well-formedness of the store and of the indexes *)

Record wf (w : World) (g : gmap loc loc) : Prop := {
  (* the store *)
  wf_loc_c l e : hc w !! l = Some e → l < next_loc w;
  wf_loc_t t te : ht w !! t = Some te → t < next_loc w;
  wf_loc_n c ce : hn w !! c = Some ce → c < next_loc w;
  wf_client_inj l l' e e' :
    hc w !! l = Some e → hc w !! l' = Some e' → cl_id e = cl_id e' → l = l';
  wf_tunnel_id t te : ht w !! t = Some te → te_id te ≤ next_tunnel_id w;
  wf_tunnel_inj t t' te te' :
    ht w !! t = Some te → ht w !! t' = Some te' → te_id te = te_id te' → t = t';
  wf_conn_id c ce : hn w !! c = Some ce → ce_id ce ≤ next_conn_id w;
  wf_conn_inj c c' ce ce' :
    hn w !! c = Some ce → hn w !! c' = Some ce' → ce_id ce = ce_id ce' → c = c';
  (* guards, conns of a tunnel, global conn index *)
  wf_guard c t : g !! c = Some t → ∃ te ce, ht w !! t = Some te ∧ hn w !! c = Some ce ∧
    te_conns te !! ce_id ce = Some c ∧ ce_tunnel_id ce = te_id te ∧
    ce_client_id ce = te_client_id te;
  wf_tunnel_conns t te id c : ht w !! t = Some te → te_conns te !! id = Some c →
    g !! c = Some t ∧ ∃ ce, hn w !! c = Some ce ∧ ce_id ce = id;
  wf_conns id c : conns w !! id = Some c →
    (∃ t, g !! c = Some t) ∧ ∃ ce, hn w !! c = Some ce ∧ ce_id ce = id;
  wf_conns_complete t te id c : ht w !! t = Some te → tunnels w !! te_id te = Some t →
    te_conns te !! id = Some c → conns w !! id = Some c;
  (* tunnels and clients *)
  wf_tunnels id t : tunnels w !! id = Some t → ∃ te, ht w !! t = Some te ∧ te_id te = id;
  wf_clients id l : clients w !! id = Some l → ∃ e, hc w !! l = Some e ∧ cl_id e = id;
  wf_owner t te : ht w !! t = Some te →
    ∃ l e, hc w !! l = Some e ∧ cl_id e = te_client_id te ∧ cl_tunnels e !! te_id te = Some t;
  wf_client_tunnels l e id t : hc w !! l = Some e → cl_tunnels e !! id = Some t →
    (∃ te, ht w !! t = Some te ∧ te_id te = id ∧ te_client_id te = cl_id e) ∧
    tunnels w !! id = match clients w !! cl_id e with Some _ => Some t | None => None end }.

(** Case analysis of the lookups into updated maps. *)
Ltac inv_lookup :=
  repeat match goal with
  | H : <[_ := _]> _ !! _ = Some _ |- _ =>
      apply lookup_insert_Some in H as [[??]|[??]]; simplify_eq/=
  | H : delete _ _ !! _ = Some _ |- _ => apply lookup_delete_Some in H as [??]; simplify_eq/=
  end.

Lemma wf_init now addr : wf (new now addr) ∅.
Proof. by split. Qed.

Lemma wf_fresh_c w g l e : wf w g → hc w !! l = Some e → l ≠ next_loc w.
Proof. intros Hw Hl. pose proof (wf_loc_c _ _ Hw _ _ Hl). lia. Qed.
Lemma wf_fresh_t w g t te : wf w g → ht w !! t = Some te → t ≠ next_loc w.
Proof. intros Hw Hl. pose proof (wf_loc_t _ _ Hw _ _ Hl). lia. Qed.
Lemma wf_fresh_n w g c ce : wf w g → hn w !! c = Some ce → c ≠ next_loc w.
Proof. intros Hw Hl. pose proof (wf_loc_n _ _ Hw _ _ Hl). lia. Qed.

Lemma wf_register_client w g id remote now :
  wf w g → map_Forall (λ _ e, cl_id e ≠ id) (hc w) →
  wf (register_client id remote now w).1 g.
Proof.
  intros Hw Hid. pose proof Hw as [].
  split; simpl; intros; inv_lookup; eauto; try (eapply N.lt_le_trans; [eauto|]; lia).
  - lia.
  - by destruct (Hid l e).
  - by destruct (Hid l' e').
  - exists (mkClient id0 remote now ∅). by rewrite lookup_insert_eq.
  - edestruct wf_clients0 as (e & ? & ?); [done|]. exists e.
    rewrite lookup_insert_ne by (by eapply not_eq_sym, wf_fresh_c). done.
  - edestruct wf_owner0 as (l & e & ? & ? & ?); [done|]. exists l, e.
    rewrite lookup_insert_ne by (by eapply not_eq_sym, wf_fresh_c). done.
  - rewrite lookup_insert_ne by (by apply not_eq_sym, (Hid l)). eauto.
Qed.

Lemma wadd64_1 n : n + 1 < 2 ^ 64 → wadd64 n 1 = n + 1.
Proof. apply wrap64_id. Qed.

Lemma wf_register_tunnel w g l e req now :
  wf w g → hc w !! l = Some e → clients w !! cl_id e = Some l → next_tunnel_id w + 1 < 2 ^ 64 →
  wf (register_tunnel l (cl_id e) req now w).1 g.
Proof.
  intros Hw Hl Hc Hid. pose proof Hw as [].
  unfold register_tunnel, upd_client. rewrite wadd64_1 by done. simpl.
  rewrite (alter_insert_Some _ _ _ _ Hl).
  assert (∀ t te, ht w !! t = Some te → te_id te ≠ next_tunnel_id w + 1) as Hne.
  { intros t te Ht%wf_tunnel_id0. lia. }
  assert (∀ t te x, ht w !! t = Some te → <[next_loc w := x]> (ht w) !! t = Some te) as Hfr.
  { intros t te x Ht. rewrite lookup_insert_ne; [done|]. by eapply not_eq_sym, wf_fresh_t. }
  assert (∀ l0 e0, hc w !! l0 = Some e0 → l0 ≠ l → cl_id e0 ≠ cl_id e) as Hcl by eauto.
  split; simpl; intros; inv_lookup; eauto; try (eapply N.lt_le_trans; [eauto|]; lia).
  - lia.
  - match goal with Hx : ht w !! _ = Some _ |- _ => apply wf_tunnel_id0 in Hx; lia end.
  - by edestruct Hne.
  - by edestruct Hne.
  - edestruct wf_guard0 as (te & ce & ? & ?); [done|]. exists te, ce. eauto.
  - eexists. by rewrite lookup_insert_eq.
  - edestruct wf_tunnels0 as (te & ? & ?); [done|]. eauto.
  - edestruct wf_clients0 as (e0 & ? & ?); [done|]. destruct (decide (l0 = l)) as [->|].
    + eexists. rewrite lookup_insert_eq. split; [done|]. by simplify_eq/=.
    + exists e0. by rewrite lookup_insert_ne.
  - exists l. eexists. rewrite lookup_insert_eq. split_and!; [done..|]. simpl.
    by rewrite lookup_insert_eq.
  - edestruct wf_owner0 as (l0 & e0 & ? & ? & ?); [done|]. exists l0.
    destruct (decide (l0 = l)) as [->|].
    + eexists. rewrite lookup_insert_eq. simplify_eq. split; [done|]. simpl. split; [done|].
      rewrite lookup_insert_ne; [done|]. by eapply not_eq_sym, Hne.
    + exists e0. by rewrite lookup_insert_ne.
  - rewrite !lookup_insert_eq, Hc. eauto.
  - edestruct wf_client_tunnels0 as ((te & ? & ? & ?) & Ht); [done..|].
    split; [by eauto|]. by rewrite lookup_insert_ne.
  - edestruct wf_client_tunnels0 as ((te & ? & ? & ?) & Ht); [done..|]. subst id.
    split; [by eauto|]. by rewrite lookup_insert_ne by (by eapply not_eq_sym, Hne).
Qed.

Lemma register_tunnel_client w l e req now :
  hc w !! l = Some e →
  ∃ e', hc (register_tunnel l (cl_id e) req now w).1 !! l = Some e' ∧ cl_id e' = cl_id e.
Proof.
  intros Hl. simpl. rewrite (alter_insert_Some _ _ _ _ Hl), lookup_insert_eq. by eexists.
Qed.

Lemma register_tunnels_cons l id req now reqs w :
  register_tunnels l id ((req, now) :: reqs) w =
    let p := register_tunnel l id req now w in
    let q := register_tunnels l id reqs p.1 in (q.1, p.2 :: q.2).
Proof.
  cbn [register_tunnels]. destruct (register_tunnel l id req now w) as [w' t].
  simpl. by destruct (register_tunnels l id reqs w').
Qed.

Lemma wf_register_tunnels l reqs : ∀ w g e,
  wf w g → hc w !! l = Some e → clients w !! cl_id e = Some l →
  next_tunnel_id w + len reqs < 2 ^ 64 →
  wf (register_tunnels l (cl_id e) reqs w).1 g.
Proof.
  induction reqs as [|[req now] reqs IH]; intros w g e Hw Hl Hc Hid; [done|].
  rewrite length_cons in Hid.
  destruct (register_tunnel_client w l e req now Hl) as (e' & Hl' & He').
  pose proof (wf_register_tunnel w g l e req now Hw Hl Hc ltac:(lia)) as Hw'.
  rewrite register_tunnels_cons. cbn [fst]. rewrite <-He' in *.
  apply IH; [done..|]. cbn [register_tunnel fst next_tunnel_id set_tunnels upd_client set_hc
    set_next_loc set_ht set_next_tunnel_id]. rewrite wadd64_1 by lia. lia.
Qed.

Lemma wf_register_conn w g t te peer now :
  wf w g → ht w !! t = Some te → next_conn_id w + 1 < 2 ^ 64 →
  wf (register_conn t te peer now w).1 (<[(register_conn t te peer now w).2 := t]> g).
Proof.
  intros Hw Ht Hid. pose proof Hw as [].
  unfold register_conn, upd_tunnel. rewrite wadd64_1 by done. simpl.
  rewrite (alter_insert_Some _ _ _ _ Ht).
  rewrite (alter_insert_Some _ _ _ _ (lookup_insert_eq _ _ _)), insert_insert_eq.
  unfold te_set_conns, te_set_total. simpl.
  assert (∀ c ce, hn w !! c = Some ce → ce_id ce ≠ next_conn_id w + 1) as Hne.
  { intros c ce Hn%wf_conn_id0. lia. }
  assert (∀ c ce x, hn w !! c = Some ce → <[next_loc w := x]> (hn w) !! c = Some ce) as Hfr.
  { intros c ce x Hn. rewrite lookup_insert_ne; [done|]. by eapply not_eq_sym, wf_fresh_n. }
  assert (g !! next_loc w = None) as Hg.
  { destruct (g !! next_loc w) as [t0|] eqn:E; [|done].
    destruct (wf_guard0 _ _ E) as (? & ce & ? & Hn & _). by apply (wf_fresh_n _ _ _ _ Hw) in Hn. }
  assert (∀ c x t, g !! c = Some t → <[next_loc w := x]> g !! c = Some t) as Hgfr.
  { intros c x t0 E. rewrite lookup_insert_ne; [done|]. intros <-. by rewrite Hg in E. }
  set (te' := mkTunnel _ _ _ _ _ _ _ _ _ _).
  assert (∀ t0 te0, ht w !! t0 = Some te0 → ∃ te1, <[t := te']> (ht w) !! t0 = Some te1 ∧
    te_id te1 = te_id te0 ∧ te_client_id te1 = te_client_id te0 ∧
    ∀ id c, te_conns te0 !! id = Some c → te_conns te1 !! id = Some c) as Hte.
  { intros t0 te0 Ht0. destruct (decide (t0 = t)) as [->|];
      [|exists te0; by rewrite lookup_insert_ne]. simplify_eq.
    exists te'. rewrite lookup_insert_eq. split_and!; [done..|]. intros id c Hic. simpl.
    rewrite lookup_insert_ne; [done|]. intros <-.
    destruct (wf_tunnel_conns0 _ _ _ _ Ht Hic) as (_ & ce & ? & ?). by eapply Hne. }
  split; simpl; intros; inv_lookup; eauto; try (eapply N.lt_le_trans; [eauto|]; lia).
  - lia.
  - match goal with Hx : hn w !! _ = Some _ |- _ => apply wf_conn_id0 in Hx; lia end.
  - by edestruct Hne.
  - by edestruct Hne.
  - exists te'. eexists. rewrite !lookup_insert_eq. split_and!; try done. apply lookup_insert_eq.
  - edestruct wf_guard0 as (te0 & ce & Ht0 & ? & ? & ? & ?); [done|].
    destruct (Hte _ _ Ht0) as (te1 & ? & E1 & E2 & ?). exists te1, ce. rewrite E1, E2. eauto 10.
  - rewrite !lookup_insert_eq. split; [done|]. by eexists.
  - edestruct wf_tunnel_conns0 as (? & ce & ? & ?); [exact Ht|done|]. eauto 10.
  - edestruct wf_tunnel_conns0 as (? & ce & ? & ?); [done..|]. eauto 10.
  - rewrite !lookup_insert_eq. split; by eexists.
  - edestruct wf_conns0 as ((? & ?) & ce & ? & ?); [done..|]. eauto 10.
  - apply lookup_insert_eq.
  - rewrite lookup_insert_ne by done. eauto.
  - edestruct wf_tunnel_conns0 as (? & ce & ? & E); [done..|]. subst id.
    rewrite lookup_insert_ne by (by eapply not_eq_sym, Hne). eauto.
  - edestruct wf_tunnels0 as (te0 & Ht0 & E); [done|]. subst id.
    destruct (Hte _ _ Ht0) as (te1 & ? & ? & _). eauto.
  - edestruct wf_client_tunnels0 as ((te0 & Ht0 & E & ?) & ?); [done..|]. subst id.
    destruct (Hte _ _ Ht0) as (te1 & ? & ? & ? & _). split; [|done]. exists te1. by split_and!; congruence.
Qed.

(** Only the byte counters of a conn change. *)
Lemma wf_upd_conn w g c f :
  wf w g →
  (∀ ce, ce_id (f ce) = ce_id ce ∧ ce_tunnel_id (f ce) = ce_tunnel_id ce ∧
         ce_client_id (f ce) = ce_client_id ce) →
  wf (upd_conn c f w) g.
Proof.
  intros Hw Hf. pose proof Hw as []. unfold upd_conn.
  assert (∀ c0 ce0, hn w !! c0 = Some ce0 → ∃ ce1, alter f c (hn w) !! c0 = Some ce1 ∧
    ce_id ce1 = ce_id ce0 ∧ ce_tunnel_id ce1 = ce_tunnel_id ce0 ∧
    ce_client_id ce1 = ce_client_id ce0) as Hce.
  { intros c0 ce0 H0. destruct (decide (c0 = c)) as [->|].
    - exists (f ce0). by rewrite lookup_alter_eq, H0.
    - exists ce0. by rewrite lookup_alter_ne. }
  assert (∀ c0 ce1, alter f c (hn w) !! c0 = Some ce1 → ∃ ce0, hn w !! c0 = Some ce0 ∧
    ce_id ce1 = ce_id ce0) as Hec.
  { intros c0 ce1 H1%lookup_alter_Some. destruct H1 as [(<- & ce0 & ? & ->)|[??]]; [|by eauto].
    exists ce0. by destruct (Hf ce0). }
  split; simpl; intros; eauto.
  - edestruct Hec as (? & ? & ?); [done|]. eauto.
  - edestruct Hec as (? & ? & ->); [done|]. eauto.
  - destruct (Hec c0 ce) as (? & ? & ?); [done|].
    destruct (Hec c' ce') as (? & ? & ?); [done|]. eapply wf_conn_inj0; [done..|congruence].
  - edestruct wf_guard0 as (te0 & ce & Ht0 & Hn & ? & ? & ?); [done|].
    destruct (Hce _ _ Hn) as (ce1 & ? & E & E' & E'').
    exists te0, ce1. rewrite E, E', E''. eauto 10.
  - edestruct wf_tunnel_conns0 as (? & ce & Hn & ?); [done..|].
    destruct (Hce _ _ Hn) as (ce1 & ? & E & _). split; [done|]. exists ce1. by split; [|congruence].
  - edestruct wf_conns0 as (? & ce & Hn & ?); [done..|].
    destruct (Hce _ _ Hn) as (ce1 & ? & E & _). split; [done|]. exists ce1. by split; [|congruence].
Qed.

Lemma wf_close_conn w g t c ce :
  wf w g → g !! c = Some t → hn w !! c = Some ce → wf (close_conn t c ce w) (delete c g).
Proof.
  intros Hw Hg Hc. pose proof Hw as [].
  destruct (wf_guard0 _ _ Hg) as (te & ce' & Ht & ? & Hin & _). simplify_eq.
  unfold close_conn, upd_tunnel. simpl.
  rewrite (alter_insert_Some _ _ _ _ Ht).
  rewrite (alter_insert_Some _ _ _ _ (lookup_insert_eq _ _ _)), insert_insert_eq.
  rewrite (alter_insert_Some _ _ _ _ (lookup_insert_eq _ _ _)), insert_insert_eq.
  unfold te_set_conns, te_set_cumulative. simpl. set (te' := mkTunnel _ _ _ _ _ _ _ _ _ _).
  assert (∀ t0 te0, ht w !! t0 = Some te0 → ∃ te1, <[t := te']> (ht w) !! t0 = Some te1 ∧
    te_id te1 = te_id te0 ∧ te_client_id te1 = te_client_id te0 ∧
    ∀ id c, id ≠ ce_id ce → te_conns te0 !! id = Some c → te_conns te1 !! id = Some c) as Hte.
  { intros t0 te0 Ht0. destruct (decide (t0 = t)) as [->|];
      [|exists te0; by rewrite lookup_insert_ne]. simplify_eq.
    exists te'. rewrite lookup_insert_eq. split_and!; [done..|]. intros id c0 Hid Hic. simpl.
    by rewrite lookup_delete_ne. }
  assert (∀ c0 ce0, hn w !! c0 = Some ce0 → ce_id ce0 ≠ ce_id ce → c0 ≠ c) as Hne.
  { intros c0 ce0 Hn Hi ->. by simplify_eq. }
  split; simpl; intros; inv_lookup; eauto.
  - edestruct wf_guard0 as (te0 & ce0 & Ht0 & ? & ? & ? & ?); [done|].
    destruct (Hte _ _ Ht0) as (te1 & ? & E1 & E2 & ?). exists te1, ce0. rewrite E1, E2.
    split_and!; eauto.
  - edestruct wf_tunnel_conns0 as (? & ce0 & ? & E); [exact Ht|done|]. subst id.
    rewrite lookup_delete_ne by (by eapply not_eq_sym, Hne). eauto.
  - edestruct wf_tunnel_conns0 as (? & ce0 & ? & E); [done|done|].
    rewrite lookup_delete_ne by (intros <-; congruence). eauto.
  - edestruct wf_conns0 as ((t0 & ?) & ce0 & ? & E); [done..|]. subst id.
    rewrite lookup_delete_ne by (by eapply not_eq_sym, Hne). eauto.
  - rewrite lookup_delete_ne by done. eauto.
  - edestruct wf_tunnel_conns0 as (? & ce0 & ? & E); [done|done|].
    rewrite lookup_delete_ne; [by eauto|]. intros <-.
    assert (c0 = c) as -> by eauto. congruence.
  - edestruct wf_tunnels0 as (te0 & Ht0 & E); [done|]. subst id.
    destruct (Hte _ _ Ht0) as (te1 & ? & ? & _). eauto.
  - edestruct wf_client_tunnels0 as ((te0 & Ht0 & E & ?) & ?); [done..|]. subst id.
    destruct (Hte _ _ Ht0) as (te1 & ? & ? & ? & _). split; [|done]. exists te1. by split_and!; congruence.
Qed.

(** ** Deregistration *)

(** Everything but the indexes of tunnels and conns. *)
Definition same_store (w w' : World) : Prop :=
  hc w' = hc w ∧ ht w' = ht w ∧ hn w' = hn w ∧ clients w' = clients w ∧ history w' = history w ∧
  next_loc w' = next_loc w ∧ next_tunnel_id w' = next_tunnel_id w ∧
  next_conn_id w' = next_conn_id w.

Lemma same_store_trans w1 w2 w3 : same_store w1 w2 → same_store w2 w3 → same_store w1 w3.
Proof. unfold same_store. intuition congruence. Qed.

(** A tunnel's conns leave the index, the other conns stay. *)
Lemma drop_conns_loop l : ∀ w,
  let w' := foldl (λ w (kc : N * loc), match hn w !! kc.2 with
                 | Some c => set_conns (delete (ce_id c) (conns w)) w
                 | None => w
                 end) w l in
  same_store w w' ∧ tunnels w' = tunnels w ∧
  ∀ id, conns w' !! id =
    if decide (id ∈ omap (λ kc, ce_id <$> hn w !! kc.2) l) then None else conns w !! id.
Proof.
  induction l as [|[k c] l IH]; intros w; [by repeat split|]. cbn [foldl snd].
  destruct (hn w !! c) as [ce|] eqn:E.
  - destruct (IH (set_conns (delete (ce_id ce) (conns w)) w)) as (Hs & Ht & Hc).
    split_and!; [done..|]. intros id. rewrite Hc. simpl. rewrite E. simpl.
    set (ids := omap _ l). change (list_omap _ _ _ l) with ids.
    destruct (decide (id = ce_id ce)) as [->|].
    + rewrite lookup_delete_eq. rewrite (decide_True (P := _ ∈ _ :: _)) by set_solver.
      by case_decide.
    + rewrite lookup_delete_ne by done. by repeat case_decide; set_solver.
  - destruct (IH w) as (Hs & Ht & Hc). split_and!; [done..|]. intros id. simpl. by rewrite E, Hc.
Qed.

(** The conn ids of the tunnel registered under [id]. *)
Definition conn_ids_of (w : World) (id : N) : list N :=
  match tunnels w !! id with
  | Some t => match ht w !! t with
              | Some te => omap (λ kc, ce_id <$> hn w !! kc.2) (iter (te_conns te))
              | None => []
              end
  | None => []
  end.

Lemma drop_tunnel_spec w id :
  same_store w (drop_tunnel w id) ∧
  tunnels (drop_tunnel w id) = delete id (tunnels w) ∧
  ∀ cid, conns (drop_tunnel w id) !! cid =
    if decide (cid ∈ conn_ids_of w id) then None else conns w !! cid.
Proof.
  unfold drop_tunnel, conn_ids_of. destruct (tunnels w !! id) as [t|] eqn:Et.
  - cbn [ht set_tunnels]. destruct (ht w !! t) as [te|] eqn:E.
    + destruct (drop_conns_loop (iter (te_conns te)) (set_tunnels (delete id (tunnels w)) w))
        as (Hs & Ht & Hc). split_and!; [done..|]. intros cid. by rewrite <-Hc.
    + split_and!; [done..|]. intros cid. rewrite decide_False; [done|]. set_solver.
  - split_and!; [done|by rewrite delete_id|]. intros cid. rewrite decide_False; [done|]. set_solver.
Qed.

Lemma drop_tunnels_spec ids : ∀ w,
  let w' := foldl drop_tunnel w ids in
  same_store w w' ∧
  (∀ id, tunnels w' !! id = if decide (id ∈ ids) then None else tunnels w !! id) ∧
  ∀ cid, conns w' !! cid =
    if decide (cid ∈ ids ≫= conn_ids_of w) then None else conns w !! cid.
Proof.
  induction ids as [|i ids IH]; intros w; [by repeat split|].
  destruct (drop_tunnel_spec w i) as (Hs & Ht & Hc).
  destruct (IH (drop_tunnel w i)) as (Hs' & Ht' & Hc'). cbn [foldl].
  split_and!; [by eapply same_store_trans| |].
  - intros id. rewrite Ht', Ht. destruct (decide (id = i)) as [->|].
    + rewrite lookup_delete_eq. rewrite (decide_True (P := _ ∈ _ :: _)) by set_solver.
      by case_decide.
    + rewrite lookup_delete_ne by done. by repeat case_decide; set_solver.
  - intros cid. rewrite Hc', Hc. rewrite bind_cons.
    assert (∀ j, conn_ids_of (drop_tunnel w i) j = if decide (j = i) then [] else conn_ids_of w j)
      as Hids.
    { intros j. unfold conn_ids_of. rewrite Ht. destruct Hs as (_ & -> & -> & _).
      case_decide; [subst; by rewrite lookup_delete_eq|by rewrite lookup_delete_ne]. }
    assert (cid ∈ conn_ids_of w i ++ (ids ≫= conn_ids_of w) ↔
      cid ∈ conn_ids_of w i ∨ cid ∈ ids ≫= conn_ids_of (drop_tunnel w i)) as Hiff.
    { rewrite elem_of_app, !list_elem_of_bind. split.
      - intros [?|(j & Hj & ?)]; [by left|]. destruct (decide (j = i)) as [->|]; [by left|].
        right. exists j. by rewrite Hids, decide_False.
      - intros [?|(j & Hj & ?)]; [by left|]. rewrite Hids in Hj. case_decide; [set_solver|]. eauto. }
    repeat case_decide; tauto.
Qed.

Lemma elem_of_iter {A} (m : gmap N A) k x : (k, x) ∈ iter m ↔ m !! k = Some x.
Proof. rewrite iter_perm. apply elem_of_map_to_list. Qed.

Lemma elem_of_tunnel_ids w g l e id :
  wf w g → hc w !! l = Some e → id ∈ tunnel_ids w e ↔ is_Some (cl_tunnels e !! id).
Proof.
  intros Hw Hl. unfold tunnel_ids. rewrite list_elem_of_omap. split.
  - intros ([k t] & Hkt%elem_of_iter & Hid). simpl in Hid.
    destruct (wf_client_tunnels _ _ Hw _ _ _ _ Hl Hkt) as ((te & Ht & E & _) & _).
    rewrite Ht in Hid. simplify_eq/=. eauto.
  - intros [t Ht]. exists (id, t). split; [by apply elem_of_iter|].
    destruct (wf_client_tunnels _ _ Hw _ _ _ _ Hl Ht) as ((te & Hte & E & _) & _).
    simpl. by rewrite Hte, <-E.
Qed.

Lemma elem_of_conn_ids_of w g id cid :
  wf w g →
  cid ∈ conn_ids_of w id ↔
    ∃ t te c, tunnels w !! id = Some t ∧ ht w !! t = Some te ∧ te_conns te !! cid = Some c.
Proof.
  intros Hw. unfold conn_ids_of. destruct (tunnels w !! id) as [t|]; [|set_solver].
  destruct (ht w !! t) as [te|] eqn:Et; [|split; [set_solver|naive_solver]].
  rewrite list_elem_of_omap. split.
  - intros ([k c] & Hkc%elem_of_iter & Hid). simpl in Hid.
    destruct (wf_tunnel_conns _ _ Hw _ _ _ _ Et Hkc) as (_ & ce & Hc & E).
    rewrite Hc in Hid. simplify_eq/=. eauto 10.
  - intros (t' & te' & c & ? & ? & Hc). simplify_eq. exists (cid, c).
    split; [by apply elem_of_iter|].
    destruct (wf_tunnel_conns _ _ Hw _ _ _ _ Et Hc) as (_ & ce & Hce & E).
    simpl. by rewrite Hce, <-E.
Qed.

(** What deregistering a connected client does to the indexes. *)
Lemma deregister_spec w g id reason now l e :
  wf w g → clients w !! id = Some l → hc w !! l = Some e →
  let w' := deregister_client id reason now w in
  hc w' = hc w ∧ ht w' = ht w ∧ hn w' = hn w ∧ next_loc w' = next_loc w ∧
  next_tunnel_id w' = next_tunnel_id w ∧ next_conn_id w' = next_conn_id w ∧
  clients w' = delete id (clients w) ∧
  history w' = push_history (history_of w e reason now) (history w) ∧
  (∀ tid t, tunnels w' !! tid = Some t ↔ tunnels w !! tid = Some t ∧ cl_tunnels e !! tid = None) ∧
  (∀ cid c, conns w' !! cid = Some c ↔ conns w !! cid = Some c ∧
     ∀ tid t te, cl_tunnels e !! tid = Some t → tunnels w !! tid = Some t → ht w !! t = Some te →
                 te_conns te !! cid = None).
Proof.
  intros Hw Hid Hl. unfold deregister_client. rewrite Hid. cbn [hc set_clients]. rewrite Hl.
  set (w0 := set_clients (delete id (clients w)) w).
  destruct (drop_tunnels_spec (tunnel_ids w0 e) w0) as ((Ec & Et & En & Ecl & Eh & El & E1 & E2) & Ht & Hc).
  change (tunnel_ids w0 e) with (tunnel_ids w e) in *.
  cbn [hc ht hn next_loc next_tunnel_id next_conn_id clients history tunnels conns set_history].
  rewrite Ec, Et, En, Ecl, Eh, El, E1, E2. split_and!; try done.
  - intros tid t. rewrite Ht. case_decide as Hin; rewrite (elem_of_tunnel_ids _ _ _ _ _ Hw Hl) in Hin.
    + split; [done|]. intros [_ Hn]. rewrite Hn in Hin. by destruct Hin.
    + rewrite <-eq_None_not_Some in Hin. naive_solver.
  - intros cid c. rewrite Hc. change (conn_ids_of w0) with (conn_ids_of w).
    change (conns w0) with (conns w).
    case_decide as Hin; rewrite list_elem_of_bind in Hin.
    + split; [done|]. intros [_ Hn]. destruct Hin as (tid & Hcid & Htid).
      apply (elem_of_tunnel_ids _ _ _ _ _ Hw Hl) in Htid as [t Ht'].
      apply (elem_of_conn_ids_of _ _ _ _ Hw) in Hcid as (t' & te & c' & Ht'' & Hte & Hc').
      destruct (wf_client_tunnels _ _ Hw _ _ _ _ Hl Ht') as (_ & Ei).
      assert (cl_id e = id) as Eid by (destruct (wf_clients _ _ Hw _ _ Hid) as (?&?&?); congruence).
      rewrite Eid, Hid, Ht'' in Ei. simplify_eq.
      specialize (Hn _ _ _ Ht' Ht'' Hte). congruence.
    + split; [|by intros []]. intros Hcid. split; [done|]. intros tid t te Ht1 Ht2 Hte.
      destruct (te_conns te !! cid) as [c'|] eqn:Ec'; [|done]. destruct Hin. exists tid. split.
      * apply (elem_of_conn_ids_of _ _ _ _ Hw). eauto 10.
      * apply (elem_of_tunnel_ids _ _ _ _ _ Hw Hl). eauto.
Qed.

Lemma wf_deregister w g id reason now :
  wf w g → wf (deregister_client id reason now w) g.
Proof.
  intros Hw. destruct (clients w !! id) as [l|] eqn:Hid;
    [|by unfold deregister_client; rewrite Hid].
  destruct (wf_clients _ _ Hw _ _ Hid) as (e & Hl & He).
  destruct (deregister_spec w g id reason now l e Hw Hid Hl)
    as (Ec & Et & En & El & E1 & E2 & Ecl & _ & Ht & Hc).
  pose proof Hw as [].
  split; rewrite ?Ec, ?Et, ?En, ?El, ?E1, ?E2, ?Ecl; intros; eauto.
  - apply Hc in H0 as [Hc0 _]. eauto.
  - apply Hc. apply Ht in H1 as [Ht1 Hnone]. split; [by eauto|].
    intros tid t' te' Hl' Ht' Hte'. destruct (te_conns te' !! id0) as [c'|] eqn:E; [|done].
    destruct (wf_tunnel_conns0 _ _ _ _ H0 H2) as (Hg & ce & Hn & Hi).
    destruct (wf_tunnel_conns0 _ _ _ _ Hte' E) as (Hg' & ce' & Hn' & Hi').
    assert (c' = c) as -> by (eapply wf_conn_inj0; [done..|congruence]).
    rewrite Hg in Hg'. simplify_eq.
    destruct (wf_client_tunnels0 _ _ _ _ Hl Hl') as ((? & ? & ? & ?) & _). congruence.
  - apply Ht in H0 as [Ht0 _]. eauto.
  - apply lookup_delete_Some in H0 as [? H0]. eauto.
  - destruct (wf_client_tunnels0 _ _ _ _ H0 H1) as (Hex & Hidx). split; [done|].
    destruct (decide (cl_id e0 = id)) as [E|Hne].
    + rewrite E, lookup_delete_eq. apply eq_None_not_Some. intros [t' E'].
      apply Ht in E' as [_ Hn]. assert (l0 = l) as -> by (eapply wf_client_inj0; [done..|congruence]).
      congruence.
    + rewrite lookup_delete_ne by done. 
      destruct (tunnels (deregister_client id reason now w) !! id0) as [t'|] eqn:E'.
      * apply Ht in E' as [Ht' _]. congruence.
      * destruct (clients w !! cl_id e0) as [l1|] eqn:Ecl0; [|done].
        exfalso. apply eq_None_not_Some in E'. apply E'. exists t. apply Ht. split; [done|].
        destruct (cl_tunnels e !! id0) as [t1|] eqn:Et1; [|done].
        destruct (wf_client_tunnels0 _ _ _ _ Hl Et1) as ((te1 & Hte1 & Hid1 & Hcl1) & Hidx1).
        destruct Hex as (te2 & Hte2 & Hid2 & Hcl2).
        assert (t1 = t) as -> by (eapply wf_tunnel_inj0; [done..|congruence]). congruence.
Qed.

(** ** The books balance *)

(** The bytes the live conns of a tunnel have counted, without wrap-around. *)
Definition live_in (w : World) (te : TunnelEntry) : N :=
  map_sum (λ c, (snapshot_at w c).1) (te_conns te).
Definition live_out (w : World) (te : TunnelEntry) : N :=
  map_sum (λ c, (snapshot_at w c).2) (te_conns te).

(** The totals of a tunnel agree with its account, modulo the counters' width. *)
Definition balanced (w : World) (te : TunnelEntry) (lg : Ledger) : Prop :=
  wrap64 (te_cumulative_in te + live_in w te) = wrap64 (lg_in lg) ∧
  wrap64 (te_cumulative_out te + live_out w te) = wrap64 (lg_out lg) ∧
  te_total_conns te = wrap64 (lg_opened lg).

Definition books (w : World) (lgs : gmap loc Ledger) : Prop :=
  ∀ t te, ht w !! t = Some te → ∃ lg, lgs !! t = Some lg ∧ balanced w te lg.

Lemma map_sum_snapshot_ext w w' (π : N * N → N) (m : gmap N loc) :
  (∀ id c, m !! id = Some c → hn w' !! c = hn w !! c) →
  map_sum (λ c, π (snapshot_at w' c)) m = map_sum (λ c, π (snapshot_at w c)) m.
Proof. intros Hm. apply map_sum_ext. intros id c Hc. unfold snapshot_at. by erewrite Hm. Qed.

Lemma balanced_ext w w' te lg :
  (∀ id c, te_conns te !! id = Some c → hn w' !! c = hn w !! c) →
  balanced w te lg → balanced w' te lg.
Proof.
  intros Hm. unfold balanced, live_in, live_out.
  by rewrite (map_sum_snapshot_ext w w' fst), (map_sum_snapshot_ext w w' snd).
Qed.

(** The conns of a tunnel are allocated, and a conn is in one place only. *)
Lemma tunnel_conn_old w g t te id c :
  wf w g → ht w !! t = Some te → te_conns te !! id = Some c → c ≠ next_loc w.
Proof.
  intros Hw Ht Hc. destruct (wf_tunnel_conns _ _ Hw _ _ _ _ Ht Hc) as (_ & ce & Hn & _).
  by eapply wf_fresh_n.
Qed.

Lemma books_register_tunnel w g lgs l id req now :
  wf w g → books w lgs →
  books (register_tunnel l id req now w).1
    (<[(register_tunnel l id req now w).2 := mkLedger 0 0 0]> lgs).
Proof.
  intros Hw Hb t te Ht. simpl in *. apply lookup_insert_Some in Ht as [[<- <-]|[Hne Ht]].
  - exists (mkLedger 0 0 0). rewrite lookup_insert_eq. split; [done|].
    unfold balanced, live_in, live_out. simpl. by rewrite !map_sum_empty.
  - destruct (Hb t te Ht) as (lg & ? & Hbal). exists lg. rewrite lookup_insert_ne by done.
    split; [done|]. by apply (balanced_ext w).
Qed.

Lemma books_register_tunnels l reqs : ∀ w g e lgs,
  wf w g → hc w !! l = Some e → clients w !! cl_id e = Some l →
  next_tunnel_id w + len reqs < 2 ^ 64 → books w lgs →
  books (register_tunnels l (cl_id e) reqs w).1
    (foldl (λ m t, <[t := mkLedger 0 0 0]> m) lgs (register_tunnels l (cl_id e) reqs w).2).
Proof.
  induction reqs as [|[req now] reqs IH]; intros w g e lgs Hw Hl Hc Hid Hb; [done|].
  rewrite length_cons in Hid.
  destruct (register_tunnel_client w l e req now Hl) as (e' & Hl' & He').
  pose proof (wf_register_tunnel w g l e req now Hw Hl Hc ltac:(lia)) as Hw'.
  pose proof (books_register_tunnel w g lgs l (cl_id e) req now Hw Hb) as Hb'.
  rewrite register_tunnels_cons. cbn [fst snd foldl]. rewrite <-He' in *.
  eapply IH; [done..| |done]. cbn [register_tunnel fst next_tunnel_id set_tunnels upd_client set_hc
    set_next_loc set_ht set_next_tunnel_id]. rewrite wadd64_1 by lia. lia.
Qed.

Lemma books_register_conn w g lgs t te peer now :
  wf w g → ht w !! t = Some te → next_conn_id w + 1 < 2 ^ 64 → books w lgs →
  books (register_conn t te peer now w).1
    (alter (λ lg, mkLedger (lg_in lg) (lg_out lg) (lg_opened lg + 1)) t lgs).
Proof.
  intros Hw Ht Hid Hb t0 te0 Ht0. unfold register_conn, upd_tunnel in *.
  rewrite wadd64_1 in * by done. cbn [fst ht set_ht set_conns set_next_loc set_hn set_next_conn_id] in *.
  rewrite (alter_insert_Some _ _ _ _ Ht) in Ht0.
  rewrite (alter_insert_Some _ _ _ _ (lookup_insert_eq _ _ _)), insert_insert_eq in Ht0.
  apply lookup_insert_Some in Ht0 as [[<- <-]|[Hne Ht0]].
  - destruct (Hb t te Ht) as (lg & Hlg & Hi & Ho & Hop). eexists. rewrite lookup_alter_eq, Hlg.
    split; [done|]. unfold balanced, live_in, live_out, te_set_total, te_set_conns. simpl.
    assert (te_conns te !! (next_conn_id w + 1) = None) as Hnone.
    { apply eq_None_not_Some. intros [c Hc].
      destruct (wf_tunnel_conns _ _ Hw _ _ _ _ Ht Hc) as (_ & ce & Hn & E).
      apply (wf_conn_id _ _ Hw) in Hn. lia. }
    rewrite !map_sum_insert by done.
    rewrite (map_sum_snapshot_ext w _ fst), (map_sum_snapshot_ext w _ snd);
      [|intros id c Hc; simpl; rewrite lookup_insert_ne;
        [done|by eapply not_eq_sym, tunnel_conn_old]..].
    unfold snapshot_at. simpl. rewrite lookup_insert_eq. simpl.
    split_and!; [done..|]. unfold wadd64. by rewrite Hop, wrap64_add_l.
  - destruct (Hb t0 te0 Ht0) as (lg & ? & Hbal). exists lg. rewrite lookup_alter_ne by done.
    split; [done|]. apply (balanced_ext w); [|done]. intros id c Hc. simpl.
    rewrite lookup_insert_ne; [done|by eapply not_eq_sym, tunnel_conn_old].
Qed.

(** The sum of a tunnel's conns, split at the conn [c] it holds; the rest does not
    depend on the counters of [c]. *)
Definition others (π : N * N → N) (w : World) (te : TunnelEntry) (id : N) : N :=
  map_sum (λ c, π (snapshot_at w c)) (delete id (te_conns te)).

Lemma sum_split w π te c ce :
  hn w !! c = Some ce → te_conns te !! ce_id ce = Some c →
  map_sum (λ c, π (snapshot_at w c)) (te_conns te) = π (snapshot ce) + others π w te (ce_id ce).
Proof. intros Hc Hin. rewrite (map_sum_delete _ _ _ _ Hin). unfold snapshot_at at 1. by rewrite Hc. Qed.

Lemma others_upd_conn w g π t te c ce f :
  wf w g → ht w !! t = Some te → hn w !! c = Some ce → te_conns te !! ce_id ce = Some c →
  others π (upd_conn c f w) te (ce_id ce) = others π w te (ce_id ce).
Proof.
  intros Hw Ht Hc Hin. apply map_sum_snapshot_ext. intros id c' [Hne Hc']%lookup_delete_Some.
  simpl. rewrite lookup_alter_ne; [done|]. intros ->.
  destruct (wf_tunnel_conns _ _ Hw _ _ _ _ Ht Hc') as (_ & ce' & Hn & E). congruence.
Qed.

(** Counting [i] bytes in and [o] bytes out on a conn. *)
Lemma books_traffic s c f i o :
  wf (world s) (guards s) → books (world s) (ledger s) → is_Some (hn (world s) !! c) →
  (∀ ce, ce_id (f ce) = ce_id ce ∧ wrap64 (ce_in (f ce)) = wrap64 (ce_in ce + i) ∧
         wrap64 (ce_out (f ce)) = wrap64 (ce_out ce + o)) →
  books (upd_conn c f (world s))
    (account (count i o) c s).
Proof.
  intros Hw Hb [ce Hce] Hf t te Ht. simpl in Ht. destruct (Hb t te Ht) as (lg & Hlg & Hbal).
  unfold account.
  destruct (decide (guards s !! c = Some t)) as [Hg|Hg].
  - destruct (wf_guard _ _ Hw _ _ Hg) as (te' & ce' & ? & ? & Hin & _). simplify_eq.
    rewrite Hg. eexists. rewrite lookup_alter_eq, Hlg. split; [done|].
    destruct (Hf ce) as (Hid & Hi & Ho). destruct Hbal as (Bi & Bo & Bop).
    unfold balanced, live_in, live_out in *. simpl.
    assert (hn (upd_conn c f (world s)) !! c = Some (f ce)) as Hce'
      by (simpl; by rewrite lookup_alter_eq, Hce).
    rewrite !(sum_split _ _ _ c ce) in * by done.
    rewrite !(sum_split _ _ _ c (f ce)) by (done || by rewrite Hid).
    rewrite Hid, !(others_upd_conn _ _ _ _ _ _ _ _ Hw Ht Hce Hin). cbn [snapshot fst snd] in *.
    split_and!; [..|done].
    + rewrite <-(wrap64_add_l (lg_in lg)), <-Bi, wrap64_add_l.
      transitivity (wrap64 (wrap64 (ce_in (f ce)) + (te_cumulative_in te + others fst (world s) te (ce_id ce))));
        [rewrite wrap64_add_l|rewrite Hi, wrap64_add_l]; f_equal; lia.
    + rewrite <-(wrap64_add_l (lg_out lg)), <-Bo, wrap64_add_l.
      transitivity (wrap64 (wrap64 (ce_out (f ce)) + (te_cumulative_out te + others snd (world s) te (ce_id ce))));
        [rewrite wrap64_add_l|rewrite Ho, wrap64_add_l]; f_equal; lia.
  - exists lg. split.
    + destruct (guards s !! c) as [t'|] eqn:E; [|done]. rewrite lookup_alter_ne; [done|congruence].
    + apply (balanced_ext (world s)); [|done]. intros id c' Hc'. simpl.
      rewrite lookup_alter_ne; [done|]. intros ->.
      destruct (wf_tunnel_conns _ _ Hw _ _ _ _ Ht Hc'). congruence.
Qed.

Lemma books_close_conn w g lgs t c ce :
  wf w g → g !! c = Some t → hn w !! c = Some ce → books w lgs → books (close_conn t c ce w) lgs.
Proof.
  intros Hw Hg Hc Hb t0 te0 Ht0.
  destruct (wf_guard _ _ Hw _ _ Hg) as (te & ce' & Ht & ? & Hin & _). simplify_eq.
  unfold close_conn, upd_tunnel in *. cbn [snapshot fst ht set_ht set_conns] in *.
  rewrite (alter_insert_Some _ _ _ _ Ht) in Ht0.
  do 2 rewrite (alter_insert_Some _ _ _ _ (lookup_insert_eq _ _ _)), insert_insert_eq in Ht0.
  apply lookup_insert_Some in Ht0 as [[<- <-]|[Hne Ht0]]; [|by apply Hb].
  destruct (Hb t te Ht) as (lg & Hlg & Hi & Ho & Hop). exists lg. split; [done|].
  unfold balanced, live_in, live_out in *. 
  rewrite (sum_split _ fst _ c ce) in Hi by done. rewrite (sum_split _ snd _ c ce) in Ho by done.
  cbn [snapshot fst snd te_cumulative_in te_cumulative_out te_conns te_total_conns te_set_conns
       te_set_cumulative].
  unfold wadd64. rewrite !wrap64_add_l. split_and!; [..|done].
  - rewrite <-Hi. f_equal. unfold others, snapshot_at. simpl. lia.
  - rewrite <-Ho. f_equal. unfold others, snapshot_at. simpl. lia.
Qed.

(** ** The invariant of the runs *)

Record inv (s : Sys) : Prop := {
  inv_wf : wf (world s) (guards s);
  inv_books : books (world s) (ledger s);
  inv_history : history (world s) = drop (length (past s) - HISTORY_CAPACITY) (past s) }.

Lemma push_history_past h hist past :
  hist = drop (length past - HISTORY_CAPACITY) past →
  push_history h hist = drop (length (past ++ [h]) - HISTORY_CAPACITY) (past ++ [h]).
Proof.
  intros ->. unfold push_history. rewrite length_drop, length_app. cbn [length].
  assert (1 ≤ HISTORY_CAPACITY)%nat by (unfold HISTORY_CAPACITY; lia).
  destruct (length past - (length past - HISTORY_CAPACITY) =? HISTORY_CAPACITY)%nat eqn:E.
  - apply Nat.eqb_eq in E. rewrite drop_drop, drop_app_le by lia. do 2 f_equal. lia.
  - apply Nat.eqb_neq in E. rewrite drop_app_le by lia. do 2 f_equal. lia.
Qed.

Lemma deregister_past w g id reason now :
  wf w g →
  history (deregister_client id reason now w) =
    match l ← clients w !! id; hc w !! l with
    | Some e => push_history (history_of w e reason now) (history w)
    | None => history w
    end.
Proof.
  intros Hw. destruct (clients w !! id) as [l|] eqn:Hid.
  - destruct (wf_clients _ _ Hw _ _ Hid) as (e & Hl & He). simpl. rewrite Hl.
    by apply (deregister_spec w g id reason now l e Hw Hid Hl).
  - unfold deregister_client. by rewrite Hid.
Qed.

Lemma deregister_books w g id reason now lgs :
  wf w g → books w lgs → books (deregister_client id reason now w) lgs.
Proof.
  intros Hw Hb. destruct (clients w !! id) as [l|] eqn:Hid;
    [|by unfold deregister_client; rewrite Hid].
  destruct (wf_clients _ _ Hw _ _ Hid) as (e & Hl & He).
  destruct (deregister_spec w g id reason now l e Hw Hid Hl) as (_ & Et & En & _).
  intros t te Ht. rewrite Et in Ht. destruct (Hb t te Ht) as (lg & ? & ?). exists lg.
  split; [done|]. apply (balanced_ext w); [|done]. by rewrite En.
Qed.

Lemma add_in_traffic n ce :
  ce_id (add_in n ce) = ce_id ce ∧ wrap64 (ce_in (add_in n ce)) = wrap64 (ce_in ce + n) ∧
  wrap64 (ce_out (add_in n ce)) = wrap64 (ce_out ce + 0).
Proof.
  unfold add_in. destruct (N.ltb_spec 0 n); simpl; rewrite ?N.add_0_r; split_and!; try done.
  - unfold wadd64, wrap64. by rewrite N.Div0.mod_mod.
  - by replace n with 0 by lia; rewrite N.add_0_r.
Qed.

Lemma add_out_traffic n ce :
  ce_id (add_out n ce) = ce_id ce ∧ wrap64 (ce_in (add_out n ce)) = wrap64 (ce_in ce + 0) ∧
  wrap64 (ce_out (add_out n ce)) = wrap64 (ce_out ce + n).
Proof.
  unfold add_out. destruct (N.ltb_spec 0 n); simpl; rewrite ?N.add_0_r; split_and!; try done.
  - unfold wadd64, wrap64. by rewrite N.Div0.mod_mod.
  - by replace n with 0 by lia; rewrite N.add_0_r.
Qed.

Lemma exec_inv o s s' : inv s → exec o s = Some s' → inv s'.
Proof.
  intros [Hw Hb Hh] E. destruct o; simpl in E.
  - case_decide; simplify_eq. split; simpl; [by apply wf_register_client| |done].
    intros t te Ht. destruct (Hb t te Ht) as (lg & ? & ?). exists lg. split; [done|].
    by apply (balanced_ext (world s)).
  - destruct (hc (world s) !! client) as [e|] eqn:Hl; [|done]. cbn [mbind option_bind] in E.
    case_decide as Hd; [|done]. destruct Hd as [Hc Hn].
    pose proof (wf_register_tunnels client reqs _ _ _ Hw Hl Hc Hn) as Hw'.
    pose proof (books_register_tunnels client reqs _ _ _ _ Hw Hl Hc Hn Hb) as Hb'.
    assert (history (register_tunnels client (cl_id e) reqs (world s)).1 = history (world s)) as Hh'.
    { clear. generalize (world s). induction reqs as [|[req now] reqs IH]; intros w; [done|].
      rewrite register_tunnels_cons. simpl. by rewrite IH. }
    destruct (register_tunnels client (cl_id e) reqs (world s)) as [w' ts]. simplify_eq.
    split; [done..|]. simpl in *. by rewrite Hh'.
  - destruct (ht (world s) !! t) as [te|] eqn:Ht; [|done]. cbn [mbind option_bind] in E.
    case_decide; [|done]. pose proof (wf_register_conn _ _ t te peer now Hw Ht ltac:(done)) as Hw'.
    pose proof (books_register_conn _ _ _ t te peer now Hw Ht ltac:(done) Hb) as Hb'.
    injection E as <-. by split.
  - destruct (hn (world s) !! c) as [ce|] eqn:Hc; [|done]. injection E as <-. split; [|simpl|done].
    + apply wf_upd_conn; [done|]. intros ?. unfold add_in. by case_match.
    + apply books_traffic; [done..|by rewrite Hc|apply add_in_traffic].
  - destruct (hn (world s) !! c) as [ce|] eqn:Hc; [|done]. injection E as <-. split; [|simpl|done].
    + apply wf_upd_conn; [done|]. intros ?. unfold add_out. by case_match.
    + apply books_traffic; [done..|by rewrite Hc|apply add_out_traffic].
  - destruct (guards s !! c) as [t|] eqn:Hg; [|done]. cbn [mbind option_bind] in E.
    destruct (hn (world s) !! c) as [ce|] eqn:Hc; [|done]. injection E as <-.
    split; simpl; [by apply wf_close_conn|by eapply books_close_conn|done].
  - injection E as <-. split; simpl; [by apply wf_deregister|by eapply deregister_books|].
    rewrite (deregister_past _ _ _ _ _ Hw).
    destruct (_ ≫= _); [by apply push_history_past|done].
Qed.

Lemma reachable_inv s : reachable s → inv s.
Proof.
  induction 1 as [now addr|o s s' _ IH E]; [|by eapply exec_inv].
  split; [apply wf_init|done|done].
Qed.

(** ** What the admin API reports *)

Lemma tunnel_totals_sums w te :
  tunnel_totals w te =
    mkTotals (wrap64 (live_in w te)) (wrap64 (live_out w te)) (te_cumulative_in te)
      (te_cumulative_out te) (N.of_nat (size (te_conns te))) (te_total_conns te).
Proof.
  unfold tunnel_totals.
  assert (foldl (λ acc kc, let '(i, o) := snapshot_at w kc.2 in (wadd64 acc.1 i, wadd64 acc.2 o))
    (0, 0) (iter (te_conns te)) = (wrap64 (live_in w te), wrap64 (live_out w te))) as ->; [|done].
  transitivity (foldl (λ acc (kc : N * loc), (wadd64 acc.1 (snapshot_at w kc.2).1,
    wadd64 acc.2 (snapshot_at w kc.2).2)) (wrap64 0, wrap64 0) (iter (te_conns te))).
  { change (wrap64 0, wrap64 0) with (0, 0). generalize (0, 0). induction (iter (te_conns te)) as [|kc l IH]; intros a; simpl; [done|].
    rewrite <-IH. by destruct (snapshot_at w kc.2). }
  rewrite (foldl_pair (λ a (kc : N * loc), wadd64 a (snapshot_at w kc.2).1)
                      (λ a (kc : N * loc), wadd64 a (snapshot_at w kc.2).2)).
  rewrite !foldl_wadd64, !N.add_0_l. unfold live_in, live_out.
  by rewrite <-!(map_sum_perm _ _ _ (iter_perm _)).
Qed.

(** C1: in whatever order the operations of the tasks take effect, the totals the API reports for a tunnel are the
    bytes counted on its conns while their guards were alive and the number of
    conns opened on it, modulo 2^64: closing a conn neither loses nor doubles
    bytes, and bytes of one tunnel are never reported for another. *)
Theorem reported_totals s t te :
  reachable s → ht (world s) !! t = Some te →
  ∃ lg, ledger s !! t = Some lg ∧
    td_bytes_in (tunnel_dto (world s) te) = wrap64 (lg_in lg) ∧
    td_bytes_out (tunnel_dto (world s) te) = wrap64 (lg_out lg) ∧
    td_total_conns (tunnel_dto (world s) te) = wrap64 (lg_opened lg).
Proof.
  intros [_ Hb _]%reachable_inv Ht. destruct (Hb t te Ht) as (lg & ? & Hi & Ho & Hop).
  exists lg. split; [done|]. unfold tunnel_dto. rewrite tunnel_totals_sums. simpl.
  rewrite <-Hi, <-Ho. unfold wadd64. rewrite !wrap64_add_l. by rewrite (N.add_comm (live_in _ _)), (N.add_comm (live_out _ _)).
Qed.

(** The conns of the global index and of the tunnels are conns with a live
    guard; once every guard is dropped nothing is left behind. *)
Theorem no_conn_leak s :
  reachable s → guards s = ∅ →
  conns (world s) = ∅ ∧ ∀ t te, ht (world s) !! t = Some te → te_conns te = ∅.
Proof.
  intros [Hw _ _]%reachable_inv Hg. split.
  - apply map_empty. intros id. apply eq_None_not_Some. intros [c Hc].
    destruct (wf_conns _ _ Hw _ _ Hc) as ([t Ht] & _). by rewrite Hg in Ht.
  - intros t te Ht. apply map_empty. intros id. apply eq_None_not_Some. intros [c Hc].
    destruct (wf_tunnel_conns _ _ Hw _ _ _ _ Ht Hc) as (Hc' & _). by rewrite Hg in Hc'.
Qed.

(** Deregistering a connected client removes it, every tunnel it declared and
    every conn of those tunnels from the indexes, and nothing of another client. *)
Theorem deregister_clears s s' id reason now :
  reachable s → is_Some (clients (world s) !! id) →
  exec (Deregister id reason now) s = Some s' →
  clients (world s') = delete id (clients (world s)) ∧
  (∀ tid t te, ht (world s) !! t = Some te →
     tunnels (world s') !! tid = Some t ↔ tunnels (world s) !! tid = Some t ∧ te_client_id te ≠ id) ∧
  (∀ cid c ce, hn (world s) !! c = Some ce →
     conns (world s') !! cid = Some c ↔ conns (world s) !! cid = Some c ∧ ce_client_id ce ≠ id).
Proof.
  intros [Hw _ _]%reachable_inv [l Hid] E. simpl in E. injection E as <-. cbn [world].
  destruct (wf_clients _ _ Hw _ _ Hid) as (e & Hl & He).
  destruct (deregister_spec _ _ id reason now l e Hw Hid Hl)
    as (_ & _ & _ & _ & _ & _ & Ecl & _ & Ht & Hc).
  assert (∀ t te, ht (world s) !! t = Some te → te_client_id te = id ↔
    cl_tunnels e !! te_id te = Some t) as Hown.
  { intros t te Hte. destruct (wf_owner _ _ Hw _ _ Hte) as (l' & e' & Hl' & He' & Hin). split.
    - intros Hcl. assert (l' = l) as -> by (eapply (wf_client_inj _ _ Hw); [done..|congruence]).
      congruence.
    - intros Hin'. destruct (wf_client_tunnels _ _ Hw _ _ _ _ Hl Hin') as ((? & ? & _ & ?) & _).
      congruence. }
  split_and!; [done|..].
  - intros tid t te Hte. rewrite Ht. split; intros [Ht0 Hn]; (split; [done|]);
      destruct (wf_tunnels _ _ Hw _ _ Ht0) as (te' & Hte' & Etid); simplify_eq.
    + rewrite (Hown _ _ Hte). congruence.
    + destruct (cl_tunnels e !! te_id te) as [t'|] eqn:E; [|done]. destruct Hn.
      destruct (wf_client_tunnels _ _ Hw _ _ _ _ Hl E) as ((te' & Hte' & Ei & ?) & _).
      assert (t' = t) as -> by (eapply (wf_tunnel_inj _ _ Hw); [done..|congruence]). congruence.
  - intros cid c ce Hce. rewrite Hc. split; intros [Hc0 Hn]; (split; [done|]);
      destruct (wf_conns _ _ Hw _ _ Hc0) as ([t Hg] & ce' & Hce' & Ecid); simplify_eq;
      destruct (wf_guard _ _ Hw _ _ Hg) as (te & ce' & Hte & Hce' & Hin & _ & Ecl'); simplify_eq.
    + rewrite Ecl', (Hown _ _ Hte). intros Hin'.
      destruct (wf_client_tunnels _ _ Hw _ _ _ _ Hl Hin') as (_ & Hidx).
      rewrite Hid in Hidx. by rewrite (Hn _ _ _ Hin' Hidx Hte) in Hin.
    + intros tid t' te' Hin' Hidx Hte'.
      destruct (te_conns te' !! ce_id ce) as [c'|] eqn:E; [|done]. destruct Hn.
      destruct (wf_tunnel_conns _ _ Hw _ _ _ _ Hte' E) as (Hg' & ce' & Hce' & Ei).
      assert (c' = c) as -> by (eapply (wf_conn_inj _ _ Hw); [done..|congruence]).
      rewrite Hg in Hg'. simplify_eq. rewrite Ecl'. apply (Hown _ _ Hte).
      destruct (wf_client_tunnels _ _ Hw _ _ _ _ Hl Hin') as ((? & ? & ? & _) & _). congruence.
Qed.

(** The disconnect history never exceeds its capacity, and a snapshot returns
    the most recent disconnects, newest first. *)
Theorem history_recent_first s limit :
  reachable s →
  (length (history (world s)) ≤ HISTORY_CAPACITY)%nat ∧
  history_snapshot limit (world s) = take (Nat.min limit HISTORY_CAPACITY) (rev (past s)).
Proof.
  intros [_ _ Hh]%reachable_inv. unfold history_snapshot. rewrite Hh, length_drop. split; [lia|].
  set (n := (length (past s) - HISTORY_CAPACITY)%nat).
  rewrite <-(take_drop n (past s)) at 3. rewrite rev_app_distr.
  assert (length (rev (drop n (past s))) = length (past s) - n)%nat as Hlen
    by (rewrite length_rev, length_drop; done).
  destruct (decide (Nat.min limit HISTORY_CAPACITY ≤ length (past s) - n)%nat) as [Hle|Hgt].
  - rewrite take_app_le by lia. f_equal. lia.
  - rewrite take_app_ge by lia. rewrite (take_ge (rev (drop n (past s)))) by lia.
    assert (n = 0%nat) as -> by lia. simpl. by rewrite take_nil, app_nil_r.
Qed.

(** A tunnel is listed exactly while its client is connected, under its own
    id, and a conn of a listed tunnel is listed. *)
Theorem tunnel_listed_iff s t te :
  reachable s → ht (world s) !! t = Some te →
  (tunnel (te_id te) (world s) = Some t ↔ is_Some (client (te_client_id te) (world s))) ∧
  (tunnel (te_id te) (world s) = Some t →
   ∀ cid c, te_conns te !! cid = Some c → conn cid (world s) = Some c).
Proof.
  intros [Hw _ _]%reachable_inv Ht. unfold tunnel, client, conn. split.
  - destruct (wf_owner _ _ Hw _ _ Ht) as (l & e & Hl & <- & Hin).
    destruct (wf_client_tunnels _ _ Hw _ _ _ _ Hl Hin) as (_ & ->).
    destruct (clients (world s) !! cl_id e) as [l'|] eqn:E.
    + split; eauto.
    + split; [done|]. by intros [? ?].
  - intros Hidx cid c Hc. by eapply (wf_conns_complete _ _ Hw).
Qed.

Lemma register_tunnels_frame l id reqs : ∀ w t te,
  ht w !! t = Some te → t < next_loc w → te_id te ≤ next_tunnel_id w →
  next_tunnel_id w + len reqs < 2 ^ 64 → tunnels w !! te_id te = Some t →
  ht (register_tunnels l id reqs w).1 !! t = Some te ∧
  tunnels (register_tunnels l id reqs w).1 !! te_id te = Some t.
Proof.
  induction reqs as [|[req now] reqs IH]; intros w t te Ht Hlt Hid Hn Hidx; [done|].
  rewrite length_cons in Hn. rewrite register_tunnels_cons. cbn [fst].
  apply IH; simpl; rewrite ?wadd64_1 by lia; try lia.
  - by rewrite lookup_insert_ne by lia.
  - by rewrite lookup_insert_ne by lia.
Qed.

(** A session hello gets one new tunnel per declaration, in order, with
    consecutive ids that were never used, and each is listed with the declared
    direction, kind and printed specification. *)
Theorem register_tunnels_ids l id reqs : ∀ w i req now,
  next_tunnel_id w + len reqs < 2 ^ 64 → reqs !! i = Some (req, now) →
  ∃ t te, (register_tunnels l id reqs w).2 !! i = Some t ∧
    ht (register_tunnels l id reqs w).1 !! t = Some te ∧
    te_id te = next_tunnel_id w + 1 + N.of_nat i ∧
    te_client_id te = id ∧ te_direction te = direction req ∧ te_kind te = kind req ∧
    te_spec te = fmt_remote req ∧ te_conns te = ∅ ∧
    tunnel (te_id te) (register_tunnels l id reqs w).1 = Some t.
Proof.
  induction reqs as [|[req0 now0] reqs IH]; intros w i req now Hn Hi; [done|].
  rewrite length_cons in Hn. rewrite register_tunnels_cons. cbn [fst snd].
  destruct i as [|i]; simpl in Hi; simplify_eq.
  - set (w' := (register_tunnel l id req now w).1).
    destruct (register_tunnels_frame l id reqs w' (next_loc w)
      (mkTunnel (next_tunnel_id w + 1) id (direction req) (kind req) (fmt_remote req) now ∅ 0 0 0))
      as [Ht Hidx]; simpl; rewrite ?wadd64_1 by lia; rewrite ?lookup_insert_eq; try done; try lia.
    exists (next_loc w). eexists. split; [done|]. split; [exact Ht|]. simpl.
    split_and!; try done. lia.
  - destruct (IH (register_tunnel l id req0 now0 w).1 i req now) as (t & te & ? & ? & E & ?); [|done|].
    + simpl. rewrite wadd64_1 by lia. lia.
    + exists t, te. split_and!; try done; try naive_solver. rewrite E. simpl.
      rewrite wadd64_1 by lia. lia.
Qed.

End runs.

(** ** A concrete run

    Two clients; the first one's forward tunnel carries a conn that counts bytes
    and is closed, a second conn stays open when the client goes away, and a task
    that outlives the client registers a third one. *)

#[local] Instance demo_order : MapOrder := by_tree.

Definition demo_addr : SocketAddr := socket_addr_new any_v4 8080.
Definition demo_remote : RemoteRequest :=
  RemoteRequest_new Forward (KTcp (socket_addr_new any_v4 1080) (mkHostPort (str "example.com") 80)).
Definition demo_ops : list op :=
  [RegisterClient 1 demo_addr 0; RegisterClient 2 demo_addr 0;
   RegisterTunnels 0 [(demo_remote, 0%Z); (demo_remote, 0%Z)];
   RegisterConn 2 (Some (str "example.com:80")) 0; AddIn 4 100; AddOut 4 7; CloseConn 4;
   RegisterConn 2 None 0; AddIn 5 11; AddIn 4 1000].
Definition demo_state : Sys := default (init 0 demo_addr) (run demo_ops (init 0 demo_addr)).

Lemma demo_run : run demo_ops (init 0 demo_addr) = Some demo_state.
Proof. by vm_compute. Qed.

Lemma demo_reachable : reachable demo_state.
Proof. eapply run_reachable; [apply reach_init|apply demo_run]. Qed.

Definition demo_tunnel : TunnelEntry :=
  mkTunnel 1 1 Forward (kind demo_remote) (fmt_remote demo_remote) 0 {[2 := 5]} 100 7 2.

Lemma reported_totals_witness :
  ht (world demo_state) !! 2 = Some demo_tunnel ∧
  ∃ lg, ledger demo_state !! 2 = Some lg ∧ 111 = wrap64 (lg_in lg) ∧ 7 = wrap64 (lg_out lg) ∧
        2 = wrap64 (lg_opened lg).
Proof.
  split; [by vm_compute|].
  destruct (reported_totals demo_state 2 demo_tunnel demo_reachable ltac:(by vm_compute))
    as (lg & Hlg & Hi & Ho & Ht).
  exists lg. split; [exact Hlg|]. split_and!; [etransitivity; [|exact Hi]|etransitivity; [|exact Ho]|etransitivity; [|exact Ht]]; by vm_compute.
Defined.

Definition demo_quiet : Sys := default (init 0 demo_addr) (run [CloseConn 5] demo_state).

Lemma no_conn_leak_witness : guards demo_quiet = ∅ ∧ conns (world demo_quiet) = ∅.
Proof.
  split; [by vm_compute|]. refine (proj1 (no_conn_leak demo_quiet _ _)); [|by vm_compute].
  eapply (run_reachable [CloseConn 5]); [apply demo_reachable|by vm_compute].
Defined.

Definition demo_gone : Sys :=
  default (init 0 demo_addr) (exec (Deregister 1 (str "bye") 0) demo_state).

Lemma deregister_clears_witness : clients (world demo_gone) = delete 1 (clients (world demo_state)).
Proof.
  apply (deregister_clears demo_state demo_gone 1 (str "bye") 0);
    [apply demo_reachable|by eexists; vm_compute|by vm_compute].
Defined.

Lemma history_recent_first_witness :
  (length (history (world demo_state)) ≤ HISTORY_CAPACITY)%nat.
Proof. apply (history_recent_first demo_state 10), demo_reachable. Defined.

Lemma tunnel_listed_iff_witness :
  tunnel 1 (world demo_state) = Some 2 ↔ is_Some (client 1 (world demo_state)).
Proof.
  refine (proj1 (tunnel_listed_iff demo_state 2 demo_tunnel demo_reachable _)). by vm_compute.
Defined.

Lemma register_tunnels_ids_witness :
  ∃ t te, (register_tunnels 0 1 [(demo_remote, 0%Z)] (new 0 demo_addr)).2 !! 0%nat = Some t ∧
    ht (register_tunnels 0 1 [(demo_remote, 0%Z)] (new 0 demo_addr)).1 !! t = Some te ∧
    te_id te = 1.
Proof.
  destruct (register_tunnels_ids 0 1 [(demo_remote, 0%Z)] (new 0 demo_addr) 0 demo_remote 0)
    as (t & te & ? & ? & ? & _); [by vm_compute|by vm_compute|]. by exists t, te.
Defined.

(** A task that outlives its client leaves a listed conn whose tunnel and client
    are no longer listed, until its guard is dropped. *)
Lemma conn_outlives_client :
  ∃ s c ce, reachable s ∧ conns (world s) !! 3 = Some c ∧ hn (world s) !! c = Some ce ∧
    tunnel (ce_tunnel_id ce) (world s) = None ∧ client (ce_client_id ce) (world s) = None.
Proof.
  exists (default (init 0 demo_addr) (run [RegisterConn 2 None 0] demo_gone)).
  eexists _, _. split; [|by vm_compute].
  eapply (run_reachable [RegisterConn 2 None 0] demo_gone); [|by vm_compute].
  apply (reach_step (Deregister 1 (str "bye") 0) demo_state); [apply demo_reachable|]. by vm_compute.
Qed.
