(* ===== verification/Atomic.v ===== *)
(** * Atomic: conns and totals under real concurrency ([src/server/state.rs])

    The operations of [State] are executed by threads at once, and none of them is
    atomic: [register_conn] and [close_conn] are sequences of accesses to shared maps and
    atomics, and the totals of a tunnel are read while conns come and go. This file breaks
    the operations into their accesses, lets the accesses of all tasks interleave in any
    order, and shows what remains true: what the counters and indexes hold at every
    moment, and how far the totals a reader reports can be off.

    An atomic [fetch_add] or [load] is one step, and so is an insertion into or a removal
    from a [DashMap], which locks the shard of its key. Iterating over a [DashMap] locks
    one shard after the other, and keeps the current one locked for reading; how locks nest,
    and that no thread waits for ever, is the subject of [Locks]. The atomics
    are accessed with relaxed ordering; the model interleaves them with the locks in
    program order, which the locks enforce where it matters: a reader that no longer finds
    a conn has locked its shard after the removal, and sees what was added before. *)

From S2P Require Import Prelude Text NetAddr Remote State Ledger.

(** ** The shards of a concurrent map *)
Class Shards := {
  shards : nat;
  shard_of : N → nat;
  shard_of_lt k : (shard_of k < shards)%nat }.

(** The two directions of a conn's counters. *)
Inductive Side := BIn | BOut.

#[export] Instance Side_eq_dec : EqDecision Side.
Proof. solve_decision. Defined.

(** ** The task of a conn *)

(** How far a task is in [register_conn], [Open], and how far in [close_conn]: with the
    counters it has loaded and not yet added to the tunnel's. *)
Inductive ConnPhase :=
| Numbered                  (* next_conn_id.fetch_add *)
| InTunnel                  (* tunnel.conns.insert *)
| Indexed                   (* inner.conns.insert *)
| Open                      (* total_conns.fetch_add: the guard exists *)
| LoadedIn (i : N)          (* counters.snapshot(), first load *)
| Loaded (i o : N)          (* ... and second *)
| FoldedIn (o : N)          (* cumulative_in.fetch_add *)
| Folded                    (* cumulative_out.fetch_add *)
| Unlisted                  (* tunnel.conns.remove *)
| Closed.                   (* inner.conns.remove *)

#[export] Instance ConnPhase_eq_dec : EqDecision ConnPhase.
Proof. solve_decision. Defined.

(** A task: the tunnel and the entry that [register_conn] has in hand and the guard
    keeps. *)
Record ConnTask := mkConnTask { k_tunnel : loc; k_conn : loc; k_phase : ConnPhase }.

(** In [tunnel.conns]. *)
Definition listed (p : ConnPhase) : bool :=
  match p with Numbered | Unlisted | Closed => false | _ => true end.
(** Added to the cumulative counter of a side. *)
Definition folded (d : Side) (p : ConnPhase) : bool :=
  match p, d with FoldedIn _, BIn => true | (Folded | Unlisted | Closed), _ => true | _, _ => false end.
(** Removed from [tunnel.conns]. *)
Definition gone (p : ConnPhase) : bool := match p with Unlisted | Closed => true | _ => false end.
(** Possibly in the global index. *)
Definition indexed (p : ConnPhase) : bool :=
  match p with Numbered | InTunnel | Closed => false | _ => true end.
(** Counted in [total_conns]. *)
Definition opened (p : ConnPhase) : bool :=
  match p with Numbered | InTunnel | Indexed => false | _ => true end.
(** The loads have seen what the counters hold; before the guard exists that is nothing. *)
Definition in_step (p : ConnPhase) (ce : ConnEntry) : Prop :=
  match p with
  | Numbered | InTunnel | Indexed => ce_in ce = 0 ∧ ce_out ce = 0
  | LoadedIn i => i = ce_in ce
  | Loaded i o => i = ce_in ce ∧ o = ce_out ce
  | FoldedIn o => o = ce_out ce
  | _ => True
  end.

(** The next access of the task of conn [id]. The first three are the rest of
    [register_conn], the others the drop of the guard. *)
Definition access (id : N) (k : ConnTask) (w : World) : option (World * ConnPhase) :=
  let t := k_tunnel k in let c := k_conn k in
  match k_phase k with
  | Numbered => Some (upd_tunnel t (λ te, te_set_conns (<[id := c]> (te_conns te)) te) w, InTunnel)
  | InTunnel => Some (set_conns (<[id := c]> (conns w)) w, Indexed)
  | Indexed => Some (upd_tunnel t (λ te, te_set_total (wadd64 (te_total_conns te) 1) te) w, Open)
  | Open => ce ← hn w !! c; Some (w, LoadedIn (ce_in ce))
  | LoadedIn i => ce ← hn w !! c; Some (w, Loaded i (ce_out ce))
  | Loaded i o =>
      Some (upd_tunnel t (λ te, te_set_cumulative (wadd64 (te_cumulative_in te) i)
                                  (te_cumulative_out te) te) w, FoldedIn o)
  | FoldedIn o =>
      Some (upd_tunnel t (λ te, te_set_cumulative (te_cumulative_in te)
                                  (wadd64 (te_cumulative_out te) o) te) w, Folded)
  | Folded => Some (upd_tunnel t (λ te, te_set_conns (delete id (te_conns te)) te) w, Unlisted)
  | Unlisted => Some (set_conns (delete id (conns w)) w, Closed)
  | Closed => None
  end.

(** Accesses that write to the map of the tunnel. *)
Definition writes_map (p : ConnPhase) : bool := match p with Numbered | Folded => true | _ => false end.

(** ** A reader of [TunnelEntry::totals] *)

(** In the loop, with shard [k] locked, the keys that are left in it, and the entry whose
    [bytes_in] was loaded and whose [bytes_out] was not; then the loads of the struct
    expression, of which [conns.len()] goes through the shards again. *)
Inductive ReadPc :=
| RIter (k : nat) (rest : gset N) (half : option (N * loc))
| RCumIn | RCumOut | RLen (k : nat) | RTotal | RDone.

Record Reader := mkReader { r_tunnel : loc; r_pc : ReadPc; r_totals : Totals }.

Definition tt_set_in i t :=
  mkTotals i (active_out t) (cumulative_in t) (cumulative_out t) (active_conns t) (total_conns t).
Definition tt_set_out o t :=
  mkTotals (active_in t) o (cumulative_in t) (cumulative_out t) (active_conns t) (total_conns t).
Definition tt_set_cin i t :=
  mkTotals (active_in t) (active_out t) i (cumulative_out t) (active_conns t) (total_conns t).
Definition tt_set_cout o t :=
  mkTotals (active_in t) (active_out t) (cumulative_in t) o (active_conns t) (total_conns t).
Definition tt_set_len n t :=
  mkTotals (active_in t) (active_out t) (cumulative_in t) (cumulative_out t) n (total_conns t).
Definition tt_set_total n t :=
  mkTotals (active_in t) (active_out t) (cumulative_in t) (cumulative_out t) (active_conns t) n.

Section atomic.
Context `{Shards}.

Definition shard_ids (te : TunnelEntry) (k : nat) : gset N :=
  dom (filter (λ x, shard_of x.1 = k) (te_conns te)).

Definition read_start (t : loc) (te : TunnelEntry) : Reader :=
  mkReader t (RIter 0 (shard_ids te 0) None) Totals_default.

(** One access of a reader; [id] is the entry the iterator yields next, in the order of
    the shard's table. *)
Definition read_step (id : N) (r : Reader) (w : World) : option Reader :=
  let t := r_totals r in
  te ← ht w !! r_tunnel r;
  match r_pc r with
  | RIter k rest (Some (_, c)) =>
      ce ← hn w !! c;
      Some (mkReader (r_tunnel r) (RIter k rest None) (tt_set_out (wadd64 (active_out t) (ce_out ce)) t))
  | RIter k rest None =>
      if decide (rest = ∅) then
        Some (mkReader (r_tunnel r)
          (if (S k <? shards)%nat then RIter (S k) (shard_ids te (S k)) None else RCumIn) t)
      else if decide (id ∈ rest) then
        c ← te_conns te !! id; ce ← hn w !! c;
        Some (mkReader (r_tunnel r) (RIter k (rest ∖ {[id]}) (Some (id, c)))
          (tt_set_in (wadd64 (active_in t) (ce_in ce)) t))
      else None
  | RCumIn => Some (mkReader (r_tunnel r) RCumOut (tt_set_cin (te_cumulative_in te) t))
  | RCumOut => Some (mkReader (r_tunnel r) (RLen 0) (tt_set_cout (te_cumulative_out te) t))
  | RLen k =>
      Some (mkReader (r_tunnel r) (if (S k <? shards)%nat then RLen (S k) else RTotal)
        (tt_set_len (active_conns t + N.of_nat (size (shard_ids te k))) t))
  | RTotal => Some (mkReader (r_tunnel r) RDone (tt_set_total (te_total_conns te) t))
  | RDone => None
  end.

(** A reader that keeps the shard of [id] of the tunnel at [t] locked. *)
Definition holds (t : loc) (id : N) (r : Reader) : Prop :=
  match r_pc r with RIter k _ _ => r_tunnel r = t ∧ k = shard_of id | _ => False end.
#[export] Instance holds_dec t id r : Decision (holds t id r).
Proof. unfold holds. destruct (r_pc r); apply _. Defined.

(** ** The threads together *)

Record Par := mkPar { pw : World; tasks : gmap N ConnTask; readers : gmap N Reader }.

(** The counters of the conn of a task. *)
Definition bytes_of (d : Side) (w : World) (k : ConnTask) : N :=
  match d with BIn => (snapshot_at w (k_conn k)).1 | BOut => (snapshot_at w (k_conn k)).2 end.

(** Everything counted on any conn so far. *)
Definition all_bytes (s : Par) : N :=
  key_sum (λ _ k, bytes_of BIn (pw s) k + bytes_of BOut (pw s) k) (tasks s).

(** A conn registered on the tunnel at [t]; the next access of the task of a conn; bytes
    counted by the handler of a conn; a read of a tunnel's totals that starts; an access
    of a reader; the removal of a conn from the global index by [deregister_client]; a
    client and a tunnel registered, which conns and readers do not interfere with. *)
Inductive Event :=
| EOpen (t : loc) (peer : option bytes) (now : SystemTime)
| ETask (id : N)
| EAdd (d : Side) (id n : N)
| EStart (r : N) (t : loc)
| ERead (r id : N)
| EEvict (id : N)
| EClient (id : N) (remote : SocketAddr) (now : SystemTime)
| ETunnel (client : loc) (client_id : N) (req : RemoteRequest) (now : SystemTime).

Definition add_bytes (d : Side) (n : N) : ConnEntry → ConnEntry :=
  match d with BIn => add_in n | BOut => add_out n end.

(** One access. Conn ids and byte counters do not wrap: that takes 2^64 registrations or
    bytes. The handlers count while they hold the guard, between [register_conn] and the
    drop. *)
Definition par_step (e : Event) (s : Par) : option Par :=
  let w := pw s in
  match e with
  | EOpen t peer now =>
      te ← ht w !! t;
      if decide (next_conn_id w + 1 < 2 ^ 64) then
        let id := wadd64 (next_conn_id w) 1 in
        let c := next_loc w in
        let w := set_next_conn_id id w in
        let w := set_next_loc (c + 1)
          (set_hn (<[c := mkConn id (te_id te) (te_client_id te) now peer 0 0]> (hn w)) w) in
        Some (mkPar w (<[id := mkConnTask t c Numbered]> (tasks s)) (readers s))
      else None
  | ETask id =>
      k ← tasks s !! id;
      if decide (writes_map (k_phase k) = true ∧ ¬ map_Forall (λ _ r, ¬ holds (k_tunnel k) id r) (readers s)) then None
      else
        '(w, p) ← access id k w;
        Some (mkPar w (<[id := mkConnTask (k_tunnel k) (k_conn k) p]> (tasks s)) (readers s))
  | EAdd d id n =>
      k ← tasks s !! id;
      match k_phase k with
      | Open =>
          if decide (all_bytes s + n < 2 ^ 64) then
            Some (mkPar (upd_conn (k_conn k) (add_bytes d n) w) (tasks s) (readers s))
          else None
      | _ => None
      end
  | EStart r t =>
      te ← ht w !! t;
      match readers s !! r with
      | Some _ => None
      | None => Some (mkPar w (tasks s) (<[r := read_start t te]> (readers s)))
      end
  | ERead r id =>
      rd ← readers s !! r;
      rd' ← read_step id rd w;
      Some (mkPar w (tasks s) (<[r := rd']> (readers s)))
  | EEvict id => Some (mkPar (set_conns (delete id (conns w)) w) (tasks s) (readers s))
  | EClient id remote now => Some (mkPar (register_client id remote now w).1 (tasks s) (readers s))
  | ETunnel l client_id req now =>
      Some (mkPar (register_tunnel l client_id req now w).1 (tasks s) (readers s))
  end.

Fixpoint par_run (es : list Event) (s : Par) : option Par :=
  match es with [] => Some s | e :: es => s' ← par_step e s; par_run es s' end.

Definition par_init (now : SystemTime) (addr : SocketAddr) : Par := mkPar (new now addr) ∅ ∅.

(** ** What holds at every moment *)

(** The bytes of those conns of the tunnel at [t] that are in some phases. *)
Definition tally (d : Side) (w : World) (t : loc) (P : N → ConnPhase → bool) (id : N) (k : ConnTask) : N :=
  if bool_decide (k_tunnel k = t) && P id (k_phase k) then bytes_of d w k else 0.

(** Counted on the conns of a tunnel since it exists, and of that on conns that have been
    removed from it. *)
Definition counted (d : Side) (s : Par) (t : loc) : N := key_sum (tally d (pw s) t (λ _ _, true)) (tasks s).
Definition settled (d : Side) (s : Par) (t : loc) : N := key_sum (tally d (pw s) t (λ _, gone)) (tasks s).

Definition cumulative (d : Side) (te : TunnelEntry) : N :=
  match d with BIn => te_cumulative_in te | BOut => te_cumulative_out te end.

Definition opened_conns (t : loc) (_ : N) (k : ConnTask) : N :=
  if bool_decide (k_tunnel k = t) && opened (k_phase k) then 1 else 0.

Definition listed_in (t : loc) (x : N * ConnTask) : Prop := k_tunnel x.2 = t ∧ listed (k_phase x.2) = true.

Record par_inv (s : Par) : Prop := {
  pi_task id k : tasks s !! id = Some k → ∃ te ce, ht (pw s) !! k_tunnel k = Some te ∧
    hn (pw s) !! k_conn k = Some ce ∧ ce_id ce = id ∧ in_step (k_phase k) ce;
  pi_id id k : tasks s !! id = Some k → id ≤ next_conn_id (pw s);
  pi_size : key_sum (λ _ _, 1) (tasks s) ≤ next_conn_id (pw s);
  pi_next : next_conn_id (pw s) < 2 ^ 64;
  pi_loc_n c ce : hn (pw s) !! c = Some ce → c < next_loc (pw s);
  pi_loc_t t te : ht (pw s) !! t = Some te → t < next_loc (pw s);
  pi_conns t te : ht (pw s) !! t = Some te → te_conns te = k_conn <$> filter (listed_in t) (tasks s);
  pi_cumulative d t te : ht (pw s) !! t = Some te →
    cumulative d te = key_sum (tally d (pw s) t (λ _, folded d)) (tasks s);
  pi_total t te : ht (pw s) !! t = Some te → te_total_conns te = key_sum (opened_conns t) (tasks s);
  pi_index id c : conns (pw s) !! id = Some c →
    ∃ k, tasks s !! id = Some k ∧ k_conn k = c ∧ indexed (k_phase k) = true;
  pi_bytes : all_bytes s < 2 ^ 64 }.

(** Different tasks have different entries. *)
Lemma task_inj s id id' k k' :
  par_inv s → tasks s !! id = Some k → tasks s !! id' = Some k' → k_conn k = k_conn k' → id = id'.
Proof.
  intros Hi Hk Hk' E. destruct (pi_task _ Hi _ _ Hk) as (_ & ce & _ & Hc & <- & _).
  destruct (pi_task _ Hi _ _ Hk') as (_ & ce' & _ & Hc' & <- & _). rewrite E in Hc. congruence.
Qed.

Lemma par_init_inv now addr : par_inv (par_init now addr).
Proof. split; cbn; try done. Qed.

(** Any choice of conns of a tunnel has counted less than the counters hold. *)
Lemma tally_le d s t P : key_sum (tally d (pw s) t P) (tasks s) ≤ all_bytes s.
Proof.
  apply key_sum_mono. intros i k _. unfold tally. destruct d, (bool_decide (k_tunnel k = t) && P i (k_phase k)); lia.
Qed.

(** The task of a conn says whether its tunnel lists it. *)
Lemma task_listed s id k te :
  par_inv s → tasks s !! id = Some k → ht (pw s) !! k_tunnel k = Some te →
  te_conns te !! id = if listed (k_phase k) then Some (k_conn k) else None.
Proof.
  intros Hi Hk Ht. rewrite (pi_conns _ Hi _ _ Ht), lookup_fmap. destruct (listed (k_phase k)) eqn:El.
  - by rewrite (map_lookup_filter_Some_2 (listed_in (k_tunnel k)) (tasks s) id k Hk (conj eq_refl El)).
  - rewrite map_lookup_filter_None_2; [done|]. right. intros k' Hk' [_ El']. simplify_eq/=. congruence.
Qed.

(** What an access of the task of a conn changes. *)
Record access_effect (id : N) (k : ConnTask) (te : TunnelEntry) (w w' : World) (p : ConnPhase) : Prop := {
  ae_hn : hn w' = hn w;
  ae_next : next_conn_id w' = next_conn_id w;
  ae_loc : next_loc w' = next_loc w;
  ae_ht : ∃ te', ht w' = <[k_tunnel k := te']> (ht w) ∧
    te_conns te' = (if listed p then <[id := k_conn k]> (te_conns te) else delete id (te_conns te)) ∧
    (∀ d, cumulative d te' = if folded d p && negb (folded d (k_phase k))
                             then wadd64 (cumulative d te) (bytes_of d w k) else cumulative d te) ∧
    te_total_conns te' = if opened p && negb (opened (k_phase k)) then wadd64 (te_total_conns te) 1
                         else te_total_conns te;
  ae_conns id' c : conns w' !! id' = Some c →
    (id' ≠ id ∧ conns w !! id' = Some c) ∨ (id' = id ∧ c = k_conn k ∧ indexed p = true);
  ae_step ce : hn w !! k_conn k = Some ce → in_step p ce;
  ae_folded d : folded d (k_phase k) = true → folded d p = true;
  ae_opened : opened (k_phase k) = true → opened p = true;
  ae_stays d : listed (k_phase k) = true → folded d p = false → listed p = true;
  ae_enters d : listed p = true → listed (k_phase k) = false → bytes_of d w k = 0;
  ae_map : writes_map (k_phase k) = false → listed p = listed (k_phase k) }.

Lemma access_spec s id k w' p :
  par_inv s → tasks s !! id = Some k → access id k (pw s) = Some (w', p) →
  ∃ te, ht (pw s) !! k_tunnel k = Some te ∧ access_effect id k te (pw s) w' p.
Proof.
  intros Hi Hk Ha. destruct (pi_task _ Hi _ _ Hk) as (te & ce & Ht & Hc & Hid & Hst). exists te. split; [done|].
  pose proof (task_listed _ _ _ _ Hi Hk Ht) as Hl.
  assert (∀ c, conns (pw s) !! id = Some c → c = k_conn k ∧ indexed (k_phase k) = true) as Hx.
  { intros c Hcn. destruct (pi_index _ Hi _ _ Hcn) as (k' & ? & <- & ?). by simplify_eq. }
  assert (<[k_tunnel k := te]> (ht (pw s)) = ht (pw s)) as Hsame by by apply insert_id.
  destruct k as [t c ph]. cbn in *.
  destruct ph; cbn in Ha, Hl, Hx, Hst; rewrite ?Hc in Ha; simplify_eq/=; split; cbn; try done;
    try (intros ce'; rewrite Hc; intros [= <-]; by destruct_and?; simplify_eq);
    try (intros d; destruct d; done);
    try (intros d; unfold bytes_of, snapshot_at; cbn; rewrite Hc; by destruct Hst, d);
    try (intros id' c' Hc'; destruct (decide (id' = ce_id ce)) as [->|];
         [right; rewrite ?lookup_insert_eq, ?lookup_delete_eq in Hc'; simplify_eq; naive_solver
         |left; rewrite ?lookup_insert_ne, ?lookup_delete_ne in Hc' by done; done]).
  all: try (exists te; rewrite Hsame; split_and!; [done| |by intros []|done];
            rewrite ?insert_id, ?delete_id by done; done).
  all: rewrite (alter_insert_Some _ _ _ _ Ht); eexists; (split; [reflexivity|]); cbn;
       unfold bytes_of, snapshot_at; cbn; rewrite ?Hc; destruct_and?; simplify_eq; split_and!;
       [rewrite ?insert_id, ?delete_id by done; done|by intros []|done].
Qed.

(** Sums over the conns after one task has made progress and no counter has changed. *)
Lemma tally_access d s w' t P id k p :
  hn w' = hn (pw s) → tasks s !! id = Some k →
  key_sum (tally d w' t P) (<[id := mkConnTask (k_tunnel k) (k_conn k) p]> (tasks s)) + tally d (pw s) t P id k =
  key_sum (tally d (pw s) t P) (tasks s) +
    (if bool_decide (k_tunnel k = t) && P id p then bytes_of d (pw s) k else 0).
Proof.
  intros En Hk. assert (∀ k, bytes_of d w' k = bytes_of d (pw s) k) as Eb
    by (intros k'; unfold bytes_of, snapshot_at; by rewrite En).
  rewrite (key_sum_update (tally d (pw s) t P) (tally d w' t P) _ _ k); [|done|].
  - unfold tally at 2. cbn [k_tunnel k_phase]. by rewrite Eb.
  - intros j z _ _. unfold tally. by rewrite Eb.
Qed.

Lemma opened_access s t id k p :
  tasks s !! id = Some k →
  key_sum (opened_conns t) (<[id := mkConnTask (k_tunnel k) (k_conn k) p]> (tasks s)) + opened_conns t id k =
  key_sum (opened_conns t) (tasks s) + (if bool_decide (k_tunnel k = t) && opened p then 1 else 0).
Proof. intros Hk. by rewrite (key_sum_update (opened_conns t) (opened_conns t) _ _ k). Qed.

Lemma all_bytes_access s w' id k p rs :
  hn w' = hn (pw s) → tasks s !! id = Some k →
  all_bytes (mkPar w' (<[id := mkConnTask (k_tunnel k) (k_conn k) p]> (tasks s)) rs) = all_bytes s.
Proof.
  intros En Hk. unfold all_bytes. cbn [pw tasks].
  assert (∀ d k, bytes_of d w' k = bytes_of d (pw s) k) as Eb
    by (intros d k'; unfold bytes_of, snapshot_at; by rewrite En).
  pose proof (key_sum_update (λ _ k, bytes_of BIn (pw s) k + bytes_of BOut (pw s) k)
    (λ _ k, bytes_of BIn w' k + bytes_of BOut w' k) (tasks s) id k (mkConnTask (k_tunnel k) (k_conn k) p) Hk) as E.
  specialize (E ltac:(intros j z _ _; cbn beta; by rewrite !Eb)). cbn beta in E. rewrite !Eb in E.
  change (bytes_of ?d ?w (mkConnTask _ (k_conn k) p)) with (bytes_of d w k) in E. lia.
Qed.

(** The conns of a tunnel after a task has made progress. *)
Lemma listed_access s t te id k p :
  par_inv s → ht (pw s) !! t = Some te → tasks s !! id = Some k →
  k_conn <$> filter (listed_in t) (<[id := mkConnTask (k_tunnel k) (k_conn k) p]> (tasks s)) =
  if decide (k_tunnel k = t) then
    if listed p then <[id := k_conn k]> (te_conns te) else delete id (te_conns te)
  else te_conns te.
Proof.
  intros Hi Ht Hk. rewrite (pi_conns _ Hi _ _ Ht). case_decide as Et.
  - destruct (listed p) eqn:El.
    + rewrite map_filter_insert_True, fmap_insert by done. done.
    + rewrite map_filter_insert_False by (intros [_ ?]; cbn in *; congruence).
      by rewrite map_filter_delete, fmap_delete.
  - rewrite map_filter_insert_False by (by intros [? _]). rewrite map_filter_delete, delete_id; [done|].
    rewrite map_lookup_filter_None. right. intros k' Hk' [? _]. by simplify_eq/=.
Qed.

(** The counters of the tunnel follow the task, without wrapping. *)
Lemma cumulative_access s d te id k w' p :
  par_inv s → ht (pw s) !! k_tunnel k = Some te → tasks s !! id = Some k → hn w' = hn (pw s) →
  (folded d (k_phase k) = true → folded d p = true) →
  (if folded d p && negb (folded d (k_phase k)) then wadd64 (cumulative d te) (bytes_of d (pw s) k)
   else cumulative d te) =
  key_sum (tally d w' (k_tunnel k) (λ _, folded d)) (<[id := mkConnTask (k_tunnel k) (k_conn k) p]> (tasks s)).
Proof.
  intros Hi Ht Hk En Hmono. rewrite (pi_cumulative _ Hi d _ _ Ht). set (k' := mkConnTask _ _ _).
  pose proof (tally_access d s w' (k_tunnel k) (λ _, folded d) id k p En Hk) as Ety.
  pose proof (tally_le d (mkPar w' (<[id := k']> (tasks s)) (readers s)) (k_tunnel k) (λ _, folded d)) as Hle.
  pose proof (all_bytes_access s w' id k p (readers s) En Hk) as Eb. fold k' in Eb. rewrite Eb in Hle. cbn [pw tasks] in Hle.
  pose proof (pi_bytes _ Hi). unfold tally at 2 in Ety. fold k' in Ety. rewrite bool_decide_true in Ety by done.
  cbn [andb] in Ety. destruct (folded d (k_phase k)); [rewrite Hmono in Ety |- * by done|destruct (folded d p)];
    cbn [andb negb]; [lia| |lia]. unfold wadd64. rewrite wrap64_id; lia.
Qed.

Lemma cumulative_exact s d te id k p :
  par_inv s → ht (pw s) !! k_tunnel k = Some te → tasks s !! id = Some k →
  (folded d (k_phase k) = true → folded d p = true) →
  (if folded d p && negb (folded d (k_phase k)) then wadd64 (cumulative d te) (bytes_of d (pw s) k)
   else cumulative d te) =
  cumulative d te + if folded d p && negb (folded d (k_phase k)) then bytes_of d (pw s) k else 0.
Proof.
  intros Hi Ht Hk Hmono. rewrite (cumulative_access s d te id k (pw s) p) by done.
  pose proof (tally_access d s (pw s) (k_tunnel k) (λ _, folded d) id k p eq_refl Hk) as Ety.
  rewrite (pi_cumulative _ Hi d _ _ Ht). unfold tally at 2 in Ety. rewrite bool_decide_true in Ety by done. cbn [andb] in Ety.
  destruct (folded d (k_phase k)); [rewrite Hmono in Ety |- * by done|destruct (folded d p)]; cbn [andb negb]; lia.
Qed.

Lemma total_access s te id k p :
  par_inv s → ht (pw s) !! k_tunnel k = Some te → tasks s !! id = Some k →
  (opened (k_phase k) = true → opened p = true) →
  (if opened p && negb (opened (k_phase k)) then wadd64 (te_total_conns te) 1 else te_total_conns te) =
  key_sum (opened_conns (k_tunnel k)) (<[id := mkConnTask (k_tunnel k) (k_conn k) p]> (tasks s)).
Proof.
  intros Hi Ht Hk Hmono. rewrite (pi_total _ Hi _ _ Ht). set (k' := mkConnTask _ _ _).
  pose proof (opened_access s (k_tunnel k) id k p Hk) as Eo. fold k' in Eo. unfold opened_conns at 2 in Eo.
  rewrite bool_decide_true in Eo by done. cbn [andb] in Eo. pose proof (pi_size _ Hi). pose proof (pi_next _ Hi).
  assert (key_sum (opened_conns (k_tunnel k)) (<[id:=k']> (tasks s)) ≤ key_sum (λ _ _, 1) (<[id := k']> (tasks s))).
  { apply key_sum_mono. intros. unfold opened_conns. by destruct (_ && _). }
  pose proof (key_sum_update (λ _ (_ : ConnTask), 1) (λ _ _, 1) (tasks s) id k k' Hk ltac:(done)).
  destruct (opened (k_phase k)); [rewrite Hmono in Eo |- * by done|destruct (opened p)]; cbn [andb negb];
    [lia| |lia]. unfold wadd64. rewrite wrap64_id; lia.
Qed.

Lemma inv_access s id k w' p :
  par_inv s → tasks s !! id = Some k → access id k (pw s) = Some (w', p) →
  par_inv (mkPar w' (<[id := mkConnTask (k_tunnel k) (k_conn k) p]> (tasks s)) (readers s)).
Proof.
  intros Hi Hk Ha. destruct (access_spec _ _ _ _ _ Hi Hk Ha) as (te & Ht & [En Enx El (te' & Eht & Ec & Ecum & Etot) Ecn Est Efo Eop]).
  set (k' := mkConnTask (k_tunnel k) (k_conn k) p).
  pose proof (all_bytes_access s w' id k p (readers s) En Hk) as Eb.
  assert (∀ t x, ht w' !! t = Some x → if decide (t = k_tunnel k) then x = te' else ht (pw s) !! t = Some x) as Hht.
  { intros t x. rewrite Eht. case_decide as E; [subst; rewrite lookup_insert_eq; congruence|by rewrite lookup_insert_ne]. }
  split; cbn [pw tasks readers].
  - intros id0 k0 [[<- <-]|[Hne Hk0]]%lookup_insert_Some.
    + destruct (pi_task _ Hi _ _ Hk) as (te0 & ce & ? & Hc & ? & ?). exists te', ce. cbn. rewrite Eht, lookup_insert_eq, En. eauto.
    + destruct (pi_task _ Hi _ _ Hk0) as (te0 & ce & Ht0 & Hc & ? & ?). rewrite En, Eht.
      destruct (decide (k_tunnel k0 = k_tunnel k)) as [E|]; [exists te', ce; rewrite E, lookup_insert_eq|exists te0, ce; rewrite lookup_insert_ne by done]; eauto.
  - intros id0 k0 [[<- <-]|[Hne Hk0]]%lookup_insert_Some; rewrite Enx; by eapply pi_id.
  - rewrite Enx. etrans; [|by apply pi_size].
    pose proof (key_sum_update (λ _ (_ : ConnTask), 1) (λ _ _, 1) (tasks s) id k k' Hk ltac:(done)). lia.
  - rewrite Enx. by apply pi_next.
  - intros c ce. rewrite En, El. by apply pi_loc_n.
  - intros t x Hx. rewrite El. apply Hht in Hx. case_decide as E; [subst; by eapply pi_loc_t|by eapply pi_loc_t].
  - intros t x Hx. apply Hht in Hx. unfold k'. case_decide as E; subst.
    + by rewrite (listed_access s (k_tunnel k) te id k p), decide_True.
    + by rewrite (listed_access s t x id k p), decide_False.
  - intros d t x Hx. apply Hht in Hx. case_decide as E; [subst x t|].
    + rewrite Ecum. apply cumulative_access; [done..|apply Efo].
    + rewrite (pi_cumulative _ Hi d _ _ Hx). pose proof (tally_access d s w' t (λ _, folded d) id k p En Hk) as Ety.
      unfold tally at 2 in Ety. rewrite bool_decide_false in Ety by congruence. cbn [andb] in Ety. fold k' in Ety. lia.
  - intros t x Hx. apply Hht in Hx. case_decide as E; [subst x t|].
    + rewrite Etot. apply total_access; [done..|apply Eop].
    + rewrite (pi_total _ Hi _ _ Hx). pose proof (opened_access s t id k p Hk) as Eo.
      unfold opened_conns at 2 in Eo. rewrite bool_decide_false in Eo by congruence. cbn [andb] in Eo. fold k' in Eo. lia.
  - intros id0 c Hc. apply Ecn in Hc as [[Hne Hc]|(-> & -> & Hx)].
    + rewrite lookup_insert_ne by done. by apply pi_index.
    + exists k'. by rewrite lookup_insert_eq.
  - unfold k'. rewrite Eb. by apply pi_bytes.
Qed.

(** The entry a new conn gets. *)
Definition fresh_conn (te : TunnelEntry) (peer : option bytes) (now : SystemTime) (w : World) : World :=
  let id := wadd64 (next_conn_id w) 1 in
  set_next_loc (next_loc w + 1)
    (set_hn (<[next_loc w := mkConn id (te_id te) (te_client_id te) now peer 0 0]> (hn w)) (set_next_conn_id id w)).

(** Conns that exist keep their counters when another entry is made. *)
Lemma bytes_of_fresh s te peer now d id k :
  par_inv s → tasks s !! id = Some k → bytes_of d (fresh_conn te peer now (pw s)) k = bytes_of d (pw s) k.
Proof.
  intros Hi Hk. destruct (pi_task _ Hi _ _ Hk) as (_ & ce & _ & Hc & _). pose proof (pi_loc_n _ Hi _ _ Hc).
  unfold bytes_of, snapshot_at, fresh_conn. cbn. rewrite lookup_insert_ne by lia. done.
Qed.

Lemma inv_open s t te peer now :
  par_inv s → ht (pw s) !! t = Some te → next_conn_id (pw s) + 1 < 2 ^ 64 →
  par_inv (mkPar (fresh_conn te peer now (pw s))
    (<[wadd64 (next_conn_id (pw s)) 1 := mkConnTask t (next_loc (pw s)) Numbered]> (tasks s)) (readers s)).
Proof.
  intros Hi Ht Hn. set (w' := fresh_conn te peer now (pw s)). set (k' := mkConnTask _ _ _). rewrite wadd64_1 by done.
  assert (tasks s !! (next_conn_id (pw s) + 1) = None) as Hnew.
  { destruct (tasks s !! _) as [k|] eqn:E; [|done]. apply (pi_id _ Hi) in E. lia. }
  assert (∀ d, bytes_of d w' k' = 0) as Hz.
  { intros d. unfold bytes_of, snapshot_at, w', fresh_conn. cbn. rewrite lookup_insert_eq. by destruct d. }
  assert (∀ f g, (∀ i k, tasks s !! i = Some k → f i k = g i k) → f (next_conn_id (pw s) + 1) k' = 0 →
    key_sum f (<[next_conn_id (pw s) + 1 := k']> (tasks s)) = key_sum g (tasks s)) as Hsum.
  { intros f g Hfg Hf. rewrite key_sum_insert, Hf by done. by apply key_sum_ext. }
  split; cbn [pw tasks readers].
  - intros id k [[<- <-]|[Hne Hk]]%lookup_insert_Some.
    + eexists te, _. split_and!; [done|apply lookup_insert_eq|by rewrite wadd64_1|done].
    + destruct (pi_task _ Hi _ _ Hk) as (te0 & ce & ? & Hc & ? & ?). exists te0, ce.
      pose proof (pi_loc_n _ Hi _ _ Hc). cbn. rewrite lookup_insert_ne by lia. done.
  - intros id k Hk. cbn. rewrite wadd64_1 by done.
    apply lookup_insert_Some in Hk as [[<- _]|[_ Hk]]; [lia|]. apply (pi_id _ Hi) in Hk. lia.
  - rewrite key_sum_insert by done. cbn. rewrite wadd64_1 by done. pose proof (pi_size _ Hi). lia.
  - cbn. by rewrite wadd64_1.
  - intros c ce. cbn. intros [[<- _]|[_ Hc]]%lookup_insert_Some; [lia|]. apply (pi_loc_n _ Hi) in Hc. lia.
  - intros t0 x Hx. cbn in Hx |- *. apply (pi_loc_t _ Hi) in Hx. lia.
  - intros t0 x Hx. rewrite map_filter_insert_False by (by intros [_ ?]). rewrite delete_id by done. by apply pi_conns.
  - intros d t0 x Hx. rewrite (pi_cumulative _ Hi d _ _ Hx). symmetry. apply Hsum.
    + intros i k Hk. unfold tally, w'. by rewrite (bytes_of_fresh s te peer now d i k).
    + unfold tally. cbn. destruct d; by rewrite andb_false_r.
  - intros t0 x Hx. rewrite (pi_total _ Hi _ _ Hx). symmetry. apply Hsum; [done|]. unfold opened_conns. cbn. by rewrite andb_false_r.
  - intros id c Hc. destruct (pi_index _ Hi _ _ Hc) as (k & Hk & ?). exists k. rewrite lookup_insert_ne by congruence. done.
  - unfold all_bytes. cbn [pw tasks]. rewrite (Hsum _ (λ _ k, bytes_of BIn (pw s) k + bytes_of BOut (pw s) k)).
    + by apply pi_bytes.
    + intros i k Hk. unfold w'. by rewrite !(bytes_of_fresh s te peer now _ i k).
    + by rewrite !Hz.
Qed.

(** What counting does to one conn and to the others. *)
Lemma bytes_of_add s d d' id k n id' k' :
  par_inv s → tasks s !! id = Some k → tasks s !! id' = Some k' → all_bytes s + n < 2 ^ 64 →
  bytes_of d' (upd_conn (k_conn k) (add_bytes d n) (pw s)) k' =
    bytes_of d' (pw s) k' + if decide (id' = id ∧ d' = d) then n else 0.
Proof.
  intros Hi Hk Hk' Hb. destruct (pi_task _ Hi _ _ Hk) as (_ & ce & _ & Hc & _).
  assert (∀ d, bytes_of d (pw s) k ≤ all_bytes s) as Hle.
  { intros x. etrans; [|apply (key_sum_ge _ _ _ _ Hk)]. destruct x; lia. }
  destruct (decide (id' = id)) as [->|Hne].
  - simplify_eq. specialize (Hle d). revert Hle. unfold bytes_of, snapshot_at, upd_conn. cbn [hn set_hn].
    rewrite lookup_alter_eq, Hc. intros Hle. case_decide as Hd.
    + destruct Hd as [_ ->]. destruct d; cbn in *; unfold add_in, add_out, wadd64; destruct (N.ltb_spec 0 n); cbn;
        rewrite ?wrap64_id by lia; lia.
    + destruct d, d'; try (by destruct Hd); cbn in *; unfold add_in, add_out; destruct (N.ltb_spec 0 n); cbn; lia.
  - rewrite decide_False by naive_solver. unfold bytes_of, snapshot_at, upd_conn. cbn.
    rewrite lookup_alter_ne; [by destruct d'; rewrite N.add_0_r|]. intros E. by apply Hne, (task_inj s id' id k' k).
Qed.

(** A sum over all conns after bytes were counted on one of them. *)
Lemma key_sum_add s id k f g (x : N) :
  par_inv s → tasks s !! id = Some k →
  (∀ id' k', tasks s !! id' = Some k' → g id' k' = f id' k' + if decide (id' = id) then x else 0) →
  key_sum g (tasks s) = key_sum f (tasks s) + x.
Proof.
  intros Hi Hk Hfg. pose proof (key_sum_update f g (tasks s) id k k Hk) as E. rewrite insert_id in E by done.
  specialize (Hfg id k Hk) as E'. rewrite decide_True in E' by done.
  assert (∀ j z, j ≠ id → tasks s !! j = Some z → g j z = f j z) as Ho.
  { intros j z Hj Hz. rewrite (Hfg j z Hz), decide_False by done. lia. }
  specialize (E Ho). lia.
Qed.

Lemma tally_add s d d' id k n t P :
  par_inv s → tasks s !! id = Some k → all_bytes s + n < 2 ^ 64 →
  key_sum (tally d' (upd_conn (k_conn k) (add_bytes d n) (pw s)) t P) (tasks s) =
  key_sum (tally d' (pw s) t P) (tasks s) +
    if bool_decide (d' = d) && (bool_decide (k_tunnel k = t) && P id (k_phase k)) then n else 0.
Proof.
  intros Hi Hk Hb. apply (key_sum_add s id k); [done..|]. intros id' k' Hk'. unfold tally.
  rewrite (bytes_of_add s d d' id k n id' k') by done. destruct (decide (id' = id)) as [->|Hne]; simplify_eq.
  - destruct (bool_decide (k_tunnel k = t) && P id (k_phase k)); cbn; [|by rewrite andb_false_r].
    rewrite andb_true_r. case_decide as Hd; [destruct Hd as [_ ->]; by rewrite bool_decide_true|].
    rewrite bool_decide_false by naive_solver. done.
  - rewrite decide_False by naive_solver. destruct (_ && _); lia.
Qed.

Lemma all_bytes_add s d id k n rs :
  par_inv s → tasks s !! id = Some k → all_bytes s + n < 2 ^ 64 →
  all_bytes (mkPar (upd_conn (k_conn k) (add_bytes d n) (pw s)) (tasks s) rs) = all_bytes s + n.
Proof.
  intros Hi Hk Hb. unfold all_bytes at 1. cbn [pw tasks]. apply (key_sum_add s id k); [done..|]. intros id' k' Hk'.
  rewrite !(bytes_of_add s d _ id k n id' k') by done. destruct (decide (id' = id)) as [->|Hne].
  - destruct d; repeat case_decide; destruct_and?; try done; try lia; naive_solver.
  - rewrite !decide_False by naive_solver. lia.
Qed.

Lemma inv_add s d id k n :
  par_inv s → tasks s !! id = Some k → k_phase k = Open → all_bytes s + n < 2 ^ 64 →
  par_inv (mkPar (upd_conn (k_conn k) (add_bytes d n) (pw s)) (tasks s) (readers s)).
Proof.
  intros Hi Hk Hp Hb.
  assert (∀ c ce', alter (add_bytes d n) (k_conn k) (hn (pw s)) !! c = Some ce' → ∃ ce, hn (pw s) !! c = Some ce) as Hold.
  { intros c ce' [(_ & ce & ? & _)|[_ ?]]%lookup_alter_Some; eauto. }
  split; cbn [pw tasks readers].
  - intros id' k' Hk'. destruct (pi_task _ Hi _ _ Hk') as (te & ce & Ht & Hc & Hid & Hst). cbn.
    destruct (decide (k_conn k' = k_conn k)) as [E|Hne].
    + assert (id' = id) as -> by by eapply task_inj. simplify_eq. exists te, (add_bytes d n ce).
      rewrite lookup_alter_eq, Hc. rewrite Hp. split_and!; [done..| |done].
      unfold add_bytes, add_in, add_out. by destruct d, (0 <? n).
    + exists te, ce. by rewrite lookup_alter_ne.
  - apply Hi.
  - apply Hi.
  - apply Hi.
  - intros c ce' Hc. apply Hold in Hc as [ce Hc]. by eapply pi_loc_n.
  - apply Hi.
  - apply Hi.
  - intros d' t te Ht. rewrite (pi_cumulative _ Hi d' _ _ Ht), (tally_add s d d' id k n t) by done. rewrite Hp.
    destruct d'; cbn; rewrite !andb_false_r; lia.
  - apply Hi.
  - apply Hi.
  - by rewrite (all_bytes_add s d id k n).
Qed.

Lemma inv_tunnel s l client_id req now :
  par_inv s → par_inv (mkPar (register_tunnel l client_id req now (pw s)).1 (tasks s) (readers s)).
Proof.
  intros Hi. assert (∀ w P d, key_sum (tally d w (next_loc (pw s)) P) (tasks s) = 0) as Hz.
  { intros w P d. rewrite (key_sum_ext _ (λ _ _, 0)); [apply key_sum_zero|].
    intros i k Hk. destruct (pi_task _ Hi _ _ Hk) as (te & _ & Ht & _). apply (pi_loc_t _ Hi) in Ht.
    unfold tally. by rewrite bool_decide_false by lia. }
  assert (∀ i k, tasks s !! i = Some k → k_tunnel k ≠ next_loc (pw s)) as Hne.
  { intros i k Hk. destruct (pi_task _ Hi _ _ Hk) as (te & _ & Ht & _). apply (pi_loc_t _ Hi) in Ht. lia. }
  split; cbn; try apply Hi.
  - intros id k Hk. destruct (pi_task _ Hi _ _ Hk) as (te & ce & ?). exists te, ce.
    rewrite lookup_insert_ne by (by apply not_eq_sym, (Hne id)). done.
  - intros c ce Hc. apply (pi_loc_n _ Hi) in Hc. lia.
  - intros t te [[<- _]|[_ Ht]]%lookup_insert_Some; [lia|]. apply (pi_loc_t _ Hi) in Ht. lia.
  - intros t te [[<- <-]|[_ Ht]]%lookup_insert_Some; [|by apply pi_conns]. cbn. symmetry. apply fmap_empty_iff.
    apply map_empty. intros i. apply map_lookup_filter_None. right. intros k Hk [E _]. by apply (Hne i k).
  - intros d t te [[<- <-]|[_ Ht]]%lookup_insert_Some; [|by apply (pi_cumulative _ Hi)]. rewrite Hz. by destruct d.
  - intros t te [[<- <-]|[_ Ht]]%lookup_insert_Some; [|by apply (pi_total _ Hi)]. cbn.
    rewrite (key_sum_ext _ (tally BIn (pw s) (next_loc (pw s)) (λ _, opened))); [by rewrite Hz|].
    intros i k Hk. unfold opened_conns, tally. by rewrite bool_decide_false by by apply (Hne i).
Qed.

Lemma par_step_inv e s s' : par_inv s → par_step e s = Some s' → par_inv s'.
Proof.
  intros Hi Hs. destruct e as [t peer now|id|d id n|r t|r id|id|id remote now|l cid req now]; cbn in Hs.
  - destruct (ht (pw s) !! t) as [te|] eqn:Ht; [|done]. cbn in Hs. case_decide; [|done]. simplify_eq. by apply inv_open.
  - destruct (tasks s !! id) as [k|] eqn:Hk; [|done]. cbn in Hs. case_decide; [done|].
    destruct (access id k (pw s)) as [[w' p]|] eqn:Ha; [|done]. cbn in Hs. simplify_eq. by apply inv_access.
  - destruct (tasks s !! id) as [k|] eqn:Hk; [|done]. cbn in Hs. destruct (k_phase k) eqn:Hp; try done.
    case_decide; [|done]. simplify_eq. by eapply inv_add.
  - destruct (ht (pw s) !! t) as [te|]; [|done]. cbn in Hs. destruct (readers s !! r); [done|]. simplify_eq. by destruct Hi; split.
  - destruct (readers s !! r) as [rd|]; [|done]. cbn in Hs. destruct (read_step id rd (pw s)); [|done]. cbn in Hs. simplify_eq.
    by destruct Hi; split.
  - simplify_eq. destruct Hi. split; try done. cbn. intros id' c [_ Hc]%lookup_delete_Some. eauto.
  - simplify_eq. destruct Hi as [H1 H2 H3 H4 H5 H6 H7 H8 H9 H10 H11]. split; try done; cbn; [intros c ce Hc%H5|intros t te Ht%H6]; lia.
  - simplify_eq. by apply inv_tunnel.
Qed.

Lemma par_run_inv es : ∀ s s', par_inv s → par_run es s = Some s' → par_inv s'.
Proof.
  induction es as [|e es IH]; intros s s' Hi Hr; cbn in Hr; [by simplify_eq|].
  destruct (par_step e s) as [s1|] eqn:E; [|done]. cbn in Hr. eapply IH; [|done]. by eapply par_step_inv.
Qed.

(** ** What a reader reports *)

Definition active (d : Side) (t : Totals) : N := match d with BIn => active_in t | BOut => active_out t end.
Definition cumulative_read (d : Side) (t : Totals) : N :=
  match d with BIn => cumulative_in t | BOut => cumulative_out t end.

(** The entries that the loop has still to add up. *)
Definition pending (d : Side) (pc : ReadPc) (id : N) : bool :=
  match pc with
  | RIter k rest half =>
      bool_decide (id ∈ rest) || (k <? shard_of id)%nat ||
      match d, half with BOut, Some (id', _) => bool_decide (id' = id) | _, _ => false end
  | _ => false
  end.
(** The cumulative counter has been loaded. *)
Definition cumulative_done (d : Side) (pc : ReadPc) : bool :=
  match pc, d with RCumOut, BIn => true | (RLen _ | RTotal | RDone), _ => true | _, _ => false end.

(** The bytes of conns that the loop has still to add up. *)
Definition todo (d : Side) (w : World) (r : Reader) (P : ConnPhase → bool) : N → ConnTask → N :=
  tally d w (r_tunnel r) (λ id p, listed p && pending d (r_pc r) id && P p).

(** What the iterator holds is in the locked shard. *)
Definition locked_ok (te : TunnelEntry) (pc : ReadPc) : Prop :=
  match pc with
  | RIter k rest half =>
      (∀ id, id ∈ rest → is_Some (te_conns te !! id) ∧ shard_of id = k) ∧
      (∀ id c, half = Some (id, c) → te_conns te !! id = Some c ∧ shard_of id = k ∧ id ∉ rest)
  | _ => True
  end.

(** A reader that started when [lo] bytes had been counted on the tunnel, [st] of them on
    conns that were gone already. What it has added up, what it still finds and what the
    cumulative counter holds is at least [lo]; and it adds up nothing twice, nor anything
    of what was gone. *)
Record read_inv (lo st : Side → N) (s : Par) (r : Reader) : Prop := {
  ri_tunnel : is_Some (ht (pw s) !! r_tunnel r);
  ri_locked te : ht (pw s) !! r_tunnel r = Some te → locked_ok te (r_pc r);
  ri_low d te : ht (pw s) !! r_tunnel r = Some te →
    lo d ≤ active d (r_totals r) +
      (if cumulative_done d (r_pc r) then cumulative_read d (r_totals r) else cumulative d te) +
      key_sum (todo d (pw s) r (λ p, negb (folded d p))) (tasks s);
  ri_high d : st d + active d (r_totals r) + key_sum (todo d (pw s) r (λ _, true)) (tasks s) ≤
    counted d s (r_tunnel r);
  ri_read d : cumulative_done d (r_pc r) = true →
    cumulative_read d (r_totals r) ≤ counted d s (r_tunnel r) }.

Lemma cumulative_le s d t te : par_inv s → ht (pw s) !! t = Some te → cumulative d te ≤ counted d s t.
Proof.
  intros Hi Ht. rewrite (pi_cumulative _ Hi d _ _ Ht). apply key_sum_mono. intros i k _. unfold tally.
  destruct (bool_decide _), (folded d (k_phase k)); cbn; lia.
Qed.

Lemma read_not_pending d pc id : cumulative_done d pc = true → pending d pc id = false.
Proof. by destruct pc, d. Qed.

(** The task of a conn makes progress. *)
Lemma read_access lo st s id k w' p r :
  par_inv s → tasks s !! id = Some k → access id k (pw s) = Some (w', p) →
  (writes_map (k_phase k) = true → ¬ holds (k_tunnel k) id r) →
  read_inv lo st s r →
  read_inv lo st (mkPar w' (<[id := mkConnTask (k_tunnel k) (k_conn k) p]> (tasks s)) (readers s)) r.
Proof.
  intros Hi Hk Ha Hw [[te0 Ht0] Hlk Hlow Hhigh Hread].
  destruct (access_spec _ _ _ _ _ Hi Hk Ha) as (te & Ht & [En _ _ (te' & Eht & Ec & Ecum & _) _ _ Efo _ Est Een Emap]).
  pose proof (λ d P, tally_access d s w' (r_tunnel r) P id k p En Hk) as Eta.
  assert (∀ d, counted d (mkPar w' (<[id := mkConnTask (k_tunnel k) (k_conn k) p]> (tasks s)) (readers s)) (r_tunnel r) =
    counted d s (r_tunnel r)) as Ecnt.
  { intros d. specialize (Eta d (λ _ _, true)). unfold counted. cbn [pw tasks]. unfold tally at 2 in Eta. lia. }
  assert (r_tunnel r = k_tunnel k → te0 = te) as Hte by (intros E; rewrite E in Ht0; congruence).
  split; cbn [pw tasks].
  - rewrite Eht. destruct (decide (r_tunnel r = k_tunnel k)) as [->|]; [rewrite lookup_insert_eq|rewrite lookup_insert_ne]; eauto.
  - intros te1 Ht1. specialize (Hlk te0 Ht0). unfold locked_ok in *.
    destruct (r_pc r) as [k0 rest half| | | | |] eqn:Hpc; try done.
    enough (∀ id0, shard_of id0 = k0 → te_conns te1 !! id0 = te_conns te0 !! id0) as Hsame.
    { destruct Hlk as [H1 H2]. split.
      - intros id0 Hid0. destruct (H1 id0 Hid0) as [? Hs]. by rewrite Hsame.
      - intros id0 c Hh. destruct (H2 id0 c Hh) as (? & Hs & ?). by rewrite Hsame. }
    intros id0 Hs. rewrite Eht in Ht1. destruct (decide (r_tunnel r = k_tunnel k)) as [E|]; [|rewrite lookup_insert_ne in Ht1; congruence].
    rewrite (Hte E). rewrite E, lookup_insert_eq in Ht1. injection Ht1 as <-. rewrite Ec.
    destruct (decide (id0 = id)) as [->|Hne]; [|destruct (listed p); by rewrite ?lookup_insert_ne, ?lookup_delete_ne].
    rewrite (task_listed _ _ _ _ Hi Hk Ht). rewrite <-Emap.
    + destruct (listed p); [apply lookup_insert_eq|apply lookup_delete_eq].
    + destruct (writes_map (k_phase k)); [|done]. destruct (Hw eq_refl). unfold holds. by rewrite Hpc.
  - intros d te1 Ht1. specialize (Hlow d te0 Ht0).
    specialize (Eta d (λ id p, listed p && pending d (r_pc r) id && negb (folded d p))). unfold todo in *. unfold tally at 2 in Eta.
    rewrite Eht in Ht1. destruct (decide (r_tunnel r = k_tunnel k)) as [E|Hne].
    + rewrite (Hte E) in Hlow. rewrite E in *. rewrite lookup_insert_eq in Ht1. injection Ht1 as <-.
      rewrite bool_decide_true in Eta by done. cbn [andb] in Eta. specialize (Efo d). specialize (Est d).
      rewrite Ecum, (cumulative_exact s d te id k p) by done. pose proof (read_not_pending d (r_pc r) id) as Hdn.
      destruct (cumulative_done d (r_pc r)), (listed (k_phase k)), (folded d (k_phase k)), (folded d p), (listed p),
        (pending d (r_pc r) id); cbn [andb negb] in *;
        solve [discriminate (Efo eq_refl)|discriminate (Hdn eq_refl)|discriminate (Est eq_refl eq_refl)|lia].
    + rewrite lookup_insert_ne in Ht1 by done. rewrite bool_decide_false in Eta by done. cbn [andb] in Eta.
      assert (te1 = te0) as -> by congruence. lia.
  - intros d. rewrite Ecnt. specialize (Hhigh d). specialize (Een d).
    specialize (Eta d (λ id p, listed p && pending d (r_pc r) id && true)). unfold todo in *. unfold tally at 2 in Eta.
    destruct (bool_decide (k_tunnel k = r_tunnel r)); cbn [andb] in Eta; [|lia].
    destruct (listed p), (listed (k_phase k)), (pending d (r_pc r) id); cbn [andb] in Eta; rewrite ?Een in Eta by done; lia.
  - intros d Hd. rewrite Ecnt. by apply Hread.
Qed.

(** Bytes are counted, a conn gets its number, a tunnel is registered. *)
Lemma read_add lo st s d id k n r :
  par_inv s → tasks s !! id = Some k → k_phase k = Open → all_bytes s + n < 2 ^ 64 → read_inv lo st s r →
  read_inv lo st (mkPar (upd_conn (k_conn k) (add_bytes d n) (pw s)) (tasks s) (readers s)) r.
Proof.
  intros Hi Hk Hp Hb [Ht Hlk Hlow Hhigh Hread].
  assert (∀ d' P, key_sum (tally d' (upd_conn (k_conn k) (add_bytes d n) (pw s)) (r_tunnel r) P) (tasks s) =
    key_sum (tally d' (pw s) (r_tunnel r) P) (tasks s) +
      if bool_decide (d' = d) && (bool_decide (k_tunnel k = r_tunnel r) && P id Open) then n else 0) as Eta.
  { intros d' P. rewrite (tally_add s d d' id k n) by done. by rewrite Hp. }
  split; unfold todo, counted in *; cbn [pw tasks ht upd_conn set_hn] in *.
  - done.
  - done.
  - intros d' te Hte. rewrite Eta. specialize (Hlow d' te Hte). lia.
  - intros d'. rewrite !Eta. specialize (Hhigh d'). cbn [listed andb].
    destruct (bool_decide (d' = d)), (bool_decide (k_tunnel k = r_tunnel r)), (pending d' (r_pc r) id); cbn [andb]; lia.
  - intros d' Hd. rewrite Eta. specialize (Hread d' Hd). lia.
Qed.

Lemma read_open lo st s t te peer now r :
  par_inv s → next_conn_id (pw s) + 1 < 2 ^ 64 → read_inv lo st s r →
  read_inv lo st (mkPar (fresh_conn te peer now (pw s))
    (<[wadd64 (next_conn_id (pw s)) 1 := mkConnTask t (next_loc (pw s)) Numbered]> (tasks s)) (readers s)) r.
Proof.
  intros Hi Hn [Ht Hlk Hlow Hhigh Hread].
  assert (tasks s !! wadd64 (next_conn_id (pw s)) 1 = None) as Hnew.
  { rewrite wadd64_1 by done. destruct (tasks s !! _) as [k|] eqn:E; [|done]. apply (pi_id _ Hi) in E. lia. }
  assert (∀ d P, key_sum (tally d (fresh_conn te peer now (pw s)) (r_tunnel r) P)
      (<[wadd64 (next_conn_id (pw s)) 1 := mkConnTask t (next_loc (pw s)) Numbered]> (tasks s)) =
    key_sum (tally d (pw s) (r_tunnel r) P) (tasks s)) as Eta.
  { intros d P. rewrite key_sum_insert by done.
    assert (bytes_of d (fresh_conn te peer now (pw s)) (mkConnTask t (next_loc (pw s)) Numbered) = 0) as Hz.
    { unfold bytes_of, snapshot_at, fresh_conn. cbn. rewrite lookup_insert_eq. by destruct d. }
    unfold tally at 1. rewrite Hz. rewrite (key_sum_ext _ (tally d (pw s) (r_tunnel r) P)); [by destruct (_ && _)|].
    intros i k Hk. unfold tally. by rewrite (bytes_of_fresh s te peer now d i k). }
  split; unfold todo, counted in *; cbn [pw tasks] in *.
  - done.
  - done.
  - intros d te0 Hte. rewrite Eta. by apply Hlow.
  - intros d. rewrite !Eta. by apply Hhigh.
  - intros d Hd. rewrite Eta. by apply Hread.
Qed.

Lemma read_tunnel lo st s l client_id req now r :
  par_inv s → read_inv lo st s r →
  read_inv lo st (mkPar (register_tunnel l client_id req now (pw s)).1 (tasks s) (readers s)) r.
Proof.
  intros Hi [[te Ht] Hlk Hlow Hhigh Hread].
  assert (ht (register_tunnel l client_id req now (pw s)).1 !! r_tunnel r = ht (pw s) !! r_tunnel r) as Eht.
  { cbn. rewrite lookup_insert_ne; [done|]. apply (pi_loc_t _ Hi) in Ht. lia. }
  split; unfold todo, counted in *; cbn [pw tasks] in *; rewrite ?Eht; done.
Qed.

(** The accesses of the reader itself: an entry moves from what is left to what is added
    up, or nothing that is left changes. *)
Lemma todo_same s r r' d P :
  r_tunnel r' = r_tunnel r →
  (∀ id k, tasks s !! id = Some k → k_tunnel k = r_tunnel r → listed (k_phase k) = true →
     pending d (r_pc r') id = pending d (r_pc r) id) →
  key_sum (todo d (pw s) r' P) (tasks s) = key_sum (todo d (pw s) r P) (tasks s).
Proof.
  intros Et Hp. apply key_sum_ext. intros id k Hk. unfold todo, tally. rewrite Et.
  case_bool_decide as E; [|done]. destruct (listed (k_phase k)) eqn:El; [|done]. by rewrite (Hp id k).
Qed.

Lemma todo_visit s r r' d P id k :
  r_tunnel r' = r_tunnel r → tasks s !! id = Some k → k_tunnel k = r_tunnel r → listed (k_phase k) = true →
  pending d (r_pc r) id = true → pending d (r_pc r') id = false →
  (∀ j, j ≠ id → pending d (r_pc r') j = pending d (r_pc r) j) →
  key_sum (todo d (pw s) r P) (tasks s) =
    key_sum (todo d (pw s) r' P) (tasks s) + if P (k_phase k) then bytes_of d (pw s) k else 0.
Proof.
  intros Et Hk Hkt El Hp Hp' Ho.
  pose proof (key_sum_update (todo d (pw s) r P) (todo d (pw s) r' P) (tasks s) id k k Hk) as E.
  rewrite insert_id in E by done.
  assert (∀ j z, j ≠ id → tasks s !! j = Some z → todo d (pw s) r' P j z = todo d (pw s) r P j z) as Hj.
  { intros j z Hj _. unfold todo, tally. by rewrite Et, Ho. }
  specialize (E Hj). unfold todo at 2 4, tally in E. rewrite Et, Hkt, El, Hp, Hp', bool_decide_true in E by done.
  cbn [andb] in E. lia.
Qed.

Lemma todo_done s r d P : r_pc r = RDone → key_sum (todo d (pw s) r P) (tasks s) = 0.
Proof.
  intros Hpc. rewrite (key_sum_ext _ (λ _ _, 0)); [apply key_sum_zero|]. intros i k _. unfold todo, tally.
  rewrite Hpc. cbn. by rewrite !andb_false_r.
Qed.

(** A listed entry belongs to a task. *)
Lemma listed_task s t te id c :
  par_inv s → ht (pw s) !! t = Some te → te_conns te !! id = Some c →
  ∃ k, tasks s !! id = Some k ∧ k_conn k = c ∧ k_tunnel k = t ∧ listed (k_phase k) = true.
Proof.
  intros Hi Ht. rewrite (pi_conns _ Hi _ _ Ht), lookup_fmap.
  destruct (filter _ _ !! id) as [k|] eqn:E; [|done]. intros [= <-].
  apply map_lookup_filter_Some in E as (Hk & Hkt & Hl). eauto.
Qed.

(** What an access of a reader changes: [v] bytes of a conn in phase [p] may move from
    what is left to what is added up, and the loads after the loop are of the tunnel's
    counters. *)
Record read_effect (s : Par) (te : TunnelEntry) (r r' : Reader) : Prop := {
  re_tunnel : r_tunnel r' = r_tunnel r;
  re_locked : locked_ok te (r_pc r');
  re_moves : ∃ (p : ConnPhase) (v : Side → N), ∀ d, active d (r_totals r') = active d (r_totals r) + v d ∧
    ∀ P, key_sum (todo d (pw s) r P) (tasks s) =
         key_sum (todo d (pw s) r' P) (tasks s) + if P p then v d else 0;
  re_cumulative d : if cumulative_done d (r_pc r) then
      cumulative_done d (r_pc r') = true ∧ cumulative_read d (r_totals r') = cumulative_read d (r_totals r)
    else if cumulative_done d (r_pc r') then cumulative_read d (r_totals r') = cumulative d te else True }.

(** No entry is added up that was counted before. *)
Definition fits (s : Par) (r : Reader) : Prop :=
  ∀ d, active d (r_totals r) + key_sum (todo d (pw s) r (λ _, true)) (tasks s) < 2 ^ 64.

(** The entry [id] is added up on side [d]. *)
Lemma visit_effect s r r' d id c te :
  par_inv s → fits s r → ht (pw s) !! r_tunnel r = Some te → te_conns te !! id = Some c →
  r_tunnel r' = r_tunnel r → locked_ok te (r_pc r') →
  pending d (r_pc r) id = true → pending d (r_pc r') id = false →
  (∀ d' j, d' ≠ d ∨ j ≠ id → pending d' (r_pc r') j = pending d' (r_pc r) j) →
  (∀ d', cumulative_done d' (r_pc r) = false ∧ cumulative_done d' (r_pc r') = false) →
  (∀ d', active d' (r_totals r') = if decide (d' = d) then
     wadd64 (active d (r_totals r)) (match d with BIn => (snapshot_at (pw s) c).1 | BOut => (snapshot_at (pw s) c).2 end)
     else active d' (r_totals r)) →
  read_effect s te r r'.
Proof.
  intros Hi Hfit Hte Hc Et Hlk Hp Hp' Ho Hcd Hact.
  destruct (listed_task _ _ _ _ _ Hi Hte Hc) as (k & Hk & Ekc & Ekt & El).
  split; [done|done| |intros d'; by destruct (Hcd d') as [-> ->]].
  exists (k_phase k), (λ d', if decide (d' = d) then bytes_of d (pw s) k else 0). intros d'.
  assert (∀ P, key_sum (todo d' (pw s) r P) (tasks s) = key_sum (todo d' (pw s) r' P) (tasks s) +
    if P (k_phase k) then if decide (d' = d) then bytes_of d (pw s) k else 0 else 0) as Etodo.
  { intros P. case_decide as Ed.
    - subst d'. apply (todo_visit s r r' d P id k); try done. intros j Hj. apply Ho. by right.
    - rewrite (todo_same s r r' d' P); [destruct (P (k_phase k)); lia|done|]. intros j z _ _ _. apply Ho. by left. }
  split; [|done]. rewrite Hact. case_decide as Ed; [subst d'|lia]. unfold wadd64. rewrite <-Ekc.
  fold (bytes_of d (pw s) k). apply wrap64_id. specialize (Hfit d). rewrite Etodo in Hfit. lia.
Qed.

Lemma elem_of_shard_ids te k id : id ∈ shard_ids te k ↔ is_Some (te_conns te !! id) ∧ shard_of id = k.
Proof.
  unfold shard_ids. rewrite elem_of_dom. split.
  - intros [c Hc]. apply map_lookup_filter_Some in Hc as [Hc ?]. cbn in *. eauto.
  - intros [[c Hc] Hs]. exists c. by apply map_lookup_filter_Some_2.
Qed.

Lemma shard_ids_locked te k : locked_ok te (RIter k (shard_ids te k) None).
Proof. split; [|done]. intros id Hid. by apply elem_of_shard_ids. Qed.

(** The iterator goes on to the next shard, or the loop is over. *)
Lemma shard_effect s te k r :
  par_inv s → ht (pw s) !! r_tunnel r = Some te → r_pc r = RIter k ∅ None →
  read_effect s te r (mkReader (r_tunnel r)
    (if (S k <? shards)%nat then RIter (S k) (shard_ids te (S k)) None else RCumIn) (r_totals r)).
Proof.
  intros Hi Hte Hpc. set (r' := mkReader _ _ _).
  assert (∀ d P, key_sum (todo d (pw s) r' P) (tasks s) = key_sum (todo d (pw s) r P) (tasks s)) as Etodo.
  { intros d P. apply todo_same; [done|]. intros id z Hz Ezt El. rewrite Hpc. unfold r'. cbn [r_pc].
    pose proof (task_listed s id z te Hi Hz ltac:(by rewrite Ezt)) as Hl. rewrite El in Hl. pose proof (shard_of_lt id).
    destruct (Nat.ltb_spec (S k) shards).
    - cbn [pending]. rewrite (bool_decide_false (id ∈ ∅)) by set_solver. destruct d; rewrite !orb_false_r; cbn [orb].
      all: destruct (Nat.ltb_spec k (shard_of id)).
      all: try (rewrite (proj2 (Nat.ltb_ge _ _)), orb_false_r by lia; apply bool_decide_false; rewrite elem_of_shard_ids; lia).
      all: destruct (decide (shard_of id = S k)); [rewrite bool_decide_true; [done|]; apply elem_of_shard_ids; rewrite Hl; eauto|].
      all: rewrite (proj2 (Nat.ltb_lt _ _)) by lia; apply orb_true_r.
    - cbn [pending]. rewrite (bool_decide_false (id ∈ ∅)) by set_solver. rewrite (proj2 (Nat.ltb_ge _ _)) by lia. by destruct d. }
  split; [done|..].
  - cbn [r_pc r']. destruct (S k <? shards)%nat; [apply shard_ids_locked|done].
  - exists Closed, (λ _, 0). intros d. split; [cbn; lia|]. intros P. rewrite Etodo. destruct (P Closed); lia.
  - intros d. rewrite Hpc. cbn [r_pc r']. by destruct (S k <? shards)%nat, d.
Qed.

(** The loads after the loop. *)
Lemma load_effect s te r pc' t' :
  (∀ d id, pending d (r_pc r) id = false) → (∀ d id, pending d pc' id = false) → locked_ok te pc' →
  (∀ d, active d t' = active d (r_totals r)) →
  (∀ d, if cumulative_done d (r_pc r) then cumulative_done d pc' = true ∧ cumulative_read d t' = cumulative_read d (r_totals r)
        else if cumulative_done d pc' then cumulative_read d t' = cumulative d te else True) →
  read_effect s te r (mkReader (r_tunnel r) pc' t').
Proof.
  intros Hp Hp' Hl Ha Hc. split; [done|done| |done]. exists Closed, (λ _, 0). intros d. split; [cbn; rewrite Ha; lia|]. intros P.
  rewrite (todo_same s r (mkReader (r_tunnel r) pc' t') d P); [destruct (P Closed); lia|done|].
  intros id z _ _ _. cbn. by rewrite Hp, Hp'.
Qed.

Lemma read_step_effect s te id r r' :
  par_inv s → fits s r → ht (pw s) !! r_tunnel r = Some te → locked_ok te (r_pc r) →
  read_step id r (pw s) = Some r' → read_effect s te r r'.
Proof.
  intros Hi Hfit Hte Hlk Hs. unfold read_step in Hs. rewrite Hte in Hs. cbn [mbind option_bind] in Hs.
  destruct (r_pc r) as [k rest half| | |k| |] eqn:Hpc.
  - destruct half as [[id0 c]|].
    + destruct Hlk as [Hl Hh]. destruct (Hh id0 c eq_refl) as (Hc & Hsh & Hni).
      destruct (hn (pw s) !! c) as [ce|] eqn:Hce; [|done]. cbn in Hs. injection Hs as <-.
      apply (visit_effect s r _ BOut id0 c te); cbn [r_tunnel r_pc r_totals]; rewrite ?Hpc; try done.
      * cbn [pending]. rewrite (bool_decide_true (id0 = id0)) by done. apply orb_true_r.
      * cbn [pending]. rewrite bool_decide_false, (proj2 (Nat.ltb_ge _ _)) by (done || lia). done.
      * intros d' j Hj. cbn [pending]. destruct d'; [done|]. rewrite (bool_decide_false (id0 = j)) by naive_solver. done.
      * intros d'. unfold snapshot_at. rewrite Hce. by destruct d'.
    + case_decide as Hr0; [subst rest; injection Hs as <-; by apply shard_effect|].
      case_decide as Hin; [|done]. destruct (te_conns te !! id) as [c|] eqn:Hc; [|done]. cbn in Hs.
      destruct (hn (pw s) !! c) as [ce|] eqn:Hce; [|done]. cbn in Hs. injection Hs as <-.
      destruct Hlk as [Hl _]. destruct (Hl id Hin) as [_ Hsh].
      apply (visit_effect s r _ BIn id c te); cbn [r_tunnel r_pc r_totals]; rewrite ?Hpc; try done.
      * split; [intros j Hj; apply Hl; set_solver|]. intros j c' [= <- <-]. set_solver.
      * cbn [pending]. by rewrite bool_decide_true.
      * cbn [pending]. rewrite bool_decide_false, (proj2 (Nat.ltb_ge _ _)) by (set_solver || lia). done.
      * intros d' j Hj. cbn [pending]. destruct d'.
        -- do 2 f_equal. apply bool_decide_ext. set_solver.
        -- destruct (decide (j = id)) as [->|Hne].
           ++ rewrite (bool_decide_true (id = id)), (bool_decide_true (id ∈ rest)) by done. by rewrite orb_true_r.
           ++ rewrite (bool_decide_false (id = j)) by done. do 2 f_equal. apply bool_decide_ext. set_solver.
      * intros d'. unfold snapshot_at. rewrite Hce. by destruct d'.
  - injection Hs as <-. apply load_effect; [by rewrite Hpc|done|done|by intros []|intros []; by rewrite Hpc].
  - injection Hs as <-. apply load_effect; [by rewrite Hpc|done|done|by intros []|intros []; by rewrite Hpc].
  - injection Hs as <-. apply load_effect;
      [by rewrite Hpc|by destruct (S k <? shards)%nat|by destruct (S k <? shards)%nat|by intros []|].
    intros d. rewrite Hpc. destruct (S k <? shards)%nat, d; done.
  - injection Hs as <-. apply load_effect; [by rewrite Hpc|done|done|by intros []|intros []; by rewrite Hpc].
  - done.
Qed.

Lemma read_inv_fits lo st s r : par_inv s → read_inv lo st s r → fits s r.
Proof.
  intros Hi Hr d. pose proof (ri_high _ _ _ _ Hr d) as Hh. pose proof (tally_le d s (r_tunnel r) (λ _ _, true)).
  pose proof (pi_bytes _ Hi). unfold counted in Hh. lia.
Qed.

Lemma read_step_inv lo st s id r r' :
  par_inv s → read_inv lo st s r → read_step id r (pw s) = Some r' → read_inv lo st s r'.
Proof.
  intros Hi Hr Hs. pose proof (read_inv_fits _ _ _ _ Hi Hr) as Hfit. destruct Hr as [[te Hte] Hlk Hlow Hhigh Hread].
  destruct (read_step_effect s te id r r' Hi Hfit Hte (Hlk te Hte) Hs) as [Et Hl (p & v & Hm) Hc].
  split; rewrite ?Et; [by eexists|by intros; simplify_eq|..].
  - intros d te' Hte'. assert (te' = te) as -> by congruence. specialize (Hlow d te Hte). specialize (Hc d).
    destruct (Hm d) as [Ea Et']. rewrite Et' in Hlow. rewrite Ea.
    destruct (cumulative_done d (r_pc r)); [destruct Hc as [-> ->]|destruct (cumulative_done d (r_pc r')); [rewrite Hc|]];
      destruct (negb (folded d p)); lia.
  - intros d. specialize (Hhigh d). destruct (Hm d) as [Ea Et']. rewrite Et' in Hhigh. rewrite Ea. lia.
  - intros d Hd. specialize (Hc d). specialize (Hread d). destruct (cumulative_done d (r_pc r)).
    + destruct Hc as [_ ->]. by apply Hread.
    + rewrite Hd in Hc. rewrite Hc. by apply cumulative_le.
Qed.

Lemma read_inv_readers lo st s rs r : read_inv lo st s r → read_inv lo st (mkPar (pw s) (tasks s) rs) r.
Proof. by intros []; split. Qed.

Lemma read_step_tunnel id r r' w : read_step id r w = Some r' → r_tunnel r' = r_tunnel r.
Proof.
  unfold read_step. destruct (ht w !! r_tunnel r); [|done]. cbn [mbind option_bind].
  destruct (r_pc r) as [k rest [[]|]| | | | |]; try case_decide; try case_decide; try done; intros; simplify_option_eq; done.
Qed.

Lemma read_inv_step lo st e s s' r rd :
  par_inv s → readers s !! r = Some rd → read_inv lo st s rd → par_step e s = Some s' →
  ∃ rd', readers s' !! r = Some rd' ∧ r_tunnel rd' = r_tunnel rd ∧ read_inv lo st s' rd'.
Proof.
  intros Hi Hrd Hr Hs. destruct e as [t peer now|id|d id n|r' t|r' id|id|id remote now|l cid req now]; cbn [par_step] in Hs.
  - destruct (ht (pw s) !! t) as [te|]; [|done]. cbn in Hs. case_decide; [|done]. simplify_eq.
    exists rd. split_and!; [done..|]. by apply read_open.
  - destruct (tasks s !! id) as [k|] eqn:Hk; [|done]. cbn [mbind option_bind] in Hs. case_decide as Hlock; [done|].
    destruct (access id k (pw s)) as [[w' p]|] eqn:Ha; [|done]. cbn in Hs. simplify_eq. exists rd. split_and!; [done..|].
    apply read_access; [done..| |done]. intros Hw Hh. apply Hlock. split; [done|]. intros Hall. by apply (Hall r rd).
  - destruct (tasks s !! id) as [k|] eqn:Hk; [|done]. cbn [mbind option_bind] in Hs. destruct (k_phase k) eqn:Hp; try done.
    case_decide; [|done]. simplify_eq. exists rd. split_and!; [done..|]. by eapply read_add.
  - destruct (ht (pw s) !! t) as [te|]; [|done]. cbn in Hs. destruct (readers s !! r') eqn:Hr'; [done|]. simplify_eq.
    exists rd. split_and!; [|done|by apply read_inv_readers]. cbn. rewrite lookup_insert_ne; [done|congruence].
  - destruct (readers s !! r') as [rd1|] eqn:Hr'; [|done]. cbn in Hs.
    destruct (read_step id rd1 (pw s)) as [rd2|] eqn:Es; [|done]. cbn in Hs. simplify_eq. cbn [readers].
    destruct (decide (r' = r)) as [->|Hne].
    + simplify_eq. exists rd2. rewrite lookup_insert_eq. split_and!; [done|by eapply read_step_tunnel|].
      apply read_inv_readers. by eapply read_step_inv.
    + exists rd. rewrite lookup_insert_ne by done. split_and!; [done..|]. by apply read_inv_readers.
  - simplify_eq. exists rd. split_and!; [done..|]. by destruct Hr; split.
  - simplify_eq. exists rd. split_and!; [done..|]. by destruct Hr; split.
  - simplify_eq. exists rd. split_and!; [done..|]. by apply read_tunnel.
Qed.

Lemma read_inv_run lo st es : ∀ s s' r rd,
  par_inv s → readers s !! r = Some rd → read_inv lo st s rd → par_run es s = Some s' →
  ∃ rd', readers s' !! r = Some rd' ∧ r_tunnel rd' = r_tunnel rd ∧ read_inv lo st s' rd'.
Proof.
  induction es as [|e es IH]; intros s s' r rd Hi Hrd Hr Hs; cbn in Hs; [simplify_eq; eauto|].
  destruct (par_step e s) as [s1|] eqn:E; [|done]. cbn in Hs.
  destruct (read_inv_step _ _ _ _ _ _ _ Hi Hrd Hr E) as (rd1 & ? & Et & ?).
  rewrite <-Et. eapply IH; [by eapply par_step_inv|done..].
Qed.

(** A read begins: everything that is listed is left to be added up. *)
Lemma read_start_todo s t te d P :
  par_inv s → ht (pw s) !! t = Some te →
  key_sum (todo d (pw s) (read_start t te) P) (tasks s) =
  key_sum (tally d (pw s) t (λ _ p, listed p && P p)) (tasks s).
Proof.
  intros Hi Ht. apply key_sum_ext. intros id k Hk. unfold todo, tally. cbn [r_tunnel r_pc read_start].
  case_bool_decide as E; [|done]. destruct (listed (k_phase k)) eqn:El; [|done]. cbn [andb].
  assert (pending d (RIter 0 (shard_ids te 0) None) id = true) as ->; [|done]. cbn [pending].
  pose proof (task_listed s id k te Hi Hk ltac:(by rewrite E)) as Hl. rewrite El in Hl.
  destruct (shard_of id) as [|n] eqn:Es; [|by rewrite (orb_true_r (bool_decide _))].
  rewrite bool_decide_true; [done|]. apply elem_of_shard_ids. rewrite Hl, Es. eauto.
Qed.

Lemma read_start_inv s t te :
  par_inv s → ht (pw s) !! t = Some te →
  read_inv (λ d, counted d s t) (λ d, settled d s t) s (read_start t te).
Proof.
  intros Hi Ht. pose proof (λ d P, read_start_todo s t te d P Hi Ht) as Etodo.
  split; cbn [r_tunnel read_start r_totals].
  - by eexists.
  - intros te' Hte'. simplify_eq. apply shard_ids_locked.
  - intros d te' Hte'. simplify_eq. rewrite Etodo. rewrite (pi_cumulative _ Hi d _ _ Ht). unfold counted.
    replace (active d Totals_default) with 0 by by destruct d. cbn [cumulative_done r_pc read_start]. rewrite N.add_0_l.
    rewrite <-key_sum_plus. apply key_sum_mono. intros id k Hk. unfold tally.
    destruct (bool_decide (k_tunnel k = t)); cbn [andb]; [|lia].
    destruct (listed (k_phase k)) eqn:El; cbn [andb]; [destruct (folded d (k_phase k)); cbn; lia|].
    destruct (k_phase k) eqn:Ep; try done; [|destruct d; cbn; lia..].
    destruct (pi_task _ Hi _ _ Hk) as (_ & ce & _ & Hc & _ & Hst). rewrite Ep in Hst. destruct Hst as [E1 E2].
    unfold bytes_of, snapshot_at. rewrite Hc. destruct d; cbn; lia.
  - intros d. rewrite Etodo. replace (active d Totals_default) with 0 by by destruct d. rewrite N.add_0_r.
    unfold settled, counted. rewrite <-key_sum_plus. apply key_sum_mono. intros id k _. unfold tally.
    destruct (bool_decide (k_tunnel k = t)); cbn [andb]; [|lia]. destruct (k_phase k); cbn; lia.
  - intros d. by destruct d.
Qed.

(** C9: how far the totals of a tunnel can be off when they are read while conns come, go
    and count. Whatever happens between the start of the read and its end, what is
    reported on each side (active plus cumulative) is at least what had been counted when
    the read began; and it exceeds what had been counted when it ended by at most what the
    cumulative counter shows of conns that were not yet gone when the read began: only
    conns that close during the read are reported twice. *)
Theorem concurrent_totals now addr es0 s0 r t es s1 rd d :
  par_run es0 (par_init now addr) = Some s0 → par_run (EStart r t :: es) s0 = Some s1 →
  readers s1 !! r = Some rd → r_pc rd = RDone →
  let reported := active d (r_totals rd) + cumulative_read d (r_totals rd) in
  counted d s0 t ≤ reported ∧
  reported ≤ counted d s1 t + (cumulative_read d (r_totals rd) - settled d s0 t) ∧
  cumulative_read d (r_totals rd) ≤ counted d s1 t.
Proof.
  intros Hr0 Hr1 Hrd Hpc. pose proof (par_run_inv _ _ _ (par_init_inv now addr) Hr0) as Hi.
  cbn [par_run par_step] in Hr1. destruct (ht (pw s0) !! t) as [te|] eqn:Ht; [|done]. cbn [mbind option_bind] in Hr1.
  destruct (readers s0 !! r) eqn:Hn; [done|]. set (s0' := mkPar _ _ _) in Hr1.
  assert (par_step (EStart r t) s0 = Some s0') as Hst by (cbn; by rewrite Ht; cbn; rewrite Hn).
  destruct (read_inv_run (λ d, counted d s0 t) (λ d, settled d s0 t) es s0' s1 r (read_start t te)) as (rd' & Hrd' & Et & [[te1 Ht1] _ Hlow Hhigh Hread]).
  - by eapply par_step_inv.
  - cbn. apply lookup_insert_eq.
  - apply read_inv_readers. by apply read_start_inv.
  - done.
  - simplify_eq. cbn in Et. specialize (Hlow d te1 Ht1). specialize (Hhigh d). specialize (Hread d). rewrite Hpc, Et in *.
    rewrite !todo_done in * by done. assert (cumulative_done d RDone = true) as Hd by by destruct d. rewrite Hd in *. specialize (Hread eq_refl). lia.
Qed.

(** ** At rest *)

Definition live (d : Side) (w : World) (te : TunnelEntry) : N :=
  match d with BIn => live_in w te | BOut => live_out w te end.

Lemma live_tally s d t te :
  par_inv s → ht (pw s) !! t = Some te → live d (pw s) te = key_sum (tally d (pw s) t (λ _, listed)) (tasks s).
Proof.
  intros Hi Ht.
  assert (live d (pw s) te = map_sum (λ c, match d with BIn => (snapshot_at (pw s) c).1 | BOut => (snapshot_at (pw s) c).2 end)
    (te_conns te)) as -> by by destruct d.
  rewrite (pi_conns _ Hi _ _ Ht), map_sum_select. apply key_sum_ext. intros id k _. unfold tally, listed_in. cbn.
  case_decide as E.
  - destruct E as [E1 E2]. by rewrite bool_decide_true, E2 by done.
  - case_bool_decide; [|done]. destruct (listed (k_phase k)); [|done]. naive_solver.
Qed.

Lemma live_small s d t te : par_inv s → ht (pw s) !! t = Some te → live d (pw s) te < 2 ^ 64.
Proof.
  intros Hi Ht. rewrite (live_tally s d t te Hi Ht). eapply N.le_lt_trans; [apply tally_le|by apply pi_bytes].
Qed.

(** C10: at rest the books are exact. In every run, once no conn of a tunnel is being
    registered or closed, the totals of [State] are what was counted on its conns: active
    plus cumulative on each side, the open conns, and all conns there have been. *)
Theorem totals_at_rest `{MapOrder} now addr es s t te :
  par_run es (par_init now addr) = Some s → ht (pw s) !! t = Some te →
  map_Forall (λ _ k, k_tunnel k = t → k_phase k = Open ∨ k_phase k = Closed) (tasks s) →
  let tot := tunnel_totals (pw s) te in
  (∀ d, active d tot + cumulative_read d tot = counted d s t) ∧
  active_conns tot = key_sum (λ _ k, if decide (k_tunnel k = t ∧ k_phase k = Open) then 1 else 0) (tasks s) ∧
  total_conns tot = key_sum (λ _ k, if decide (k_tunnel k = t) then 1 else 0) (tasks s).
Proof.
  intros Hr Ht Hq. pose proof (par_run_inv _ _ _ (par_init_inv now addr) Hr) as Hi. cbn zeta. rewrite tunnel_totals_sums.
  pose proof (live_small s BIn t te Hi Ht) as Hs1. pose proof (live_small s BOut t te Hi Ht) as Hs2. cbn [live] in Hs1, Hs2.
  rewrite !wrap64_id by done. split_and!.
  - intros d. transitivity (live d (pw s) te + cumulative d te); [by destruct d|].
    rewrite (live_tally s d t te Hi Ht), (pi_cumulative _ Hi d _ _ Ht), <-key_sum_plus. apply key_sum_ext.
    intros id k Hk. unfold tally. case_bool_decide as E; [|done]. cbn [andb].
    destruct (Hq id k Hk E) as [-> | ->]; destruct d; cbn; lia.
  - cbn. rewrite <-map_sum_size, (pi_conns _ Hi _ _ Ht), map_sum_select. apply key_sum_ext. intros id k Hk.
    unfold listed_in. cbn. destruct (decide (k_tunnel k = t)) as [E|]; [|rewrite !decide_False by naive_solver; done].
    destruct (Hq id k Hk E) as [-> | ->]; [rewrite !decide_True by done|rewrite !decide_False by naive_solver]; done.
  - cbn. rewrite (pi_total _ Hi _ _ Ht). apply key_sum_ext. intros id k Hk. unfold opened_conns.
    case_decide as E; [rewrite bool_decide_true by done|by rewrite bool_decide_false].
    destruct (Hq id k Hk E) as [-> | ->]; done.
Qed.

(** ** Nothing leaks *)

(** C22: the indexes never keep a conn that is over. In every run, whoever removed what from
    the global index in between, an entry of the index or of a tunnel is one of a conn
    that is not closed yet, under the id that only this conn was given; so when the
    guards are dropped nothing is listed any more. *)
Theorem concurrent_no_leak now addr es s :
  par_run es (par_init now addr) = Some s →
  (∀ id c, conns (pw s) !! id = Some c →
     ∃ k ce, tasks s !! id = Some k ∧ k_conn k = c ∧ k_phase k ≠ Closed ∧
             hn (pw s) !! c = Some ce ∧ ce_id ce = id) ∧
  (∀ t te id c, ht (pw s) !! t = Some te → te_conns te !! id = Some c →
     ∃ k, tasks s !! id = Some k ∧ k_conn k = c ∧ k_tunnel k = t ∧ gone (k_phase k) = false) ∧
  (map_Forall (λ _ k, k_phase k = Closed) (tasks s) →
     conns (pw s) = ∅ ∧ map_Forall (λ _ te, te_conns te = ∅) (ht (pw s))).
Proof.
  intros Hr. pose proof (par_run_inv _ _ _ (par_init_inv now addr) Hr) as Hi.
  assert (∀ t te id c, ht (pw s) !! t = Some te → te_conns te !! id = Some c →
     ∃ k, tasks s !! id = Some k ∧ k_conn k = c ∧ k_tunnel k = t ∧ gone (k_phase k) = false) as Htc.
  { intros t te id c Ht Hc. destruct (listed_task _ _ _ _ _ Hi Ht Hc) as (k & ? & ? & ? & El). exists k.
    split_and!; [done..|]. by destruct (k_phase k). }
  split_and!; [|done|].
  - intros id c Hc. destruct (pi_index _ Hi _ _ Hc) as (k & Hk & <- & Hx).
    destruct (pi_task _ Hi _ _ Hk) as (_ & ce & _ & Hce & ? & _). exists k, ce. split_and!; [done..| |done|done]. by intros E; rewrite E in Hx.
  - intros Hall. split.
    + apply map_empty. intros id. apply eq_None_not_Some. intros [c Hc]. destruct (pi_index _ Hi _ _ Hc) as (k & Hk & _ & Hx).
      by rewrite (Hall _ _ Hk) in Hx.
    + intros t te Ht. apply map_empty. intros id. apply eq_None_not_Some. intros [c Hc].
      destruct (Htc _ _ _ _ Ht Hc) as (k & Hk & _ & _ & Hg). by rewrite (Hall _ _ Hk) in Hg.
Qed.

(** ** No thread is stuck *)

Definition readers_ok (s : Par) : Prop :=
  map_Forall (λ _ rd, ∃ lo st, read_inv lo st s rd) (readers s).

Lemma readers_ok_step e s s' : par_inv s → readers_ok s → par_step e s = Some s' → readers_ok s'.
Proof.
  intros Hi Hok Hs r rd' Hrd'. destruct (readers s !! r) as [rd|] eqn:Hrd.
  - destruct (Hok r rd Hrd) as (lo & st & Hr). destruct (read_inv_step _ _ _ _ _ _ _ Hi Hrd Hr Hs) as (rd1 & E & _ & ?).
    rewrite Hrd' in E. simplify_eq. eauto.
  - destruct e as [t peer now|id|d id n|r' t|r' id|id|id remote now|l cid req now]; cbn [par_step] in Hs.
    + destruct (ht (pw s) !! t); [|done]. cbn in Hs. case_decide; [|done]. simplify_eq. cbn in Hrd'. congruence.
    + destruct (tasks s !! id) as [k|]; [|done]. cbn [mbind option_bind] in Hs. case_decide; [done|].
      destruct (access id k (pw s)) as [[]|]; [|done]. cbn in Hs. simplify_eq. cbn in Hrd'. congruence.
    + destruct (tasks s !! id) as [k|]; [|done]. cbn [mbind option_bind] in Hs. destruct (k_phase k); try done.
      case_decide; [|done]. simplify_eq. cbn in Hrd'. congruence.
    + destruct (ht (pw s) !! t) as [te|] eqn:Ht; [|done]. cbn in Hs. destruct (readers s !! r'); [done|]. simplify_eq.
      cbn in Hrd'. apply lookup_insert_Some in Hrd' as [[<- <-]|[_ ?]]; [|congruence].
      eexists _, _. apply read_inv_readers. by apply read_start_inv.
    + destruct (readers s !! r') as [rd1|] eqn:Hr'; [|done]. cbn in Hs. destruct (read_step id rd1 (pw s)); [|done]. cbn in Hs.
      simplify_eq. cbn in Hrd'. apply lookup_insert_Some in Hrd' as [[<- <-]|[_ ?]]; congruence.
    + simplify_eq. cbn in Hrd'. congruence.
    + simplify_eq. cbn in Hrd'. congruence.
    + simplify_eq. cbn in Hrd'. congruence.
Qed.

Lemma par_run_ok es : ∀ s s',
  par_inv s → readers_ok s → par_run es s = Some s' → par_inv s' ∧ readers_ok s'.
Proof.
  induction es as [|e es IH]; intros s s' Hi Hok Hs; cbn in Hs; [by simplify_eq|].
  destruct (par_step e s) as [s1|] eqn:E; [|done]. eapply IH; [by eapply par_step_inv|by eapply readers_ok_step|done].
Qed.

Lemma par_run_app es es' s s1 : par_run es s = Some s1 → par_run (es ++ es') s = par_run es' s1.
Proof.
  revert s. induction es as [|e es IH]; intros s Hs; cbn in *; [by simplify_eq|].
  destruct (par_step e s); [|done]. by apply IH.
Qed.

(** How much a reader has left to do. *)
Definition read_major (pc : ReadPc) : nat :=
  match pc with
  | RIter k _ _ => 5 + shards + (shards - k)
  | RCumIn => 4 + shards | RCumOut => 3 + shards
  | RLen k => 2 + (shards - k)
  | RTotal => 1 | RDone => 0
  end.
Definition read_minor (pc : ReadPc) : nat :=
  match pc with RIter _ rest half => 2 * size rest + (if half is Some _ then 1 else 0) | _ => 0 end.

Lemma read_progress s lo st r :
  par_inv s → read_inv lo st s r → r_pc r ≠ RDone →
  ∃ id r', read_step id r (pw s) = Some r' ∧
    (read_major (r_pc r') < read_major (r_pc r) ∨
     read_major (r_pc r') = read_major (r_pc r) ∧ read_minor (r_pc r') < read_minor (r_pc r))%nat.
Proof.
  intros Hi [[te Hte] Hlk _ _ _] Hpc. specialize (Hlk te Hte). unfold read_step. rewrite Hte. cbn [mbind option_bind].
  assert (∀ id c, te_conns te !! id = Some c → is_Some (hn (pw s) !! c)) as Hhn.
  { intros id c Hc. destruct (listed_task _ _ _ _ _ Hi Hte Hc) as (k & Hk & <- & _).
    destruct (pi_task _ Hi _ _ Hk) as (_ & ce & _ & ? & _). by eexists. }
  destruct (r_pc r) as [k rest [[id0 c]|]| | |k| |]; try done.
  - destruct Hlk as [_ Hh]. destruct (Hh id0 c eq_refl) as (Hc & _). destruct (Hhn _ _ Hc) as [ce Hce]. rewrite Hce.
    exists 0. eexists. split; [done|]. cbn. lia.
  - destruct (decide (rest = ∅)) as [->|Hne].
    + exists 0. eexists. split; [done|]. left. cbn [r_pc]. destruct (Nat.ltb_spec (S k) shards); cbn [read_major]; lia.
    + destruct (set_choose_L rest Hne) as [id Hid]. destruct Hlk as [Hl _]. destruct (Hl id Hid) as [[c Hc] _].
      destruct (Hhn _ _ Hc) as [ce Hce]. exists id. rewrite decide_True, Hc by done. cbn. rewrite Hce. eexists. split; [done|].
      right. split; [done|]. cbn. rewrite size_difference, size_singleton by set_solver.
      assert (size rest ≠ 0%nat) by (intros E%size_empty_inv; set_solver). lia.
  - exists 0. eexists. split; [done|]. cbn. lia.
  - exists 0. eexists. split; [done|]. cbn. lia.
  - exists 0. eexists. split; [done|]. left. cbn [r_pc]. destruct (Nat.ltb_spec (S k) shards); cbn [read_major]; lia.
  - exists 0. eexists. split; [done|]. cbn. lia.
Qed.

(** A reader can go on to its end, whatever the other threads do not do. *)
Lemma reader_drain s r rd lo st :
  par_inv s → readers s !! r = Some rd → read_inv lo st s rd →
  ∃ es rd', par_run es s = Some (mkPar (pw s) (tasks s) (<[r := rd']> (readers s))) ∧ r_pc rd' = RDone ∧
    Forall (λ e, ∃ id, e = ERead r id) es.
Proof.
  remember (read_major (r_pc rd)) as m eqn:Em. revert s rd Em. induction m as [m IHm] using lt_wf_ind. intros s rd Em.
  remember (read_minor (r_pc rd)) as n eqn:En. revert s rd Em En. induction n as [n IHn] using lt_wf_ind.
  intros s rd Em En Hi Hrd Hr. destruct (decide (read_major (r_pc rd) = 0%nat)) as [Hz|Hnz].
  - exists [], rd. rewrite insert_id by done. split_and!; [by destruct s|by destruct (r_pc rd)|done].
  - destruct (read_progress s lo st rd Hi Hr) as (id & rd1 & Hs & Hlt); [by intros E; rewrite E in Hnz|].
    set (s1 := mkPar (pw s) (tasks s) (<[r := rd1]> (readers s))).
    assert (par_step (ERead r id) s = Some s1) as Hst by (cbn [par_step]; rewrite Hrd; cbn; by rewrite Hs).
    assert (∃ es rd', par_run es s1 = Some (mkPar (pw s1) (tasks s1) (<[r := rd']> (readers s1))) ∧ r_pc rd' = RDone ∧
      Forall (λ e, ∃ id, e = ERead r id) es) as (es & rd' & Hes & Hd & Hall).
    { assert (par_inv s1) by by eapply par_step_inv.
      assert (read_inv lo st s1 rd1) by (apply read_inv_readers; by eapply read_step_inv).
      assert (readers s1 !! r = Some rd1) by apply lookup_insert_eq.
      destruct Hlt as [Hlt|[Heq Hlt]].
      - by apply (IHm (read_major (r_pc rd1)) ltac:(lia) s1 rd1 eq_refl).
      - by apply (IHn (read_minor (r_pc rd1)) ltac:(lia) s1 rd1 ltac:(congruence) eq_refl). }
    exists (ERead r id :: es), rd'. split_and!; [|done|by constructor; [eexists|]].
    cbn [par_run]. rewrite Hst. cbn [mbind option_bind]. rewrite Hes. cbn. by rewrite insert_insert_eq.
Qed.

Lemma task_step_free s id k w' p :
  map_Forall (λ _ rd, r_pc rd = RDone) (readers s) → tasks s !! id = Some k → access id k (pw s) = Some (w', p) →
  par_step (ETask id) s = Some (mkPar w' (<[id := mkConnTask (k_tunnel k) (k_conn k) p]> (tasks s)) (readers s)).
Proof.
  intros Hd Hk Ha. cbn [par_step]. rewrite Hk. cbn [mbind option_bind]. rewrite decide_False; [by rewrite Ha|].
  intros [_ Hn]. apply Hn. intros r rd Hrd Hh. pose proof (Hd r rd Hrd) as E. cbn in E. unfold holds in Hh. by rewrite E in Hh.
Qed.

Lemma task_step_at w ts rs id t c ph w' p :
  map_Forall (λ _ rd, r_pc rd = RDone) rs → access id (mkConnTask t c ph) w = Some (w', p) →
  par_step (ETask id) (mkPar w (<[id := mkConnTask t c ph]> ts) rs) = Some (mkPar w' (<[id := mkConnTask t c p]> ts) rs).
Proof.
  intros Hd Ha. rewrite (task_step_free _ id (mkConnTask t c ph) w' p); [|done|apply lookup_insert_eq|done].
  cbn [tasks readers k_tunnel k_conn]. by rewrite insert_insert_eq.
Qed.

(** ** Alone *)

(** The entries in the first [k] shards. *)
Definition shard_sizes (te : TunnelEntry) (k : nat) : N :=
  nsum (map (λ j, N.of_nat (size (shard_ids te j))) (seq 0 k)).

Lemma shard_sizes_S te k : shard_sizes te (S k) = shard_sizes te k + N.of_nat (size (shard_ids te k)).
Proof.
  unfold shard_sizes. rewrite seq_S, map_app, nsum_app. cbn. lia.
Qed.

Lemma shard_sizes_all te : shard_sizes te shards = N.of_nat (size (te_conns te)).
Proof.
  assert (∀ k, N.of_nat (size (filter (λ x, (shard_of x.1 < k)%nat) (te_conns te))) = shard_sizes te k) as Hk.
  { induction k as [|k IH].
    - replace (filter _ (te_conns te)) with (∅ : gmap N loc); [done|]. symmetry. apply map_empty. intros i.
      apply map_lookup_filter_None. right. intros x _ Hx. cbn in Hx. lia.
    - rewrite shard_sizes_S, <-IH. unfold shard_ids. rewrite size_dom, <-Nnat.Nat2N.inj_add. f_equal.
      rewrite <-map_size_disj_union.
      + f_equal. rewrite <-map_filter_or. apply map_filter_ext. cbn. intros i x _. lia.
      + apply map_disjoint_spec. intros i x y [_ Hx]%map_lookup_filter_Some [_ Hy]%map_lookup_filter_Some. cbn in *. lia. }
  rewrite <-Hk. do 2 f_equal. apply map_filter_id. intros i x _. cbn. apply shard_of_lt.
Qed.

(** A reader in a world that does not change. *)
Record alone (s : Par) (te : TunnelEntry) (r : Reader) : Prop := {
  al_tunnel : ht (pw s) !! r_tunnel r = Some te;
  al_locked : locked_ok te (r_pc r);
  al_live d : active d (r_totals r) + key_sum (todo d (pw s) r (λ _, true)) (tasks s) = live d (pw s) te;
  al_cumulative d : cumulative_done d (r_pc r) = true → cumulative_read d (r_totals r) = cumulative d te;
  al_len : match r_pc r with
           | RIter _ _ _ | RCumIn | RCumOut => active_conns (r_totals r) = 0
           | RLen k => active_conns (r_totals r) = shard_sizes te k ∧ (k < shards)%nat
           | RTotal | RDone => active_conns (r_totals r) = N.of_nat (size (te_conns te))
           end;
  al_total : r_pc r = RDone → total_conns (r_totals r) = te_total_conns te }.

Lemma alone_start s t te : par_inv s → ht (pw s) !! t = Some te → alone s te (read_start t te).
Proof.
  intros Hi Ht. pose proof (read_start_inv s t te Hi Ht) as Hr. split; cbn [r_tunnel r_pc r_totals read_start]; try done.
  - by apply shard_ids_locked.
  - intros d. rewrite (live_tally s d t te Hi Ht).
    rewrite (read_start_todo s t te d _ Hi Ht). replace (active d Totals_default) with 0 by by destruct d.
    rewrite N.add_0_l. apply key_sum_ext. intros i k _. unfold tally. by rewrite andb_true_r.
Qed.

(** What is loaded after the sums does not touch them. *)
Lemma alone_len s te id r r' :
  alone s te r → read_step id r (pw s) = Some r' →
  match r_pc r' with
  | RIter _ _ _ | RCumIn | RCumOut => active_conns (r_totals r') = 0
  | RLen k => active_conns (r_totals r') = shard_sizes te k ∧ (k < shards)%nat
  | RTotal | RDone => active_conns (r_totals r') = N.of_nat (size (te_conns te))
  end ∧ (r_pc r' = RDone → total_conns (r_totals r') = te_total_conns te).
Proof.
  intros [Hte _ _ _ Hlen _] Hs. unfold read_step in Hs. rewrite Hte in Hs. cbn [mbind option_bind] in Hs.
  destruct (r_pc r) as [k rest [[id0 c]|]| | |k| |].
  - destruct (hn (pw s) !! c); [|done]. cbn in Hs. by injection Hs as <-.
  - case_decide; [injection Hs as <-; cbn [r_pc]; by destruct (S k <? shards)%nat|]. case_decide; [|done].
    destruct (te_conns te !! id) as [c|]; [|done]. cbn in Hs. destruct (hn (pw s) !! c); [|done]. cbn in Hs. by injection Hs as <-.
  - by injection Hs as <-.
  - injection Hs as <-. cbn. rewrite Hlen. pose proof (shard_of_lt 0). unfold shard_sizes. cbn. split; [split; [done|lia]|done].
  - injection Hs as <-. destruct Hlen as [Hl Hk]. cbn [r_pc r_totals active_conns tt_set_len].
    rewrite Hl, <-shard_sizes_S. destruct (Nat.ltb_spec (S k) shards); [done|].
    rewrite <-shard_sizes_all. by replace (S k) with shards by lia.
  - by injection Hs as <-.
  - done.
Qed.

Lemma alone_step s te id r r' :
  par_inv s → alone s te r → read_step id r (pw s) = Some r' → alone s te r'.
Proof.
  intros Hi Hal Hs. destruct (alone_len _ _ _ _ _ Hal Hs) as [Hlen Htot]. destruct Hal as [Hte Hlk Hlive Hcum _ _].
  assert (fits s r) as Hfit by (intros d; rewrite Hlive; by eapply live_small).
  destruct (read_step_effect s te id r r' Hi Hfit Hte Hlk Hs) as [Et Hl (p & v & Hm) Hc].
  split; [by rewrite Et|done| | |done|done].
  - intros d. destruct (Hm d) as [Ea Etd]. rewrite <-Hlive, Ea, Etd. lia.
  - intros d Hd. specialize (Hc d). specialize (Hcum d). destruct (cumulative_done d (r_pc r)).
    + destruct Hc as [_ ->]. by apply Hcum.
    + by rewrite Hd in Hc.
Qed.

Lemma alone_run r es : ∀ s s' te rd rd',
  par_inv s → Forall (λ e, ∃ id, e = ERead r id) es → par_run es s = Some s' →
  readers s !! r = Some rd → readers s' !! r = Some rd' → alone s te rd → alone s te rd'.
Proof.
  induction es as [|e es IH]; intros s s' te rd rd' Hi Hall Hs Hrd Hrd' Hal; cbn in Hs; [by simplify_eq|].
  inversion Hall as [|? ? [id ->] Hall']; subst. cbn in Hs. rewrite Hrd in Hs. cbn in Hs.
  destruct (read_step id rd (pw s)) as [rd1|] eqn:E; [|done]. cbn in Hs.
  set (s1 := mkPar (pw s) (tasks s) (<[r := rd1]> (readers s))) in Hs.
  assert (par_inv s1) as Hi1 by (destruct Hi; by split).
  assert (alone s1 te rd') as []; [|by split].
  eapply (IH s1); [done..|apply lookup_insert_eq|done|]. destruct (alone_step _ _ _ _ _ Hi Hal E). by split.
Qed.

(** The accesses are those of the operations of [State]: a thread that is not
    interrupted does in one go what [register_conn] and [close_conn] do to the state, and
    reads what [totals] computes. *)
Theorem atomic_sequential `{MapOrder} now addr es s :
  par_run es (par_init now addr) = Some s → map_Forall (λ _ rd, r_pc rd = RDone) (readers s) →
  (∀ t te peer at_time, ht (pw s) !! t = Some te → next_conn_id (pw s) + 1 < 2 ^ 64 →
     let id := next_conn_id (pw s) + 1 in
     ∃ s', par_run [EOpen t peer at_time; ETask id; ETask id; ETask id] s = Some s' ∧
       pw s' = (register_conn t te peer at_time (pw s)).1 ∧
       tasks s' !! id = Some (mkConnTask t (register_conn t te peer at_time (pw s)).2 Open)) ∧
  (∀ id k ce, tasks s !! id = Some k → k_phase k = Open → hn (pw s) !! k_conn k = Some ce →
     ∃ s', par_run (replicate 6 (ETask id)) s = Some s' ∧
       pw s' = close_conn (k_tunnel k) (k_conn k) ce (pw s) ∧
       tasks s' !! id = Some (mkConnTask (k_tunnel k) (k_conn k) Closed)) ∧
  (∀ r t te, ht (pw s) !! t = Some te → readers s !! r = None →
     ∃ es' s' rd, par_run (EStart r t :: es') s = Some s' ∧ pw s' = pw s ∧
       readers s' !! r = Some rd ∧ r_pc rd = RDone ∧ r_totals rd = tunnel_totals (pw s) te).
Proof.
  intros Hr Hd. pose proof (par_run_inv _ _ _ (par_init_inv now addr) Hr) as Hi. split_and!.
  - intros t te peer at_time Ht Hn. cbn zeta.
    set (s1 := mkPar (fresh_conn te peer at_time (pw s))
      (<[next_conn_id (pw s) + 1 := mkConnTask t (next_loc (pw s)) Numbered]> (tasks s)) (readers s)).
    assert (par_step (EOpen t peer at_time) s = Some s1) as Hst.
    { cbn [par_step]. rewrite Ht. cbn [mbind option_bind]. rewrite decide_True by done. unfold s1, fresh_conn. by rewrite wadd64_1. }
    cbn [par_run]. rewrite Hst. cbn [mbind option_bind]. unfold s1.
    do 3 (erewrite task_step_at; [|done|reflexivity]; cbn [mbind option_bind]).
    eexists. split; [done|]. cbn [pw tasks readers]. rewrite lookup_insert_eq. unfold register_conn, fresh_conn. by rewrite wadd64_1.
  - intros id [t c p] ce Hk Hp Hc. cbn in Hp, Hc. subst p. destruct (pi_task _ Hi _ _ Hk) as (te & ce' & Ht & Hc' & Hid & _).
    cbn in Hc'. assert (ce' = ce) as -> by congruence. subst id. cbn [replicate par_run].
    rewrite (task_step_free s _ _ (pw s) (LoadedIn (ce_in ce)) Hd Hk) by (cbn; by rewrite Hc). cbn [mbind option_bind k_tunnel k_conn].
    rewrite (task_step_at _ _ _ _ _ _ _ (pw s) (Loaded (ce_in ce) (ce_out ce)) Hd) by (cbn; by rewrite Hc). cbn [mbind option_bind].
    do 4 (erewrite task_step_at; [|done|reflexivity]; cbn [mbind option_bind]).
    eexists. split; [done|]. cbn [pw tasks]. by rewrite lookup_insert_eq.
  - intros r t te Ht Hn. set (s1 := mkPar (pw s) (tasks s) (<[r := read_start t te]> (readers s))).
    assert (par_step (EStart r t) s = Some s1) as Hst by (cbn [par_step]; rewrite Ht; cbn; by rewrite Hn).
    assert (readers s1 !! r = Some (read_start t te)) as Hrd by apply lookup_insert_eq.
    pose proof (par_step_inv _ _ _ Hi Hst) as Hi1.
    destruct (reader_drain s1 r (read_start t te) _ _ Hi1 Hrd (read_start_inv s1 t te Hi1 Ht)) as (es' & rd & Hes & Hdn & Hall).
    exists es', (mkPar (pw s1) (tasks s1) (<[r := rd]> (readers s1))), rd.
    assert (readers (mkPar (pw s1) (tasks s1) (<[r := rd]> (readers s1))) !! r = Some rd) as Hrd' by apply lookup_insert_eq.
    split_and!; [cbn [par_run]; rewrite Hst; exact Hes|done|exact Hrd'|done|].
    destruct (alone_run r es' s1 _ te _ rd Hi1 Hall Hes Hrd Hrd' (alone_start s1 t te Hi1 Ht)) as [_ _ Hl Hc Hlen Htot].
    pose proof (live_small s BIn t te Hi Ht) as Hs1. pose proof (live_small s BOut t te Hi Ht) as Hs2. cbn [live] in Hs1, Hs2.
    rewrite tunnel_totals_sums, !wrap64_id by done. rewrite Hdn in Hlen, Htot.
    assert (∀ d, key_sum (todo d (pw s1) rd (λ _, true)) (tasks s1) = 0) as Hz by (intros d; by apply todo_done).
    pose proof (Hl BIn) as L1. pose proof (Hl BOut) as L2. rewrite Hz, N.add_0_r in L1, L2.
    pose proof (Hc BIn ltac:(by rewrite Hdn)) as C1. pose proof (Hc BOut ltac:(by rewrite Hdn)) as C2.
    specialize (Htot eq_refl). destruct (r_totals rd). cbn in *. by subst.
Qed.

End atomic.

(** ** Examples *)

Lemma four_lt (k : N) : (N.to_nat (k `mod` 4) < 4)%nat.
Proof. pose proof (N.mod_lt k 4 ltac:(done)). lia. Qed.

#[local] Instance four_shards : Shards :=
  {| shards := 4; shard_of k := N.to_nat (k `mod` 4); shard_of_lt := four_lt |}.

(** A conn that has counted 100 bytes in and 7 out. *)
Definition one_conn : list Event :=
  [EClient 1 demo_addr 0; ETunnel 0 1 demo_remote 0; EOpen 1 None 0; ETask 1; ETask 1; ETask 1;
   EAdd BIn 1 100; EAdd BOut 1 7].
Definition one_state : Par := default (par_init 0 demo_addr) (par_run one_conn (par_init 0 demo_addr)).

Lemma is_Some_default {A} (d : A) (o : option A) : bool_decide (is_Some o) = true → o = Some (default d o).
Proof. intros [x ->]%bool_decide_eq_true. done. Qed.

Lemma one_run : par_run one_conn (par_init 0 demo_addr) = Some one_state.
Proof. apply is_Some_default. vm_compute. reflexivity. Qed.

(** A reader goes through the shards and adds the conn up; then the conn closes; then the
    reader loads the cumulative counters. *)
Definition overlap : list Event :=
  [ERead 9 0; ERead 9 1; ERead 9 0; ERead 9 0; ERead 9 0; ERead 9 0] ++ replicate 6 (ETask 1) ++ replicate 7 (ERead 9 0).
Definition overlap_state : Par := default one_state (par_run (EStart 9 1 :: overlap) one_state).
Definition overlap_reader : Reader := default (mkReader 0 RDone Totals_default) (readers overlap_state !! 9).

Lemma overlap_run : par_run (EStart 9 1 :: overlap) one_state = Some overlap_state.
Proof. apply is_Some_default. vm_compute. reflexivity. Qed.

Lemma overlap_read : readers overlap_state !! 9 = Some overlap_reader.
Proof. apply is_Some_default. vm_compute. reflexivity. Qed.

Lemma overlap_active : active BIn (r_totals overlap_reader) = 100.
Proof. vm_compute. reflexivity. Qed.

Lemma overlap_cumulative : cumulative_read BIn (r_totals overlap_reader) = 100.
Proof. vm_compute. reflexivity. Qed.

(** The bytes of the conn are reported twice. *)
Example counted_twice :
  r_pc overlap_reader = RDone ∧
  active BIn (r_totals overlap_reader) + cumulative_read BIn (r_totals overlap_reader) = 200 ∧
  counted BIn overlap_state 1 = 100.
Proof. rewrite overlap_active, overlap_cumulative. split_and!; vm_compute; reflexivity. Qed.

Lemma concurrent_totals_witness :
  counted BIn one_state 1 ≤ 200 ∧ 200 ≤ counted BIn overlap_state 1 + (100 - settled BIn one_state 1).
Proof.
  destruct (concurrent_totals 0 demo_addr one_conn one_state 9 1 overlap overlap_state overlap_reader BIn one_run overlap_run)
    as (H1 & H2 & _); [exact overlap_read|vm_compute; reflexivity|].
  rewrite overlap_active, overlap_cumulative in H1, H2. split; [exact H1|exact H2].
Defined.

Definition one_tunnel : TunnelEntry := default (mkTunnel 0 0 Forward (kind demo_remote) [] 0 ∅ 0 0 0) (ht (pw one_state) !! 1).

Lemma one_tunnel_at : ht (pw one_state) !! 1 = Some one_tunnel.
Proof. apply is_Some_default. vm_compute. reflexivity. Qed.

Lemma totals_at_rest_witness :
  active BIn (@tunnel_totals by_tree (pw one_state) one_tunnel) +
  cumulative_read BIn (@tunnel_totals by_tree (pw one_state) one_tunnel) = counted BIn one_state 1.
Proof.
  destruct (@totals_at_rest four_shards by_tree 0 demo_addr one_conn one_state 1 one_tunnel one_run one_tunnel_at) as (H1 & _).
  - assert (map_Forall (λ _ k, k_phase k = Open) (tasks one_state)) as Hall.
    { apply (bool_decide_unpack _). vm_compute. exact I. }
    intros id k Hk _. left. exact (Hall id k Hk).
  - exact (H1 BIn).
Defined.

Lemma concurrent_no_leak_witness : conns (pw overlap_state) = ∅.
Proof.
  destruct (concurrent_no_leak 0 demo_addr (one_conn ++ EStart 9 1 :: overlap) overlap_state) as (_ & _ & H3).
  - rewrite (par_run_app _ _ _ _ one_run). exact overlap_run.
  - refine (proj1 (H3 _)). apply (bool_decide_unpack _). vm_compute. exact I.
Defined.

Lemma atomic_sequential_witness :
  ∃ es' s' rd, par_run (EStart 9 1 :: es') one_state = Some s' ∧ pw s' = pw one_state ∧
    readers s' !! 9 = Some rd ∧ r_pc rd = RDone ∧ r_totals rd = @tunnel_totals by_tree (pw one_state) one_tunnel.
Proof.
  destruct (@atomic_sequential four_shards by_tree 0 demo_addr one_conn one_state one_run) as (_ & _ & H3).
  - assert (readers one_state = ∅) as -> by (vm_cast_no_check (eq_refl (∅ : gmap N Reader))). apply map_Forall_empty.
  - apply (H3 9 1 one_tunnel one_tunnel_at). vm_cast_no_check (eq_refl (None : option Reader)).
Defined.
