(* ===== verification/Locks.v ===== *)
(** * Locks: the locks of the server's shared state ([src/server/state.rs],
      [src/server/admin.rs], and the relay maps of [src/common/udp.rs] and
      [src/common/socks.rs])

    A [DashMap] is an array of shards behind reader-writer locks: a lookup locks one shard
    for reading, an insertion or a removal locks one for writing, [len] locks one after the
    other, and an iterator locks a shard, keeps it locked while the loop body runs, and
    locks the next one before it lets go of it. The history is behind a [RwLock]. Loop
    bodies take further locks: the conns of a tunnel under the tunnels of a client, the
    global conns under the conns of a tunnel. This file writes down what every operation of
    the state and every admin route locks and when, with whatever the maps turn out to
    hold, and shows that threads that run them never block one another for good. *)

From S2P Require Import Prelude Atomic.

(** ** Locks *)

(** The maps: of [Inner], of every [ClientEntry] and [TunnelEntry] (by its id), and those
    of the UDP relays. *)
Inductive Map :=
| Clients
| ClientTunnels (client : N)
| Tunnels
| TunnelConns (tunnel : N)
| Conns
| History
| Relay (relay : N).

#[export] Instance Map_eq_dec : EqDecision Map.
Proof. solve_decision. Defined.

Record Lock := mkLock { l_map : Map; l_shard : nat }.

#[export] Instance Lock_eq_dec : EqDecision Lock.
Proof. solve_decision. Defined.

Inductive Mode := Rd | Wr.

#[export] Instance Mode_eq_dec : EqDecision Mode.
Proof. solve_decision. Defined.

(** Whom a lock is given to, by who holds it and who waits for it: a writer is alone and a
    reader is with readers only; which of those that wait a free lock is given to, and
    whether a reader has to let a waiting writer pass, is the lock's choice. *)
Class RwPolicy := {
  admits : list Mode → list Mode → Mode → bool;
  admits_writer holders waiters : admits holders waiters Wr = true → holders = [];
  admits_reader holders waiters : admits holders waiters Rd = true → Wr ∉ holders;
  admits_free waiters : waiters ≠ [] → ∃ m, m ∈ waiters ∧ admits [] waiters m = true }.

(** What a thread does to locks until it is done; [Saw] is what it finds in a map. *)
Inductive Prog :=
| Ret
| Take (m : Mode) (l : Lock) (k : Prog)
| Release (l : Lock) (k : Prog)
| Saw (k : list N → Prog).

Section locks.
Context `{Shards}.

Definition skip (_ : N) (k : Prog) : Prog := k.

(** [if let Some(x) = ...] *)
Definition if_found (f : Prog → Prog) (k : Prog) : Prog :=
  Saw (λ found, match found with [] => k | _ => f k end).

(** ** The order of the locks *)

(** The maps in the order in which loops nest; the shards of a map in the order in which
    an iterator takes them. *)
Definition rank (m : Map) : nat :=
  match m with
  | Clients => 0 | ClientTunnels _ => 1 | Tunnels => 2 | TunnelConns _ => 3 | Conns => 4 | History => 5 | Relay _ => 6
  end.

Definition lock_key (l : Lock) : nat := rank (l_map l) * shards + l_shard l.

(** A lock is only taken above those that are held, and at the end none is. *)
Fixpoint ordered (p : Prog) (held : list Lock) : Prop :=
  match p with
  | Ret => held = []
  | Take _ l k => Forall (λ h, lock_key h < lock_key l)%nat held ∧ ordered k (l :: held)
  | Release l k => l ∈ held ∧ ordered k (filter (λ h, h ≠ l) held)
  | Saw k => ∀ keys, ordered (k keys) held
  end.

(** A piece of an operation that takes its locks at or above [n], and gives them back. *)
Definition above (n : nat) (f : Prog → Prog) : Prop :=
  ∀ held k, Forall (λ h, lock_key h < n)%nat held → ordered k held → ordered (f k) held.

Lemma shards_pos : (0 < shards)%nat.
Proof. pose proof (shard_of_lt 0). lia. Qed.

Lemma filter_lower (l : Lock) held :
  Forall (λ h, lock_key h < lock_key l)%nat held → filter (λ h, h ≠ l) held = held.
Proof.
  induction 1 as [|h held Hh _ IH]; [done|]. rewrite filter_cons_True by (intros ->; lia). by rewrite IH.
Qed.

Lemma above_mono n n' f : (n ≤ n')%nat → above n' f → above n f.
Proof. intros Hle Hf held k Hh. apply Hf. eapply Forall_impl; [exact Hh|]. intros h ?. simpl in *. lia. Qed.

Lemma above_compose n f g : above n f → above n g → above n (λ k, f (g k)).
Proof. intros Hf Hg held k Hh Hk. by apply Hf, Hg. Qed.

Lemma above_skip n x : above n (skip x).
Proof. by intros held k _. Qed.

Lemma above_foldr n (f : N → Prog → Prog) xs : (∀ x, above n (f x)) → above n (λ k, foldr f k xs).
Proof. intros Hf held k Hh Hk. induction xs as [|x xs IH]; [done|]. by apply Hf. Qed.

Lemma above_found n f : above n f → above n (if_found f).
Proof. intros Hf held k Hh Hk [|x xs]; [done|]. by apply Hf. Qed.

(** A lock that is taken and given back at once. *)
Lemma above_lock n m l : (n ≤ lock_key l)%nat → above n (λ k, Take m l (Release l k)).
Proof.
  intros Hn held k Hh Hk. cbn [ordered]. assert (Forall (λ h, lock_key h < lock_key l)%nat held) as Hl.
  { eapply Forall_impl; [exact Hh|]. intros h ?. simpl in *. lia. }
  split_and!; [done|by left|]. rewrite filter_cons_False by naive_solver. by rewrite filter_lower.
Qed.


Lemma above_saw n (f : list N → Prog → Prog) : (∀ keys, above n (f keys)) → above n (λ k, Saw (λ keys, f keys k)).
Proof. intros Hf held k Hh Hk keys. by apply Hf. Qed.

(** ** The maps *)

(** [DashMap]: what its operations lock, and what the server relies on: they take locks of
    their own map only, none that is below one they hold, and give them back; while an
    iterator is alive, locks of its map may be held. *)
Class DashMap := {
  map_get : Map → N → Prog → Prog;
  map_insert : Map → N → Prog → Prog;
  map_remove : Map → N → Prog → Prog;
  map_len : Map → Prog → Prog;
  map_iter : Map → (N → Prog → Prog) → Prog → Prog;
  map_get_above map key : above (rank map * shards) (map_get map key);
  map_insert_above map key : above (rank map * shards) (map_insert map key);
  map_remove_above map key : above (rank map * shards) (map_remove map key);
  map_len_above map : above (rank map * shards) (map_len map);
  map_iter_above map body : (∀ x, above (S (rank map) * shards) (body x)) →
    above (rank map * shards) (map_iter map body) }.

Context `{DashMap}.

(** ** The operations of [ServerState] *)

(** [TunnelEntry::totals], [ClientEntry::totals] *)
Definition tunnel_totals_locks (t : N) (k : Prog) : Prog :=
  map_iter (TunnelConns t) skip (map_len (TunnelConns t) k).
Definition client_totals_locks (c : N) (k : Prog) : Prog :=
  map_iter (ClientTunnels c) tunnel_totals_locks k.

Definition register_client_locks (id : N) (k : Prog) : Prog := map_insert Clients id k.

(** The history, a [RwLock]. *)
Definition history_lock : Lock := mkLock History 0.
Definition with_history (m : Mode) (k : Prog) : Prog := Take m history_lock (Release history_lock k).

(** A tunnel of [deregister_client]: the loop over its conns removes them from the global
    index. *)
Definition deregister_tunnel_locks (t : N) (k : Prog) : Prog :=
  map_remove Tunnels t
    (if_found (map_iter (TunnelConns t) (λ c, map_remove Conns c)) k).

Definition deregister_client_locks (id : N) (k : Prog) : Prog :=
  map_remove Clients id
    (if_found (λ k,
       client_totals_locks id
         (map_iter (ClientTunnels id) skip
            (Saw (λ tunnel_ids, foldr deregister_tunnel_locks (with_history Wr k) tunnel_ids)))) k).

(** [register_tunnels], by the ids it allots. *)
Definition register_tunnels_locks (client : N) (ids : list N) (k : Prog) : Prog :=
  foldr (λ id k, map_insert (ClientTunnels client) id (map_insert Tunnels id k)) k ids.

Definition register_conn_locks (t id : N) (k : Prog) : Prog := map_insert (TunnelConns t) id (map_insert Conns id k).
Definition close_conn_locks (t id : N) (k : Prog) : Prog := map_remove (TunnelConns t) id (map_remove Conns id k).

(** ** The routes of the admin API *)

(** [ClientSummaryDto::from_entry], and [TunnelDto::from_entry] is [totals]. *)
Definition client_summary_locks (c : N) (k : Prog) : Prog := client_totals_locks c (map_len (ClientTunnels c) k).

Definition get_server_locks (k : Prog) : Prog := map_len Clients (map_len Tunnels (map_len Conns k)).
(** [clients_snapshot] first; the entries are read after the iterator is gone. *)
Definition list_clients_locks (k : Prog) : Prog :=
  map_iter Clients skip (Saw (λ cs, foldr client_summary_locks k cs)).
Definition get_client_locks (id : N) (k : Prog) : Prog :=
  map_get Clients id (if_found (λ k, client_summary_locks id (map_iter (ClientTunnels id) tunnel_totals_locks k)) k).
Definition list_client_tunnels_locks (id : N) (k : Prog) : Prog :=
  map_get Clients id (if_found (map_iter (ClientTunnels id) tunnel_totals_locks) k).
Definition list_client_conns_locks (id : N) (k : Prog) : Prog :=
  map_get Clients id (if_found (map_iter (ClientTunnels id) (λ t, map_iter (TunnelConns t) skip)) k).
Definition list_tunnels_locks (k : Prog) : Prog :=
  map_iter Tunnels skip (Saw (λ ts, foldr tunnel_totals_locks k ts)).
Definition get_tunnel_locks (id : N) (k : Prog) : Prog :=
  map_get Tunnels id (if_found (λ k, tunnel_totals_locks id (map_iter (TunnelConns id) skip k)) k).
Definition list_tunnel_conns_locks (id : N) (k : Prog) : Prog :=
  map_get Tunnels id (if_found (map_iter (TunnelConns id) skip) k).
Definition list_conns_locks (k : Prog) : Prog := map_iter Conns skip k.
Definition get_conn_locks (id : N) (k : Prog) : Prog := map_get Conns id k.
Definition list_history_locks (k : Prog) : Prog := with_history Rd k.

(** ** The relays *)

(** A datagram looks its source up; a conn that has ended is removed, and a new one is
    inserted. *)
Definition relay_datagram_locks (r key : N) (k : Prog) : Prog :=
  map_get (Relay r) key
    (if_found (map_remove (Relay r) key) (if_found (map_insert (Relay r) key) k)).

(** ** What a thread can be doing *)

Inductive Operation :=
| RegisterClientOp (id : N)
| DeregisterClientOp (id : N)
| RegisterTunnelsOp (client : N) (ids : list N)
| RegisterConnOp (t id : N)
| CloseConnOp (t id : N)
| TunnelOp (id : N)
| GetServerOp
| ListClientsOp
| GetClientOp (id : N)
| ListClientTunnelsOp (id : N)
| ListClientConnsOp (id : N)
| ListTunnelsOp
| GetTunnelOp (id : N)
| ListTunnelConnsOp (id : N)
| ListConnsOp
| GetConnOp (id : N)
| ListHistoryOp
| RelayDatagramOp (r key : N)
| RelayEndedOp (r key : N).

Definition locks_of (o : Operation) : Prog → Prog :=
  match o with
  | RegisterClientOp id => register_client_locks id
  | DeregisterClientOp id => deregister_client_locks id
  | RegisterTunnelsOp c ids => register_tunnels_locks c ids
  | RegisterConnOp t id => register_conn_locks t id
  | CloseConnOp t id => close_conn_locks t id
  | TunnelOp id => map_get Tunnels id
  | GetServerOp => get_server_locks
  | ListClientsOp => list_clients_locks
  | GetClientOp id => get_client_locks id
  | ListClientTunnelsOp id => list_client_tunnels_locks id
  | ListClientConnsOp id => list_client_conns_locks id
  | ListTunnelsOp => list_tunnels_locks
  | GetTunnelOp id => get_tunnel_locks id
  | ListTunnelConnsOp id => list_tunnel_conns_locks id
  | ListConnsOp => list_conns_locks
  | GetConnOp id => get_conn_locks id
  | ListHistoryOp => list_history_locks
  | RelayDatagramOp r key => relay_datagram_locks r key
  | RelayEndedOp r key => map_remove (Relay r) key
  end.

(** ** Threads *)

(** What is left to do, the locks held, and whether the thread waits for the lock it is
    about to take. *)
Record Thread := mkThread { th_prog : Prog; th_held : list (Lock * Mode); th_waiting : bool }.

Abbreviation Threads := (list Thread).

(** A thread that does these operations one after the other. *)
Definition thread_of (ops : list Operation) : Thread := mkThread (foldr locks_of Ret ops) [] false.

Definition finished (th : Thread) : Prop := th = mkThread Ret [] false.

Definition modes_on (l : Lock) (th : Thread) : list Mode := (filter (λ x, x.1 = l) (th_held th)).*2.
Definition holders (l : Lock) (s : Threads) : list Mode := s ≫= modes_on l.

Definition wanted (th : Thread) : option (Lock * Mode) :=
  match th_prog th with Take m l _ => if th_waiting th then Some (l, m) else None | _ => None end.
Definition waiters (l : Lock) (s : Threads) : list Mode :=
  omap (λ th, '(l', m) ← wanted th; if decide (l' = l) then Some m else None) s.

Context `{RwPolicy}.

Inductive lock_step : Threads → Threads → Prop :=
| step_request s i m l k held :
    s !! i = Some (mkThread (Take m l k) held false) →
    lock_step s (<[i := mkThread (Take m l k) held true]> s)
| step_take s i m l k held :
    s !! i = Some (mkThread (Take m l k) held true) → admits (holders l s) (waiters l s) m = true →
    lock_step s (<[i := mkThread k ((l, m) :: held) false]> s)
| step_release s i l k held :
    s !! i = Some (mkThread (Release l k) held false) →
    lock_step s (<[i := mkThread k (filter (λ x, x.1 ≠ l) held) false]> s)
| step_saw s i k held keys :
    s !! i = Some (mkThread (Saw k) held false) →
    lock_step s (<[i := mkThread (k keys) held false]> s).

Lemma above_history m : above (5 * shards) (with_history m).
Proof. apply above_lock. unfold lock_key. cbn. lia. Qed.

(** ** Every operation keeps the order *)

#[local] Hint Resolve above_skip map_get_above map_insert_above map_remove_above above_history map_len_above above_found
  above_foldr above_saw map_iter_above : locks.

(** What a piece does at or above [n] it does at or above any lower key. *)
Ltac lower := eapply above_mono; [|solve [eauto with locks]]; cbn [rank]; lia.

Lemma above_tunnel_totals t : above (3 * shards) (tunnel_totals_locks t).
Proof. unfold tunnel_totals_locks. apply above_compose; [apply (map_iter_above (TunnelConns t)); intros; apply above_skip|apply (map_len_above (TunnelConns t))]. Qed.

Lemma above_client_totals c : above (1 * shards) (client_totals_locks c).
Proof. unfold client_totals_locks.
  apply (map_iter_above (ClientTunnels c)). intros t. eapply above_mono; [|apply above_tunnel_totals]. cbn. lia.
Qed.

Lemma above_client_summary c : above (1 * shards) (client_summary_locks c).
Proof. unfold client_summary_locks. apply above_compose; [apply above_client_totals|apply (map_len_above (ClientTunnels c))]. Qed.

Lemma above_deregister_tunnel t : above (2 * shards) (deregister_tunnel_locks t).
Proof. unfold deregister_tunnel_locks.
  apply above_compose; [apply (map_remove_above Tunnels)|]. apply above_found.
  eapply (above_mono _ (3 * shards)); [lia|]. apply (map_iter_above (TunnelConns t)). intros c. apply (map_remove_above Conns).
Qed.

Lemma above_deregister id : above 0 (deregister_client_locks id).
Proof. unfold deregister_client_locks.
  apply above_compose; [lower|]. apply above_found. eapply (above_mono _ (1 * shards)); [lia|].
  apply above_compose; [apply above_client_totals|].
  apply above_compose; [apply (map_iter_above (ClientTunnels id)); intros; apply above_skip|].
  apply above_saw. intros ids. apply (above_compose _ (λ k, foldr deregister_tunnel_locks k ids)).
  - apply above_foldr. intros t. eapply above_mono; [|apply above_deregister_tunnel]. lia.
  - eapply above_mono; [|apply above_history]. lia.
Qed.

Lemma above_tunnels_of c (body : N → Prog → Prog) :
  (∀ t, above (3 * shards) (body t)) → above 0 (map_iter (ClientTunnels c) body).
Proof.
  intros Hb. eapply above_mono; [|apply (map_iter_above (ClientTunnels c))]; [lia|].
  intros t. eapply above_mono; [|apply Hb]. cbn. lia.
Qed.

Lemma operation_ordered o : above 0 (locks_of o).
Proof.
  destruct o as [id|id|c ids|t id|t id|id| | |id|id|id| |id|id| |id| |r key|r key]; cbn [locks_of];
    unfold register_client_locks, register_tunnels_locks, register_conn_locks, close_conn_locks, get_server_locks,
      list_clients_locks, get_client_locks, list_client_tunnels_locks, list_client_conns_locks, list_tunnels_locks,
      get_tunnel_locks, list_tunnel_conns_locks, list_conns_locks, get_conn_locks, list_history_locks,
      relay_datagram_locks.
  - lower.
  - apply above_deregister.
  - apply above_foldr. intros id. apply above_compose; lower.
  - apply above_compose; lower.
  - apply above_compose; lower.
  - lower.
  - apply above_compose; [lower|]. apply above_compose; lower.
  - apply above_compose; [lower|]. apply above_saw. intros cs. apply above_foldr. intros c.
    eapply above_mono; [|apply above_client_summary]. lia.
  - apply above_compose; [lower|]. apply above_found, above_compose.
    + eapply above_mono; [|apply above_client_summary]. lia.
    + apply above_tunnels_of, above_tunnel_totals.
  - apply above_compose; [lower|]. apply above_found, above_tunnels_of, above_tunnel_totals.
  - apply above_compose; [lower|]. apply above_found, above_tunnels_of. intros t.
    apply (map_iter_above (TunnelConns t)). intros. apply above_skip.
  - apply above_compose; [lower|]. apply above_saw. intros ts. apply above_foldr. intros t.
    eapply above_mono; [|apply above_tunnel_totals]. lia.
  - apply above_compose; [lower|]. apply above_found, above_compose; [|lower].
    eapply above_mono; [|apply above_tunnel_totals]. lia.
  - apply above_compose; [lower|]. apply above_found. lower.
  - lower.
  - lower.
  - lower.
  - apply above_compose; [lower|]. apply above_compose; apply above_found; lower.
  - lower.
Qed.

(** ** Every thread comes to its end *)

Definition thread_ok (th : Thread) : Prop :=
  ordered (th_prog th) (th_held th).*1 ∧
  (th_waiting th = true → match th_prog th with Take _ _ _ => True | _ => False end).

(** A lock held for writing is held by one thread only. *)
Definition exclusive (s : Threads) : Prop :=
  ∀ i j thi thj l m, s !! i = Some thi → s !! j = Some thj → i ≠ j →
    (l, Wr) ∈ th_held thi → (l, m) ∉ th_held thj.

Definition locks_ok (s : Threads) : Prop := Forall thread_ok s ∧ exclusive s.

Lemma start_ok opss : locks_ok (thread_of <$> opss).
Proof.
  split.
  - apply Forall_fmap, Forall_true. intros ops. split; [|done]. cbn.
    induction ops as [|o ops IH]; [done|]. by apply operation_ordered.
  - intros i j thi thj l m Hi _ _ Hl. rewrite list_lookup_fmap in Hi.
    destruct (opss !! i); [|done]. injection Hi as <-. cbn in Hl. set_solver.
Qed.

Lemma fst_filter (l : Lock) (held : list (Lock * Mode)) :
  (filter (λ x, x.1 ≠ l) held).*1 = filter (λ h, h ≠ l) held.*1.
Proof. induction held as [|[h m] held IH]; [done|]. rewrite fmap_cons, !filter_cons. cbn [fst]. case_decide; [rewrite fmap_cons; by f_equal|done]. Qed.

Lemma elem_holders l m s : m ∈ holders l s ↔ ∃ th, th ∈ s ∧ (l, m) ∈ th_held th.
Proof.
  unfold holders, modes_on. rewrite list_elem_of_bind. split.
  - intros (th & ([l' m'] & -> & [Hl Hin]%list_elem_of_filter)%list_elem_of_fmap & Hth). cbn in Hl. subst l'. by exists th.
  - intros (th & Hth & Hin). exists th. split; [|done]. apply list_elem_of_fmap. exists (l, m).
    split; [done|]. by apply list_elem_of_filter.
Qed.

Lemma elem_waiters l m s : m ∈ waiters l s ↔ ∃ th, th ∈ s ∧ wanted th = Some (l, m).
Proof.
  unfold waiters. rewrite list_elem_of_omap. split.
  - intros (th & Hth & E). destruct (wanted th) as [[l' m']|] eqn:Ew; [|done]. cbn in E. case_decide; [|done].
    simplify_eq. by exists th.
  - intros (th & Hth & E). exists th. split; [done|]. rewrite E. cbn. by rewrite decide_True.
Qed.

(** A thread that takes no new lock keeps locks exclusive. *)
Lemma exclusive_shrink s i th th' :
  exclusive s → s !! i = Some th → th_held th' ⊆ th_held th → exclusive (<[i := th']> s).
Proof.
  intros He Hi Hsub a b tha thb l m Ha Hb Hne Hin Hin'.
  assert (∀ c thc, <[i := th']> s !! c = Some thc → ∃ thc', s !! c = Some thc' ∧ th_held thc ⊆ th_held thc') as Hold.
  { intros c thc [(<- & <- & _)|[_ Hc]]%list_lookup_insert_Some; eauto. }
  destruct (Hold a tha Ha) as (tha' & Ha' & Hsa), (Hold b thb Hb) as (thb' & Hb' & Hsb).
  eapply (He a b tha' thb'); eauto.
Qed.

Lemma exclusive_take s i th th' l m :
  exclusive s → s !! i = Some th → th_held th' = (l, m) :: th_held th → admits (holders l s) (waiters l s) m = true →
  exclusive (<[i := th']> s).
Proof.
  intros He Hi Hh Hadm a b tha thb l' m' Ha Hb Hne Hin Hin'.
  assert (∀ c thc x, s !! c = Some thc → (l, x) ∈ th_held thc → m = Rd ∧ x = Rd) as Hfree.
  { intros c thc x Hc Hx. assert (x ∈ holders l s) as Hx' by (apply elem_holders; exists thc; split; [by eapply list_elem_of_lookup_2|done]).
    destruct m.
    - split; [done|]. destruct x; [done|]. by apply admits_reader in Hadm.
    - apply admits_writer in Hadm. rewrite Hadm in Hx'. set_solver. }
  apply list_lookup_insert_Some in Ha as [(<- & <- & _)|[Hia Ha]];
    apply list_lookup_insert_Some in Hb as [(Hib & <- & _)|[Hib Hb]]; try done.
  - rewrite Hh in Hin. apply elem_of_cons in Hin as [[= El Em]|Hin]; [|by eapply (He i b)].
    subst l' m. by destruct (Hfree b thb m' Hb Hin').
  - subst b. rewrite Hh in Hin'. apply elem_of_cons in Hin' as [[= El Em]|Hin']; [|by eapply (He a i)].
    subst l' m'. by destruct (Hfree a tha Wr Ha Hin).
  - by eapply (He a b).
Qed.

Lemma lock_step_ok s s' : locks_ok s → lock_step s s' → locks_ok s'.
Proof.
  intros [Hth He] Hs. rewrite Forall_lookup in Hth.
  destruct Hs as [s i m l k held Hi|s i m l k held Hi Hadm|s i l k held Hi|s i k held keys Hi];
    destruct (Hth _ _ Hi) as [Hord Hw]; cbn in Hord; (split; [apply Forall_insert; [by apply Forall_lookup|]|]).
  - by split.
  - by eapply exclusive_shrink.
  - destruct Hord as [_ Hord]. by split.
  - by eapply exclusive_take.
  - split; [|done]. cbn. rewrite fst_filter. apply Hord.
  - eapply exclusive_shrink; [done..|]. cbn. intros x. rewrite list_elem_of_filter. by intros [_ ?].
  - split; [apply Hord|done].
  - by eapply exclusive_shrink.
Qed.

(** *** Progress *)

(** The lock a thread waits for is above those it holds. *)
Lemma wanted_above th l m h : thread_ok th → wanted th = Some (l, m) → h ∈ (th_held th).*1 → (lock_key h < lock_key l)%nat.
Proof.
  intros [Hord _] Hw Hin. unfold wanted in Hw. destruct (th_prog th) as [|m' l' k|l' k|k]; try done.
  destruct (th_waiting th); [|done]. simplify_eq. destruct Hord as [Hall _]. rewrite Forall_forall in Hall. by apply Hall.
Qed.

(** A thread is done, can go on, or waits. *)
Lemma thread_cases s i th :
  thread_ok th → s !! i = Some th → finished th ∨ (∃ s', lock_step s s') ∨ ∃ l m, wanted th = Some (l, m).
Proof.
  intros [Hord Hw] Hi. destruct th as [[|m l k|l k|k] held w]; cbn in Hord, Hw.
  - left. apply fmap_nil_inv in Hord as ->. destruct w; [by destruct Hw|done].
  - destruct w; [right; right; by exists l, m|right; left]. eexists. by eapply step_request.
  - destruct w; [by destruct Hw|]. right; left. eexists. by eapply step_release.
  - destruct w; [by destruct Hw|]. right; left. eexists. by eapply (step_saw _ _ _ _ []).
Qed.

(** Of the locks that are waited for, one is highest. *)
Lemma highest_wanted (s : Threads) :
  (∃ th l m, th ∈ s ∧ wanted th = Some (l, m)) →
  ∃ th l m, th ∈ s ∧ wanted th = Some (l, m) ∧
    ∀ th' l' m', th' ∈ s → wanted th' = Some (l', m') → (lock_key l' ≤ lock_key l)%nat.
Proof.
  induction s as [|x s IH]; intros (th & l & m & Hin & Hw); [set_solver|].
  destruct (decide (Exists (λ th, is_Some (wanted th)) s)) as [Hex|Hno].
  - apply Exists_exists in Hex as (y & Hy & [[ly my] Hwy]).
    destruct IH as (b & lb & mb & Hb & Hwb & Hmax); [by exists y, ly, my|].
    destruct (wanted x) as [[lx mx]|] eqn:Hx.
    + destruct (decide (lock_key lx ≤ lock_key lb)%nat).
      * exists b, lb, mb. split_and!; [by right|done|]. intros th' l' m' [->|Hin']%elem_of_cons Hw'; [by simplify_eq|by eapply Hmax].
      * exists x, lx, mx. split_and!; [by left|done|]. intros th' l' m' [->|Hin']%elem_of_cons Hw'; [by simplify_eq|].
        specialize (Hmax th' l' m' Hin' Hw'). lia.
    + exists b, lb, mb. split_and!; [by right|done|]. intros th' l' m' [->|Hin']%elem_of_cons Hw'; [congruence|by eapply Hmax].
  - assert (∀ th' l' m', th' ∈ s → wanted th' ≠ Some (l', m')) as Hs.
    { intros th' l' m' Hin' Hw'. apply Hno, Exists_exists. exists th'. by rewrite Hw'. }
    apply elem_of_cons in Hin as [->|Hin]; [|by destruct (Hs _ _ _ Hin Hw)].
    exists x, l, m. split_and!; [by left|done|]. intros th' l' m' [->|Hin']%elem_of_cons Hw'; [by simplify_eq|].
    by destruct (Hs _ _ _ Hin' Hw').
Qed.

Lemma lock_progress s : locks_ok s → Forall finished s ∨ ∃ s', lock_step s s'.
Proof.
  intros [Hth _]. destruct (decide (Exists (λ th, is_Some (wanted th)) s)) as [Hex|Hno].
  - right. apply Exists_exists in Hex as (y & Hy & [[ly my] Hwy]).
    destruct (highest_wanted s) as (th & l & m & Hin & Hw & Hmax); [by exists y, ly, my|].
    rewrite Forall_forall in Hth. destruct (holders l s) as [|x xs] eqn:Hh.
    + destruct (admits_free (waiters l s)) as (m' & (th' & Hin' & Hw')%elem_waiters & Hadm).
      { intros E. assert (m ∈ waiters l s) as Hm by (apply elem_waiters; by exists th). rewrite E in Hm. set_solver. }
      apply list_elem_of_lookup in Hin' as [i Hi]. destruct th' as [[|m0 l0 k|l0 k|k] held w]; try done.
      unfold wanted in Hw'. cbn in Hw'. destruct w; [|done]. simplify_eq.
      eexists. eapply step_take; [exact Hi|]. by rewrite Hh.
    + assert (x ∈ holders l s) as (h & Hinh & Hheld)%elem_holders by (rewrite Hh; by left).
      assert (l ∈ (th_held h).*1) as Hl by (apply list_elem_of_fmap; by exists (l, x)).
      apply list_elem_of_lookup in Hinh as Hinh'. destruct Hinh' as [i Hi].
      destruct (thread_cases s i h (Hth h Hinh) Hi) as [Hf|[Hs|(l' & m' & Hw')]]; [|done|].
      * unfold finished in Hf. subst h. cbn in Hl. set_solver.
      * pose proof (wanted_above h l' m' l (Hth h Hinh) Hw' Hl). specialize (Hmax h l' m' Hinh Hw'). lia.
  - assert (∀ n, (∃ s', lock_step s s') ∨ Forall finished (take n s)) as Hall.
    { intros n. induction n as [|n IH]; [by right; constructor|]. destruct IH as [?|IH]; [by left|].
      destruct (s !! n) as [th|] eqn:Hn.
      - rewrite Forall_lookup in Hth. destruct (thread_cases s n th (Hth _ _ Hn) Hn) as [Hf|[Hs|(l & m & Hw)]]; [|by left|].
        + right. rewrite (take_S_r _ _ _ Hn). apply Forall_app. by split; [|apply Forall_singleton].
        + destruct Hno. apply Exists_exists. exists th. rewrite Hw. split; [by eapply list_elem_of_lookup_2|done].
      - right. apply lookup_ge_None in Hn. rewrite take_ge in IH by done. by rewrite take_ge by lia. }
    destruct (Hall (length s)) as [?|Hf]; [by right|left]. by rewrite take_ge in Hf.
Qed.

(** *** Termination *)

(** What a step does to the thread that takes it. *)
Inductive thread_step : Thread → Thread → Prop :=
| ts_request m l k held : thread_step (mkThread (Take m l k) held false) (mkThread (Take m l k) held true)
| ts_take m l k held held' : thread_step (mkThread (Take m l k) held true) (mkThread k held' false)
| ts_release l k held held' : thread_step (mkThread (Release l k) held false) (mkThread k held' false)
| ts_saw k held keys : thread_step (mkThread (Saw k) held false) (mkThread (k keys) held false).

Lemma thread_terminates p : ∀ held w, Acc (flip thread_step) (mkThread p held w).
Proof.
  induction p as [|m l k IH|l k IH|k IH]; intros held w; constructor; intros th' Hs; inversion Hs; subst; auto.
  constructor. intros th'' Hs'. inversion Hs'; subst; auto.
Qed.

Definition pool_step (s s' : Threads) : Prop :=
  ∃ i th th', s !! i = Some th ∧ thread_step th th' ∧ s' = <[i := th']> s.

Lemma lock_step_pool s s' : lock_step s s' → pool_step s s'.
Proof. intros []; eexists _, _, _; (split_and!; [done| |reflexivity]); constructor. Qed.

Lemma pool_terminates s : Acc (flip pool_step) s.
Proof.
  induction s as [|th s IHs]; [constructor; by intros s' (i & th & th' & ? & _)|].
  destruct th as [p held w]. pose proof (thread_terminates p held w) as Hth. revert Hth.
  generalize (mkThread p held w). intros th Hth. revert s IHs.
  induction Hth as [th _ IHt]. intros s IHs. induction IHs as [s Hs IHs]. constructor.
  intros s' (i & x & x' & Hi & Hx & ->). destruct i as [|i]; cbn in *.
  - injection Hi as ->. apply IHt; [done|by constructor].
  - apply IHs. by exists i, x, x'.
Qed.

Lemma lock_terminates s : Acc (flip lock_step) s.
Proof.
  induction (pool_terminates s) as [s _ IH]. constructor. intros s' Hs. by apply IH, lock_step_pool.
Qed.

(** C23: the operations on the server's state, the routes of the admin API and the UDP
    relays, run by any number of threads in any interleaving over maps with any contents,
    never deadlock, whichever thread a lock prefers, even when readers have to let waiting
    writers pass. At every moment a lock held for writing is held by nobody else; every
    run comes to an end; and when no thread can go on, every thread has done all its
    operations and no lock is held. *)
Theorem locks_deadlock_free (opss : list (list Operation)) s :
  rtc lock_step (thread_of <$> opss) s →
  exclusive s ∧ Acc (flip lock_step) s ∧ ((∀ s', ¬ lock_step s s') → s = (λ _, mkThread Ret [] false) <$> opss).
Proof.
  intros Hr. assert (locks_ok s ∧ length s = length opss) as [Hok Hlen].
  { assert (length (thread_of <$> opss) = length opss) as El by apply length_fmap.
    pose proof (start_ok opss) as Hok. induction Hr as [|s s1 s2 Hs _ IH]; [done|].
    apply IH; [|by eapply lock_step_ok]. rewrite <-El. destruct Hs; apply length_insert. }
  split_and!; [apply Hok|apply lock_terminates|]. intros Hno.
  destruct (lock_progress s Hok) as [Hf|[s' Hs]]; [|by destruct (Hno s')]. clear -Hf Hlen. revert opss Hlen.
  induction Hf as [|th s Hth _ IH]; intros [|ops opss] Hlen; try done. cbn. rewrite Hth. f_equal. apply IH. by injection Hlen.
Qed.

End locks.

(** ** Maps of shards *)

(** The locks of [DashMap] as its shards make them: a lookup locks the shard of its key for
    reading, an insertion and a removal lock it for writing. *)
Section sharded.
Context `{Shards}.

Definition with_shard (m : Mode) (map : Map) (key : N) (k : Prog) : Prog :=
  let l := mkLock map (shard_of key) in Take m l (Release l k).

(** [len] locks the shards one after the other. *)
Fixpoint len_from (map : Map) (n i : nat) (k : Prog) : Prog :=
  match n with
  | O => k
  | S n => Take Rd (mkLock map i) (Release (mkLock map i) (len_from map n (S i) k))
  end.
Definition each_shard (map : Map) (k : Prog) : Prog := len_from map shards 0 k.

(** An iterator keeps the shard of the entries it yields locked, and locks the next one
    before it lets go of it: with shard [i] locked, [n] shards after it. *)
Fixpoint iter_from (map : Map) (body : N → Prog → Prog) (n i : nat) (k : Prog) : Prog :=
  Saw (λ keys,
    foldr body
      match n with
      | O => Release (mkLock map i) k
      | S n => Take Rd (mkLock map (S i)) (Release (mkLock map i) (iter_from map body n (S i) k))
      end keys).
Definition shard_by_shard (map : Map) (body : N → Prog → Prog) (k : Prog) : Prog :=
  Take Rd (mkLock map 0) (iter_from map body (shards - 1) 0 k).

Lemma above_shard m map key : above (rank map * shards) (with_shard m map key).
Proof. apply above_lock. unfold lock_key. cbn. lia. Qed.

Lemma above_len map : above (rank map * shards) (each_shard map).
Proof.
  unfold each_shard. generalize shards at 2 as n. generalize 0%nat as i. intros i n. revert i.
  induction n as [|n IH]; intros i held k Hh Hk; [done|]. cbn [len_from].
  apply (above_lock (rank map * shards) Rd (mkLock map i)); [unfold lock_key; cbn; lia|done|by apply IH].
Qed.

(** The body of a loop over a map runs above the map's locks. *)
Lemma above_iter map body : (∀ x, above (S (rank map) * shards) (body x)) → above (rank map * shards) (shard_by_shard map body).
Proof.
  intros Hb held k Hh Hk. unfold shard_by_shard. cbn [ordered]. pose proof shards_pos.
  assert (∀ i, (i < shards)%nat → Forall (λ h, lock_key h < lock_key (mkLock map i))%nat held) as Hlow.
  { intros i _. eapply Forall_impl; [exact Hh|]. intros h ?. unfold lock_key at 2. cbn in *. lia. }
  split; [apply Hlow; lia|].
  enough (∀ n i, (i + n < shards)%nat → ordered (iter_from map body n i k) (mkLock map i :: held)) as Hfrom
    by (apply Hfrom; lia).
  intros n. induction n as [|n IH]; intros i Hn keys.
  - apply above_foldr with (n := (S (rank map) * shards)%nat); [done| |].
    + constructor; [unfold lock_key; cbn; lia|]. eapply Forall_impl; [exact Hh|]. intros h ?. simpl in *. lia.
    + cbn [ordered]. split; [by left|]. rewrite filter_cons_False by naive_solver. rewrite filter_lower; [done|]. apply Hlow. lia.
  - apply above_foldr with (n := (S (rank map) * shards)%nat); [done| |].
    + constructor; [unfold lock_key; cbn; lia|]. eapply Forall_impl; [exact Hh|]. intros h ?. simpl in *. lia.
    + cbn [ordered]. split_and!.
      * constructor; [unfold lock_key; cbn; lia|]. apply Hlow. lia.
      * right. by left.
      * rewrite filter_cons_True, filter_cons_False by naive_solver lia. rewrite filter_lower by (apply Hlow; lia).
        apply IH. lia.
Qed.

#[export] Instance sharded : DashMap :=
  {| map_get := with_shard Rd; map_insert := with_shard Wr; map_remove := with_shard Wr;
     map_len := each_shard; map_iter := shard_by_shard;
     map_get_above := above_shard Rd; map_insert_above := above_shard Wr; map_remove_above := above_shard Wr;
     map_len_above := above_len; map_iter_above := above_iter |}.

End sharded.

(** ** Examples *)

(** A lock that lets no reader in while a writer waits. *)
#[local, refine] Instance writers_first : RwPolicy :=
  {| admits holders waiters m :=
       match m with
       | Rd => bool_decide (Wr ∉ holders) && bool_decide (Wr ∉ waiters)
       | Wr => bool_decide (holders = [])
       end |}.
Proof.
  - intros hs ws Hw. by apply bool_decide_eq_true in Hw.
  - intros hs ws [Hr _]%andb_true_iff. by apply bool_decide_eq_true in Hr.
  - intros ws Hne. destruct (decide (Wr ∈ ws)) as [Hin|Hn]; [by exists Wr|]. destruct ws as [|[] ws]; [done| |set_solver].
    exists Rd. split; [by left|]. apply andb_true_iff. split; apply bool_decide_eq_true; [set_solver|done].
Defined.

(** Were one of two threads to take the conns of a tunnel inside the global conns, and the
    other, as [deregister_client] does, the global conns inside the conns of the tunnel,
    they could wait for each other for ever. *)
Definition inverted : Prog :=
  map_iter (H := four_shards) Conns (λ c, map_remove (H := four_shards) (TunnelConns 1) c) Ret.
Definition nested : Prog :=
  map_iter (H := four_shards) (TunnelConns 1) (λ c, map_remove (H := four_shards) Conns c) Ret.

Example inverted_unordered : ¬ ordered (H := four_shards) inverted [].
Proof. intros [_ Ho]. specialize (Ho [0]). cbn in Ho. destruct Ho as [Hf _]. apply Forall_cons in Hf as [Hlt _]. vm_compute in Hlt. lia. Qed.

Example inverted_deadlocks :
  ∃ s, rtc lock_step [mkThread inverted [] false; mkThread nested [] false] s ∧
    (∀ s', ¬ lock_step s s') ∧ Forall (λ th, th_held th ≠ []) s.
Proof.
  eexists. split_and!.
  - eapply rtc_l; [eapply (step_request _ 0); reflexivity|]. eapply rtc_l; [eapply (step_take _ 0); reflexivity|].
    eapply rtc_l; [eapply (step_saw _ 0 _ _ [0]); reflexivity|].
    eapply rtc_l; [eapply (step_request _ 1); reflexivity|]. eapply rtc_l; [eapply (step_take _ 1); reflexivity|].
    eapply rtc_l; [eapply (step_saw _ 1 _ _ [0]); reflexivity|].
    eapply rtc_l; [eapply (step_request _ 0); reflexivity|]. eapply rtc_l; [eapply (step_request _ 1); reflexivity|].
    apply rtc_refl.
  - intros s' Hs. inversion Hs as [? i ? ? ? ? Hi|? i ? ? ? ? Hi Ha|? i ? ? ? Hi|? i ? ? ? Hi]; subst;
      destruct i as [|[|i]]; cbn in Hi; simplify_eq. all: vm_compute in Ha; done.
  - repeat constructor; done.
Qed.

Lemma locks_deadlock_free_witness :
  Acc (flip (lock_step (H1 := writers_first)))
    [thread_of (H := four_shards) [DeregisterClientOp 1]; thread_of (H := four_shards) [CloseConnOp 1 2; ListClientConnsOp 1]].
Proof.
  destruct (locks_deadlock_free (H := four_shards) (H1 := writers_first) [[DeregisterClientOp 1]; [CloseConnOp 1 2; ListClientConnsOp 1]]
    [thread_of (H := four_shards) [DeregisterClientOp 1]; thread_of (H := four_shards) [CloseConnOp 1 2; ListClientConnsOp 1]]) as (_ & Ha & _).
  - apply rtc_refl.
  - exact Ha.
Defined.
