(* ===== verification/Framing.v ===== *)
(** * Framing: control messages and datagrams on QUIC streams
    ([src/common/tunnel.rs], [src/common/utils.rs], the framing of [src/common/udp.rs])

    The streams of the QUIC library and the MessagePack codec are code the program
    calls: they are type classes here, with the behaviour the program relies on as
    their laws, and every function of the file is written against them. *)

From S2P Require Import Prelude Text NetAddr Remote.

(** ** Interfaces *)

(** [quinn::SendStream] and [quinn::RecvStream], and the two halves of a
    [TcpStream]: the same reading and writing interface. [sent] is what was accepted for
    delivery so far; [unread] is what the peer's stream will still deliver before
    it ends. *)
Class ByteStreams := {
  SendStream : Type;
  RecvStream : Type;
  StreamError : Type;
  show_error : StreamError → bytes;
  write_all : bytes → SendStream → result StreamError SendStream;
  shutdown : SendStream → result StreamError SendStream;
  read_exact : nat → RecvStream → result StreamError (bytes * RecvStream);
  sent : SendStream → bytes;
  live : SendStream → Prop;
  unread : RecvStream → bytes;
  write_all_sent b s s' : write_all b s = Ok s' → sent s' = sent s ++ b;
  write_all_live b s : live s → ∃ s', write_all b s = Ok s' ∧ live s';
  shutdown_sent s s' : shutdown s = Ok s' → sent s' = sent s;
  shutdown_live s : live s → ∃ s', shutdown s = Ok s';
  read_exact_enough n r :
    (n ≤ length (unread r))%nat →
    ∃ r', read_exact n r = Ok (take n (unread r), r') ∧ unread r' = drop n (unread r);
  read_exact_short n r :
    (length (unread r) < n)%nat → ∃ e, read_exact n r = Err e }.

(** [SerdeHelper]: the MessagePack codec of a type, which reads back what it
    writes. *)
Class SerdeHelper (T : Type) := {
  to_bytes : T → result bytes bytes;
  from_bytes : bytes → result bytes T;
  from_to_bytes m b : to_bytes m = Ok b → from_bytes b = Ok m }.

(** ** A connection that is read and written in turn *)

Section conversation.
Context `{ByteStreams}.

(** The state of both directions; a failing step keeps what was sent before it. *)
Definition Duplex : Type := SendStream * RecvStream.
Definition talk (A : Type) : Type := Duplex → Duplex * result bytes A.

#[global] Instance talk_ret : MRet talk := λ A a c, (c, Ok a).
#[global] Instance talk_bind : MBind talk := λ A B k m c,
  match m c with (c', Ok a) => k a c' | (c', Err e) => (c', Err e) end.

Definition fail {A} (e : bytes) : talk A := λ c, (c, Err e).
Definition lift {A} (r : result bytes A) : talk A := λ c, (c, r).

(** [conn.read_exact(&mut buf[..n]).await?] *)
Definition recv_exact (n : nat) : talk bytes := λ c,
  match read_exact n c.2 with
  | Ok (b, r) => ((c.1, r), Ok b)
  | Err e => (c, Err (show_error e))
  end.

(** [conn.write_all(b).await?] *)
Definition send_all (b : bytes) : talk unit := λ c,
  match write_all b c.1 with
  | Ok s => ((s, c.2), Ok ())
  | Err e => (c, Err (show_error e))
  end.

(** The connection is live, [out] was sent and [inp] is what it will still read. *)
Definition peer_at (c : Duplex) (out inp : bytes) : Prop :=
  live c.1 ∧ sent c.1 = out ∧ unread c.2 = inp.

Lemma recv_exact_at c out b inp n :
  peer_at c out (b ++ inp) → length b = n →
  ∃ c', recv_exact n c = (c', Ok b) ∧ peer_at c' out inp.
Proof.
  intros (Hl & Hs & Hr) Hn. unfold recv_exact.
  destruct (read_exact_enough n c.2) as (r' & E & E').
  { rewrite Hr, length_app. lia. }
  rewrite E. exists (c.1, r'). subst n. rewrite Hr in *. rewrite take_app_length.
  split; [done|]. split_and!; [done..|]. simpl. by rewrite E', drop_app_length.
Qed.

Lemma recv_exact_short c out inp n :
  peer_at c out inp → (length inp < n)%nat → ∃ e, recv_exact n c = (c, Err e).
Proof.
  intros (_ & _ & <-) Hn. destruct (read_exact_short n c.2 Hn) as (e & E).
  exists (show_error e). unfold recv_exact. by rewrite E.
Qed.

Lemma send_all_at c out inp b :
  peer_at c out inp → ∃ c', send_all b c = (c', Ok ()) ∧ peer_at c' (out ++ b) inp.
Proof.
  intros (Hl & Hs & Hr). unfold send_all. destruct (write_all_live b c.1 Hl) as (s' & E & Hl').
  rewrite E. exists (s', c.2). split; [done|]. split_and!; [done| |done].
  simpl. by rewrite (write_all_sent _ _ _ E), Hs.
Qed.

Lemma talk_bind_ok {A B} (m : talk A) (k : A → talk B) c c' a :
  m c = (c', Ok a) → (m ≫= k) c = k a c'.
Proof. intros E. unfold mbind, talk_bind. by rewrite E. Qed.

Lemma talk_bind_err {A B} (m : talk A) (k : A → talk B) c c' e :
  m c = (c', Err e) → (m ≫= k) c = (c', Err e).
Proof. intros E. unfold mbind, talk_bind. by rewrite E. Qed.

End conversation.

(** ** Control frames *)

Definition MAX_CONTROL_MSG : N := 64 * 1024.

Section framing.
Context `{ByteStreams}.

Definition io_err {A} (what : bytes) (m : result StreamError A) : result bytes A :=
  map_err (λ e, what ++ show_error e) m.

Definition write_framed `{SerdeHelper T} (send : SendStream) (msg : T) : result bytes SendStream :=
  body ← to_bytes msg;
  if 2 ^ 32 <=? len body then Err (str "control message exceeds u32::MAX")
  else
    send ← io_err [] (write_all (to_le32 (len body)) send);
    io_err [] (write_all body send).

Definition read_framed T `{SerdeHelper T} (recv : RecvStream) : result bytes (T * RecvStream) :=
  '(len_buf, recv) ← io_err (str "failed to read control message length: ") (read_exact 4 recv);
  match len_buf with
  | [b0; b1; b2; b3] =>
      let n := from_le32 b0 b1 b2 b3 in
      if MAX_CONTROL_MSG <? n then
        Err (str "control message length " ++ fmt_dec n ++ str " exceeds cap of " ++
             fmt_dec MAX_CONTROL_MSG)
      else
        '(body, recv) ← io_err (str "failed to read control message body: ")
                          (read_exact (N.to_nat n) recv);
        msg ← from_bytes body;
        Ok (msg, recv)
  | _ => Err []  (* a four-byte buffer has four bytes *)
  end.

Context `{SerdeHelper SessionHello, SerdeHelper SessionHelloResponse,
          SerdeHelper OpenConn, SerdeHelper OpenConnResponse}.

Definition client_send_session_hello (hello : SessionHello) (send : SendStream) (recv : RecvStream) :
    result bytes (list N * SendStream * RecvStream) :=
  send ← write_framed send hello;
  send ← io_err [] (shutdown send);
  '(resp, recv) ← read_framed SessionHelloResponse recv;
  match resp with
  | HelloOk tunnel_ids =>
      if decide (length tunnel_ids ≠ length (hello_remotes hello)) then
        Err (str "server returned " ++ fmt_dec (len tunnel_ids) ++ str " tunnel ids for " ++
             fmt_dec (len (hello_remotes hello)) ++ str " remotes")
      else Ok (tunnel_ids, send, recv)
  | HelloFailed reason => Err (str "server rejected session: " ++ reason)
  end.

Definition server_receive_session_hello (recv : RecvStream) :
    result bytes (SessionHello * RecvStream) :=
  read_framed SessionHello recv.

Definition server_reply_session_hello (send : SendStream) (response : SessionHelloResponse) :
    result bytes SendStream :=
  send ← write_framed send response;
  io_err [] (shutdown send).

Definition send_open_conn (open : OpenConn) (send : SendStream) (recv : RecvStream) :
    result bytes (SendStream * RecvStream) :=
  send ← write_framed send open;
  '(resp, recv) ← read_framed OpenConnResponse recv;
  match resp with
  | OpenOk => Ok (send, recv)
  | OpenFailed reason => Err (str "conn open rejected: " ++ reason)
  end.

Definition receive_open_conn (recv : RecvStream) : result bytes (OpenConn * RecvStream) :=
  read_framed OpenConn recv.

Definition reply_open_conn (send : SendStream) (response : OpenConnResponse) :
    result bytes SendStream :=
  write_framed send response.

(** ** Datagrams *)

Definition MAX_DATAGRAM : nat := N.to_nat 65535.

Definition write_datagram (send : SendStream) (payload : bytes) : result bytes SendStream :=
  if 65536 <=? len payload then
    Err (str "UDP datagram of " ++ fmt_dec (len payload) ++ str " bytes exceeds 65535")
  else
    send ← io_err [] (write_all (to_le16 (len payload)) send);
    io_err [] (write_all payload send).

(** [buf_len] is the length of the caller's buffer. *)
Definition read_datagram (buf_len : nat) (recv : RecvStream) : result bytes (bytes * RecvStream) :=
  '(len_buf, recv) ← io_err [] (read_exact 2 recv);
  match len_buf with
  | [lo; hi] =>
      let n := from_le16 lo hi in
      if N.of_nat buf_len <? n then
        Err (str "datagram length " ++ fmt_dec n ++ str " exceeds local buffer " ++
             fmt_dec (N.of_nat buf_len))
      else io_err [] (read_exact (N.to_nat n) recv)
  | _ => Err []  (* a two-byte buffer has two bytes *)
  end.

(** ** Lemmas *)

Lemma length_to_le32 n : length (to_le32 n) = 4%nat.
Proof. done. Qed.

(** The bytes of a frame. *)
Definition frame (body : bytes) : bytes := to_le32 (len body) ++ body.

Lemma write_framed_sent `{SerdeHelper T} s s' (msg : T) :
  write_framed s msg = Ok s' →
  ∃ body, to_bytes msg = Ok body ∧ len body < 2 ^ 32 ∧ sent s' = sent s ++ frame body.
Proof.
  unfold write_framed, io_err. intros Hw. destruct (to_bytes msg) as [body|] eqn:Eb; [|done].
  cbn [mbind result_bind] in Hw. destruct (N.leb_spec (2 ^ 32) (len body)); [done|].
  destruct (write_all _ s) as [s1|] eqn:E1; [|done]. cbn in Hw.
  destruct (write_all body s1) as [s2|] eqn:E2; [|done]. injection Hw as <-.
  exists body. split_and!; [done|lia|].
  by rewrite (write_all_sent _ _ _ E2), (write_all_sent _ _ _ E1), <-app_assoc.
Qed.

Lemma write_framed_live `{SerdeHelper T} s (msg : T) body :
  live s → to_bytes msg = Ok body → len body < 2 ^ 32 →
  ∃ s', write_framed s msg = Ok s' ∧ live s'.
Proof.
  intros Hl Eb Hlen. unfold write_framed, io_err. rewrite Eb. cbn [mbind result_bind].
  replace (2 ^ 32 <=? len body) with false by lia.
  destruct (write_all_live (to_le32 (len body)) s Hl) as (s1 & -> & Hl1). cbn [map_err mbind result_bind].
  destruct (write_all_live body s1 Hl1) as (s2 & -> & Hl2). by exists s2.
Qed.

Lemma read_exact_app n b rest r :
  unread r = b ++ rest → length b = n → ∃ r', read_exact n r = Ok (b, r') ∧ unread r' = rest.
Proof.
  intros Hr <-. destruct (read_exact_enough (length b) r) as (r' & E & E').
  - rewrite Hr, length_app. lia.
  - exists r'. by rewrite E, E', Hr, take_app_length, drop_app_length.
Qed.

(** The length prefix decides: the body is looked at only below the cap. *)
Lemma read_framed_prefix `{SerdeHelper T} r n rest :
  unread r = to_le32 n ++ rest → n < 2 ^ 32 → MAX_CONTROL_MSG < n →
  read_framed T r = Err (str "control message length " ++ fmt_dec n ++ str " exceeds cap of " ++
                         fmt_dec MAX_CONTROL_MSG).
Proof.
  intros Hr Hn Hcap. destruct (read_exact_app 4 (to_le32 n) rest r Hr) as (r' & E & _); [done|].
  unfold read_framed. rewrite E. cbn [io_err map_err mbind result_bind to_le32].
  rewrite from_to_le32 by done. by replace (MAX_CONTROL_MSG <? n) with true by lia.
Qed.

Lemma read_framed_frame `{SerdeHelper T} r body rest (msg : T) :
  unread r = frame body ++ rest → len body ≤ MAX_CONTROL_MSG → from_bytes body = Ok msg →
  ∃ r', read_framed T r = Ok (msg, r') ∧ unread r' = rest.
Proof.
  intros Hr Hcap Hb. assert (MAX_CONTROL_MSG = 65536) as Hmax by done.
  unfold frame in Hr. rewrite <-app_assoc in Hr.
  destruct (read_exact_app 4 (to_le32 (len body)) (body ++ rest) r Hr) as (r1 & E & Hr1); [done|].
  unfold read_framed. rewrite E. cbn [io_err map_err mbind result_bind to_le32].
  rewrite from_to_le32 by lia. replace (MAX_CONTROL_MSG <? len body) with false by lia.
  destruct (read_exact_app (N.to_nat (len body)) body rest r1 Hr1) as (r2 & -> & Hr2); [lia|].
  cbn [io_err map_err mbind result_bind]. rewrite Hb. by exists r2.
Qed.

(** C27: a control message that was written within the cap is read back as it is,
    whatever follows it on the stream, and the reader consumes exactly its frame. *)
Theorem framed_round_trip `{SerdeHelper T} (msg : T) s s' r rest :
  write_framed s msg = Ok s' → len (sent s') ≤ len (sent s) + 4 + MAX_CONTROL_MSG →
  sent s ++ unread r = sent s' ++ rest →
  ∃ r', read_framed T r = Ok (msg, r') ∧ unread r' = rest.
Proof.
  intros (body & Eb & Hlen & Hs)%write_framed_sent Hcap Hr. rewrite Hs in *.
  rewrite <-app_assoc in Hr. apply app_inv_head in Hr.
  apply (read_framed_frame _ body); [done| |by apply from_to_bytes].
  unfold frame in Hcap. rewrite !length_app, length_to_le32 in Hcap. lia.
Qed.

(** The writer does not enforce the reader's cap: on a live stream every
    message of more than 64 KiB (and less than 4 GiB) is written without error, and
    every reader rejects its frame from the length prefix alone. *)
Theorem oversized_accepted_then_rejected `{SerdeHelper T} (msg : T) body s r rest :
  live s → to_bytes msg = Ok body → MAX_CONTROL_MSG < len body → len body < 2 ^ 32 →
  unread r = frame body ++ rest →
  (∃ s', write_framed s msg = Ok s' ∧ sent s' = sent s ++ frame body) ∧
  read_framed T r = Err (str "control message length " ++ fmt_dec (len body) ++
                         str " exceeds cap of 65536").
Proof.
  intros Hl Eb Hcap Hlen Hr. split.
  - destruct (write_framed_live s msg body Hl Eb Hlen) as (s' & E & _). exists s'. split; [done|].
    apply write_framed_sent in E as (body' & Eb' & _ & E). congruence.
  - unfold frame in Hr. rewrite <-app_assoc in Hr. by eapply read_framed_prefix.
Qed.

(** The client accepts a hello response only with one tunnel id per
    declaration; a rejection or a wrong number of ids is an error. *)
Theorem client_hello_ids hello send recv ids send' recv' :
  client_send_session_hello hello send recv = Ok (ids, send', recv') →
  length ids = length (hello_remotes hello) ∧
  read_framed SessionHelloResponse recv = Ok (HelloOk ids, recv') ∧
  ∃ body, to_bytes hello = Ok body ∧ sent send' = sent send ++ frame body.
Proof.
  unfold client_send_session_hello. intros Hc.
  destruct (write_framed send hello) as [s1|] eqn:E1; [|done]. cbn [mbind result_bind] in Hc.
  destruct (shutdown s1) as [s2|] eqn:E2; [|done]. cbn [io_err map_err mbind result_bind] in Hc.
  destruct (read_framed SessionHelloResponse recv) as [[resp r1]|] eqn:E3; [|done].
  cbn [mbind result_bind] in Hc. destruct resp as [ids'|]; [|done]. case_decide as Hd; [done|].
  injection Hc as <- <- <-. split_and!; [done|done|].
  apply write_framed_sent in E1 as (body & ? & _ & E). exists body.
  by rewrite (shutdown_sent _ _ E2), E.
Qed.

(** *** Sequences of datagrams *)

Fixpoint write_datagrams (send : SendStream) (payloads : list bytes) : result bytes SendStream :=
  match payloads with
  | [] => Ok send
  | p :: ps => send ← write_datagram send p; write_datagrams send ps
  end.

Fixpoint read_datagrams (k : nat) (recv : RecvStream) : result bytes (list bytes * RecvStream) :=
  match k with
  | O => Ok ([], recv)
  | S k' =>
      '(p, recv) ← read_datagram MAX_DATAGRAM recv;
      '(ps, recv) ← read_datagrams k' recv;
      Ok (p :: ps, recv)
  end.

Definition datagram_frame (p : bytes) : bytes := to_le16 (len p) ++ p.

Lemma write_datagram_sent s s' p :
  write_datagram s p = Ok s' → len p < 65536 ∧ sent s' = sent s ++ datagram_frame p.
Proof.
  unfold write_datagram, io_err. intros Hw. destruct (N.leb_spec 65536 (len p)); [done|].
  destruct (write_all _ s) as [s1|] eqn:E1; [|done]. cbn in Hw.
  destruct (write_all p s1) as [s2|] eqn:E2; [|done]. injection Hw as <-.
  split; [lia|]. by rewrite (write_all_sent _ _ _ E2), (write_all_sent _ _ _ E1), <-app_assoc.
Qed.

Lemma read_datagram_frame r p rest :
  unread r = datagram_frame p ++ rest → len p < 65536 →
  ∃ r', read_datagram MAX_DATAGRAM r = Ok (p, r') ∧ unread r' = rest.
Proof.
  intros Hr Hlen. unfold datagram_frame in Hr. rewrite <-app_assoc in Hr.
  destruct (read_exact_app 2 (to_le16 (len p)) (p ++ rest) r Hr) as (r1 & E & Hr1); [done|].
  unfold read_datagram. rewrite E. cbn [io_err map_err mbind result_bind to_le16].
  rewrite from_to_le16 by done. unfold MAX_DATAGRAM. rewrite N2Nat.id.
  replace (65535 <? len p) with false by lia.
  destruct (read_exact_app (N.to_nat (len p)) p rest r1 Hr1) as (r2 & -> & Hr2); [lia|].
  by exists r2.
Qed.

Lemma write_datagrams_sent ps : ∀ s s',
  write_datagrams s ps = Ok s' →
  Forall (λ p, len p < 65536) ps ∧ sent s' = sent s ++ (ps ≫= datagram_frame).
Proof.
  induction ps as [|p ps IH]; intros s s' Hw; simpl in *.
  - simplify_eq. by rewrite app_nil_r.
  - destruct (write_datagram s p) as [s1|] eqn:E; [|done]. cbn in Hw.
    apply write_datagram_sent in E as [Hp E]. apply IH in Hw as [Hps Hw].
    split; [by constructor|]. by rewrite Hw, E, <-app_assoc.
Qed.

Lemma read_datagrams_frames ps : ∀ r rest,
  Forall (λ p, len p < 65536) ps → unread r = (ps ≫= datagram_frame) ++ rest →
  ∃ r', read_datagrams (length ps) r = Ok (ps, r') ∧ unread r' = rest.
Proof.
  induction ps as [|p ps IH]; intros r rest Hps Hr; [by exists r|].
  inversion Hps; subst. rewrite bind_cons, <-app_assoc in Hr.
  destruct (read_datagram_frame r p _ Hr) as (r1 & E & Hr1); [done|].
  destruct (IH r1 rest) as (r2 & E2 & Hr2); [done..|].
  exists r2. cbn [length read_datagrams]. rewrite E. cbn [mbind result_bind]. by rewrite E2.
Qed.

(** Datagrams written one after the other on a stream are read back one by
    one with their boundaries, for every sequence the writer accepts. *)
Theorem datagrams_round_trip ps s s' r rest :
  write_datagrams s ps = Ok s' → sent s ++ unread r = sent s' ++ rest →
  ∃ r', read_datagrams (length ps) r = Ok (ps, r') ∧ unread r' = rest.
Proof.
  intros [Hps Hs]%write_datagrams_sent Hr. rewrite Hs, <-app_assoc in Hr.
  apply app_inv_head in Hr. by apply read_datagrams_frames.
Qed.

End framing.

(** ** An in-memory implementation of the interfaces

    A send stream is the list of the bytes sent, a receive stream the list of
    those still to read. *)

Definition memory_streams : ByteStreams.
Proof.
  refine {| SendStream := bytes; RecvStream := bytes; StreamError := unit;
            show_error := λ _, str "finished early";
            write_all := λ b s, Ok (s ++ b); shutdown := λ s, Ok s;
            read_exact := λ n r, if (n <=? length r)%nat then Ok (take n r, drop n r) else Err tt;
            sent := λ s, s; live := λ _, True; unread := λ r, r |}.
  - by intros b s s' [= <-].
  - intros b s _. by exists (s ++ b).
  - by intros s s' [= <-].
  - intros s _. by exists s.
  - intros n r Hn. exists (drop n r). by rewrite (proj2 (Nat.leb_le n (length r))).
  - intros n r Hn. exists tt. by rewrite (proj2 (Nat.leb_gt n (length r))).
Defined.

(** A codec for replies, for the concrete instances: a tag and the reason. *)
Definition reply_codec : SerdeHelper OpenConnResponse.
Proof.
  refine {| to_bytes := λ m, match m with OpenOk => Ok [n2b 0] | OpenFailed r => Ok (n2b 1 :: r) end;
            from_bytes := λ b, match b with
                               | t :: r => if decide (t = n2b 0) then Ok OpenOk else Ok (OpenFailed r)
                               | [] => Err (str "empty") end |}.
  intros [|reason] b [= <-]; [by rewrite decide_True|]. by rewrite decide_False.
Defined.

(** A codec that knows the two messages of the empty session. *)
Definition hello_codec : SerdeHelper SessionHello.
Proof.
  refine {| to_bytes := λ m, match hello_remotes m with [] => Ok [n2b 0] | _ => Err [] end;
            from_bytes := λ b, Ok (mkSessionHello []) |}.
  intros [[|]] b; [|done]. by intros [= <-].
Defined.

Definition hello_response_codec : SerdeHelper SessionHelloResponse.
Proof.
  refine {| to_bytes := λ m, match m with HelloOk [] => Ok [n2b 0] | _ => Err [] end;
            from_bytes := λ b, Ok (HelloOk []) |}.
  intros [[|]|] b; [|done..]. by intros [= <-].
Defined.

Lemma framed_round_trip_witness :
  ∃ r', @read_framed memory_streams OpenConnResponse reply_codec
          (frame (n2b 1 :: str "no") ++ str "data") = Ok (OpenFailed (str "no"), r') ∧ r' = str "data".
Proof.
  refine (@framed_round_trip memory_streams OpenConnResponse reply_codec (OpenFailed (str "no"))
    [] (frame (n2b 1 :: str "no")) (frame (n2b 1 :: str "no") ++ str "data") (str "data") _ _ _).
  - by vm_compute.
  - by vm_compute.
  - done.
Defined.

Definition big : bytes := repeat "x"%char (N.to_nat 65536).

Lemma oversized_witness :
  ∃ s', @write_framed memory_streams OpenConnResponse reply_codec [] (OpenFailed big) = Ok s' ∧
        s' = frame (n2b 1 :: big).
Proof.
  refine (proj1 (@oversized_accepted_then_rejected memory_streams OpenConnResponse reply_codec
    (OpenFailed big) (n2b 1 :: big) [] (frame (n2b 1 :: big)) [] I eq_refl _ _ _)).
  - by vm_compute.
  - by vm_compute.
  - by rewrite app_nil_r.
Defined.

Lemma client_hello_ids_witness :
  length (@nil N) = length (hello_remotes (mkSessionHello [])).
Proof.
  refine (proj1 (@client_hello_ids memory_streams hello_codec hello_response_codec
    (mkSessionHello []) [] (frame [n2b 0]) [] (frame [n2b 0]) [] _)).
  by vm_compute.
Defined.

Lemma datagrams_round_trip_witness :
  ∃ r', @read_datagrams memory_streams 2 (datagram_frame (str "ab") ++ datagram_frame []) =
          Ok ([str "ab"; []], r') ∧ r' = [].
Proof.
  refine (@datagrams_round_trip memory_streams [str "ab"; []] []
    (datagram_frame (str "ab") ++ datagram_frame [])
    (datagram_frame (str "ab") ++ datagram_frame []) [] _ _).
  - by vm_compute.
  - by vm_compute.
Defined.
