(* ===== verification/Server.v ===== *)
(** * Server: sessions and the dispatch of data-plane streams ([src/server/mod.rs])

    The policy check of a session hello, the hello exchange, the dispatcher of
    [OpenConn] frames, the life of one client connection and the accept loop with
    its connection cap. Streams, the codec, the semaphore and the data-plane body
    are parameters with their laws. *)

From S2P Require Import Prelude Text NetAddr Remote State Ledger Framing.

(** ** Policy *)

Fixpoint validate_remotes (remotes : list RemoteRequest) (allow_reverse allow_socks : bool) :
    result bytes unit :=
  match remotes with
  | [] => Ok ()
  | r :: rs =>
      if is_reversed r && negb allow_reverse then
        Err (str "Reverse remotes are not allowed (" ++ fmt_remote r ++ str ")")
      else if is_socks r && negb allow_socks then
        Err (str "SOCKS5 remotes are not allowed (" ++ fmt_remote r ++ str ")")
      else validate_remotes rs allow_reverse allow_socks
  end.

(** What the operator allowed. *)
Definition allowed (allow_reverse allow_socks : bool) (r : RemoteRequest) : Prop :=
  (is_reversed r = true → allow_reverse = true) ∧ (is_socks r = true → allow_socks = true).

Lemma allowed_cons ar sk r rs :
  Forall (allowed ar sk) (r :: rs) ↔
  is_reversed r && negb ar = false ∧ is_socks r && negb sk = false ∧ Forall (allowed ar sk) rs.
Proof.
  rewrite Forall_cons. unfold allowed.
  destruct (is_reversed r), (is_socks r), ar, sk; simpl; intuition congruence.
Qed.

(** A hello passes validation exactly when the operator allowed every
    declaration in it; otherwise the reason names the first offending one. *)
Theorem validate_remotes_spec rs ar sk :
  match validate_remotes rs ar sk with
  | Ok _ => Forall (allowed ar sk) rs
  | Err reason =>
      ∃ pre r post, rs = pre ++ r :: post ∧ Forall (allowed ar sk) pre ∧ ¬ allowed ar sk r ∧
        reason = (if is_reversed r && negb ar then str "Reverse" else str "SOCKS5") ++
                 str " remotes are not allowed (" ++ fmt_remote r ++ str ")"
  end.
Proof.
  induction rs as [|r rs IH]; simpl; [done|].
  destruct (is_reversed r && negb ar) eqn:Er.
  { exists [], r, rs. rewrite Er. split_and!; [done..| |done]. intros [Ha _].
    destruct (is_reversed r), ar; try done. by specialize (Ha eq_refl). }
  destruct (is_socks r && negb sk) eqn:Es.
  { exists [], r, rs. rewrite Er. split_and!; [done..| |done]. intros [_ Ha].
    destruct (is_socks r), sk; try done. by specialize (Ha eq_refl). }
  destruct (validate_remotes rs ar sk) as [[]|reason]; [by apply allowed_cons|].
  destruct IH as (pre & r' & post & -> & Hpre & Hr' & ->).
  exists (r :: pre), r', post. split_and!; [done|by apply allowed_cons|done|done].
Qed.

(** ** Dispatch of an [OpenConn] *)

Inductive ForwardDispatch := DispatchTcp (r : RemoteRequest) | DispatchUdp (r : RemoteRequest).

Definition peer_label (d : ForwardDispatch) : option bytes :=
  match d with DispatchTcp r | DispatchUdp r => remote_addr_string r end.

Definition resolve_dispatch (te : TunnelEntry) (dynamic : option DynamicTarget) :
    result bytes ForwardDispatch :=
  match te_direction te with
  | Reverse => Err (str "OpenConn on reverse tunnel " ++ fmt_dec (te_id te) ++
                    str " (server pushes reverse conns, not the client)")
  | Forward =>
      match te_kind te, dynamic with
      | KTcp local remote, None =>
          Ok (DispatchTcp (RemoteRequest_new Forward (KTcp local remote)))
      | KUdp local remote, None =>
          Ok (DispatchUdp (RemoteRequest_new Forward (KUdp local remote)))
      | KSocks5 local, Some (DynTcp target) =>
          Ok (DispatchTcp (RemoteRequest_new Forward (KTcp local target)))
      | KSocks5 local, Some (DynUdp target) =>
          Ok (DispatchUdp (RemoteRequest_new Forward (KUdp local target)))
      | KSocks5 _, None => Err (str "OpenConn on SOCKS5 tunnel " ++ fmt_dec (te_id te) ++
                                str " requires a `dynamic` target")
      | _, Some _ => Err (str "OpenConn on tunnel " ++ fmt_dec (te_id te) ++
                          str " carried unexpected dynamic target")
      end
  end.

(** The target a conn on this tunnel is for: the declared one, or the one the
    client names on a SOCKS5 tunnel. *)
Definition conn_target (te : TunnelEntry) (dynamic : option DynamicTarget) : option DynamicTarget :=
  match te_kind te, dynamic with
  | KTcp _ h, None => Some (DynTcp h)
  | KUdp _ h, None => Some (DynUdp h)
  | KSocks5 _, Some d => Some d
  | _, _ => None
  end.

Definition dispatch_target (d : ForwardDispatch) : option DynamicTarget :=
  match d with
  | DispatchTcp r => match kind r with KTcp _ h => Some (DynTcp h) | _ => None end
  | DispatchUdp r => match kind r with KUdp _ h => Some (DynUdp h) | _ => None end
  end.

(** A client-opened conn is dispatched exactly on forward tunnels with a
    target, to that target and over its protocol; a client can name a target only
    on a SOCKS5 tunnel, and never open a conn on a reverse tunnel. *)
Theorem resolve_dispatch_spec te dynamic :
  match resolve_dispatch te dynamic with
  | Ok d => te_direction te = Forward ∧ is_Some (conn_target te dynamic) ∧
            dispatch_target d = conn_target te dynamic ∧
            peer_label d = (λ t, match t with DynTcp h | DynUdp h => to_addr_string h end) <$>
                             conn_target te dynamic
  | Err _ => te_direction te = Reverse ∨ conn_target te dynamic = None
  end.
Proof.
  unfold resolve_dispatch, conn_target. destruct (te_direction te); [|by left].
  by destruct (te_kind te), dynamic as [[]|]; simpl; eauto.
Qed.

Section sessions.
Context `{MapOrder} `{ByteStreams}.
Context `{SerdeHelper SessionHello, SerdeHelper SessionHelloResponse,
          SerdeHelper OpenConn, SerdeHelper OpenConnResponse}.

(** The ids of the entries behind the locations. *)
Definition ids_of (w : World) (ts : list loc) : list N := omap (λ t, te_id <$> ht w !! t) ts.

(** [perform_session_hello] on the result of [accept_bi]: the state, the send
    stream after the reply when one was sent, and the registered tunnels.
    [clock] is read once per declaration. *)
Definition perform_session_hello (bi : result bytes (SendStream * RecvStream)) (client : loc)
    (client_id : N) (allow_reverse allow_socks : bool) (clock : nat → SystemTime) (w : World) :
    World * option SendStream * result bytes (list loc) :=
  match ('(send, recv) ← bi; '(hello, _) ← server_receive_session_hello recv; Ok (send, hello)) with
  | Err e => (w, None, Err e)
  | Ok (send, hello) =>
      match validate_remotes (hello_remotes hello) allow_reverse allow_socks with
      | Err reason =>
          (w, ok (server_reply_session_hello send (HelloFailed reason)), Err reason)
      | Ok _ =>
          let reqs := imap (λ i r, (r, clock i)) (hello_remotes hello) in
          let '(w', ts) := register_tunnels client client_id reqs w in
          match server_reply_session_hello send (HelloOk (ids_of w' ts)) with
          | Ok send' => (w', Some send', Ok ts)
          | Err e => (w', None, Err e)
          end
      end
  end.

(** A conn for the time of [body]: [open_conn] returns a guard, and its drop closes the
    conn with what the data plane counted. *)
Definition with_conn {A} (t : loc) (te : TunnelEntry) (peer : option bytes) (now : SystemTime)
    (body : loc → World → World * A) (w : World) : World * A :=
  let '(w1, c) := register_conn t te peer now w in
  let '(w2, a) := body c w1 in
  (match hn w2 !! c with Some ce => close_conn t c ce w2 | None => w2 end, a).

(** [handle_open_conn]; [body] is the data-plane handler run on the registered
    conn, and the guard is dropped when it returns. *)
Definition handle_open_conn (send : SendStream) (recv : RecvStream)
    (body : ForwardDispatch → loc → World → World * result bytes unit) (now : SystemTime)
    (w : World) : World * option SendStream * result bytes unit :=
  match receive_open_conn recv with
  | Err e => (w, None, Err e)
  | Ok (open, recv) =>
      match t ← tunnel (oc_tunnel_id open) w; te ← ht w !! t; Some (t, te) with
      | None =>
          let reason := str "unknown tunnel id " ++ fmt_dec (oc_tunnel_id open) in
          (w, ok (reply_open_conn send (OpenFailed reason)), Err reason)
      | Some (t, te) =>
          match resolve_dispatch te (oc_dynamic open) with
          | Err e => (w, ok (reply_open_conn send (OpenFailed e)), Err e)
          | Ok dispatch =>
              match reply_open_conn send OpenOk with
              | Err e => (w, None, Err e)
              | Ok send' =>
                  let '(w, res) := with_conn t te (peer_label dispatch) now (body dispatch) w in
                  (w, Some send', res)
              end
          end
      end
  end.

(** ** The hello exchange *)

Lemma ids_of_register_tunnels l id reqs : ∀ w,
  next_tunnel_id w + len reqs < 2 ^ 64 →
  ids_of (register_tunnels l id reqs w).1 (register_tunnels l id reqs w).2 =
    map (λ i, next_tunnel_id w + 1 + N.of_nat i) (seq 0 (length reqs)).
Proof.
  induction reqs as [|[req now] reqs IH]; intros w Hn; [done|].
  rewrite length_cons in Hn. rewrite register_tunnels_cons. cbn [fst snd].
  set (w1 := (register_tunnel l id req now w).1).
  assert (next_tunnel_id w1 = next_tunnel_id w + 1) as Hn1 by (simpl; apply wadd64_1; lia).
  destruct (register_tunnels_frame l id reqs w1 (next_loc w)
    (mkTunnel (next_tunnel_id w + 1) id (direction req) (kind req) (fmt_remote req) now ∅ 0 0 0))
    as [Ht _]; simpl; rewrite ?wadd64_1 by lia; rewrite ?lookup_insert_eq; try done; try lia.
  change (ids_of (register_tunnels l id reqs w1).1
            (next_loc w :: (register_tunnels l id reqs w1).2) =
          map (λ i, next_tunnel_id w + 1 + N.of_nat i) (seq 0 (S (length reqs)))).
  unfold ids_of. cbn [omap list_omap]. rewrite Ht. cbn [fmap option_fmap option_map te_id].
  cbn [seq map]. f_equal; [lia|].
  transitivity (map (λ i, next_tunnel_id w1 + 1 + N.of_nat i) (seq 0 (length reqs)));
    [apply IH; lia|].
  rewrite <-(fmap_S_seq 0). change (S <$> seq 0 (length reqs)) with (map S (seq 0 (length reqs))).
  rewrite map_map. apply map_ext. intros i. lia.
Qed.

Lemma reply_hello_sent send resp body :
  live send → to_bytes resp = Ok body → len body < 2 ^ 32 →
  ∃ send', server_reply_session_hello send resp = Ok send' ∧ sent send' = sent send ++ frame body.
Proof.
  intros Hl Eb Hlen. unfold server_reply_session_hello.
  destruct (write_framed_live send resp body Hl Eb Hlen) as (s1 & E1 & Hl1). rewrite E1.
  cbn [mbind result_bind]. destruct (shutdown_live s1 Hl1) as (s2 & E2). rewrite E2.
  exists s2. split; [done|]. apply write_framed_sent in E1 as (body' & Eb' & _ & E1).
  rewrite (shutdown_sent _ _ E2), E1. congruence.
Qed.

Lemma client_hello_reads hello send recv hb rb resp rest :
  live send → to_bytes hello = Ok hb → len hb < 2 ^ 32 →
  unread recv = frame rb ++ rest → len rb ≤ MAX_CONTROL_MSG → from_bytes rb = Ok resp →
  ∃ send' recv', sent send' = sent send ++ frame hb ∧ unread recv' = rest ∧
    client_send_session_hello hello send recv =
      match resp with
      | HelloOk ids =>
          if decide (length ids ≠ length (hello_remotes hello)) then
            Err (str "server returned " ++ fmt_dec (len ids) ++ str " tunnel ids for " ++
                 fmt_dec (len (hello_remotes hello)) ++ str " remotes")
          else Ok (ids, send', recv')
      | HelloFailed reason => Err (str "server rejected session: " ++ reason)
      end.
Proof.
  intros Hl Eh Hlen Hr Hcap Hb. unfold client_send_session_hello.
  destruct (write_framed_live send hello hb Hl Eh Hlen) as (s1 & E1 & Hl1). rewrite E1.
  cbn [mbind result_bind]. destruct (shutdown_live s1 Hl1) as (s2 & E2). rewrite E2.
  destruct (read_framed_frame recv rb rest resp Hr Hcap Hb) as (r' & E3 & Hr').
  cbn [io_err map_err mbind result_bind]. rewrite E3. cbn [mbind result_bind].
  exists s2, r'. split_and!; [|done|done].
  apply write_framed_sent in E1 as (body' & Eb' & _ & E1). rewrite (shutdown_sent _ _ E2), E1. congruence.
Qed.

Lemma server_hello_reads hello recv hb rest :
  to_bytes hello = Ok hb → len hb ≤ MAX_CONTROL_MSG → unread recv = frame hb ++ rest →
  ∃ recv', server_receive_session_hello recv = Ok (hello, recv').
Proof.
  intros Eh Hcap Hr.
  destruct (read_framed_frame recv hb rest hello Hr Hcap) as (r' & E & _); [by apply from_to_bytes|].
  by exists r'.
Qed.

(** C2: the whole hello exchange for an allowed session: the server registers one
    tunnel per declaration and replies with their ids, and the client that reads
    this reply returns exactly those ids, in the order of its declarations. *)
Theorem hello_accepted hello ar sk clock client client_id w cs cr ss sr hb rb rest :
  let n := length (hello_remotes hello) in
  let ids := map (λ i, next_tunnel_id w + 1 + N.of_nat i) (seq 0 n) in
  Forall (allowed ar sk) (hello_remotes hello) → next_tunnel_id w + N.of_nat n < 2 ^ 64 →
  live cs → live ss →
  to_bytes hello = Ok hb → len hb ≤ MAX_CONTROL_MSG →
  to_bytes (HelloOk ids) = Ok rb → len rb ≤ MAX_CONTROL_MSG →
  unread sr = frame hb ++ rest → unread cr = frame rb →
  ∃ w' ss' ts cs' cr',
    perform_session_hello (Ok (ss, sr)) client client_id ar sk clock w = (w', Some ss', Ok ts) ∧
    sent ss' = sent ss ++ frame rb ∧ ids_of w' ts = ids ∧
    client_send_session_hello hello cs cr = Ok (ids, cs', cr') ∧ sent cs' = sent cs ++ frame hb.
Proof.
  intros n ids Hal Hn Hcs Hss Eh Hhb Er Hrb Hsr Hcr.
  assert (MAX_CONTROL_MSG < 2 ^ 32) by done.
  destruct (server_hello_reads hello sr hb rest Eh Hhb Hsr) as (sr' & Esr).
  destruct (client_hello_reads hello cs cr hb rb (HelloOk ids) [])
    as (cs' & cr' & Hcs' & _ & Ec); [done|done|lia|by rewrite app_nil_r|done|by apply from_to_bytes|].
  assert (length ids = n) as Hids by (unfold ids; by rewrite length_map, length_seq).
  rewrite decide_False in Ec by (rewrite Hids; auto).
  unfold perform_session_hello. cbn [mbind result_bind]. rewrite Esr. cbn [mbind result_bind].
  assert (validate_remotes (hello_remotes hello) ar sk = Ok ()) as ->.
  { clear -Hal. induction (hello_remotes hello) as [|r rs IH]; [done|].
    apply allowed_cons in Hal as (E1 & E2 & Hal). simpl. rewrite E1, E2. auto. }
  pose proof (ids_of_register_tunnels client client_id
    (imap (λ i r, (r, clock i)) (hello_remotes hello)) w) as Hreg.
  rewrite length_imap in Hreg. specialize (Hreg Hn).
  destruct (register_tunnels _ _ _ w) as [w' ts]. simpl in Hreg.
  change (ids_of w' ts = ids) in Hreg. rewrite Hreg.
  destruct (reply_hello_sent ss (HelloOk ids) rb Hss Er ltac:(lia)) as (ss' & -> & Hss').
  by exists w', ss', ts, cs', cr'.
Qed.

(** A session with a declaration the operator did not allow registers
    nothing; the client is told the reason and fails with it. *)
Theorem hello_rejected hello ar sk clock client client_id w cs cr ss sr hb rb reason rest :
  validate_remotes (hello_remotes hello) ar sk = Err reason →
  live cs → live ss →
  to_bytes hello = Ok hb → len hb ≤ MAX_CONTROL_MSG →
  to_bytes (HelloFailed reason) = Ok rb → len rb ≤ MAX_CONTROL_MSG →
  unread sr = frame hb ++ rest → unread cr = frame rb →
  ∃ ss', perform_session_hello (Ok (ss, sr)) client client_id ar sk clock w =
           (w, Some ss', Err reason) ∧
         sent ss' = sent ss ++ frame rb ∧
         client_send_session_hello hello cs cr = Err (str "server rejected session: " ++ reason).
Proof.
  intros Hv Hcs Hss Eh Hhb Er Hrb Hsr Hcr.
  assert (MAX_CONTROL_MSG < 2 ^ 32) by done.
  destruct (server_hello_reads hello sr hb rest Eh Hhb Hsr) as (sr' & Esr).
  destruct (client_hello_reads hello cs cr hb rb (HelloFailed reason) [])
    as (cs' & cr' & Hcs' & _ & Ec); [done|done|lia|by rewrite app_nil_r|done|by apply from_to_bytes|].
  unfold perform_session_hello. cbn [mbind result_bind]. rewrite Esr. cbn [mbind result_bind].
  rewrite Hv. destruct (reply_hello_sent ss (HelloFailed reason) rb Hss Er ltac:(lia)) as (ss' & -> & ?).
  by exists ss'.
Qed.

(** ** The life of a conn *)

(** A stream whose [OpenConn] is malformed, names an unknown tunnel or cannot
    be dispatched leaves the state as it is, and in the last two cases the peer is
    told why. *)
Theorem open_conn_refused send recv body now w :
  match receive_open_conn recv with
  | Err e => handle_open_conn send recv body now w = (w, None, Err e)
  | Ok (open, _) =>
      (tunnel (oc_tunnel_id open) w = None →
       let reason := str "unknown tunnel id " ++ fmt_dec (oc_tunnel_id open) in
       handle_open_conn send recv body now w =
         (w, ok (reply_open_conn send (OpenFailed reason)), Err reason)) ∧
      (∀ t te e, tunnel (oc_tunnel_id open) w = Some t → ht w !! t = Some te →
       resolve_dispatch te (oc_dynamic open) = Err e →
       handle_open_conn send recv body now w =
         (w, ok (reply_open_conn send (OpenFailed e)), Err e))
  end.
Proof.
  unfold handle_open_conn. destruct (receive_open_conn recv) as [[open r]|]; [|done]. split.
  - by intros ->.
  - intros t te e -> Hte He. cbn [mbind option_bind]. rewrite Hte. cbn [mbind option_bind].
    by rewrite He.
Qed.

(** The tunnel entry after a conn that moved [i] bytes in and [o] bytes out. *)
Definition te_served (i o : N) (te : TunnelEntry) : TunnelEntry :=
  te_set_total (wadd64 (te_total_conns te) 1)
    (te_set_cumulative (wadd64 (te_cumulative_in te) i) (wadd64 (te_cumulative_out te) o) te).

Lemma with_conn_served {A} s t te peer now i o (a : A) body :
  reachable s → next_conn_id (world s) + 1 < 2 ^ 64 → ht (world s) !! t = Some te →
  i < 2 ^ 64 → o < 2 ^ 64 →
  (∀ c w, body c w = (upd_conn c (λ ce, add_out o (add_in i ce)) w, a)) →
  ∃ w', with_conn t te peer now body (world s) = (w', a) ∧
    conns w' = conns (world s) ∧ tunnels w' = tunnels (world s) ∧
    clients w' = clients (world s) ∧ ht w' = <[t := te_served i o te]> (ht (world s)).
Proof.
  intros [Hw _ _]%reachable_inv Hid Hte Hi Ho Hb. unfold with_conn. set (w := world s) in *.
  destruct (register_conn t te peer now w) as [w1 c] eqn:Ereg.
  rewrite Hb. unfold register_conn in Ereg. rewrite wadd64_1 in Ereg by done.
  injection Ereg as Ew Ec. subst c.
  assert (hn (upd_conn (next_loc w) (λ ce, add_out o (add_in i ce)) w1) !! next_loc w =
    Some (add_out o (add_in i (mkConn (next_conn_id w + 1) (te_id te) (te_client_id te) now
                                 peer 0 0)))) as ->.
  { subst w1. simpl. by rewrite lookup_alter_eq, lookup_insert_eq. }
  set (ce := mkConn _ _ _ _ _ _ _).
  assert (add_out o (add_in i ce) = ce_set_bytes i o ce) as ->.
  { unfold add_out, add_in, ce_set_bytes, wadd64. simpl.
    destruct (N.ltb_spec 0 i), (N.ltb_spec 0 o); simpl; rewrite ?wrap64_id by done; try done;
      by repeat f_equal; lia. }
  assert (conns w !! (next_conn_id w + 1) = None) as Hfresh.
  { apply eq_None_not_Some. intros [c Hc]. destruct (wf_conns _ _ Hw _ _ Hc) as (_ & ce' & Hn & E).
    apply (wf_conn_id _ _ Hw) in Hn. lia. }
  assert (te_conns te !! (next_conn_id w + 1) = None) as Hfresh'.
  { apply eq_None_not_Some. intros [c Hc].
    destruct (wf_tunnel_conns _ _ Hw _ _ _ _ Hte Hc) as (_ & ce' & Hn & E).
    apply (wf_conn_id _ _ Hw) in Hn. lia. }
  eexists. split; [done|]. subst w1. simpl. split_and!; [by rewrite delete_insert_id|done|done|].
  rewrite (alter_insert_Some _ _ _ _ Hte).
  do 4 rewrite (alter_insert_Some _ _ _ _ (lookup_insert_eq _ _ _)), insert_insert_eq.
  f_equal. unfold te_served, te_set_total, te_set_cumulative, te_set_conns. simpl.
  by rewrite delete_insert_id.
Qed.

(** C31: serving a conn to its end registers it before the data plane runs and
    removes it afterwards on success and on error alike: the indexes are what they
    were, the tunnel has counted one conn more and the bytes the data plane moved,
    and the result is the data plane's. *)
Theorem open_conn_served s send recv body now open recv' t te d send' i o res :
  reachable s → next_conn_id (world s) + 1 < 2 ^ 64 →
  receive_open_conn recv = Ok (open, recv') →
  tunnel (oc_tunnel_id open) (world s) = Some t → ht (world s) !! t = Some te →
  resolve_dispatch te (oc_dynamic open) = Ok d → reply_open_conn send OpenOk = Ok send' →
  i < 2 ^ 64 → o < 2 ^ 64 →
  (∀ c w, body d c w = (upd_conn c (λ ce, add_out o (add_in i ce)) w, res)) →
  ∃ w', handle_open_conn send recv body now (world s) = (w', Some send', res) ∧
    conns w' = conns (world s) ∧ tunnels w' = tunnels (world s) ∧
    clients w' = clients (world s) ∧ ht w' = <[t := te_served i o te]> (ht (world s)).
Proof.
  intros Hs Hid Er Et Hte Hd Hr Hi Ho Hb. unfold handle_open_conn. rewrite Er, Et.
  cbn [mbind option_bind]. rewrite Hte. cbn [mbind option_bind]. rewrite Hd, Hr.
  destruct (with_conn_served s t te (peer_label d) now i o res (body d)) as (w' & -> & Hw'); [done..|].
  by exists w'.
Qed.

(** ** One client connection *)

(** [quinn::ConnectionError]: the variants the code tells apart; the others keep
    their text. *)
Inductive ConnectionError :=
| ApplicationClosed (error_code : N) (reason : bytes)
| ConnectionClosed (text : bytes)
| LocallyClosed
| TimedOut
| ConnReset
| OtherError (text : bytes).

(** How [accept_bi]'s error ends the loop: a reason, or a failure. *)
Definition outcome_of (e : ConnectionError) : result bytes bytes :=
  match e with
  | ApplicationClosed code reason =>
      Ok (str "client closed (code " ++ fmt_dec code ++ str ", " ++ from_utf8_lossy reason ++ str ")")
  | ConnectionClosed text => Ok (str "transport closed (" ++ text ++ str ")")
  | LocallyClosed => Ok (str "locally closed")
  | TimedOut => Ok (str "idle timeout (peer went away)")
  | ConnReset => Ok (str "connection reset by peer")
  | OtherError text => Err text
  end.

Definition close_reason (outcome : result bytes bytes) : bytes :=
  match outcome with Ok r => r | Err e => str "error: " ++ e end.

(** [handle_client_connection]. [incoming] is the outcome of the QUIC handshake,
    [serve] everything that happens from the accepted hello to the end of the
    connection and the abort of its tasks. *)
Definition handle_client_connection (incoming : result bytes SocketAddr)
    (bi : result bytes (SendStream * RecvStream)) (allow_reverse allow_socks : bool) (client_id : N)
    (clock : nat → SystemTime) (serve : list loc → World → World * ConnectionError)
    (t_connect t_end : SystemTime) (w : World) : World * result bytes bytes :=
  match incoming with
  | Err e => (w, Err e)
  | Ok remote =>
      let '(w, client_entry) := register_client client_id remote t_connect w in
      let '(w, _, hello_outcome) :=
        perform_session_hello bi client_entry client_id allow_reverse allow_socks clock w in
      match hello_outcome with
      | Err e => (deregister_client client_id (str "hello rejected: " ++ e) t_end w, Err e)
      | Ok registered_tunnels =>
          let '(w, e) := serve registered_tunnels w in
          let outcome := outcome_of e in
          (deregister_client client_id (close_reason outcome) t_end w, outcome)
      end
  end.

Lemma clients_deregister id reason now w : clients (deregister_client id reason now w) !! id = None.
Proof.
  unfold deregister_client. destruct (clients w !! id) as [l|] eqn:E; [|done]. simpl.
  destruct (hc w !! l) as [e|]; simpl; [|apply lookup_delete_eq].
  destruct (drop_tunnels_spec (tunnel_ids (set_clients (delete id (clients w)) w) e)
    (set_clients (delete id (clients w)) w)) as ((_ & _ & _ & -> & _) & _).
  apply lookup_delete_eq.
Qed.

(** However a client connection ends, its client is no longer listed
    afterwards; and a session whose first stream fails or is rejected leaves one
    history entry with the reason and no traffic. *)
Theorem client_connection_end incoming bi ar sk id clock serve t0 t1 w remote :
  incoming = Ok remote →
  clients (handle_client_connection incoming bi ar sk id clock serve t0 t1 w).1 !! id = None ∧
  ∀ e reply,
    perform_session_hello bi (next_loc w) id ar sk clock (register_client id remote t0 w).1 =
      ((register_client id remote t0 w).1, reply, Err e) →
    history (handle_client_connection incoming bi ar sk id clock serve t0 t1 w).1 =
      push_history (mkHistory id (fmt_socket remote) (unix_ms t0) (unix_ms t1)
                      (str "hello rejected: " ++ e) 0 0 0) (history w).
Proof.
  intros ->. split.
  - unfold handle_client_connection. cbn [register_client].
    destruct (perform_session_hello _ _ _ _ _ _ _) as [[w1 ?] [ts|e]]; [|apply clients_deregister].
    destruct (serve ts w1) as [w2 e]. apply clients_deregister.
  - intros e reply E. unfold handle_client_connection.
    destruct (register_client id remote t0 w) as [w1 l] eqn:Er. cbn [fst] in E.
    assert (l = next_loc w) as -> by (unfold register_client in Er; by injection Er). rewrite E.
    cbn [fst]. unfold register_client in Er. injection Er as <-.
    unfold deregister_client. simpl. rewrite lookup_insert_eq. simpl. rewrite lookup_insert_eq.
    assert (iter (∅ : gmap N loc) = []) as Hit.
    { apply Permutation_nil_r. by rewrite iter_perm, map_to_list_empty. }
    unfold tunnel_ids, history_of, client_totals. simpl. by rewrite Hit.
Qed.

End sessions.

(** ** The accept loop *)

(** [tokio::sync::Semaphore]: [try_acquire_owned] fails exactly when no permit is
    left, and dropping a permit gives it back. *)
Class Semaphore := {
  Sem : Type;
  sem_new : N → Sem;
  permits : Sem → N;
  try_acquire : Sem → option Sem;
  release : Sem → Sem;
  permits_new n : permits (sem_new n) = n;
  try_acquire_None s : permits s = 0 → try_acquire s = None;
  try_acquire_Some s : permits s ≠ 0 → ∃ s', try_acquire s = Some s' ∧ permits s' + 1 = permits s;
  permits_release s : permits (release s) = permits s + 1 }.

Section accept.
Context `{Semaphore}.

(** [client_counter], the limiter, and the ids of the running connection tasks. *)
Record Acceptor := mkAcceptor {
  client_counter : N;
  limiter : option Sem;
  running : list N }.

Definition acceptor_new (max_connections : option N) : Acceptor :=
  mkAcceptor 0 (sem_new <$> max_connections) [].

(** One round of [run_async]'s loop for an incoming connection: [Some id] when a
    task was spawned for it, [None] when it was refused. *)
Definition accept (a : Acceptor) : Acceptor * option N :=
  let client_id := wadd64 (client_counter a) 1 in
  match limiter a with
  | Some s =>
      match try_acquire s with
      | Some s' => (mkAcceptor client_id (Some s') (client_id :: running a), Some client_id)
      | None => (mkAcceptor client_id (Some s) (running a), None)
      end
  | None => (mkAcceptor client_id None (client_id :: running a), Some client_id)
  end.

(** The end of a task: its permit is dropped. *)
Definition finish (id : N) (a : Acceptor) : Acceptor :=
  mkAcceptor (client_counter a) (release <$> limiter a) (remove N.eq_dec id (running a)).

Inductive accept_run (max_connections : option N) : Acceptor → Prop :=
| run_start : accept_run max_connections (acceptor_new max_connections)
| run_accept a : accept_run max_connections a → client_counter a + 1 < 2 ^ 64 →
    accept_run max_connections (accept a).1
| run_finish a id : accept_run max_connections a → id ∈ running a →
    accept_run max_connections (finish id a).

Definition cap_holds (max_connections : option N) (a : Acceptor) : Prop :=
  NoDup (running a) ∧ Forall (λ id, 0 < id ≤ client_counter a) (running a) ∧
  match limiter a with
  | Some s => max_connections = Some (permits s + len (running a))
  | None => max_connections = None
  end.

Lemma length_remove (id : N) l :
  NoDup l → id ∈ l → len (remove N.eq_dec id l) + 1 = len l.
Proof.
  induction l as [|x l IH]; intros Hnd Hin; [set_solver|]. inversion Hnd; subst. simpl.
  destruct (N.eq_dec id x) as [->|Hne].
  - rewrite notin_remove; [lia|]. by rewrite <-list_elem_of_In.
  - simpl. assert (id ∈ l) by set_solver. specialize (IH ltac:(done) ltac:(done)). lia.
Qed.

Lemma remove_sublist (id : N) l : remove N.eq_dec id l `sublist_of` l.
Proof. induction l as [|x l IH]; simpl; [done|]. case_match; by constructor. Qed.

Lemma accept_run_cap mc a : accept_run mc a → cap_holds mc a.
Proof.
  induction 1 as [|a Ha (Hnd & Hid & Hl) Hn|a id Ha (Hnd & Hid & Hl) Hin]; unfold cap_holds in *.
  - split_and!; [constructor|constructor|]. destruct mc; simpl; [|done].
    by rewrite permits_new, N.add_0_r.
  - unfold accept. rewrite wadd64_1 by done.
    assert (Forall (λ id, 0 < id ≤ client_counter a + 1) (running a)) as Hid'
      by (eapply Forall_impl; [exact Hid|]; simpl; lia).
    assert (client_counter a + 1 ∉ running a) as Hfresh.
    { intros Hi. rewrite Forall_forall in Hid. specialize (Hid _ Hi). simpl in Hid. lia. }
    destruct (limiter a) as [s|]; simpl.
    + destruct (decide (permits s = 0)) as [E|E].
      * rewrite try_acquire_None by done. by split_and!.
      * destruct (try_acquire_Some s E) as (s' & -> & Hp). simpl.
        split_and!; [by constructor|constructor; [simpl; lia|done]|]. rewrite Hl. f_equal. lia.
    + split_and!; [by constructor|constructor; [simpl; lia|done]|done].
  - unfold finish. simpl. pose proof (remove_sublist id (running a)) as Hsub. split_and!.
    + by eapply sublist_NoDup.
    + rewrite Forall_forall in *. intros x Hx. apply Hid. by eapply elem_of_sublist.
    + pose proof (length_remove id (running a) Hnd Hin). destruct (limiter a) as [s|]; simpl; [|done].
      rewrite Hl, permits_release. f_equal. lia.
Qed.

(** With [--max-connections n] there are never more than [n] connection tasks,
    a new connection is refused exactly when [n] are running, and every task has
    a client id of its own that no earlier connection had. *)
Theorem connection_cap mc a :
  accept_run mc a →
  NoDup (running a) ∧ Forall (λ id, id < client_counter a + 1) (running a) ∧
  (∀ n, mc = Some n → len (running a) ≤ n ∧ ((accept a).2 = None ↔ len (running a) = n)) ∧
  (mc = None → (accept a).2 ≠ None).
Proof.
  intros (Hnd & Hid & Hl)%accept_run_cap. split_and!; [done| | |].
  - eapply Forall_impl; [exact Hid|]. simpl. lia.
  - intros n ->. unfold accept. destruct (limiter a) as [s|]; [|done]. injection Hl as ->.
    split; [lia|]. destruct (decide (permits s = 0)) as [E|E].
    + rewrite try_acquire_None by done. simpl. split; [lia|done].
    + destruct (try_acquire_Some s E) as (s' & -> & Hp). simpl. split; [done|lia].
  - intros ->. unfold accept. by destruct (limiter a).
Qed.

End accept.

(** ** Concrete instances *)

Section instances.
#[local] Instance mo : MapOrder := by_tree.
#[local] Instance qs : ByteStreams := memory_streams.
#[local] Instance c1 : SerdeHelper OpenConnResponse := reply_codec.

(** One declaration, one id: codecs that know the messages of this exchange. *)
#[local] Instance c2 : SerdeHelper SessionHello.
Proof.
  refine {| to_bytes := λ m, if decide (m = mkSessionHello [demo_remote]) then Ok [n2b 7] else Err [];
            from_bytes := λ b, Ok (mkSessionHello [demo_remote]) |}.
  intros m b. case_decide; [|done]. by subst.
Defined.

#[local] Instance c3 : SerdeHelper SessionHelloResponse.
Proof.
  refine {| to_bytes := λ m, match m with HelloOk [1] => Ok [n2b 0] | HelloFailed r => Ok (n2b 1 :: r)
                             | _ => Err [] end;
            from_bytes := λ b, match b with
                               | t :: r => if decide (t = n2b 0) then Ok (HelloOk [1])
                                           else Ok (HelloFailed r)
                               | [] => Err [] end |}.
  intros [[|[|[|[]|]] [|]]|reason] b Hb; try done; injection Hb as <-;
    [by rewrite decide_True|by rewrite decide_False].
Defined.

#[local] Instance c4 : SerdeHelper OpenConn.
Proof.
  refine {| to_bytes := λ m, if decide (m = mkOpenConn 1 None) then Ok [n2b 1] else Err [];
            from_bytes := λ b, Ok (mkOpenConn 1 None) |}.
  intros m b. case_decide; [|done]. by subst.
Defined.

Lemma hello_accepted_witness :
  ∃ w' ss' ts cs' cr',
    perform_session_hello (Ok ([], frame [n2b 7])) 0 1 false false (λ _, 0%Z) (new 0 demo_addr)
      = (w', Some ss', Ok ts) ∧
    ss' = frame [n2b 0] ∧ ids_of w' ts = [1] ∧
    client_send_session_hello (mkSessionHello [demo_remote]) [] (frame [n2b 0]) = Ok ([1], cs', cr') ∧
    cs' = frame [n2b 7].
Proof.
  refine (hello_accepted (mkSessionHello [demo_remote]) false false (λ _, 0%Z) 0 1 (new 0 demo_addr)
    [] (frame [n2b 0]) [] (frame [n2b 7]) [n2b 7] [n2b 0] [] _ _ I I _ _ _ _ _ _); try by vm_compute.
  by repeat constructor.
Defined.

Definition reverse_remote : RemoteRequest :=
  RemoteRequest_new Reverse (KSocks5 (socket_addr_new any_v4 5000)).

#[local] Instance c5 : SerdeHelper SessionHello | 0.
Proof.
  refine {| to_bytes := λ m, if decide (m = mkSessionHello [reverse_remote]) then Ok [n2b 7] else Err [];
            from_bytes := λ b, Ok (mkSessionHello [reverse_remote]) |}.
  intros m b. case_decide; [|done]. by subst.
Defined.

Definition reject_reason : bytes := str "Reverse remotes are not allowed (R:5000=>socks)".

Lemma hello_rejected_witness :
  ∃ ss', perform_session_hello (Ok ([], frame [n2b 7])) 0 1 false true (λ _, 0%Z) (new 0 demo_addr)
           = (new 0 demo_addr, Some ss', Err reject_reason) ∧
         ss' = frame (n2b 1 :: reject_reason) ∧
         client_send_session_hello (mkSessionHello [reverse_remote]) []
           (frame (n2b 1 :: reject_reason)) = Err (str "server rejected session: " ++ reject_reason).
Proof.
  refine (hello_rejected (mkSessionHello [reverse_remote]) false true (λ _, 0%Z) 0 1 (new 0 demo_addr)
    [] (frame (n2b 1 :: reject_reason)) [] (frame [n2b 7]) [n2b 7] (n2b 1 :: reject_reason)
    reject_reason [] _ I I _ _ _ _ _ _); by vm_compute.
Defined.

Definition demo_body (d : ForwardDispatch) (c : loc) (w : World) : World * result bytes unit :=
  (upd_conn c (λ ce, add_out 5 (add_in 3 ce)) w, Err (str "reset")).

Lemma open_conn_served_witness :
  ∃ w', handle_open_conn [] (frame [n2b 1]) demo_body 0 (world demo_state) =
          (w', Some (frame [n2b 0]), Err (str "reset")) ∧
        conns w' = conns (world demo_state).
Proof.
  assert (Hserved := open_conn_served (H0 := qs) demo_state [] (frame [n2b 1]) demo_body 0
    (mkOpenConn 1 None) [] 2 demo_tunnel (DispatchTcp demo_remote) (frame [n2b 0]) 3 5
    (Err (str "reset")) demo_reachable).
  destruct Hserved as (w' & E & Ec & _);
    [by vm_compute|by vm_compute|by vm_compute|by vm_compute|by vm_compute|by vm_compute
    |by vm_compute|by vm_compute|by intros c w|].
  exists w'. split; [exact E|exact Ec].
Defined.

Lemma client_connection_end_witness :
  clients (handle_client_connection (Ok demo_addr) (Err (str "timed out")) false false 9 (λ _, 0%Z)
             (λ _ w, (w, TimedOut)) 0 0 (new 0 demo_addr)).1 !! 9 = None.
Proof.
  exact (proj1 (client_connection_end (Ok demo_addr) (Err (str "timed out")) false false 9 (λ _, 0%Z)
    (λ _ w, (w, TimedOut)) 0 0 (new 0 demo_addr) demo_addr eq_refl)).
Defined.

End instances.

(** Permits counted by a number. *)
Definition counting : Semaphore.
Proof.
  refine {| Sem := N; sem_new := λ n, n; permits := λ n, n;
            try_acquire := λ n, if decide (n = 0) then None else Some (n - 1);
            release := λ n, n + 1 |}; try done.
  - intros s ->. by rewrite decide_True.
  - intros s Hs. exists (s - 1). rewrite decide_False by done. split; [done|lia].
Defined.

Definition demo_acceptor : @Acceptor counting := (accept (acceptor_new (Some 1))).1.

Lemma connection_cap_witness : len (running demo_acceptor) ≤ 1 ∧ (accept demo_acceptor).2 = None.
Proof.
  destruct (@connection_cap counting (Some 1) demo_acceptor) as (_ & _ & Hc & _).
  - apply run_accept; [apply run_start|by vm_compute].
  - destruct (Hc 1 eq_refl) as [Hle Hiff]. split; [exact Hle|]. apply Hiff. by vm_compute.
Defined.
