(* ===== verification/Socks.v ===== *)
(** * Socks: the SOCKS5 server side ([src/common/socks.rs])

    The handshake of an accepted SOCKS5 connection, the reply to a UDP ASSOCIATE,
    and the header of relayed datagrams. The theorems state the handshake's
    behaviour on every kind of request and that the datagram header is read back
    as it is written. *)

From S2P Require Import Prelude Text NetAddr Remote Framing.

Definition SOCKS_MAX_DATAGRAM : nat := N.to_nat 65535.

Inductive SocksRequest := Connect (target : HostPort) | UdpAssociate.

Section handshake.
Context `{ByteStreams}.

(** The two octets of a port in network order. *)
Definition read_be_port : talk N :=
  b ← recv_exact 2;
  match b with [hi; lo] => mret (from_be16 hi lo) | _ => fail [] end.

Definition read_socks_addr (atyp : byte) : talk HostPort :=
  match b2n atyp with
  | 0x01 =>
      addr ← recv_exact 4;
      port ← read_be_port;
      lift (ok_or ((λ ip, mkHostPort (fmt_v4 ip) port) <$> v4_from_octets addr) [])
  | 0x03 =>
      l ← recv_exact 1;
      domain ← recv_exact (match l with [n] => N.to_nat (b2n n) | _ => 0%nat end);
      port ← read_be_port;
      mret (mkHostPort (from_utf8_lossy domain) port)
  | 0x04 =>
      addr ← recv_exact 16;
      port ← read_be_port;
      lift (ok_or ((λ ip, mkHostPort (fmt_v6 ip) port) <$> v6_from_octets addr) [])
  | other =>
      _ ← send_all (octets [0x05; 0x08]);
      fail (str "Unsupported address type: " ++ fmt_dec other)
  end.

Definition socks_handshake : talk SocksRequest :=
  b ← recv_exact 2;
  match b with
  | [ver; nmethods] =>
      if decide (b2n ver ≠ 0x05) then fail (str "Unsupported SOCKS version: " ++ fmt_dec (b2n ver))
      else
        _ ← recv_exact (N.to_nat (b2n nmethods));
        _ ← send_all (octets [0x05; 0x00]);
        req ← recv_exact 4;
        match req with
        | [_; cmd; _; atyp] =>
            target ← read_socks_addr atyp;
            match b2n cmd with
            | 0x01 => mret (Connect target)
            | 0x03 => mret UdpAssociate
            | c =>
                _ ← send_all (octets [0x05; 0x07]);
                fail (str "Unsupported SOCKS command: " ++ fmt_dec c)
            end
        | _ => fail []
        end
  | _ => fail []
  end.

(** The address part of a reply or of a datagram header. *)
Definition socks_ip (ip : IpAddr) : bytes :=
  match ip with
  | IpV4 v4 => n2b 0x01 :: v4_octets v4
  | IpV6 v6 => n2b 0x04 :: v6_octets v6
  end.

Definition write_socks_udp_associate_reply (addr : SocketAddr) : talk unit :=
  let reply := octets [0x05; 0x00; 0x00] ++ socks_ip (sa_ip addr) ++ to_be16 (sa_port addr) in
  send_all reply.

(** The reply to a successful CONNECT in [start_client_dynamic_tunnel]. *)
Definition connect_reply : bytes := octets [0x05; 0x00; 0x00; 0x01; 0; 0; 0; 0; 0; 0].

(** [start_client_dynamic_tunnel] up to the byte pump: the conn is opened on the
    QUIC side [send], [recv] before success is reported to the SOCKS client. *)
Definition start_client_dynamic_tunnel `{SerdeHelper OpenConn, SerdeHelper OpenConnResponse}
    (send : SendStream) (recv : RecvStream) (tunnel_id : N) (target : HostPort) :
    talk (SendStream * RecvStream) :=
  streams ← lift (send_open_conn (mkOpenConn tunnel_id (Some (DynTcp target))) send recv);
  _ ← send_all connect_reply;
  mret streams.

End handshake.

(** ** Datagram headers *)

Definition parse_socks_udp_header (buf : bytes) : result bytes (HostPort * bytes) :=
  match buf with
  | _ :: _ :: frag :: atyp :: rest =>
      if decide (b2n frag ≠ 0) then Err (str "UDP fragmentation not supported")
      else
        match b2n atyp with
        | 0x01 =>
            match rest with
            | a :: b :: c :: d :: hi :: lo :: payload =>
                Ok (mkHostPort (fmt_v4 (mkV4 a b c d)) (from_be16 hi lo), payload)
            | _ => Err (str "truncated IPv4 header")
            end
        | 0x04 =>
            if (length rest <? 16 + 2)%nat then Err (str "truncated IPv6 header")
            else
              match v6_from_octets (take 16 rest), drop 16 rest with
              | Some ip, hi :: lo :: payload => Ok (mkHostPort (fmt_v6 ip) (from_be16 hi lo), payload)
              | _, _ => Err []
              end
        | 0x03 =>
            match rest with
            | l :: rest' =>
                let n := N.to_nat (b2n l) in
                match drop n rest' with
                | hi :: lo :: payload =>
                    Ok (mkHostPort (from_utf8_lossy (take n rest')) (from_be16 hi lo), payload)
                | _ => Err (str "truncated domain header")
                end
            | [] => Err (str "truncated domain header")
            end
        | other => Err (str "unknown ATYP: " ++ fmt_dec other)
        end
  | _ => Err (str "UDP header too short")
  end.

(** The address of a reply: numeric when the host is an address, else a name. *)
Definition socks_host (host : bytes) : bytes :=
  match parse_ipv4 host with
  | Some ip => socks_ip (IpV4 ip)
  | None =>
      match parse_ipv6 host with
      | Some ip => socks_ip (IpV6 ip)
      | None => let n := Nat.min (length host) 255 in n2b 0x03 :: as_u8 (N.of_nat n) :: take n host
      end
  end.

Definition wrap_socks_udp_reply (target : HostPort) (payload : bytes) : bytes :=
  octets [0; 0; 0] ++ socks_host (host target) ++ to_be16 (port target) ++ payload.

(** The host a SOCKS client reads in a reply for [h]. *)
Definition reply_host (h : bytes) : bytes :=
  match parse_ipv4 h, parse_ipv6 h with
  | Some ip, _ => fmt_v4 ip
  | None, Some ip => fmt_v6 ip
  | None, None => from_utf8_lossy (take 255 h)
  end.

(** ** Lemmas *)

Lemma v6_octets_inv a rest :
  v6_from_octets (take 16 (v6_octets a ++ rest)) = Some a ∧ drop 16 (v6_octets a ++ rest) = rest.
Proof. by destruct a as [[][][][][][][][]]. Qed.

Lemma v6_from_v6_octets a : v6_from_octets (v6_octets a) = Some a.
Proof. by destruct a as [[][][][][][][][]]. Qed.

Lemma v4_from_v4_octets a : v4_from_octets (v4_octets a) = Some a.
Proof. by destruct a. Qed.

Lemma length_v6_octets a : length (v6_octets a) = 16%nat.
Proof. by destruct a as [[][][][][][][][]]. Qed.

(** The header written on a reply is read back: the SOCKS client sees the
    payload unchanged, the port, and the target's host (numeric hosts in canonical
    form, names cut to the 255 bytes the format can carry); a canonical address or
    a name of at most 255 bytes of UTF-8 comes back as it is. *)
Theorem parse_wrap_socks_udp t payload :
  port t < 65536 →
  parse_socks_udp_header (wrap_socks_udp_reply t payload) =
    Ok (mkHostPort (reply_host (host t)) (port t), payload) ∧
  ((∃ ip, host t = fmt_ip ip) ∨
   (parse_ipv4 (host t) = None ∧ parse_ipv6 (host t) = None ∧ utf8_valid (host t) = true ∧
    (length (host t) ≤ 255)%nat) →
   reply_host (host t) = host t).
Proof.
  intros Hp. split.
  - unfold wrap_socks_udp_reply, reply_host, socks_host, to_be16.
    destruct (parse_ipv4 (host t)) as [ip|].
    { unfold parse_socks_udp_header. simpl. rewrite from_to_be16 by done. by destruct ip. }
    destruct (parse_ipv6 (host t)) as [ip|].
    { unfold parse_socks_udp_header.
      cbn [octets map app socks_ip b2n n2b]. rewrite decide_False by (intros Hc; by apply Hc).
      change (b2n (n2b 4)) with 4. cbv beta iota.
      rewrite !length_app, length_v6_octets. cbn [Nat.add length Nat.ltb Nat.leb].
      destruct (v6_octets_inv ip (as_u8 (port t / 256) :: as_u8 (port t) :: payload)) as [-> ->].
      by rewrite from_to_be16. }
    unfold parse_socks_udp_header.
    cbn [octets map app]. rewrite decide_False by (intros Hc; by apply Hc).
    change (b2n (n2b 3)) with 3. cbv beta iota. cbn [app].
    set (n := Nat.min (length (host t)) 255).
    assert (N.to_nat (b2n (as_u8 (N.of_nat n))) = n) as ->.
    { rewrite b2n_as_u8, N.mod_small; lia. }
    assert (length (take n (host t)) = n) as Hn by (rewrite length_take; lia).
    rewrite (drop_app_length' _ _ n) by done. rewrite (take_app_length' _ _ n) by done.
    rewrite from_to_be16 by done. do 4 f_equal.
    unfold n. destruct (decide (length (host t) ≤ 255)%nat).
    + rewrite Nat.min_l by done. by rewrite firstn_all, take_ge.
    + by rewrite Nat.min_r by lia.
  - unfold reply_host. intros [[[ip|ip] ->]|(-> & -> & Hu & Hl)]; simpl.
    + by rewrite parse_fmt_v4.
    + by rewrite parse_ipv4_fmt_v6, parse_fmt_v6.
    + rewrite take_ge by done. by apply from_utf8_lossy_valid.
Qed.

Lemma parse_wrap_socks_udp_witness :
  parse_socks_udp_header (wrap_socks_udp_reply (mkHostPort (str "example.com") 80) (str "data")) =
    Ok (mkHostPort (reply_host (str "example.com")) 80, str "data").
Proof. exact (proj1 (parse_wrap_socks_udp (mkHostPort (str "example.com") 80) (str "data") eq_refl)). Defined.

(** ** The handshake *)

(** What a SOCKS5 client sends for a target. *)
Inductive SocksAddr := AddrV4 (ip : Ipv4Addr) | AddrV6 (ip : Ipv6Addr) | AddrName (name : bytes).

Definition encode_addr (a : SocksAddr) : bytes :=
  match a with
  | AddrV4 ip => v4_octets ip
  | AddrV6 ip => v6_octets ip
  | AddrName name => as_u8 (len name) :: name
  end.
Definition addr_type (a : SocksAddr) : byte :=
  match a with AddrV4 _ => n2b 1 | AddrV6 _ => n2b 4 | AddrName _ => n2b 3 end.
Definition addr_host (a : SocksAddr) : bytes :=
  match a with AddrV4 ip => fmt_v4 ip | AddrV6 ip => fmt_v6 ip | AddrName n => from_utf8_lossy n end.
Definition addr_ok (a : SocksAddr) : Prop :=
  match a with AddrName n => len n < 256 | _ => True end.

Section handshake_spec.
Context `{ByteStreams}.

Lemma read_be_port_at c out p inp :
  p < 65536 → peer_at c out (to_be16 p ++ inp) →
  ∃ c', read_be_port c = (c', Ok p) ∧ peer_at c' out inp.
Proof.
  intros Hp Hc. destruct (recv_exact_at c out (to_be16 p) inp 2 Hc eq_refl) as (c' & E & Hc').
  exists c'. split; [|done]. unfold read_be_port. rewrite (talk_bind_ok _ _ _ _ _ E).
  cbn [to_be16]. by rewrite from_to_be16.
Qed.

Lemma read_socks_addr_at c out a p inp :
  addr_ok a → p < 65536 → peer_at c out (encode_addr a ++ to_be16 p ++ inp) →
  ∃ c', read_socks_addr (addr_type a) c = (c', Ok (mkHostPort (addr_host a) p)) ∧ peer_at c' out inp.
Proof.
  intros Ha Hp Hc. unfold read_socks_addr. destruct a as [ip|ip|name]; cbn [addr_type encode_addr] in *.
  - change (b2n (n2b 1)) with 1. cbv beta iota.
    destruct (recv_exact_at _ _ _ _ 4 Hc eq_refl) as (c1 & E1 & Hc1).
    destruct (read_be_port_at _ _ _ _ Hp Hc1) as (c2 & E2 & Hc2).
    exists c2. split; [|done].
    rewrite (talk_bind_ok _ _ _ _ _ E1), (talk_bind_ok _ _ _ _ _ E2).
    by rewrite v4_from_v4_octets.
  - change (b2n (n2b 4)) with 4. cbv beta iota.
    destruct (recv_exact_at _ _ _ _ 16 Hc (length_v6_octets ip)) as (c1 & E1 & Hc1).
    destruct (read_be_port_at _ _ _ _ Hp Hc1) as (c2 & E2 & Hc2).
    exists c2. split; [|done].
    rewrite (talk_bind_ok _ _ _ _ _ E1), (talk_bind_ok _ _ _ _ _ E2).
    by rewrite v6_from_v6_octets.
  - change (b2n (n2b 3)) with 3. cbv beta iota. simpl in Ha.
    destruct (recv_exact_at _ _ [as_u8 (len name)] (name ++ to_be16 p ++ inp) 1 Hc eq_refl)
      as (c1 & E1 & Hc1).
    destruct (recv_exact_at _ _ name _ (length name) Hc1 eq_refl) as (c2 & E2 & Hc2).
    destruct (read_be_port_at _ _ _ _ Hp Hc2) as (c3 & E3 & Hc3).
    exists c3. split; [|done]. rewrite (talk_bind_ok _ _ _ _ _ E1).
    rewrite b2n_as_u8, N.mod_small, Nat2N.id by done.
    by rewrite (talk_bind_ok _ _ _ _ _ E2), (talk_bind_ok _ _ _ _ _ E3).
Qed.

(** The request a conforming client sends after the greeting. *)
Definition socks_request (methods : bytes) (cmd : byte) (a : SocksAddr) (p : N) : bytes :=
  (n2b 5 :: as_u8 (len methods) :: methods) ++ (n2b 5 :: cmd :: n2b 0 :: addr_type a :: encode_addr a)
  ++ to_be16 p.

(** C38: the handshake accepts every well-formed request for an IPv4, IPv6 or
    named target after any list of methods, returns the target of a CONNECT and
    nothing of a UDP ASSOCIATE's, answers the greeting with "no authentication",
    consumes exactly the request, and refuses any other command with the reply
    code 7. *)
Theorem socks_handshake_spec c out methods cmd a p inp :
  len methods < 256 → addr_ok a → p < 65536 →
  peer_at c out (socks_request methods cmd a p ++ inp) →
  ∃ c', socks_handshake c =
    (c', match b2n cmd with
         | 1 => Ok (Connect (mkHostPort (addr_host a) p))
         | 3 => Ok UdpAssociate
         | n => Err (str "Unsupported SOCKS command: " ++ fmt_dec n)
         end) ∧
    peer_at c' (out ++ octets [5; 0] ++
                (if decide (cmd = n2b 1 ∨ cmd = n2b 3) then [] else octets [5; 7])) inp.
Proof.
  intros Hm Ha Hp Hc. unfold socks_request in Hc. rewrite <-!app_assoc in Hc.
  destruct (recv_exact_at c out [n2b 5; as_u8 (len methods)] _ 2 Hc eq_refl) as (c1 & E1 & Hc1).
  destruct (recv_exact_at _ _ methods _ (length methods) Hc1 eq_refl) as (c2 & E2 & Hc2).
  destruct (send_all_at _ _ _ (octets [5; 0]) Hc2) as (c3 & E3 & Hc3).
  destruct (recv_exact_at _ _ [n2b 5; cmd; n2b 0; addr_type a] (encode_addr a ++ to_be16 p ++ inp)
    4 Hc3 eq_refl) as (c4 & E4 & Hc4).
  destruct (read_socks_addr_at _ _ a p inp Ha Hp Hc4) as (c5 & E5 & Hc5).
  unfold socks_handshake. rewrite (talk_bind_ok _ _ _ _ _ E1).
  change (b2n (n2b 5)) with 5. rewrite decide_False by (intros Hn; by apply Hn).
  rewrite b2n_as_u8, N.mod_small, Nat2N.id by done.
  rewrite (talk_bind_ok _ _ _ _ _ E2), (talk_bind_ok _ _ _ _ _ E3), (talk_bind_ok _ _ _ _ _ E4).
  rewrite (talk_bind_ok _ _ _ _ _ E5).
  assert (∀ n, b2n cmd = n → cmd = n2b n) as Hcmd by (intros n <-; by rewrite n2b_b2n).
  destruct (decide (b2n cmd = 1)) as [E|Hn1].
  { rewrite E. apply Hcmd in E. rewrite decide_True, app_nil_r by auto. by exists c5. }
  destruct (decide (b2n cmd = 3)) as [E|Hn3].
  { rewrite E. apply Hcmd in E. rewrite decide_True, app_nil_r by auto. by exists c5. }
  rewrite decide_False by (intros [->| ->]; done).
  destruct (send_all_at _ _ _ (octets [5; 7]) Hc5) as (c6 & E6 & Hc6).
  exists c6. rewrite app_assoc. split; [|done].
  destruct (b2n cmd) as [|[[]|[]|]]; try done; by rewrite (talk_bind_ok _ _ _ _ _ E6).
Qed.

(** Anything else is refused: another protocol version before a byte is
    answered, an unknown address type with the reply code 8, and a connection that
    ends early with an error. *)
Theorem socks_handshake_refuses c out inp ver n methods cmd rsv atyp :
  (peer_at c out (ver :: n :: inp) → ver ≠ n2b 5 →
   ∃ c' e, socks_handshake c = (c', Err e) ∧ peer_at c' out inp) ∧
  (peer_at c out (n2b 5 :: as_u8 (len methods) :: methods ++ n2b 5 :: cmd :: rsv :: atyp :: inp) →
   len methods < 256 → atyp ≠ n2b 1 → atyp ≠ n2b 3 → atyp ≠ n2b 4 →
   ∃ c' e, socks_handshake c = (c', Err e) ∧ peer_at c' (out ++ octets [5; 0; 5; 8]) inp) ∧
  (peer_at c out inp → (length inp < 2)%nat → ∃ e, socks_handshake c = (c, Err e)).
Proof.
  split_and!.
  - intros Hc Hv. destruct (recv_exact_at c out [ver; n] inp 2 Hc eq_refl) as (c1 & E1 & Hc1).
    exists c1. eexists. split; [|done]. unfold socks_handshake.
    rewrite (talk_bind_ok _ _ _ _ _ E1). rewrite decide_True; [done|].
    intros E. apply Hv. by rewrite <-(n2b_b2n ver), E.
  - intros Hc Hm H1 H3 H4.
    destruct (recv_exact_at c out [n2b 5; as_u8 (len methods)] _ 2 Hc eq_refl) as (c1 & E1 & Hc1).
    destruct (recv_exact_at _ _ methods _ (length methods) Hc1 eq_refl) as (c2 & E2 & Hc2).
    destruct (send_all_at _ _ _ (octets [5; 0]) Hc2) as (c3 & E3 & Hc3).
    destruct (recv_exact_at _ _ [n2b 5; cmd; rsv; atyp] inp 4 Hc3 eq_refl) as (c4 & E4 & Hc4).
    destruct (send_all_at _ _ _ (octets [5; 8]) Hc4) as (c5 & E5 & Hc5).
    exists c5. eexists. split; [|by rewrite <-app_assoc in Hc5].
    unfold socks_handshake. rewrite (talk_bind_ok _ _ _ _ _ E1).
    change (b2n (n2b 5)) with 5. rewrite decide_False by (intros Hn; by apply Hn).
    rewrite b2n_as_u8, N.mod_small, Nat2N.id by done.
    rewrite (talk_bind_ok _ _ _ _ _ E2), (talk_bind_ok _ _ _ _ _ E3), (talk_bind_ok _ _ _ _ _ E4).
    assert (read_socks_addr atyp c4 =
      (c5, Err (str "Unsupported address type: " ++ fmt_dec (b2n atyp)))) as Er;
      [|by rewrite (talk_bind_err _ _ _ _ _ Er)].
    unfold read_socks_addr.
    assert (∀ k, atyp ≠ n2b k → b2n atyp ≠ k) as Hk by (intros k Hne <-; by rewrite n2b_b2n in Hne).
    apply Hk in H1, H3, H4.
    destruct (b2n atyp) as [|[[]|[[]|[]|]|]]; try done; by rewrite (talk_bind_ok _ _ _ _ _ E5).
  - intros Hc Hl. destruct (recv_exact_short c out inp 2 Hc Hl) as (e & E). exists e.
    unfold socks_handshake. by rewrite (talk_bind_err _ _ _ _ _ E).
Qed.

End handshake_spec.

Definition demo_request : bytes := socks_request (octets [0]) (n2b 1) (AddrName (str "a.org")) 443.

Lemma socks_handshake_spec_witness :
  ∃ c', @socks_handshake memory_streams ([], demo_request ++ str "GET") =
          (c', Ok (Connect (mkHostPort (str "a.org") 443))) ∧
        @peer_at memory_streams c' (octets [5; 0]) (str "GET").
Proof.
  refine (@socks_handshake_spec memory_streams ([], demo_request ++ str "GET") [] (octets [0]) (n2b 1)
    (AddrName (str "a.org")) 443 (str "GET") _ _ _ _); by vm_compute.
Defined.

Lemma socks_handshake_refuses_witness :
  ∃ c' e, @socks_handshake memory_streams ([], octets [4; 1]) = (c', Err e) ∧
          @peer_at memory_streams c' [] [].
Proof.
  refine (proj1 (@socks_handshake_refuses memory_streams ([], octets [4; 1]) [] [] (n2b 4) (n2b 1)
    [] (n2b 0) (n2b 0) (n2b 0)) _ _); by vm_compute.
Defined.
