(* ===== verification/Proxy.v ===== *)
(** * Proxy: the client's SOCKS5 UDP proxy ([src/common/proxy.rs])

    The proxy URL, the UDP ASSOCIATE handshake with the proxy, the datagram header
    on both directions, and the UDP socket quinn drives: what it sends and which
    received datagrams it delivers. *)

From S2P Require Import Prelude Text NetAddr Counted State Framing Socks.

(** ** Configuration *)

Inductive ProxyConfig := ProxySocks5 (addr : bytes) (auth : option (bytes * bytes)).

Definition fmt_proxy (p : ProxyConfig) : bytes :=
  match p with
  | ProxySocks5 addr auth =>
      match auth with
      | Some _ => str "socks5://<auth>@" ++ addr
      | None => str "socks5://" ++ addr
      end
  end.

Definition proxy_from_str (s : bytes) : result bytes ProxyConfig :=
  after_scheme ←
    match strip_prefix (str "socks5://") s with
    | Some rest => Ok rest
    | None =>
        match strip_prefix (str "socks://") s with
        | Some rest => Ok rest
        | None =>
            if contains_str (str "://") s then
              Err (str "unsupported proxy scheme in `" ++ s ++
                   str "`: only socks5:// is supported in this release")
            else Ok s
        end
    end;
  '(auth, addr) ←
    match rsplit_once "@"%char after_scheme with
    | Some (creds, addr) =>
        '(user, pass) ← ok_or (split_once ":"%char creds)
          (str "malformed proxy auth in `" ++ s ++ str "` (expected user:pass@host:port)");
        Ok (Some (user, pass), addr)
    | None => Ok (None, after_scheme)
    end;
  if decide (addr = []) then Err (str "proxy address is empty in `" ++ s ++ str "`")
  else if negb (contains_char ":"%char addr) then
    Err (str "proxy address `" ++ addr ++ str "` is missing a port (expected host:port)")
  else Ok (ProxySocks5 addr auth).

(** The URL of a configuration. *)
Definition proxy_url (addr : bytes) (auth : option (bytes * bytes)) : bytes :=
  str "socks5://" ++ match auth with
                     | Some (user, pass) => user ++ ":"%char :: pass ++ "@"%char :: addr
                     | None => addr
                     end.

(** A proxy URL is read back as the address and the credentials it was made
    of, whatever characters the password has (colons and at-signs included). *)
Theorem proxy_from_str_url addr auth :
  ("@"%char ∉ addr) → ":"%char ∈ addr →
  (∀ user pass, auth = Some (user, pass) → ":"%char ∉ user) →
  proxy_from_str (proxy_url addr auth) = Ok (ProxySocks5 addr auth).
Proof.
  intros Hat Hcol Huser. unfold proxy_from_str, proxy_url. rewrite strip_prefix_app.
  cbn [mbind result_bind].
  assert (addr ≠ []) by (intros ->; by apply not_elem_of_nil in Hcol). assert (contains_char ":"%char addr = true) as Hc
    by (by apply bool_decide_eq_true).
  destruct auth as [[user pass]|].
  - assert (user ++ ":"%char :: pass ++ "@"%char :: addr =
      (user ++ ":"%char :: pass) ++ "@"%char :: addr) as -> by (by rewrite <-app_assoc).
    rewrite rsplit_once_app by done.
    rewrite (proj2 (split_once_Some ":"%char _ user pass)) by (split; [done|by eapply Huser]).
    cbn [ok_or mbind result_bind]. by rewrite decide_False, Hc.
  - rewrite (proj2 (rsplit_once_None _ _)) by done. cbn [mbind result_bind].
    by rewrite decide_False, Hc.
Qed.

Lemma proxy_from_str_url_witness :
  proxy_from_str (str "socks5://bob:p@ss:word@10.0.0.1:1080") =
    Ok (ProxySocks5 (str "10.0.0.1:1080") (Some (str "bob", str "p@ss:word"))).
Proof.
  refine (proxy_from_str_url (str "10.0.0.1:1080") (Some (str "bob", str "p@ss:word")) _ _ _).
  - by apply (bool_decide_unpack _).
  - by apply (bool_decide_unpack _).
  - intros user pass [= <- <-]. by apply (bool_decide_unpack _).
Defined.

(** ** Association *)

Definition socks5_reply_meaning (rep : byte) : bytes :=
  match b2n rep with
  | 0x00 => str "succeeded"
  | 0x01 => str "general SOCKS server failure"
  | 0x02 => str "connection not allowed by ruleset"
  | 0x03 => str "network unreachable"
  | 0x04 => str "host unreachable"
  | 0x05 => str "connection refused"
  | 0x06 => str "TTL expired"
  | 0x07 => str "command not supported"
  | 0x08 => str "address type not supported"
  | _ => str "unknown"
  end.

Section association.
Context `{ByteStreams}.

Definition socks5_userpass_auth (user pass : bytes) : talk unit :=
  if (255 <? len user) || (255 <? len pass) then
    fail (str "SOCKS5 user/pass auth: username or password exceeds 255 bytes")
  else
    _ ← send_all (n2b 0x01 :: as_u8 (len user) :: user ++ as_u8 (len pass) :: pass);
    reply ← recv_exact 2;
    match reply with
    | [ver; status] =>
        if decide (b2n ver ≠ 0x01) then
          fail (str "SOCKS5 user/pass reply has bad sub-negotiation version 0x" ++ fmt_hex02 ver)
        else if decide (b2n status ≠ 0x00) then
          fail (str "SOCKS5 proxy rejected user/pass credentials (status 0x" ++ fmt_hex02 status ++
                str ")")
        else mret ()
    | _ => fail []
    end.

(** The authentication method the proxy selected. *)
Definition negotiate (auth : option (bytes * bytes)) (method : byte) : talk unit :=
  match b2n method with
  | 0x00 => mret ()
  | 0x02 =>
      match auth with
      | Some (user, pass) => socks5_userpass_auth user pass
      | None => fail (str "SOCKS5 proxy demanded user/pass auth but none was configured")
      end
  | 0xFF => fail (str "SOCKS5 proxy refused all offered auth methods")
  | _ => fail (str "SOCKS5 proxy selected unsupported auth method 0x" ++ fmt_hex02 method)
  end.

(** [establish_socks5_udp_associate] on the connected control connection;
    [peer_addr] is the outcome of [tcp.peer_addr()]. The result is the relay. *)
Definition establish_socks5_udp_associate (auth : option (bytes * bytes))
    (peer_addr : result bytes SocketAddr) : talk SocketAddr :=
  _ ← send_all (octets (match auth with
                        | Some _ => [0x05; 0x02; 0x00; 0x02]
                        | None => [0x05; 0x01; 0x00]
                        end));
  method_reply ← recv_exact 2;
  match method_reply with
  | [ver; method] =>
      if decide (b2n ver ≠ 0x05) then
        fail (str "SOCKS5 proxy returned bad version byte 0x" ++ fmt_hex02 ver)
      else
        _ ← negotiate auth method;
        _ ← send_all (octets [0x05; 0x03; 0x00; 0x01; 0; 0; 0; 0; 0; 0]);
        head ← recv_exact 4;
        match head with
        | [ver; rep; _; atyp] =>
            if decide (b2n ver ≠ 0x05) then
              fail (str "SOCKS5 reply has bad version byte 0x" ++ fmt_hex02 ver)
            else if decide (b2n rep ≠ 0x00) then
              fail (str "SOCKS5 UDP ASSOCIATE failed with REP=0x" ++ fmt_hex02 rep ++ str " (" ++
                    socks5_reply_meaning rep ++ str ")")
            else
              bnd_ip ←
                match b2n atyp with
                | 0x01 => o ← recv_exact 4; lift (ok_or (IpV4 <$> v4_from_octets o) [])
                | 0x04 => o ← recv_exact 16; lift (ok_or (IpV6 <$> v6_from_octets o) [])
                | 0x03 =>
                    l ← recv_exact 1;
                    _ ← recv_exact (match l with [n] => N.to_nat (b2n n) | _ => 0%nat end);
                    lift (sa_ip <$> peer_addr)
                | _ => fail (str "SOCKS5 reply has unsupported ATYP 0x" ++ fmt_hex02 atyp)
                end;
              bnd_port ← read_be_port;
              bnd_ip ← if is_unspecified bnd_ip then lift (sa_ip <$> peer_addr) else mret bnd_ip;
              mret (socket_addr_new bnd_ip bnd_port)
        | _ => fail []
        end
  | _ => fail []
  end.

End association.

(** ** Datagrams *)

Definition SOCKS5_UDP_HEADER_IPV4_LEN : nat := 10.
Definition SOCKS5_UDP_HEADER_IPV6_LEN : nat := 22.

Definition wrap_socks5_udp (target : SocketAddr) (payload : bytes) : bytes :=
  octets [0x00; 0x00; 0x00] ++
  match target with
  | SAV4 v4 => n2b 0x01 :: v4_octets (sa4_ip v4) ++ to_be16 (sa4_port v4)
  | SAV6 v6 => n2b 0x04 :: v6_octets (sa6_ip v6) ++ to_be16 (sa6_port v6)
  end ++ payload.

(** The source, the length of the payload, and the buffer with the payload moved
    to its start ([copy_within] leaves the last bytes as they were). *)
Definition unwrap_socks5_udp_in_place (buf : bytes) : option (SocketAddr * nat * bytes) :=
  if (length buf <? 4)%nat then None
  else
    match buf with
    | r0 :: r1 :: frag :: atyp :: rest =>
        if decide (b2n r0 ≠ 0 ∨ b2n r1 ≠ 0) then None
        else if decide (b2n frag ≠ 0) then None
        else
          '(src, header_len) ←
            match b2n atyp with
            | 0x01 =>
                if (length buf <? SOCKS5_UDP_HEADER_IPV4_LEN)%nat then None
                else match rest with
                     | a :: b :: c :: d :: hi :: lo :: _ =>
                         Some (socket_addr_new (IpV4 (mkV4 a b c d)) (from_be16 hi lo),
                               SOCKS5_UDP_HEADER_IPV4_LEN)
                     | _ => None
                     end
            | 0x04 =>
                if (length buf <? SOCKS5_UDP_HEADER_IPV6_LEN)%nat then None
                else match v6_from_octets (take 16 rest), drop 16 rest with
                     | Some ip, hi :: lo :: _ =>
                         Some (socket_addr_new (IpV6 ip) (from_be16 hi lo),
                               SOCKS5_UDP_HEADER_IPV6_LEN)
                     | _, _ => None
                     end
            | _ => None
            end;
          let payload_len := (length buf - header_len)%nat in
          Some (src, payload_len, drop header_len buf ++ drop payload_len buf)
    | _ => None
    end.

(** ** The socket quinn drives *)

Record Socks5UdpSocket := mkSocks5UdpSocket { relay : SocketAddr; target : SocketAddr }.

(** The local address [create_socks5_proxied_socket] binds. *)
Definition proxied_bind_addr (relay : SocketAddr) : SocketAddr :=
  match relay with
  | SAV4 _ => socket_addr_new (IpV4 v4_unspecified) 0
  | SAV6 _ => default relay (parse_socket (str "[::]:0"))
  end.

(** [try_send]: the datagram for the UDP socket and where it goes. *)
Definition try_send (s : Socks5UdpSocket) (destination : SocketAddr) (contents : bytes) :
    result bytes (bytes * SocketAddr) :=
  if decide (destination ≠ target s) then
    Err (str "Socks5UdpSocket received transmit for " ++ fmt_socket destination ++
         str " but relay is bound to " ++ fmt_socket (target s))
  else Ok (wrap_socks5_udp (target s) contents, relay s).

(** [RecvMeta], as far as it is filled in, and the contents of the buffer. *)
Record RecvMeta := mkRecvMeta { rm_addr : SocketAddr; rm_len : nat; rm_buf : bytes }.

(** [poll_recv]: [queue] is what the successive polls of the UDP socket give, an
    empty queue being [Pending]; a datagram longer than the buffer is cut. *)
Fixpoint poll_recv {E} (s : Socks5UdpSocket) (cap : nat) (queue : list (result E (SocketAddr * bytes))) :
    Poll (result E RecvMeta) * list (result E (SocketAddr * bytes)) :=
  match queue with
  | [] => (Pending, [])
  | Err e :: queue' => (Ready (Err e), queue')
  | Ok (src, datagram) :: queue' =>
      if decide (src ≠ relay s) then poll_recv s cap queue'
      else
        match unwrap_socks5_udp_in_place (take cap datagram) with
        | None => poll_recv s cap queue'
        | Some (inner_src, payload_len, buf) =>
            if decide (inner_src ≠ target s) then poll_recv s cap queue'
            else (Ready (Ok (mkRecvMeta (target s) payload_len buf)), queue')
        end
  end.

(** What quinn may ask of the socket: one datagram at a time, in both directions. *)
Definition max_transmit_segments : nat := 1.
Definition max_receive_segments : nat := 1.
Definition may_fragment : bool := true.

(** ** The control connection

    [TcpKeepalive]: a task that holds both halves of the control connection and reads
    from it until it ends; the drop of the socket aborts the task. *)
Inductive Keepalive := Draining | ControlEnded | KeepaliveAborted.

Definition keepalive_read (r : result bytes nat) (k : Keepalive) : Keepalive :=
  match k, r with
  | Draining, (Ok O | Err _) => ControlEnded
  | k, _ => k
  end.

(** [Drop for TcpKeepalive] *)
Definition keepalive_drop (k : Keepalive) : Keepalive :=
  match k with Draining => KeepaliveAborted | k => k end.

(** The halves are held. *)
Definition control_open (k : Keepalive) : bool := match k with Draining => true | _ => false end.

(** What happens to a proxied socket: its keepalive reads, quinn sends, the endpoint is
    dropped. *)
Inductive ProxyEvent :=
| ControlRead (r : result bytes nat)
| Transmit (destination : SocketAddr) (contents : bytes)
| SocketDropped.

Fixpoint proxy_run (s : Socks5UdpSocket) (es : list ProxyEvent) (k : Keepalive) (alive : bool) :
    Keepalive * list (result bytes (bytes * SocketAddr)) :=
  match es with
  | [] => (k, [])
  | ControlRead r :: es => proxy_run s es (keepalive_read r k) alive
  | Transmit d c :: es =>
      let '(k, out) := proxy_run s es k alive in (k, (if alive then [try_send s d c] else []) ++ out)
  | SocketDropped :: es => proxy_run s es (keepalive_drop k) false
  end.

Definition control_lost (e : ProxyEvent) : bool :=
  match e with ControlRead (Ok O | Err _) | SocketDropped => true | _ => false end.

(** The datagrams quinn sends before the endpoint is dropped. *)
Fixpoint transmits (es : list ProxyEvent) : list (SocketAddr * bytes) :=
  match es with
  | [] | SocketDropped :: _ => []
  | Transmit d c :: es => (d, c) :: transmits es
  | ControlRead _ :: es => transmits es
  end.

Lemma proxy_run_closed s es : ∀ k alive,
  control_open k = false → control_open (proxy_run s es k alive).1 = false.
Proof.
  induction es as [|[r|d c|] es IH]; intros k alive Hk; cbn [proxy_run]; [done|..].
  - apply IH. by destruct k.
  - specialize (IH k alive Hk). by destruct (proxy_run s es k alive).
  - apply IH. by destruct k.
Qed.

Lemma proxy_run_dropped s es : ∀ k, (proxy_run s es k false).2 = [].
Proof.
  induction es as [|[r|d c|] es IH]; intros k; cbn [proxy_run]; [done|by apply IH| |by apply IH].
  specialize (IH k). destruct (proxy_run s es k false). by cbn in *.
Qed.

(** The control connection of the proxy is held exactly as long as the socket lives
    and the proxy keeps it open, whatever the proxy sends on it; and its end changes
    nothing for quinn: every datagram is still wrapped and sent to a relay that the proxy
    may have taken away. *)
Theorem control_connection s es :
  (control_open (proxy_run s es Draining true).1 = true ↔ Forall (λ e, control_lost e = false) es) ∧
  ∀ k, (proxy_run s es k true).2 = (λ dc, try_send s dc.1 dc.2) <$> transmits es.
Proof.
  split.
  - induction es as [|e es IH]; [done|]. rewrite Forall_cons. destruct e as [[[|n]|err]|d c|]; cbn [proxy_run keepalive_read keepalive_drop control_lost].
    + rewrite proxy_run_closed by done. intuition congruence.
    + rewrite IH. intuition.
    + rewrite proxy_run_closed by done. intuition congruence.
    + destruct (proxy_run s es Draining true) as [k out]. cbn in *. rewrite IH. intuition.
    + rewrite proxy_run_closed by done. intuition congruence.
  - induction es as [|[r|d c|] es IH]; intros k; cbn [proxy_run transmits]; [done|by apply IH| |apply proxy_run_dropped].
    specialize (IH k). destruct (proxy_run s es k true) as [k' out]. cbn in *. by rewrite IH.
Qed.

(** ** The association *)

Definition demo_peer : SocketAddr := socket_addr_new (IpV4 v4_localhost) 1080.

Definition assoc_reply (a : SocksAddr) (p : N) : bytes :=
  octets [5; 0; 0] ++ addr_type a :: encode_addr a ++ to_be16 p.

(** The relay a reply designates: the proxy's own address stands in for a name and
    for the unspecified address. *)
Definition relay_ip (peer : SocketAddr) (a : SocksAddr) : IpAddr :=
  let ip := match a with AddrV4 ip => IpV4 ip | AddrV6 ip => IpV6 ip | AddrName _ => sa_ip peer end in
  if is_unspecified ip then sa_ip peer else ip.

Definition userpass_request (auth : option (bytes * bytes)) : bytes :=
  match auth with
  | Some (user, pass) => n2b 1 :: as_u8 (len user) :: user ++ as_u8 (len pass) :: pass
  | None => []
  end.

Definition credentials_fit (auth : option (bytes * bytes)) : Prop :=
  match auth with Some (user, pass) => len user ≤ 255 ∧ len pass ≤ 255 | None => True end.

Section association_spec.
Context `{ByteStreams}.

Lemma userpass_at c out user pass inp :
  len user ≤ 255 → len pass ≤ 255 → peer_at c out (octets [1; 0] ++ inp) →
  ∃ c', socks5_userpass_auth user pass c = (c', Ok ()) ∧
        peer_at c' (out ++ userpass_request (Some (user, pass))) inp.
Proof.
  intros Hu Hp Hc. unfold socks5_userpass_auth.
  replace ((255 <? len user) || (255 <? len pass)) with false by lia.
  destruct (send_all_at _ _ _ (userpass_request (Some (user, pass))) Hc) as (c1 & E1 & Hc1).
  destruct (recv_exact_at _ _ (octets [1; 0]) inp 2 Hc1 eq_refl) as (c2 & E2 & Hc2).
  exists c2. split; [|done].
  by rewrite (talk_bind_ok _ _ _ _ _ E1), (talk_bind_ok _ _ _ _ _ E2).
Qed.

Lemma negotiate_at c out auth (asked : bool) inp :
  (asked = true → is_Some auth) → credentials_fit auth →
  peer_at c out ((if asked then octets [1; 0] else []) ++ inp) →
  ∃ c', negotiate auth (n2b (if asked then 2 else 0)) c = (c', Ok ()) ∧
        peer_at c' (out ++ (if asked then userpass_request auth else [])) inp.
Proof.
  intros Ha Hfit Hc. destruct asked.
  - destruct (Ha eq_refl) as [[user pass] ->]. destruct Hfit. by apply userpass_at.
  - exists c. by rewrite app_nil_r.
Qed.

Lemma assoc_addr_at c out peer a inp :
  addr_ok a → peer_at c out (encode_addr a ++ inp) →
  ∃ c', (match b2n (addr_type a) with
         | 0x01 => o ← recv_exact 4; lift (ok_or (IpV4 <$> v4_from_octets o) [])
         | 0x04 => o ← recv_exact 16; lift (ok_or (IpV6 <$> v6_from_octets o) [])
         | 0x03 =>
             l ← recv_exact 1;
             _ ← recv_exact (match l with [n] => N.to_nat (b2n n) | _ => 0%nat end);
             lift (sa_ip <$> (Ok peer : result bytes SocketAddr))
         | _ => fail (str "SOCKS5 reply has unsupported ATYP 0x" ++ fmt_hex02 (addr_type a))
         end) c =
        (c', Ok (match a with AddrV4 ip => IpV4 ip | AddrV6 ip => IpV6 ip | AddrName _ => sa_ip peer end))
        ∧ peer_at c' out inp.
Proof.
  intros Ha Hc. destruct a as [ip|ip|name]; cbn [addr_type encode_addr] in *.
  - change (b2n (n2b 1)) with 1. cbv beta iota.
    destruct (recv_exact_at _ _ _ _ 4 Hc eq_refl) as (c1 & E1 & Hc1). exists c1. split; [|done].
    rewrite (talk_bind_ok _ _ _ _ _ E1). by rewrite v4_from_v4_octets.
  - change (b2n (n2b 4)) with 4. cbv beta iota.
    destruct (recv_exact_at _ _ _ _ 16 Hc (length_v6_octets ip)) as (c1 & E1 & Hc1).
    exists c1. split; [|done]. rewrite (talk_bind_ok _ _ _ _ _ E1). by rewrite v6_from_v6_octets.
  - change (b2n (n2b 3)) with 3. cbv beta iota. simpl in Ha.
    destruct (recv_exact_at _ _ [as_u8 (len name)] (name ++ inp) 1 Hc eq_refl) as (c1 & E1 & Hc1).
    destruct (recv_exact_at _ _ name _ (length name) Hc1 eq_refl) as (c2 & E2 & Hc2).
    exists c2. split; [|done]. rewrite (talk_bind_ok _ _ _ _ _ E1).
    rewrite b2n_as_u8, N.mod_small, Nat2N.id by done. by rewrite (talk_bind_ok _ _ _ _ _ E2).
Qed.

(** C40: against a proxy that selects no authentication, or asks for and accepts
    the configured credentials, the association succeeds for every kind of bound
    address: the client sends the greeting, the credentials only when asked, and
    the request, reads exactly the replies, and uses the bound address, or the
    proxy's own when the reply names a host or the unspecified address. *)
Theorem associate_spec c out auth asked peer a p inp :
  (asked = true → is_Some auth) → credentials_fit auth → addr_ok a → p < 65536 →
  peer_at c out (octets [5; if asked then 2 else 0] ++ (if asked then octets [1; 0] else []) ++
                 assoc_reply a p ++ inp) →
  ∃ c', establish_socks5_udp_associate auth (Ok peer) c =
          (c', Ok (socket_addr_new (relay_ip peer a) p)) ∧
        peer_at c' (out ++ octets (match auth with Some _ => [5; 2; 0; 2] | None => [5; 1; 0] end) ++
                    (if asked then userpass_request auth else []) ++
                    octets [5; 3; 0; 1; 0; 0; 0; 0; 0; 0]) inp.
Proof.
  intros Hask Hfit Ha Hp Hc. unfold establish_socks5_udp_associate.
  set (greeting := octets (match auth with Some _ => [5; 2; 0; 2] | None => [5; 1; 0] end)).
  destruct (send_all_at _ _ _ greeting Hc) as (c1 & E1 & Hc1).
  rewrite (talk_bind_ok _ _ _ _ _ E1).
  destruct (recv_exact_at _ _ (octets [5; if asked then 2 else 0]) _ 2 Hc1 eq_refl) as (c2 & E2 & Hc2).
  rewrite (talk_bind_ok _ _ _ _ _ E2). cbn [octets map].
  change (b2n (n2b 5)) with 5. rewrite decide_False by (intros Hn; by apply Hn).
  destruct (negotiate_at _ _ auth asked _ Hask Hfit Hc2) as (c3 & E3 & Hc3).
  rewrite (talk_bind_ok _ _ _ _ _ E3).
  destruct (send_all_at _ _ _ (octets [5; 3; 0; 1; 0; 0; 0; 0; 0; 0]) Hc3) as (c4 & E4 & Hc4).
  cbn [octets map] in E4. rewrite (talk_bind_ok _ _ _ _ _ E4).
  set (out4 := (((out ++ _) ++ _) ++ _)) in Hc4.
  assert (peer_at c4 out4 ([n2b 5; n2b 0; n2b 0; addr_type a] ++ encode_addr a ++ to_be16 p ++ inp))
    as Hc4'.
  { unfold assoc_reply in Hc4. rewrite <-!app_assoc in Hc4. cbn [app octets map] in *.
    by rewrite <-!app_assoc in Hc4. }
  destruct (recv_exact_at _ _ _ _ 4 Hc4' eq_refl) as (c5 & E5 & Hc5).
  rewrite (talk_bind_ok _ _ _ _ _ E5). change (b2n (n2b 5)) with 5. change (b2n (n2b 0)) with 0.
  rewrite !decide_False by (intros Hn; by apply Hn).
  destruct (assoc_addr_at _ _ peer a _ Ha Hc5) as (c6 & E6 & Hc6).
  rewrite (talk_bind_ok _ _ _ _ _ E6).
  destruct (read_be_port_at _ _ _ _ Hp Hc6) as (c7 & E7 & Hc7).
  rewrite (talk_bind_ok _ _ _ _ _ E7). exists c7. split.
  - unfold relay_ip. by destruct (is_unspecified _).
  - unfold out4 in Hc7. by rewrite <-!app_assoc in Hc7.
Qed.

End association_spec.

Lemma associate_spec_witness :
  ∃ c', @establish_socks5_udp_associate memory_streams (Some (str "u", str "p")) (Ok demo_peer)
          ([], octets [5; 2; 1; 0] ++ assoc_reply (AddrV4 v4_unspecified) 9000) =
        (c', Ok (socket_addr_new (IpV4 v4_localhost) 9000)).
Proof.
  destruct (@associate_spec memory_streams
    ([], octets [5; 2; 1; 0] ++ assoc_reply (AddrV4 v4_unspecified) 9000) [] (Some (str "u", str "p"))
    true demo_peer (AddrV4 v4_unspecified) 9000 []) as (c' & E & _);
    [by eexists|by vm_compute|done|done|by vm_compute|]. by exists c'.
Defined.

(** ** What the socket sends and delivers *)

Lemma unwrap_wrap_buf t payload :
  sa_port t < 65536 →
  ∃ rest, unwrap_socks5_udp_in_place (wrap_socks5_udp t payload) =
    Some (socket_addr_new (sa_ip t) (sa_port t), length payload, payload ++ rest).
Proof.
  intros Hp. destruct t as [[ip p]|[ip p flow scope]]; simpl in Hp.
  - unfold wrap_socks5_udp, to_be16. destruct ip as [a b c d]. cbn [v4_octets app octets map].
    unfold unwrap_socks5_udp_in_place. cbn [length Nat.ltb Nat.leb].
    rewrite decide_False by (by intros [Hn|Hn]; apply Hn).
    rewrite decide_False by (intros Hn; by apply Hn).
    change (b2n (n2b 1)) with 1. cbv beta iota. cbn [length Nat.ltb Nat.leb].
    cbn [mbind option_bind sa_ip sa_port sa4_ip sa4_port]. rewrite from_to_be16 by done.
    eexists. simpl. by rewrite ?Nat.sub_0_r.
  - unfold wrap_socks5_udp, to_be16. cbn [app octets map sa6_ip sa6_port sa_ip sa_port].
    rewrite <-app_assoc. cbn [app].
    unfold unwrap_socks5_udp_in_place. cbn [length Nat.ltb Nat.leb].
    rewrite decide_False by (by intros [Hn|Hn]; apply Hn).
    rewrite decide_False by (intros Hn; by apply Hn).
    change (b2n (n2b 4)) with 4. cbv beta iota.
    rewrite length_app, length_v6_octets. cbn [length Nat.add Nat.ltb Nat.leb].
    destruct (v6_octets_inv ip (as_u8 (p / 256) :: as_u8 p :: payload)) as [-> ->].
    rewrite from_to_be16 by done. destruct ip as [[][][][][][][][]].
    eexists. simpl. by rewrite ?Nat.sub_0_r.
Qed.

Lemma unwrap_src buf src n buf' :
  unwrap_socks5_udp_in_place buf = Some (src, n, buf') → ∃ ip p, src = socket_addr_new ip p.
Proof.
  unfold unwrap_socks5_udp_in_place. intros Hu.
  destruct (length buf <? 4)%nat; [done|].
  destruct buf as [|r0 [|r1 [|frag [|atyp rest]]]]; try done.
  destruct (decide _); [done|]. destruct (decide _); [done|].
  apply bind_Some in Hu as ([src' hl] & Hsrc & Hu). injection Hu as <- _ _.
  repeat (case_match; try done); injection Hsrc as <- <-;
    [eexists (IpV6 _), _; reflexivity|eexists (IpV4 _), _; reflexivity].
Qed.

(** The payload of a datagram this socket accepts. *)
Definition delivers (s : Socks5UdpSocket) (cap : nat) (d : SocketAddr * bytes) : option RecvMeta :=
  if decide (d.1 = relay s) then
    '(inner_src, n, buf) ← unwrap_socks5_udp_in_place (take cap d.2);
    if decide (inner_src = target s) then Some (mkRecvMeta (target s) n buf) else None
  else None.

Lemma poll_recv_cons {E} s cap src dg (queue : list (result E (SocketAddr * bytes))) :
  poll_recv s cap (Ok (src, dg) :: queue) =
    match delivers s cap (src, dg) with
    | Some m => (Ready (Ok m), queue)
    | None => poll_recv s cap queue
    end.
Proof.
  cbn [poll_recv]. unfold delivers. cbn [fst snd].
  destruct (decide (src = relay s)) as [E1|E1];
    [rewrite (decide_False (P := src ≠ relay s)) by auto|by rewrite (decide_True (P := src ≠ relay s))].
  destruct (unwrap_socks5_udp_in_place _) as [[[inner n] buf]|]; [|done]. cbn [mbind option_bind].
  destruct (decide (inner = target s)) as [E2|E2];
    [by rewrite (decide_False (P := inner ≠ target s)) by auto
    |by rewrite (decide_True (P := inner ≠ target s))].
Qed.

(** A poll delivers the first queued datagram that came from the proxy's relay
    and carries the server's address, tagged as coming from the server; everything
    before it is discarded, everything after it stays queued, and without such a
    datagram the poll is pending. *)
Theorem poll_recv_spec {E} s cap (queue : list (SocketAddr * bytes)) :
  poll_recv s cap (map (@Ok E _) queue) =
    match list_find (λ d, is_Some (delivers s cap d)) queue with
    | Some (i, d) =>
        (match delivers s cap d with Some m => Ready (Ok m) | None => Pending end,
         map Ok (drop (S i) queue))
    | None => (Pending, [])
    end.
Proof.
  induction queue as [|[src dg] queue IH]; [done|]. cbn [map list_find].
  rewrite poll_recv_cons. destruct (delivers s cap (src, dg)) as [m|] eqn:Ed.
  - rewrite decide_True by done. cbn [mbind option_bind]. by rewrite Ed.
  - rewrite decide_False by (by intros [? ?]). rewrite IH.
    by destruct (list_find _ queue) as [[i d]|].
Qed.

(** C37: a datagram the socket sends and the relay returns as it came is delivered
    with its payload as a datagram of the server, and the other datagrams stay queued;
    for a server address with a 16-bit port and without an IPv6 zone or flow label, and
    a receive buffer that holds the wrapped datagram. (With a zone or flow label nothing
    is ever delivered: [scoped_target_never_delivers].) *)
Theorem proxied_round_trip {E} s contents wire dest cap (queue : list (result E (SocketAddr * bytes))) :
  sa_port (target s) < 65536 → target s = socket_addr_new (sa_ip (target s)) (sa_port (target s)) →
  try_send s (target s) contents = Ok (wire, dest) → (length wire ≤ cap)%nat →
  dest = relay s ∧
  ∃ rest, poll_recv s cap (Ok (relay s, wire) :: queue) =
            (Ready (@Ok E _ (mkRecvMeta (target s) (length contents) (contents ++ rest))), queue).
Proof.
  intros Hp Ht Hs Hcap. unfold try_send in Hs. rewrite decide_False in Hs by auto.
  injection Hs as <- <-. split; [done|]. rewrite poll_recv_cons. unfold delivers.
  rewrite decide_True by done. cbn [fst snd]. rewrite take_ge by done.
  destruct (unwrap_wrap_buf (target s) contents Hp) as (rest & ->). exists rest.
  cbn [mbind option_bind]. by rewrite decide_True.
Qed.

(** A server address with an IPv6 zone or flow label never matches the
    address a relayed datagram carries: such a socket delivers nothing at all. *)
Theorem scoped_target_never_delivers {E} s cap (queue : list (SocketAddr * bytes)) :
  target s ≠ socket_addr_new (sa_ip (target s)) (sa_port (target s)) →
  poll_recv s cap (map (@Ok E _) queue) = (Pending, []).
Proof.
  intros Ht. induction queue as [|[src dg] queue IH]; [done|]. cbn [map].
  rewrite poll_recv_cons. replace (delivers s cap (src, dg)) with (@None RecvMeta); [done|].
  unfold delivers. case_decide; [|done].
  destruct (unwrap_socks5_udp_in_place _) as [[[inner n] buf]|] eqn:Eu; [|done].
  cbn [mbind option_bind]. rewrite decide_False; [done|]. intros ->. apply Ht.
  destruct (unwrap_src _ _ _ _ Eu) as (ip & p & ->). by destruct ip.
Qed.

Definition demo_socket : Socks5UdpSocket :=
  mkSocks5UdpSocket (socket_addr_new (IpV4 v4_localhost) 9000)
    (socket_addr_new (IpV4 (mkV4 (n2b 10) (n2b 0) (n2b 0) (n2b 1))) 8080).

Lemma proxied_round_trip_witness :
  relay demo_socket = relay demo_socket ∧
  ∃ rest, poll_recv demo_socket 1500
            [Ok (relay demo_socket, wrap_socks5_udp (target demo_socket) (str "hello"))] =
          (Ready (@Ok unit _ (mkRecvMeta (target demo_socket) 5 (str "hello" ++ rest))), []).
Proof.
  refine (@proxied_round_trip unit demo_socket (str "hello")
    (wrap_socks5_udp (target demo_socket) (str "hello")) (relay demo_socket) 1500 [] _ _ _ _);
    [by vm_compute|by vm_compute|by vm_compute|].
  vm_compute. lia.
Defined.

Definition scoped_socket : Socks5UdpSocket :=
  mkSocks5UdpSocket (relay demo_socket)
    (default (relay demo_socket) (parse_socket (str "[fe80::1%3]:8080"))).

Lemma scoped_target_witness :
  poll_recv scoped_socket 1500
    (map (@Ok unit _) [(relay demo_socket, wrap_socks5_udp (target scoped_socket) (str "hello"))]) =
  (Pending, []).
Proof. apply scoped_target_never_delivers. by vm_compute. Defined.
