(* ===== verification/Client.v ===== *)
(** * Client: reconnection, connecting and reverse conns ([src/client/mod.rs])

    The reconnect loop with its exponential backoff and retry budget, the race of
    the connection attempts over the candidate addresses, the pool of endpoints,
    the table of the declared remotes and the dispatch of conns the server pushes.
    Connecting, running a session and sleeping are what the environment answers:
    the loop is a function of the sequence of those answers. *)

From S2P Require Import Prelude Text NetAddr Remote Framing.

(** ** Backoff *)

(** [Duration] in nanoseconds and its largest value. *)
Abbreviation Duration := N.
Definition DURATION_MAX : Duration := (2 ^ 64 - 1) * 1000000000 + 999999999.

(** [Duration::saturating_mul] *)
Definition saturating_mul (d : Duration) (k : N) : Duration := N.min (d * k) DURATION_MAX.

Definition next_backoff (current max_backoff : Duration) : Duration :=
  N.min (saturating_mul current 2) max_backoff.

Record ReconnectConfig := mkReconnectConfig {
  max_retries : option N;
  initial_backoff : Duration;
  max_backoff : Duration }.

Inductive SessionOutcome := Shutdown | Disconnected (reason : bytes).

(** What one round of the loop meets: the connect attempt is interrupted by the
    shutdown signal, fails, or gives a session that ends; then the sleep runs to
    its end or is interrupted. *)
Inductive ConnectAnswer :=
| ConnectInterrupted
| ConnectFailed (e : bytes)
| SessionRan (outcome : SessionOutcome).

Record Round := mkRound { connect_answer : ConnectAnswer; sleep_interrupted : bool }.

(** The loop's state, and what it has done when the answers run out. *)
Record Loop := mkLoop { attempt : N; backoff : Duration }.

Inductive Progress := Returned (r : result bytes unit) | Waiting (st : Loop).

(** One round from state [st]: the result, and the backoff slept if any. *)
Definition reconnect_round (config : ReconnectConfig) (r : Round) (st : Loop) :
    Progress * option Duration :=
  let after (st : Loop) :=
    let attempt := N.min (attempt st + 1) u32_max in
    match max_retries config with
    | Some max =>
        if max <? attempt then
          (Returned (Err (str "giving up after " ++ fmt_dec (attempt - 1) ++
                          str " reconnect attempt(s)")), None)
        else if sleep_interrupted r then (Returned (Ok ()), Some (backoff st))
        else (Waiting (mkLoop attempt (next_backoff (backoff st) (max_backoff config))),
              Some (backoff st))
    | None =>
        if sleep_interrupted r then (Returned (Ok ()), Some (backoff st))
        else (Waiting (mkLoop attempt (next_backoff (backoff st) (max_backoff config))),
              Some (backoff st))
    end in
  match connect_answer r with
  | ConnectInterrupted => (Returned (Ok ()), None)
  | ConnectFailed _ => after st
  | SessionRan Shutdown => (Returned (Ok ()), None)
  | SessionRan (Disconnected _) => after (mkLoop 0 (initial_backoff config))
  end.

(** [run_with_reconnect]: how far the loop gets with these answers, and the
    backoffs it slept, in order. *)
Fixpoint reconnect_loop (config : ReconnectConfig) (rounds : list Round) (st : Loop) :
    Progress * list Duration :=
  match rounds with
  | [] => (Waiting st, [])
  | r :: rounds' =>
      match reconnect_round config r st with
      | (Returned res, d) => (Returned res, option_list d)
      | (Waiting st', d) =>
          let '(p, ds) := reconnect_loop config rounds' st' in (p, option_list d ++ ds)
      end
  end.

Definition run_with_reconnect (config : ReconnectConfig) (rounds : list Round) :
    Progress * list Duration :=
  reconnect_loop config rounds (mkLoop 0 (initial_backoff config)).

(** A round in which the connection could not be made. *)
Definition failed_round (r : Round) : Prop :=
  (∃ e, connect_answer r = ConnectFailed e) ∧ sleep_interrupted r = false.

(** The backoff of the [k]-th sleep in a row. *)
Definition nth_backoff (config : ReconnectConfig) (k : nat) : Duration :=
  Nat.iter k (λ d, next_backoff d (max_backoff config)) (initial_backoff config).

Lemma reconnect_loop_failing config rounds : ∀ k,
  Forall failed_round rounds →
  (∀ m, max_retries config = Some m → N.of_nat (k + length rounds) ≤ m) →
  N.of_nat (k + length rounds) ≤ u32_max →
  reconnect_loop config rounds (mkLoop (N.of_nat k) (nth_backoff config k)) =
    (Waiting (mkLoop (N.of_nat (k + length rounds)) (nth_backoff config (k + length rounds))),
     map (nth_backoff config) (seq k (length rounds))).
Proof.
  induction rounds as [|r rounds IH]; intros k Hf Hm Hu.
  { simpl. by rewrite Nat.add_0_r. }
  inversion Hf as [|? ? [[e He] Hs] Hf']; subst. cbn [length] in *.
  cbn [reconnect_loop]. unfold reconnect_round. rewrite He, Hs. cbn [attempt backoff].
  assert (N.min (N.of_nat k + 1) u32_max = N.of_nat (S k)) as -> by lia.
  assert (next_backoff (nth_backoff config k) (max_backoff config) = nth_backoff config (S k)) as ->
    by done.
  replace (k + S (length rounds))%nat with (S k + length rounds)%nat in * by lia.
  assert (reconnect_loop config rounds (mkLoop (N.of_nat (S k)) (nth_backoff config (S k))) =
    (Waiting (mkLoop (N.of_nat (S k + length rounds)) (nth_backoff config (S k + length rounds))),
     map (nth_backoff config) (seq (S k) (length rounds)))) as E by (by apply IH).
  destruct (max_retries config) as [m|].
  - replace (m <? N.of_nat (S k)) with false by (specialize (Hm m eq_refl); lia). by rewrite E.
  - by rewrite E.
Qed.

(** C39: with a retry budget of [m], a server that cannot be reached is tried
    [m + 1] times with [m] sleeps in between, the [k]-th sleep being the [k]-th
    backoff, and then the client gives up, reporting [m] attempts. *)
Theorem reconnect_gives_up config m rounds :
  max_retries config = Some m → m < u32_max → length rounds = S (N.to_nat m) →
  Forall failed_round rounds →
  run_with_reconnect config rounds =
    (Returned (Err (str "giving up after " ++ fmt_dec m ++ str " reconnect attempt(s)")),
     map (nth_backoff config) (seq 0 (N.to_nat m))).
Proof.
  intros Hm Hlt Hlen Hf.
  destruct (exists_last (l := rounds)) as (init & r & ->); [by intros ->|].
  rewrite length_app in Hlen. simpl in Hlen. assert (length init = N.to_nat m) as Hinit by lia.
  apply Forall_app in Hf as [Hf Hr]. inversion Hr as [|? ? [[e He] Hs] _]; subst.
  assert (∀ init' st st' ds, reconnect_loop config init' st = (Waiting st', ds) →
    reconnect_loop config (init' ++ [r]) st =
      (let '(p, ds') := reconnect_loop config [r] st' in (p, ds ++ ds'))) as Happ.
  { clear. induction init' as [|r' init' IH]; intros st st' ds E.
    - injection E as <- <-. cbn [app]. by destruct (reconnect_loop config [r] st).
    - cbn [app reconnect_loop] in *. destruct (reconnect_round config r' st) as [[res|st1] d]; [done|].
      destruct (reconnect_loop config init' st1) as [p1 ds1] eqn:E1. injection E as -> <-.
      rewrite (IH _ _ _ E1). destruct (reconnect_round config r st') as [[|] d2];
        cbn; by rewrite app_assoc. }
  unfold run_with_reconnect.
  change (mkLoop 0 (initial_backoff config)) with (mkLoop (N.of_nat 0) (nth_backoff config 0)).
  rewrite (Happ init _ _ _ (reconnect_loop_failing config init 0 Hf
    ltac:(intros m' Hm'; simpl; rewrite Hm in Hm'; injection Hm' as <-; lia) ltac:(simpl; lia))).
  cbn [Nat.add]. rewrite Hinit. cbn [reconnect_loop]. unfold reconnect_round.
  rewrite He, Hs, Hm. cbn [attempt backoff]. rewrite N2Nat.id.
  replace (N.min (m + 1) u32_max) with (m + 1) by lia.
  replace (m <? m + 1) with true by lia. replace (m + 1 - 1) with m by lia.
  by rewrite app_nil_r.
Qed.

(** Without a retry budget the loop never returns an error, whatever it
    meets. *)
Theorem reconnect_never_gives_up config rounds e :
  max_retries config = None → (run_with_reconnect config rounds).1 ≠ Returned (Err e).
Proof.
  intros Hm. unfold run_with_reconnect. generalize (mkLoop 0 (initial_backoff config)).
  induction rounds as [|r rounds IH]; intros st; [done|]. cbn [reconnect_loop].
  destruct (reconnect_round config r st) as [p d] eqn:E. destruct p as [res|st'].
  - unfold reconnect_round in E. rewrite Hm in E. simpl. intros [= ->].
    destruct (connect_answer r) as [|e'|[|reason]], (sleep_interrupted r); simplify_eq.
  - specialize (IH st'). by destruct (reconnect_loop config rounds st').
Qed.

(** The backoff doubles from its initial value up to the cap, and never
    exceeds the cap after the first sleep. *)
Theorem nth_backoff_spec config k :
  initial_backoff config ≤ DURATION_MAX → max_backoff config ≤ DURATION_MAX →
  nth_backoff config (S k) =
    N.min (initial_backoff config * 2 ^ N.of_nat (S k)) (max_backoff config).
Proof.
  intros Hi Hm. induction k as [|k IH].
  - simpl. unfold next_backoff, saturating_mul. lia.
  - change (nth_backoff config (S (S k))) with
      (next_backoff (nth_backoff config (S k)) (max_backoff config)).
    rewrite IH. unfold next_backoff, saturating_mul.
    rewrite (Nat2N.inj_succ (S k)), N.pow_succ_r'. set (x := 2 ^ N.of_nat (S k)). nia.
Qed.

Definition demo_config : ReconnectConfig := mkReconnectConfig (Some 2) 1000 3000.
Definition demo_failure : Round := mkRound (ConnectFailed (str "refused")) false.

Lemma reconnect_gives_up_witness :
  run_with_reconnect demo_config (repeat demo_failure 3) =
    (Returned (Err (str "giving up after 2 reconnect attempt(s)")), [1000; 2000]).
Proof.
  refine (reconnect_gives_up demo_config 2 (repeat demo_failure 3) eq_refl _ eq_refl _);
    [by vm_compute|]. by repeat constructor; try eexists.
Defined.

Lemma reconnect_never_gives_up_witness :
  (run_with_reconnect (mkReconnectConfig None 1000 3000) (repeat demo_failure 5)).1
    ≠ Returned (Err []).
Proof. by apply reconnect_never_gives_up. Defined.

Lemma nth_backoff_spec_witness : nth_backoff demo_config 2 = 3000.
Proof.
  refine (nth_backoff_spec demo_config 1 _ _); by vm_compute.
Defined.

(** ** Endpoints *)

Section connecting.
(** [quinn::Endpoint], [quinn::Connection], and the two operations that can fail:
    building an endpoint for the family of an address, and starting a connect. *)
Context {Endpoint Connection : Type}.
Context (create_client_endpoint : SocketAddr → result bytes Endpoint).
Context (connect : Endpoint → SocketAddr → result bytes unit).

Record EndpointPool := mkPool { pool_v4 : option Endpoint; pool_v6 : option Endpoint }.

(** [EndpointPool::new]; [primary] is the first candidate address. *)
Definition pool_new (primary : SocketAddr) : result bytes EndpointPool :=
  endpoint ← create_client_endpoint primary;
  Ok (if is_ipv6 primary then mkPool None (Some endpoint) else mkPool (Some endpoint) None).

(** [EndpointPool::get_for] *)
Definition get_for (addr : SocketAddr) (pool : EndpointPool) : EndpointPool * result bytes Endpoint :=
  match (if is_ipv6 addr then pool_v6 pool else pool_v4 pool) with
  | Some e => (pool, Ok e)
  | None =>
      match create_client_endpoint addr with
      | Err e => (pool, Err e)
      | Ok e => (if is_ipv6 addr then mkPool (pool_v4 pool) (Some e)
                 else mkPool (Some e) (pool_v6 pool), Ok e)
      end
  end.

(** The loop of [happy_eyeballs_connect] that starts the attempts: the pool, the
    addresses whose attempt was started with their stagger in milliseconds, and
    the last error. *)
Fixpoint start_attempts (idx : N) (addrs : list SocketAddr) (pool : EndpointPool)
    (last_error : option bytes) : EndpointPool * list (SocketAddr * N) * option bytes :=
  match addrs with
  | [] => (pool, [], last_error)
  | addr :: addrs' =>
      let '(pool, e) := get_for addr pool in
      match e with
      | Err e =>
          start_attempts (idx + 1) addrs' pool
            (Some (fmt_socket addr ++ str ": failed to build endpoint: " ++ e))
      | Ok endpoint =>
          match connect endpoint addr with
          | Err e => start_attempts (idx + 1) addrs' pool (Some (fmt_socket addr ++ str ": " ++ e))
          | Ok _ =>
              let '(pool, races, err) := start_attempts (idx + 1) addrs' pool last_error in
              (pool, (addr, 250 * idx) :: races, err)
          end
      end
  end.

(** The loop that waits for the attempts, in the order they complete. *)
Fixpoint await_races (completions : list (SocketAddr * result bytes Connection))
    (last_error : option bytes) : result bytes Connection :=
  match completions with
  | [] => Err (str "all candidate addresses failed (last error: " ++
               default (str "<none>") last_error ++ str ")")
  | (addr, Ok conn) :: _ => Ok conn
  | (addr, Err e) :: rest => await_races rest (Some (fmt_socket addr ++ str ": " ++ e))
  end.

(** [happy_eyeballs_connect]; [complete] is the order and the outcome of the
    started attempts. *)
Definition happy_eyeballs_connect (addrs : list SocketAddr) (pool : EndpointPool)
    (complete : list (SocketAddr * N) → list (SocketAddr * result bytes Connection)) :
    EndpointPool * result bytes Connection :=
  match addrs with
  | [] => (pool, Err (str "no candidate addresses to connect to"))
  | _ =>
      let '(pool, races, last_error) := start_attempts 0 addrs pool None in
      (pool, await_races (complete races) last_error)
  end.

Lemma await_races_spec completions err :
  match await_races completions err with
  | Ok conn => ∃ pre addr post, completions = pre ++ (addr, Ok conn) :: post ∧
                 Forall (λ c, is_ok c.2 = false) pre
  | Err _ => Forall (λ c, is_ok c.2 = false) completions
  end.
Proof.
  revert err. induction completions as [|[addr [conn|e]] rest IH]; intros err; simpl.
  - constructor.
  - by exists [], addr, rest.
  - specialize (IH (Some (fmt_socket addr ++ str ": " ++ e))).
    destruct (await_races rest _) as [conn|].
    + destruct IH as (pre & addr' & post & -> & Hpre).
      exists ((addr, Err e) :: pre), addr', post. split; [done|]. by constructor.
    + by constructor.
Qed.

(** The attempts are started in the order of the addresses. *)
Lemma start_attempts_sublist addrs : ∀ idx pool err,
  (start_attempts idx addrs pool err).1.2.*1 `sublist_of` addrs ∧
  Forall (λ r, ∃ i, r.2 = 250 * (idx + N.of_nat i) ∧ addrs !! i = Some r.1)
    (start_attempts idx addrs pool err).1.2.
Proof.
  induction addrs as [|addr addrs IH]; intros idx pool err; [by repeat constructor|].
  cbn [start_attempts]. destruct (get_for addr pool) as [pool' e].
  assert (∀ l, Forall (λ r, ∃ i, r.2 = 250 * (idx + 1 + N.of_nat i) ∧ addrs !! i = Some r.1) l →
    Forall (λ r : SocketAddr * N, ∃ i, r.2 = 250 * (idx + N.of_nat i) ∧ (addr :: addrs) !! i = Some r.1) l)
    as Hshift.
  { intros l Hl. eapply Forall_impl; [exact Hl|]. intros r (i & -> & Hi). exists (S i).
    split; [lia|done]. }
  destruct e as [endpoint|e].
  - destruct (connect endpoint addr) as [[]|e'].
    + destruct (IH (idx + 1) pool' err) as [Hs Hf].
      destruct (start_attempts (idx + 1) addrs pool' err) as [[pool'' races] err']. simpl in *.
      split; [by constructor|]. constructor; [|by apply Hshift]. exists 0%nat. simpl. split; [lia|done].
    + destruct (IH (idx + 1) pool' (Some (fmt_socket addr ++ str ": " ++ e'))) as [Hs Hf].
      split; [by constructor|by apply Hshift].
  - destruct (IH (idx + 1) pool' (Some (fmt_socket addr ++ str ": failed to build endpoint: " ++ e)))
      as [Hs Hf]. split; [by constructor|by apply Hshift].
Qed.

(** When every started attempt completes, connecting succeeds exactly when
    some attempt does, with the first that succeeds in order of completion; the
    attempts are for candidate addresses, each at its own index times 250 ms. *)
Theorem happy_eyeballs_spec addrs pool complete :
  (∀ races, (complete races).*1 ≡ₚ races.*1) →
  let races := (start_attempts 0 addrs pool None).1.2 in
  Forall (λ r, ∃ i, r.2 = 250 * N.of_nat i ∧ addrs !! i = Some r.1) races ∧
  match (happy_eyeballs_connect addrs pool complete).2 with
  | Ok conn => ∃ pre addr post, complete races = pre ++ (addr, Ok conn) :: post ∧
                 Forall (λ c, is_ok c.2 = false) pre ∧ addr ∈ addrs
  | Err _ => Forall (λ c, is_ok c.2 = false) (complete races)
  end.
Proof.
  intros Hc races. destruct (start_attempts_sublist addrs 0 pool None) as [Hsub Hf]. split; [done|].
  unfold happy_eyeballs_connect. destruct addrs as [|a addrs].
  - simpl. specialize (Hc []). simpl in *. apply Permutation_nil_r in Hc.
    apply fmap_nil_inv in Hc. unfold races. simpl. by rewrite Hc.
  - destruct (start_attempts 0 (a :: addrs) pool None) as [[pool' races'] err] eqn:E.
    simpl in races. subst races. cbn [snd].
    pose proof (await_races_spec (complete races') err) as Haw.
    destruct (await_races (complete races') err) as [conn|]; [|done].
    destruct Haw as (pre & addr & post & Ec & Hpre). exists pre, addr, post. split_and!; [done..|].
    eapply elem_of_sublist; [|exact Hsub]. simpl. rewrite <-(Hc races'), Ec.
    rewrite fmap_app. set_solver.
Qed.

(** At most one endpoint per address family is built: once a family has one,
    asking again gives the same endpoint, builds nothing and leaves the pool as it
    is, and the other family's endpoint is never touched. *)
Theorem get_for_caches addr addr' pool e :
  (get_for addr pool).2 = Ok e →
  (is_ipv6 addr' = is_ipv6 addr →
   get_for addr' (get_for addr pool).1 = ((get_for addr pool).1, Ok e)) ∧
  (is_ipv6 addr' ≠ is_ipv6 addr →
   (if is_ipv6 addr' then pool_v6 else pool_v4) (get_for addr pool).1 =
   (if is_ipv6 addr' then pool_v6 else pool_v4) pool).
Proof.
  unfold get_for. intros He.
  destruct (is_ipv6 addr), (is_ipv6 addr'); split; intros Heq; try done;
    repeat (case_match; simplify_eq/=); done.
Qed.

End connecting.

Definition demo_v4 : SocketAddr := socket_addr_new any_v4 1.
Definition demo_v6 : SocketAddr := default demo_v4 (parse_socket (str "[::1]:1")).

(** The first attempt fails, the second wins. *)
Definition demo_complete (races : list (SocketAddr * N)) : list (SocketAddr * result bytes N) :=
  imap (λ i r, (r.1, if decide (i = 1%nat) then Ok r.2 else Err (str "timed out"))) races.

Lemma demo_complete_fst races : (demo_complete races).*1 ≡ₚ races.*1.
Proof.
  unfold demo_complete. rewrite fmap_imap. apply reflexive_eq.
  apply list_eq. intros i. rewrite list_lookup_imap, !list_lookup_fmap. by destruct (races !! i).
Qed.

Lemma happy_eyeballs_spec_witness :
  Forall (λ r, ∃ i, r.2 = 250 * N.of_nat i ∧ [demo_v6; demo_v4] !! i = Some r.1)
    (start_attempts (λ _, Ok ()) (λ _ _, Ok ()) 0 [demo_v6; demo_v4] (mkPool None None) None).1.2.
Proof.
  exact (proj1 (happy_eyeballs_spec (λ _, Ok ()) (λ _ _, Ok ()) [demo_v6; demo_v4] (mkPool None None)
    demo_complete demo_complete_fst)).
Defined.

Lemma get_for_caches_witness :
  get_for (λ _, Ok ()) demo_v4 (get_for (λ _, Ok ()) demo_v4 (mkPool None None)).1 =
    ((get_for (λ _, Ok ()) demo_v4 (mkPool None None)).1, Ok ()).
Proof.
  refine (proj1 (get_for_caches (λ _, Ok ()) demo_v4 demo_v4 (mkPool None None) () _) _);
    by vm_compute.
Defined.

(** ** The session *)

(** [remotes_by_id]: collecting into a map keeps the last entry of a key. *)
Definition remotes_by_id (ids : list N) (remotes : list RemoteRequest) : gmap N RemoteRequest :=
  foldl (λ m ir, <[ir.1 := ir.2]> m) ∅ (zip ids remotes).

(** The handler [handle_forward_tunnel] runs for a declaration. *)
Inductive ForwardHandler := StdioClient | SocksClient | TcpClient | UdpClient.

Definition handle_forward_tunnel (remote : RemoteRequest) : ForwardHandler :=
  if is_stdio remote then StdioClient
  else match kind remote with
       | KSocks5 _ => SocksClient
       | KTcp _ _ => TcpClient
       | KUdp _ _ => UdpClient
       end.

(** The listeners [run_connection] spawns: one per forward declaration, with its
    tunnel id, and whether its end shuts the client down. *)
Definition forward_tasks (ids : list N) (remotes : list RemoteRequest) :
    list (N * ForwardHandler * bool) :=
  omap (λ ri, if is_reversed ri.1 then None
              else Some (ri.2, handle_forward_tunnel ri.1, is_stdio ri.1)) (zip remotes ids).

Inductive ReverseDispatch := ReverseTcp (r : RemoteRequest) | ReverseUdp (r : RemoteRequest).

Definition resolve_reverse_dispatch (parent : RemoteRequest) (dynamic : option DynamicTarget) :
    result bytes ReverseDispatch :=
  match direction parent with
  | Forward => Err (str "server pushed conn on a forward tunnel (" ++ fmt_remote parent ++
                    str ") — protocol error")
  | Reverse =>
      match kind parent, dynamic with
      | KTcp local remote, None => Ok (ReverseTcp (RemoteRequest_new Reverse (KTcp local remote)))
      | KUdp local remote, None => Ok (ReverseUdp (RemoteRequest_new Reverse (KUdp local remote)))
      | KSocks5 local, Some (DynTcp target) =>
          Ok (ReverseTcp (RemoteRequest_new Reverse (KTcp local target)))
      | KSocks5 local, Some (DynUdp target) =>
          Ok (ReverseUdp (RemoteRequest_new Reverse (KUdp local target)))
      | KSocks5 _, None => Err (str "server pushed reverse SOCKS5 conn without a dynamic target")
      | _, Some _ => Err (str "server pushed unexpected dynamic target on non-SOCKS reverse tunnel")
      end
  end.

Section reverse_conns.
Context `{ByteStreams} `{SerdeHelper OpenConn, SerdeHelper OpenConnResponse}.

(** [client_accept_reverse_conn] on an accepted stream: the send stream after the
    reply when one was sent, and the conn to run when there is one. *)
Definition client_accept_reverse_conn (send : SendStream) (recv : RecvStream)
    (remotes : gmap N RemoteRequest) : option SendStream * option (ReverseDispatch * RecvStream) :=
  match receive_open_conn recv with
  | Err _ => (None, None)
  | Ok (open, recv) =>
      match remotes !! oc_tunnel_id open with
      | None =>
          (ok (reply_open_conn send
                 (OpenFailed (str "unknown tunnel id " ++ fmt_dec (oc_tunnel_id open)))), None)
      | Some parent =>
          match resolve_reverse_dispatch parent (oc_dynamic open) with
          | Err e => (ok (reply_open_conn send (OpenFailed e)), None)
          | Ok dispatch =>
              match reply_open_conn send OpenOk with
              | Ok send' => (Some send', Some (dispatch, recv))
              | Err _ => (None, None)
              end
          end
      end
  end.

Definition reverse_request (d : ReverseDispatch) : RemoteRequest :=
  match d with ReverseTcp r | ReverseUdp r => r end.

(** The client runs a conn the server pushes only on a declaration of its own
    that it made as a reverse one, to the declared target, or to the pushed one on
    a reverse SOCKS5 declaration; the conn runs only after the acceptance was
    sent. *)
Theorem reverse_conn_safe send recv remotes send' d recv' :
  client_accept_reverse_conn send recv remotes = (send', Some (d, recv')) →
  ∃ open parent, receive_open_conn recv = Ok (open, recv') ∧
    remotes !! oc_tunnel_id open = Some parent ∧ is_reversed parent = true ∧
    is_Some send' ∧ ok (reply_open_conn send OpenOk) = send' ∧
    (is_socks parent = false → oc_dynamic open = None ∧
       remote_addr_string (reverse_request d) = remote_addr_string parent) ∧
    (is_socks parent = true → ∃ h, remote_addr_string (reverse_request d) = Some (to_addr_string h) ∧
       (oc_dynamic open = Some (DynTcp h) ∨ oc_dynamic open = Some (DynUdp h))).
Proof.
  unfold client_accept_reverse_conn. intros Ha.
  destruct (receive_open_conn recv) as [[open r]|] eqn:Eo; [|done].
  destruct (remotes !! oc_tunnel_id open) as [parent|] eqn:Ep; [|done].
  destruct (resolve_reverse_dispatch parent (oc_dynamic open)) as [d'|] eqn:Ed; [|done].
  destruct (reply_open_conn send OpenOk) as [s1|] eqn:Er; [|done]. injection Ha as <- -> ->.
  exists open, parent. unfold resolve_reverse_dispatch in Ed.
  destruct (direction parent) eqn:Edir; [done|].
  split_and!; [done|done|unfold is_reversed; by rewrite Edir|by eexists|done|..];
    unfold is_socks, remote_addr_string;
    destruct (kind parent), (oc_dynamic open) as [[]|]; simplify_eq; intros; simpl; eauto; done.
Qed.

End reverse_conns.

Lemma foldl_insert_lookup (l : list (N * RemoteRequest)) : ∀ (m : gmap N RemoteRequest) i,
  i ∉ l.*1 → foldl (λ m ir, <[ir.1 := ir.2]> m) m l !! i = m !! i.
Proof.
  induction l as [|[j r] l IH]; intros m i Hi; [done|]. simpl in *.
  rewrite IH by set_solver. by rewrite lookup_insert_ne by set_solver.
Qed.

(** With the distinct ids the server assigns, the table resolves every id to
    the declaration it was assigned to, and no other id to anything. *)
Theorem remotes_by_id_spec ids remotes :
  NoDup ids → length ids = length remotes →
  (∀ k i r, ids !! k = Some i → remotes !! k = Some r → remotes_by_id ids remotes !! i = Some r) ∧
  (∀ i, i ∉ ids → remotes_by_id ids remotes !! i = None).
Proof.
  unfold remotes_by_id. intros Hnd Hlen. split.
  - intros k i r. generalize (∅ : gmap N RemoteRequest) as m. revert ids remotes Hnd Hlen k.
    induction ids as [|j ids IH]; intros [|r' remotes] Hnd Hlen k m Hi Hr; try done.
    inversion Hnd; subst. injection Hlen as Hlen. destruct k as [|k]; simpl in *.
    + simplify_eq. rewrite foldl_insert_lookup by (rewrite fst_zip by lia; done).
      apply lookup_insert_eq.
    + by eapply IH.
  - intros i Hi. rewrite foldl_insert_lookup; [done|]. by rewrite fst_zip by lia.
Qed.

Lemma remotes_by_id_spec_witness :
  remotes_by_id [4; 5] [RemoteRequest_new Forward (KSocks5 demo_v4); RemoteRequest_new Reverse (KSocks5 demo_v4)]
    !! 5 = Some (RemoteRequest_new Reverse (KSocks5 demo_v4)).
Proof.
  refine (proj1 (remotes_by_id_spec [4; 5] [RemoteRequest_new Forward (KSocks5 demo_v4);
    RemoteRequest_new Reverse (KSocks5 demo_v4)] _ _) 1%nat 5 _ eq_refl eq_refl); [|done].
  by apply (bool_decide_unpack _).
Defined.

Section reverse_witness.
#[local] Instance qs : ByteStreams := memory_streams.
#[local] Instance c1 : SerdeHelper OpenConnResponse := reply_codec.
#[local] Instance c4 : SerdeHelper OpenConn.
Proof.
  refine {| to_bytes := λ m, if decide (m = mkOpenConn 1 (Some (DynTcp (mkHostPort (str "h") 80))))
                             then Ok [n2b 1] else Err [];
            from_bytes := λ b, Ok (mkOpenConn 1 (Some (DynTcp (mkHostPort (str "h") 80)))) |}.
  intros m b. case_decide; [|done]. by subst.
Defined.

Lemma reverse_conn_safe_witness :
  ∃ open parent, receive_open_conn (frame [n2b 1]) = Ok (open, []) ∧
    ({[1 := RemoteRequest_new Reverse (KSocks5 demo_v4)]} : gmap N RemoteRequest) !! oc_tunnel_id open
      = Some parent ∧ is_reversed parent = true.
Proof.
  destruct (reverse_conn_safe (H := qs) [] (frame [n2b 1]) {[1 := RemoteRequest_new Reverse (KSocks5 demo_v4)]}
    (Some (frame [n2b 0])) (ReverseTcp (RemoteRequest_new Reverse (KTcp demo_v4 (mkHostPort (str "h") 80))))
    []) as (open & parent & H1 & H2 & H3 & _); [by vm_compute|].
  by exists open, parent.
Defined.
End reverse_witness.
