(* ===== verification/Tls.v ===== *)
(** * Tls: certificate fingerprints, server identities and peer authentication

    [src/common/tls.rs] and the parts of [src/common/quic.rs] that turn a TLS mode
    into what the endpoint presents and what it demands of its peer: the printed
    and parsed fingerprints, the identity persisted under the state directory, the
    certificate verifiers, the server name and the transport parameters.

    The file system is a map from paths to contents and permission bits; which
    operations fail is decided by the environment ([Faults]). PEM decoding, SHA-256
    and the X.509 checks are third-party code: an interface ([Pki]). *)

From S2P Require Import Prelude Text NetAddr.

(** ** Modes *)

Abbreviation PathBuf := bytes.

Inductive ServerTlsConfig :=
| ServerInsecure
| SelfSigned (state_dir : PathBuf)
| Provided (cert key : PathBuf)
| ServerMtls (cert key ca : PathBuf).

Inductive ClientTlsConfig :=
| ClientInsecure
| Fingerprint (sha256 : bytes) (server_name : option bytes)
| Ca (ca : PathBuf) (server_name : option bytes)
| ClientMtls (ca cert key : PathBuf) (server_name : option bytes).

Inductive Congestion := Cubic | Bbr.

#[export] Instance Congestion_eq_dec : EqDecision Congestion.
Proof. solve_decision. Defined.
#[export] Instance ServerTlsConfig_eq_dec : EqDecision ServerTlsConfig.
Proof. solve_decision. Defined.
#[export] Instance ClientTlsConfig_eq_dec : EqDecision ClientTlsConfig.
Proof. solve_decision. Defined.

(** ** Fingerprints *)

Definition format_fingerprint (digest : bytes) : bytes :=
  str "sha256:" ++ concat (map fmt_hex02 digest).

(** The text the digits are taken from. *)
Definition fingerprint_digits (s : bytes) : bytes :=
  let trimmed := trim s in
  let body := match strip_prefix (str "sha256:") trimmed with
              | Some b => b
              | None => default trimmed (strip_prefix (str "SHA256:") trimmed)
              end in
  filter (λ c, c ≠ ":"%char) body.

(** The loop over the 32 bytes of [out]: [&cleaned[i * 2..i * 2 + 2]] panics where
    an end of the range is inside a character. *)
Fixpoint parse_hex_bytes (cleaned : bytes) (i todo : nat) : panicking (result bytes bytes) :=
  match todo with
  | O => Returns (Ok [])
  | S todo' =>
      if is_char_boundary (i * 2) cleaned && is_char_boundary (i * 2 + 2) cleaned then
        let chunk := slice (i * 2) (i * 2 + 2) cleaned in
        match from_str_radix 16 255 chunk with
        | Err e =>
            Returns (Err (str "invalid hex `" ++ chunk ++ str "` at byte " ++
                          fmt_dec (N.of_nat i) ++ str ": " ++ fmt_int_error e))
        | Ok b =>
            match parse_hex_bytes cleaned (S i) todo' with
            | Returns (Ok out) => Returns (Ok (n2b b :: out))
            | r => r
            end
        end
      else Panics
  end.

Definition parse_fingerprint (s : bytes) : panicking (result bytes bytes) :=
  let cleaned := fingerprint_digits s in
  if decide (length cleaned ≠ 64%nat) then
    Returns (Err (str "expected 64 hex chars (32 bytes) in fingerprint, got " ++
                  fmt_dec (len cleaned)))
  else parse_hex_bytes cleaned 0 32.

(** ** Files

    [Path::join] on unix. *)
Definition join (dir name : PathBuf) : PathBuf :=
  if starts_with "/"%char name then name
  else if decide (dir = []) then name
  else if ends_with "/"%char dir then dir ++ name
  else dir ++ str "/" ++ name.

Record File := mkFile { contents : bytes; mode : N }.
Abbreviation Files := (gmap PathBuf File).

(** What the operating system refuses. A failed write may leave something behind. *)
Class Faults := {
  read_fault : PathBuf → option bytes;
  write_fault : PathBuf → option (bytes * option bytes);
  mkdir_fault : PathBuf → option bytes;
  chmod_fault : PathBuf → option bytes;
  default_mode : N;
}.

Definition fs (A : Type) : Type := Files → Files * result bytes A.

#[export] Instance fs_ret : MRet fs := λ A a st, (st, Ok a).
#[export] Instance fs_bind : MBind fs := λ A B k m st,
  match m st with (st', Ok a) => k a st' | (st', Err e) => (st', Err e) end.

Definition fs_lift {A} (r : result bytes A) : fs A := λ st, (st, r).

(** [.with_context(|| msg)]: an error is reported by its outermost context. *)
Definition with_context {A} (msg : bytes) (m : fs A) : fs A := λ st,
  let '(st', r) := m st in (st', map_err (λ _, msg) r).

Section files.
Context `{Faults}.

Definition fs_read (p : PathBuf) : fs bytes := λ st,
  (st, match read_fault p, st !! p with
       | Some e, _ => Err e
       | None, Some f => Ok (contents f)
       | None, None => Err (str "No such file or directory (os error 2)")
       end).

Definition put_file (p : PathBuf) (b : bytes) (st : Files) : Files :=
  <[p := mkFile b (from_option mode default_mode (st !! p))]> st.

Definition fs_write (p : PathBuf) (b : bytes) : fs unit := λ st,
  match write_fault p with
  | Some (e, Some part) => (put_file p part st, Err e)
  | Some (e, None) => (st, Err e)
  | None => (put_file p b st, Ok tt)
  end.

Definition create_dir_all (p : PathBuf) : fs unit := λ st,
  (st, match mkdir_fault p with Some e => Err e | None => Ok tt end).

Definition set_mode (p : PathBuf) (m : N) : fs unit := λ st,
  match chmod_fault p, st !! p with
  | Some e, _ => (st, Err e)
  | None, Some f => (<[p := mkFile (contents f) m]> st, Ok tt)
  | None, None => (st, Err (str "No such file or directory (os error 2)"))
  end.

Definition exists_file (p : PathBuf) (st : Files) : bool := bool_decide (is_Some (st !! p)).

Definition write_secret_file (p : PathBuf) (b : bytes) : fs unit :=
  fs_write p b;; set_mode p 0x180.

End files.

(** ** Identities and verifiers

    What the sources use of [rustls], [rustls_pemfile], [rcgen] and [sha2]. *)

Class Pki := {
  (** [rustls_pemfile::certs], collected *)
  pem_certs : bytes → result bytes (list bytes);
  (** [rustls_pemfile::private_key] *)
  pem_private_key : bytes → result bytes (option bytes);
  (** [Sha256] of a DER certificate *)
  cert_sha256 : bytes → bytes;
  cert_sha256_length c : length (cert_sha256 c) = 32%nat;
  (** [RootCertStore::add] *)
  root_add : bytes → result bytes unit;
  (** [WebPkiClientVerifier::builder(roots).build()] *)
  client_verifier : list bytes → result bytes unit;
  (** [with_single_cert] and [with_client_auth_cert] *)
  usable_identity : list bytes → bytes → result bytes unit;
  (** [QuicServerConfig::try_from] and [QuicClientConfig::try_from] *)
  quic_crypto : result bytes unit;
  (** the path building and name check of the default verifier *)
  webpki_verify : list bytes → bytes → list bytes → bytes → result bytes unit;
}.

(** [rcgen::CertifiedKey]: one key pair and certificate in their two encodings. *)
Record Generated := mkGenerated {
  cert_der : bytes; cert_pem : bytes; key_der : bytes; key_pem : bytes }.

Abbreviation Identity := (list bytes * bytes)%type.

Inductive ServerCertVerifier :=
| SkipServerVerification
| FingerprintVerifier (expected : bytes)
| WebPkiVerifier (roots : list bytes).

Record TlsServerConfig := mkTlsServer {
  ts_identity : Identity; ts_client_roots : option (list bytes); ts_alpn : list bytes }.

Record TlsClientConfig := mkTlsClient {
  tc_verifier : ServerCertVerifier; tc_identity : option Identity; tc_alpn : list bytes }.

Definition ALPN_QUIC_HTTP : list bytes := [str "h3"].

Section endpoints.
Context `{Faults, Pki}.

Definition load_pem_certs (path : PathBuf) : fs (list bytes) :=
  pem ← with_context (str "failed to read cert file " ++ path) (fs_read path);
  certs ← with_context (str "failed to parse PEM certs in " ++ path) (fs_lift (pem_certs pem));
  if decide (certs = []) then fs_lift (Err (str "no certificates found in " ++ path))
  else mret certs.

Definition load_pem_identity (cert_path key_path : PathBuf) : fs Identity :=
  cert_chain ← load_pem_certs cert_path;
  key_pem ← with_context (str "failed to read key file " ++ key_path) (fs_read key_path);
  key ← with_context (str "failed to parse PEM private key in " ++ key_path)
          (fs_lift (pem_private_key key_pem));
  key ← fs_lift (ok_or key (str "no private key found in " ++ key_path));
  mret (cert_chain, key).

(** The loop of [load_root_store]: the store in the order the roots were added. *)
Fixpoint add_roots (ca_path : PathBuf) (roots certs : list bytes) : fs (list bytes) :=
  match certs with
  | [] => mret roots
  | cert :: certs' =>
      with_context (str "failed to add CA cert from " ++ ca_path ++ str " to root store")
        (fs_lift (root_add cert));;
      add_roots ca_path (roots ++ [cert]) certs'
  end.

Definition load_root_store (ca_path : PathBuf) : fs (list bytes) :=
  certs ← load_pem_certs ca_path; add_roots ca_path [] certs.

(** [generated] is the answer of [rcgen::generate_simple_self_signed]. *)
Definition generate_ephemeral_self_signed (generated : result bytes Generated) : fs Identity :=
  g ← fs_lift generated; mret ([cert_der g], key_der g).

Definition load_or_create_self_signed (generated : result bytes Generated) (state_dir : PathBuf) :
    fs Identity := λ st,
  let cert_path := join state_dir (str "server.pem") in
  let key_path := join state_dir (str "server.key") in
  if exists_file cert_path st && exists_file key_path st then
    load_pem_identity cert_path key_path st
  else
    (with_context (str "failed to create state dir " ++ state_dir) (create_dir_all state_dir);;
     g ← with_context (str "failed to generate self-signed certificate") (fs_lift generated);
     with_context (str "failed to write " ++ cert_path) (fs_write cert_path (cert_pem g));;
     with_context (str "failed to write " ++ key_path) (write_secret_file key_path (key_pem g));;
     mret ([cert_der g], key_der g)) st.

Definition load_server_identity (generated : result bytes Generated) (tls : ServerTlsConfig) :
    fs Identity :=
  match tls with
  | ServerInsecure => generate_ephemeral_self_signed generated
  | SelfSigned state_dir => load_or_create_self_signed generated state_dir
  | Provided cert key => load_pem_identity cert key
  | ServerMtls cert key _ => load_pem_identity cert key
  end.

(** The fingerprint [load_server_identity] logs. *)
Definition logged_fingerprint (id : Identity) : option bytes :=
  (λ leaf, format_fingerprint (cert_sha256 leaf)) <$> head id.1.

Definition build_quic_server_config (tls : ServerTlsConfig) (id : Identity) : fs TlsServerConfig :=
  cfg ← match tls with
        | ServerMtls _ _ ca =>
            roots ← load_root_store ca;
            with_context (str "failed to build client cert verifier") (fs_lift (client_verifier roots));;
            fs_lift (usable_identity id.1 id.2);;
            mret (Some roots)
        | _ => fs_lift (usable_identity id.1 id.2);; mret None
        end;
  fs_lift quic_crypto;;
  mret (mkTlsServer id cfg ALPN_QUIC_HTTP).

Definition build_quic_client_config (tls : ClientTlsConfig) : fs TlsClientConfig :=
  cfg ← match tls with
        | ClientInsecure => mret (SkipServerVerification, None)
        | Fingerprint sha256 _ => mret (FingerprintVerifier sha256, None)
        | Ca ca _ => roots ← load_root_store ca; mret (WebPkiVerifier roots, None)
        | ClientMtls ca cert key _ =>
            roots ← load_root_store ca;
            id ← load_pem_identity cert key;
            with_context (str "failed to install client auth cert") (fs_lift (usable_identity id.1 id.2));;
            mret (WebPkiVerifier roots, Some id)
        end;
  fs_lift quic_crypto;;
  mret (mkTlsClient cfg.1 cfg.2 ALPN_QUIC_HTTP).

(** What [create_server_endpoint] makes of the TLS mode before it binds. *)
Definition create_server_endpoint (generated : result bytes Generated) (tls : ServerTlsConfig) :
    fs TlsServerConfig :=
  id ← load_server_identity generated tls; build_quic_server_config tls id.

Definition verify_server_cert (v : ServerCertVerifier) (end_entity : bytes)
    (intermediates : list bytes) (server_name : bytes) : result bytes unit :=
  match v with
  | SkipServerVerification => Ok tt
  | FingerprintVerifier expected =>
      if decide (cert_sha256 end_entity = expected) then Ok tt
      else Err (str "ApplicationVerificationFailure")
  | WebPkiVerifier roots => webpki_verify roots end_entity intermediates server_name
  end.

End endpoints.

(** The SNI of a connection. *)
Definition client_server_name (tls : ClientTlsConfig) (server_host : bytes) : bytes :=
  match tls with
  | ClientInsecure => server_host
  | Fingerprint _ server_name | Ca _ server_name | ClientMtls _ _ _ server_name =>
      default server_host server_name
  end.

(** The wildcard address [create_client_endpoint] binds. *)
Definition client_bind_addr (server_addr : SocketAddr) : option SocketAddr :=
  match server_addr with
  | SAV4 _ => parse_socket (str "0.0.0.0:0")
  | SAV6 _ => parse_socket (str "[::]:0")
  end.

(** The transport parameters both endpoints use; times in seconds. *)
Record TransportConfig := mkTransport {
  stream_receive_window : N; receive_window : N; send_window : N;
  keep_alive_interval : N; max_idle_timeout : N;
  max_concurrent_bidi_streams : N; max_concurrent_uni_streams : N;
  bbr_controller : bool }.

Definition build_transport_config (congestion : Congestion) : TransportConfig :=
  mkTransport (16 * 1024 * 1024) (64 * 1024 * 1024) (64 * 1024 * 1024) 15 30 1024 0
    (match congestion with Bbr => true | Cubic => false end).

(** * Properties *)

(** ** Fingerprints *)

(** The two digits of a byte, in either case. *)
Definition hex_pair (c d : byte) (b : byte) : Prop :=
  from_str_radix 16 255 [c; d] = Ok (b2n b) ∧
  is_cont c = false ∧ is_cont d = false.

Inductive hex_text : bytes → bytes → Prop :=
| hex_nil : hex_text [] []
| hex_cons c d b text out : hex_pair c d b → hex_text text out → hex_text (c :: d :: text) (b :: out).

Lemma hex_text_length text out : hex_text text out → length text = (2 * length out)%nat.
Proof. induction 1; simpl; lia. Qed.

Lemma boundary_app pre c text :
  is_cont c = false → is_char_boundary (length pre) (pre ++ c :: text) = true.
Proof.
  intros Hc. unfold is_char_boundary. rewrite lookup_app_r, Nat.sub_diag by done. simpl.
  by rewrite Hc, orb_true_r.
Qed.

Lemma boundary_end s : is_char_boundary (length s) s = true.
Proof.
  unfold is_char_boundary. rewrite lookup_ge_None_2 by done. by apply Nat.eqb_eq.
Qed.

Lemma hex_text_boundary pre text out :
  hex_text text out → is_char_boundary (length pre) (pre ++ text) = true.
Proof.
  destruct 1 as [|c d b text out (_ & Hc & _) _].
  - rewrite app_nil_r. apply boundary_end.
  - by apply boundary_app.
Qed.

Lemma parse_hex_text text out : hex_text text out → ∀ pre i,
  length pre = (i * 2)%nat → parse_hex_bytes (pre ++ text) i (length out) = Returns (Ok out).
Proof.
  induction 1 as [|c d b text out Hp Ht IH]; intros pre i Hi; [done|]. cbn [length parse_hex_bytes].
  destruct Hp as (Hv & Hc & Hd). rewrite <-Hi, (boundary_app pre c) by done.
  assert (pre ++ c :: d :: text = (pre ++ [c; d]) ++ text) as E by (by rewrite <-app_assoc).
  assert (length (pre ++ [c; d]) = (length pre + 2)%nat) as El by (rewrite length_app; simpl; lia).
  rewrite E at 1. rewrite <-El, (hex_text_boundary _ _ _ Ht). cbn [andb].
  assert (slice (length pre) (length (pre ++ [c; d])) (pre ++ c :: d :: text) = [c; d]) as ->.
  { unfold slice. rewrite El, drop_app_length.
    replace (length pre + 2 - length pre)%nat with 2%nat by lia. done. }
  rewrite Hv, E, IH by lia. by rewrite n2b_b2n.
Qed.

(** The documented spellings of a digest: a prefix, the digits of each byte in
    upper or lower case, and nothing or a colon between the bytes. *)
Definition hex02 (upper : bool) (b : byte) : bytes :=
  let digit d := n2b (if d <? 10 then d + 48 else if upper then d + 55 else d + 87) in
  [digit (b2n b / 16); digit (b2n b mod 16)].

Fixpoint hex_body (upper colons : bool) (digest : bytes) : bytes :=
  match digest with
  | [] => []
  | [b] => hex02 upper b
  | b :: digest' => hex02 upper b ++ (if colons then str ":" else []) ++ hex_body upper colons digest'
  end.

Lemma hex02_pair upper b : ∃ c d, hex02 upper b = [c; d] ∧ hex_pair c d b ∧
  (c ≠ ":"%char) ∧ (d ≠ ":"%char) ∧ printable c ∧ printable d ∧
  (c ≠ "s"%char) ∧ (c ≠ "S"%char).
Proof.
  eexists _, _. split; [reflexivity|]. unfold hex_pair, printable.
  revert b. destruct upper; refine (forall_byte _ _); vm_compute; reflexivity.
Qed.

Lemma hex_body_text upper colons digest :
  hex_text (filter (λ c, c ≠ ":"%char) (hex_body upper colons digest)) digest.
Proof.
  induction digest as [|b digest IH]; [constructor|].
  destruct (hex02_pair upper b) as (c & d & E & Hp & Hc & Hd & _).
  assert (hex_text (filter (λ c, c ≠ ":"%char) (hex02 upper b)) [b]) as Hb.
  { rewrite E, !filter_cons, !decide_True by done. repeat constructor; apply Hp. }
  destruct digest as [|b' digest]; [done|]. change (hex_body upper colons (b :: b' :: digest)) with
    (hex02 upper b ++ (if colons then str ":" else []) ++ hex_body upper colons (b' :: digest)).
  rewrite !filter_app. replace (filter _ (if colons then str ":" else [])) with (@nil byte)
    by (by destruct colons).
  rewrite E, !filter_cons, !decide_True by done. simpl. by constructor.
Qed.

Lemma hex_body_ends upper colons b digest : ∃ c mid d,
  hex_body upper colons (b :: digest) = c :: mid ++ [d] ∧ printable c ∧ printable d ∧
  (c ≠ "s"%char) ∧ (c ≠ "S"%char).
Proof.
  revert b. induction digest as [|b' digest IH]; intros b;
    destruct (hex02_pair upper b) as (c & d & E & _ & _ & _ & Hc & Hd & ? & ?).
  - exists c, [], d. split; [exact E|done].
  - destruct (IH b') as (c' & mid & d' & E' & ? & ? & _).
    exists c, (d :: (if colons then str ":" else []) ++ c' :: mid), d'.
    split; [|done]. change (hex_body upper colons (b :: b' :: digest)) with
      (hex02 upper b ++ (if colons then str ":" else []) ++ hex_body upper colons (b' :: digest)).
    rewrite E, E'. cbn [app]. by rewrite <-app_assoc.
Qed.

Lemma prefix_trim prefix c mid d :
  prefix ∈ [[]; str "sha256:"; str "SHA256:"] → printable c → printable d →
  trim (prefix ++ c :: mid ++ [d]) = prefix ++ c :: mid ++ [d].
Proof.
  intros Hpre Hc Hd. rewrite !elem_of_cons in Hpre.
  destruct Hpre as [->|[->|[->|[]%not_elem_of_nil]]]; [by apply trim_printable|..];
    rewrite (app_comm_cons mid [d] c), (app_assoc _ (c :: mid) [d]).
  - by apply (trim_printable "s"%char (str "ha256:" ++ c :: mid) d).
  - by apply (trim_printable "S"%char (str "HA256:" ++ c :: mid) d).
Qed.

Lemma parse_spelled prefix upper colons digest :
  prefix ∈ [[]; str "sha256:"; str "SHA256:"] → length digest = 32%nat →
  parse_fingerprint (prefix ++ hex_body upper colons digest) = Returns (Ok digest).
Proof.
  intros Hpre Hlen. pose proof (hex_body_text upper colons digest) as Ht.
  assert (fingerprint_digits (prefix ++ hex_body upper colons digest) =
          filter (λ c, c ≠ ":"%char) (hex_body upper colons digest)) as Ed.
  { destruct digest as [|b digest]; [done|].
    destruct (hex_body_ends upper colons b digest) as (c & mid & d & E & ? & ? & Hs & HS).
    unfold fingerprint_digits. rewrite E, prefix_trim by done. rewrite !elem_of_cons in Hpre.
    destruct Hpre as [->|[->|[->|[]%not_elem_of_nil]]]; [|by rewrite strip_prefix_app|done].
    cbn [app]. replace (strip_prefix (str "sha256:") _) with (@None bytes);
      [replace (strip_prefix (str "SHA256:") _) with (@None bytes); [done|]|];
      cbn [strip_prefix str String.list_ascii_of_string]; by rewrite decide_False. }
  unfold parse_fingerprint. rewrite Ed, decide_False by (rewrite (hex_text_length _ _ Ht); lia).
  rewrite <-Hlen. by apply (parse_hex_text _ _ Ht []).
Qed.

Lemma format_fingerprint_body digest :
  format_fingerprint digest = str "sha256:" ++ hex_body false false digest.
Proof.
  unfold format_fingerprint. f_equal. induction digest as [|b [|b' digest] IH]; [done|done|].
  change (concat (map fmt_hex02 (b :: b' :: digest))) with
    (fmt_hex02 b ++ concat (map fmt_hex02 (b' :: digest))). by rewrite IH.
Qed.

Lemma parse_format_fingerprint digest :
  length digest = 32%nat → parse_fingerprint (format_fingerprint digest) = Returns (Ok digest).
Proof.
  intros Hl. rewrite format_fingerprint_body. apply parse_spelled; [set_solver|done].
Qed.

(** A fingerprint in any of the documented spellings (without a prefix or with
    the prefix in lower or upper case, digits in either case, bare or separated by
    colons) is read as the digest it spells, and the fingerprint the server logs is
    one of them. *)
Theorem fingerprint_round_trip prefix upper colons digest :
  prefix ∈ [[]; str "sha256:"; str "SHA256:"] → length digest = 32%nat →
  parse_fingerprint (prefix ++ hex_body upper colons digest) = Returns (Ok digest) ∧
  parse_fingerprint (format_fingerprint digest) = Returns (Ok digest).
Proof. intros. split; [by apply parse_spelled|by apply parse_format_fingerprint]. Qed.

Lemma fingerprint_round_trip_witness :
  parse_fingerprint (str "SHA256:" ++ hex_body true true (repeat (n2b 0xAB) 32)) =
    Returns (Ok (repeat (n2b 0xAB) 32)).
Proof. refine (proj1 (fingerprint_round_trip _ _ _ _ _ _)); [set_solver|reflexivity]. Defined.

(** Text that is not ASCII is not refused but stops the program: 64 bytes whose
    second character straddles the end of a digit pair make the slice panic, while
    any other number of bytes is an ordinary error. *)
Theorem parse_fingerprint_panics s :
  let cleaned := fingerprint_digits s in
  (length cleaned ≠ 64%nat → ∃ e, parse_fingerprint s = Returns (Err e)) ∧
  (length cleaned = 64%nat → is_char_boundary 2 cleaned = false → parse_fingerprint s = Panics) ∧
  (length cleaned = 64%nat → Forall (λ c, is_cont c = false) cleaned → parse_fingerprint s ≠ Panics).
Proof.
  intros cleaned. unfold parse_fingerprint. fold cleaned. split_and!.
  - intros Hl. rewrite decide_True by done. by eexists.
  - intros Hl Hb. rewrite decide_False by tauto. cbn [parse_hex_bytes Nat.mul Nat.add].
    by rewrite Hb, andb_false_r.
  - intros Hl Ha. rewrite decide_False by tauto. clearbody cleaned. clear s.
    assert (∀ j, (j ≤ 64)%nat → is_char_boundary j cleaned = true) as Hb.
    { intros j Hj. unfold is_char_boundary. destruct (cleaned !! j) as [c|] eqn:E.
      - rewrite (Forall_lookup_1 _ _ _ _ Ha E). by rewrite orb_true_r.
      - apply Nat.eqb_eq. apply lookup_ge_None in E. lia. }
    assert (∀ n i, (i + n ≤ 32)%nat → parse_hex_bytes cleaned i n ≠ Panics) as Hn; [|by apply Hn].
    induction n as [|n IH]; intros i Hi; [done|]. cbn [parse_hex_bytes].
    rewrite !Hb by lia. cbn [andb]. specialize (IH (S i) ltac:(lia)).
    by repeat case_match.
Qed.

Definition accented : bytes := str "0" ++ octets [0xC3; 0xA9] ++ repeat "0"%char 61.

Lemma parse_fingerprint_panics_witness :
  utf8_valid accented = true ∧ parse_fingerprint accented = Panics.
Proof.
  split; [reflexivity|].
  apply (proj1 (proj2 (parse_fingerprint_panics accented))); vm_compute; reflexivity.
Defined.

(** ** Identities and authentication *)

Lemma fs_bind_inv {A B} (m : fs A) (k : A → fs B) st st' b :
  (m ≫= k) st = (st', Ok b) → ∃ st1 a, m st = (st1, Ok a) ∧ k a st1 = (st', Ok b).
Proof. unfold mbind, fs_bind. destruct (m st) as [st1 [a|]]; [|done]. by exists st1, a. Qed.

Lemma fs_bind_ok {A B} (m : fs A) (k : A → fs B) st st1 a :
  m st = (st1, Ok a) → (m ≫= k) st = k a st1.
Proof. unfold mbind, fs_bind. by intros ->. Qed.

Lemma with_context_inv {A} msg (m : fs A) st st' a : with_context msg m st = (st', Ok a) ↔ m st = (st', Ok a).
Proof. unfold with_context. destruct (m st) as [st1 [x|]]; split; intros; by simplify_eq/=. Qed.

(** The steps of a successful file operation. *)
Ltac fs_inv :=
  repeat match goal with
  | E : with_context _ _ _ = (_, Ok _) |- _ => apply with_context_inv in E
  | E : fs_lift _ _ = (_, Ok _) |- _ => unfold fs_lift in E; injection E as <- ?
  | E : mret _ _ = (_, Ok _) |- _ => injection E as <- ?
  end; subst; simpl in *.

Section identity_spec.
Context `{Faults, Pki}.

Lemma fs_read_inv p st st' b :
  fs_read p st = (st', Ok b) → st' = st ∧ ∃ f, st !! p = Some f ∧ contents f = b.
Proof.
  unfold fs_read. intros E. injection E as <- E. split; [done|].
  destruct (read_fault p), (st !! p) as [f|]; simplify_eq. by exists f.
Qed.

Lemma load_pem_certs_inv p st st' certs :
  load_pem_certs p st = (st', Ok certs) →
  st' = st ∧ certs ≠ [] ∧ ∃ f, st !! p = Some f ∧ pem_certs (contents f) = Ok certs.
Proof.
  unfold load_pem_certs. intros E. apply fs_bind_inv in E as (? & pem & E1 & E). fs_inv.
  apply fs_read_inv in E1 as (-> & f & Hf & <-). apply fs_bind_inv in E as (? & certs' & E1 & E).
  fs_inv. case_decide as Hn; [done|]. fs_inv. split_and!; [done..|]. by exists f.
Qed.

Lemma add_roots_inv p certs : ∀ roots st st' r,
  add_roots p roots certs st = (st', Ok r) →
  st' = st ∧ r = roots ++ certs ∧ Forall (λ c, root_add c = Ok tt) certs.
Proof.
  induction certs as [|c certs IH]; intros roots st st' r E; cbn [add_roots] in E.
  - fs_inv. by rewrite app_nil_r.
  - apply fs_bind_inv in E as (? & [] & E & Hr). fs_inv. apply IH in Hr as (-> & -> & ?).
    rewrite <-app_assoc. split_and!; [done..|]. by constructor.
Qed.

(** A bundle of usable roots at [p]. *)
Definition bundle (st : Files) (p : PathBuf) (roots : list bytes) : Prop :=
  ∃ f, st !! p = Some f ∧ pem_certs (contents f) = Ok roots ∧ roots ≠ [] ∧
       Forall (λ c, root_add c = Ok tt) roots.

Lemma load_root_store_inv p st st' roots :
  load_root_store p st = (st', Ok roots) → st' = st ∧ bundle st p roots.
Proof.
  unfold load_root_store. intros E. apply fs_bind_inv in E as (? & certs & E & Hr).
  apply load_pem_certs_inv in E as (-> & ? & f & ? & ?). apply add_roots_inv in Hr as (-> & -> & ?).
  split; [done|]. by exists f.
Qed.

Lemma load_pem_identity_inv cert key st st' id :
  load_pem_identity cert key st = (st', Ok id) →
  st' = st ∧ id.1 ≠ [] ∧ ∃ fc fk, st !! cert = Some fc ∧ st !! key = Some fk ∧
    pem_certs (contents fc) = Ok id.1 ∧ pem_private_key (contents fk) = Ok (Some id.2).
Proof.
  unfold load_pem_identity. intros E. apply fs_bind_inv in E as (? & chain & E1 & E).
  apply load_pem_certs_inv in E1 as (-> & ? & fc & ? & ?).
  apply fs_bind_inv in E as (? & pem & E1 & E). fs_inv. apply fs_read_inv in E1 as (-> & fk & ? & <-).
  apply fs_bind_inv in E as (? & k & E1 & E). fs_inv. apply fs_bind_inv in E as (? & k' & E2 & E). fs_inv.
  destruct k as [k|]; simplify_eq/=. split_and!; [done..|]. by exists fc, fk.
Qed.

Lemma load_pem_identity_ok cert key st fc fk chain k :
  read_fault cert = None → read_fault key = None →
  st !! cert = Some fc → st !! key = Some fk →
  pem_certs (contents fc) = Ok chain → chain ≠ [] → pem_private_key (contents fk) = Ok (Some k) →
  load_pem_identity cert key st = (st, Ok (chain, k)).
Proof.
  intros Hc Hk Ec Ek Ep Hn Eq.
  assert (load_pem_certs cert st = (st, Ok chain)) as E.
  { unfold load_pem_certs, mbind, fs_bind, with_context, fs_read, fs_lift. rewrite Hc, Ec. simpl.
    rewrite Ep. simpl. by rewrite decide_False. }
  unfold load_pem_identity. rewrite (fs_bind_ok _ _ _ _ _ E).
  unfold mbind, fs_bind, with_context, fs_read, fs_lift. rewrite Hk, Ek. simpl. by rewrite Eq.
Qed.

Lemma join_names dir : join dir (str "server.pem") ≠ join dir (str "server.key").
Proof. unfold join. simpl. case_decide; [done|]. case_match; intros E; by simplify_list_eq. Qed.

(** [rcgen]'s two encodings of what it generated describe the same identity. *)
Definition encodes (g : Generated) : Prop :=
  pem_certs (cert_pem g) = Ok [cert_der g] ∧ pem_private_key (key_pem g) = Ok (Some (key_der g)).

(** The files a first run leaves, and the identity it returns. *)
Lemma create_self_signed_inv g dir st st' id :
  exists_file (join dir (str "server.pem")) st && exists_file (join dir (str "server.key")) st = false →
  load_or_create_self_signed (Ok g) dir st = (st', Ok id) →
  id = ([cert_der g], key_der g) ∧
  (contents <$> st' !! join dir (str "server.pem") = Some (cert_pem g)) ∧
  st' !! join dir (str "server.key") = Some (mkFile (key_pem g) 0x180).
Proof.
  intros Hx E. unfold load_or_create_self_signed in E. rewrite Hx in E.
  pose proof (join_names dir) as Hne.
  set (pc := join dir (str "server.pem")) in *. set (pk := join dir (str "server.key")) in *.
  apply fs_bind_inv in E as (? & [] & E1 & E). fs_inv. unfold create_dir_all in E1.
  injection E1 as <- E1. apply fs_bind_inv in E as (? & g' & E2 & E). fs_inv. simplify_eq.
  apply fs_bind_inv in E as (st1 & [] & E3 & E). fs_inv.
  apply fs_bind_inv in E as (st2 & [] & E4 & E). fs_inv.
  unfold fs_write in E3. destruct (write_fault pc) as [[? []]|]; [done..|]. simplify_eq.
  unfold write_secret_file in E4. apply fs_bind_inv in E4 as (st3 & [] & E4 & E5).
  unfold fs_write in E4. destruct (write_fault pk) as [[? []]|]; [done..|]. simplify_eq.
  unfold set_mode, put_file in E5. rewrite lookup_insert_eq in E5.
  destruct (chmod_fault pk); [done|]. simplify_eq. split_and!; [done| |apply lookup_insert_eq].
  rewrite lookup_insert_ne by done. rewrite lookup_insert_ne by done.
  unfold put_file. by rewrite lookup_insert_eq.
Qed.

(** C28: the identity of a self-signed server survives a restart: whatever
    certificate a later run would generate, it presents the chain and key of the
    first run, its fingerprint is the one logged before, no file changes, and a key
    the first run created is readable by its owner only. *)
Theorem self_signed_stable g generated' dir st st' id :
  encodes g → read_fault (join dir (str "server.pem")) = None →
  read_fault (join dir (str "server.key")) = None →
  load_or_create_self_signed (Ok g) dir st = (st', Ok id) →
  load_or_create_self_signed generated' dir st' = (st', Ok id) ∧
  (st' ≠ st → mode <$> st' !! join dir (str "server.key") = Some 0x180) ∧
  is_Some (logged_fingerprint id).
Proof.
  intros [Hgc Hgk] Hrc Hrk E.
  destruct (exists_file (join dir (str "server.pem")) st &&
            exists_file (join dir (str "server.key")) st) eqn:Hx.
  - unfold load_or_create_self_signed in E. rewrite Hx in E.
    pose proof (load_pem_identity_inv _ _ _ _ _ E) as (-> & Hn & _). split_and!; [|done|].
    + unfold load_or_create_self_signed. by rewrite Hx.
    + unfold logged_fingerprint. destruct id as [[|leaf chain] k]; [done|]. by eexists.
  - destruct (create_self_signed_inv _ _ _ _ _ Hx E) as (-> & Ec & Ek).
    destruct (st' !! join dir (str "server.pem")) as [fc|] eqn:Efc; simplify_eq/=.
    split_and!; [|by rewrite Ek|by eexists].
    unfold load_or_create_self_signed, exists_file. rewrite !bool_decide_true by (rewrite ?Efc, ?Ek; done).
    apply (load_pem_identity_ok _ _ _ fc _ [cert_der g] (key_der g) Hrc Hrk Efc Ek); cbn [contents]; try done.
    by match goal with E : contents fc = _ |- _ => rewrite E end.
Qed.

(** What a client demands of the server, by mode: nothing with [--insecure],
    exactly the pinned digest with a fingerprint, and a chain to the certificates of
    the CA file (of which there is at least one) otherwise; it presents a
    certificate exactly in the mTLS mode, and building the configuration changes no
    file. *)
Theorem client_verifies tls st st' cfg :
  build_quic_client_config tls st = (st', Ok cfg) →
  st' = st ∧
  (is_Some (tc_identity cfg) ↔ ∃ ca cert key name, tls = ClientMtls ca cert key name) ∧
  match tls with
  | ClientInsecure => ∀ ee inter name, verify_server_cert (tc_verifier cfg) ee inter name = Ok tt
  | Fingerprint sha _ => ∀ ee inter name,
      verify_server_cert (tc_verifier cfg) ee inter name = Ok tt ↔ cert_sha256 ee = sha
  | Ca ca _ | ClientMtls ca _ _ _ => ∃ roots, bundle st ca roots ∧ ∀ ee inter name,
      verify_server_cert (tc_verifier cfg) ee inter name = webpki_verify roots ee inter name
  end.
Proof.
  unfold build_quic_client_config. intros E. apply fs_bind_inv in E as (st1 & [v id] & E1 & E).
  apply fs_bind_inv in E as (? & [] & E2 & E). fs_inv. destruct tls as [|sha n|ca n|ca cert key n]; fs_inv.
  - split_and!; [done| |done]. split; [by intros []|naive_solver].
  - split_and!; [done|split; [by intros []|naive_solver]|]. intros. case_decide; by split.
  - apply fs_bind_inv in E1 as (? & roots & E1 & E3). fs_inv.
    apply load_root_store_inv in E1 as [-> Hb].
    split_and!; [done|split; [by intros []|naive_solver]|]. by exists roots.
  - apply fs_bind_inv in E1 as (? & roots & E1 & E3). apply load_root_store_inv in E1 as [-> Hb].
    apply fs_bind_inv in E3 as (? & id' & E1 & E3). apply load_pem_identity_inv in E1 as [-> _].
    apply fs_bind_inv in E3 as (? & [] & E1 & E3). fs_inv.
    split_and!; [done|naive_solver|]. by exists roots.
Qed.

(** The server demands client certificates exactly in the mTLS mode, chained to
    the certificates of its CA file, and in every mode presents the identity it
    loaded. *)
Theorem server_requires generated tls st st' cfg :
  create_server_endpoint generated tls st = (st', Ok cfg) →
  (∃ id, load_server_identity generated tls st = (st', Ok id) ∧ ts_identity cfg = id ∧
         usable_identity id.1 id.2 = Ok tt) ∧
  match tls with
  | ServerMtls _ _ ca => ∃ roots, ts_client_roots cfg = Some roots ∧ bundle st ca roots ∧
                           client_verifier roots = Ok tt
  | _ => ts_client_roots cfg = None
  end.
Proof.
  unfold create_server_endpoint. intros E. apply fs_bind_inv in E as (st1 & id & E1 & E).
  unfold build_quic_server_config in E. apply fs_bind_inv in E as (st2 & c & E2 & E).
  apply fs_bind_inv in E as (? & [] & E3 & E). fs_inv.
  assert (usable_identity id.1 id.2 = Ok tt ∧ st2 = st1 ∧
          match tls with
          | ServerMtls _ _ ca => ∃ roots, c = Some roots ∧ bundle st1 ca roots ∧ client_verifier roots = Ok tt
          | _ => c = None end) as (Hu & -> & Hc).
  { destruct tls as [| | |cert key ca].
    4:{ apply fs_bind_inv in E2 as (? & roots & E2 & E4). apply load_root_store_inv in E2 as [-> Hb].
        apply fs_bind_inv in E4 as (? & [] & E2 & E4). fs_inv.
        apply fs_bind_inv in E4 as (? & [] & E4 & E5). fs_inv. split_and!; [done..|]. by exists roots. }
    all: apply fs_bind_inv in E2 as (? & [] & E2 & E4); by fs_inv. }
  split; [by exists id|]. destruct tls as [| | |cert key ca]; try done.
  simpl in E1. by apply load_pem_identity_inv in E1 as [-> _].
Qed.

(** Pinning what the server logged accepts exactly the certificates of that digest. *)
Lemma pinned_by_log id fp name st st' cfg :
  logged_fingerprint id = Some fp →
  ∃ sha leaf, head id.1 = Some leaf ∧ parse_fingerprint fp = Returns (Ok sha) ∧
    (build_quic_client_config (Fingerprint sha name) st = (st', Ok cfg) →
     ∀ ee inter sni, verify_server_cert (tc_verifier cfg) ee inter sni = Ok tt ↔
       cert_sha256 ee = cert_sha256 leaf).
Proof.
  unfold logged_fingerprint. destruct (head id.1) as [leaf|]; [|done]. intros [= <-].
  exists (cert_sha256 leaf), leaf. split_and!; [done|apply parse_format_fingerprint, cert_sha256_length|].
  unfold build_quic_client_config. intros E. apply fs_bind_inv in E as (? & [v i] & E1 & E). fs_inv.
  apply fs_bind_inv in E as (? & [] & E2 & E). fs_inv. intros. case_decide; by split.
Qed.

End identity_spec.

(** ** Examples *)

#[local] Instance no_faults : Faults := {|
  read_fault _ := None; write_fault _ := None; mkdir_fault _ := None; chmod_fault _ := None;
  default_mode := 0x1A4 |}.

(** PEM as the identity, a digest of the first 32 bytes, roots matched by equality. *)
#[local] Instance demo_pki : Pki.
Proof.
  refine {|
    pem_certs b := Ok (if decide (b = []) then [] else [b]);
    pem_private_key b := Ok (Some b);
    cert_sha256 c := resize 32 zero c;
    root_add _ := Ok tt; client_verifier _ := Ok tt; usable_identity _ _ := Ok tt;
    quic_crypto := Ok tt;
    webpki_verify roots ee _ _ := if decide (ee ∈ roots) then Ok tt else Err (str "UnknownIssuer") |}.
  intros c. apply length_resize.
Defined.

Definition demo_generated : Generated :=
  mkGenerated (str "cert") (str "cert") (str "key") (str "key").
Definition demo_files : Files := <[str "ca.pem" := mkFile (str "root") 0x1A4]> ∅.
Definition demo_first_run : Files * result bytes Identity :=
  load_or_create_self_signed (Ok demo_generated) (str "/s") demo_files.

Lemma self_signed_stable_witness :
  load_or_create_self_signed (Err (str "no entropy")) (str "/s") demo_first_run.1 =
    (demo_first_run.1, Ok ([str "cert"], str "key")).
Proof.
  refine (proj1 (self_signed_stable demo_generated _ (str "/s") demo_files _ _ _ _ _ _));
    [by split|reflexivity..|vm_cast_no_check (eq_refl demo_first_run)].
Defined.

Lemma client_verifies_witness :
  ∃ roots, bundle demo_files (str "ca.pem") roots.
Proof.
  refine (match proj2 (proj2 (client_verifies (Ca (str "ca.pem") None) demo_files demo_files
            (mkTlsClient (WebPkiVerifier [str "root"]) None ALPN_QUIC_HTTP) _)) with
          | ex_intro _ roots (conj Hb _) => ex_intro _ roots Hb end).
  vm_cast_no_check (eq_refl (build_quic_client_config (Ca (str "ca.pem") None) demo_files)).
Defined.

Lemma server_requires_witness :
  ts_client_roots (mkTlsServer ([str "root"], str "root") (Some [str "root"]) ALPN_QUIC_HTTP) ≠ None.
Proof.
  refine (match proj2 (server_requires (Err []) (ServerMtls (str "ca.pem") (str "ca.pem") (str "ca.pem"))
            demo_files demo_files (mkTlsServer ([str "root"], str "root") (Some [str "root"]) ALPN_QUIC_HTTP) _)
          with ex_intro _ roots (conj E _) => _ end).
  - vm_cast_no_check (eq_refl (create_server_endpoint (Err [])
      (ServerMtls (str "ca.pem") (str "ca.pem") (str "ca.pem")) demo_files)).
  - rewrite E. discriminate.
Defined.

