(* ===== verification/Cli.v ===== *)
(** * Cli: from the command line and the configuration file to a run

    [src/main.rs], [src/config_file.rs], [src/embedded.rs] and the configuration
    types of [src/lib.rs]: parsing of the server address, the merge of the flags
    with the sections of the TOML file, the choice of the TLS mode, and what the
    [server] and [client] arms of [main] hand to the library.

    The flags as clap parsed them, the deserialised file, the constants [build.rs]
    generated, the home directory and the name lookups are inputs. *)

From S2P Require Import Prelude Text NetAddr Remote Proxy Tls Client.

(** ** Configurations of the library ([src/lib.rs]) *)

Record ServerEndpoint := mkEndpoint { ep_addrs : list SocketAddr; ep_host : bytes }.

(** [ServerEndpoint::primary]: the [expect] panics without an address. *)
Definition primary (e : ServerEndpoint) : panicking SocketAddr :=
  match ep_addrs e with [] => Panics | a :: _ => Returns a end.

Definition fmt_endpoint (e : ServerEndpoint) : bytes :=
  match ep_addrs e with
  | [addr] => if decide (ep_host e = fmt_ip (sa_ip addr)) then fmt_socket addr
              else ep_host e ++ str " (" ++ fmt_socket addr ++ str ")"
  | addrs => ep_host e ++ str " (" ++
             concat (imap (λ i a, (if (0 <? i)%nat then str ", " else []) ++ fmt_socket a) addrs) ++
             str ")"
  end.

Record ServerConfig := mkServerConfig {
  cfg_host : IpAddr; cfg_port : N; cfg_allow_reverse : bool; cfg_allow_socks : bool;
  cfg_tls : ServerTlsConfig; cfg_congestion : Congestion; cfg_max_connections : option N;
  cfg_admin_socket : option PathBuf }.

Record ClientConfig := mkClientConfig {
  ccfg_server : ServerEndpoint; ccfg_remotes : list RemoteRequest; ccfg_tls : ClientTlsConfig;
  ccfg_congestion : Congestion; ccfg_reconnect : ReconnectConfig; ccfg_proxy : option ProxyConfig }.

(** [ReconnectConfig::default()], in nanoseconds. *)
Definition reconnect_default : ReconnectConfig :=
  mkReconnectConfig None (200 * 1000000) (300 * 1000000000).

(** ** Values of the flags *)

Inductive LogFormat := Compact | Json.

#[export] Instance LogFormat_eq_dec : EqDecision LogFormat.
Proof. solve_decision. Defined.

Definition parse_duration_secs (s : bytes) : result bytes Duration :=
  match parse_u64 s with
  | Ok secs => Ok (secs * 1000000000)
  | Err e => Err (str "invalid duration `" ++ s ++ str "` (expected whole seconds): " ++
                  fmt_int_error e)
  end.

(** [format!("{raw}")] of an [i64] that is not negative. *)
Definition max_retries_from_cli (raw : Z) : result bytes (option N) :=
  if (raw <? 0)%Z then Ok None
  else if (raw <=? Z.of_N u32_max)%Z then Ok (Some (Z.to_N raw))
  else Err (str "retry count `" ++ fmt_dec (Z.to_N raw) ++ str "` is too large").

(** [str::to_socket_addrs]: a literal, or a host to look up and a port.
    [lookup] is the system's resolver. *)
Definition to_socket_addrs (lookup : bytes → N → result bytes (list SocketAddr)) (s : bytes) :
    result bytes (list SocketAddr) :=
  match parse_socket s with
  | Some a => Ok [a]
  | None =>
      match rsplit_once ":"%char s with
      | None => Err (str "invalid socket address")
      | Some (host, port) =>
          match parse_u16 port with
          | Err _ => Err (str "invalid port value")
          | Ok p => lookup host p
          end
      end
  end.

(** The final loop of [interleave_address_families]. *)
Fixpoint alternate {A} (primary alternates : list A) : list A :=
  match primary, alternates with
  | a :: p, b :: q => a :: b :: alternate p q
  | p, [] => p
  | [], q => q
  end.

Definition interleave_address_families (resolved : list SocketAddr) : list SocketAddr :=
  let v6 := filter (λ a, is_ipv6 a = true) resolved in
  let v4 := filter (λ a, is_ipv6 a = false) resolved in
  if bool_decide (v6 ≠ []) && bool_decide (v4 ≠ []) then alternate v6 v4 else alternate v4 v6.

Definition parse_server_addr (lookup : bytes → N → result bytes (list SocketAddr)) (s : bytes) :
    result bytes ServerEndpoint :=
  host ← match strip_prefix (str "[") s with
         | Some rest =>
             match position "]"%char rest with
             | Some close => Ok (take close rest)
             | None => Err (str "malformed IPv6 address in `" ++ s ++ str "` (missing `]`)")
             end
         | None =>
             match rsplit_once ":"%char s with
             | Some (h, _) => Ok h
             | None => Err (str "expected host:port in `" ++ s ++ str "`")
             end
         end;
  resolved ← map_err (λ e, str "failed to resolve server address `" ++ s ++ str "`: " ++ e)
               (to_socket_addrs lookup s);
  if decide (resolved = []) then Err (str "no addresses found for server `" ++ s ++ str "`")
  else Ok (mkEndpoint (interleave_address_families resolved) host).

Definition parse_remote (s : bytes) : result bytes RemoteRequest :=
  map_err (λ e, str "invalid remote `" ++ s ++ str "`: " ++ e) (from_str s).

Definition parse_proxy (s : bytes) : result bytes ProxyConfig := proxy_from_str s.

(** [init_logging]: the directive used when RUST_LOG is not set. *)
Definition default_directive (verbose debug quiet : bool) : bytes :=
  if debug then str "rusnel=trace,info"
  else if verbose then str "rusnel=debug,info"
  else if quiet then str "rusnel=warn,warn"
  else str "rusnel=info,warn".

(** ** Embedded credentials

    The constants [build.rs] writes are inputs of the model. *)
Record Embedded := mkEmbedded {
  EMBED_CA : option bytes; EMBED_SERVER_CERT : option bytes; EMBED_SERVER_KEY : option bytes;
  EMBED_CLIENT_CERT : option bytes; EMBED_CLIENT_KEY : option bytes;
  EMBED_FINGERPRINT : option bytes; EMBED_SERVER_NAME : option bytes;
  EMBED_ARGS : option (list bytes) }.

Record Materialized := mkMaterialized {
  mat_ca : option PathBuf; mat_server_cert : option PathBuf; mat_server_key : option PathBuf;
  mat_client_cert : option PathBuf; mat_client_key : option PathBuf }.

Section embedding.
Context `{Faults}.

Definition write_if_some (dir : PathBuf) (name : bytes) (b : option bytes) (secret : bool) :
    fs (option PathBuf) :=
  match b with
  | None => mret None
  | Some b =>
      let path := join dir name in
      with_context (str "failed to write " ++ path) (fs_write path b);;
      (if secret then set_mode path 0x180 else mret tt);;
      mret (Some path)
  end.

Definition any_byte_embedded (e : Embedded) : bool :=
  bool_decide (is_Some (EMBED_CA e)) || bool_decide (is_Some (EMBED_SERVER_CERT e)) ||
  bool_decide (is_Some (EMBED_SERVER_KEY e)) || bool_decide (is_Some (EMBED_CLIENT_CERT e)) ||
  bool_decide (is_Some (EMBED_CLIENT_KEY e)).

Definition materialize_uncached (e : Embedded) (temp_dir : PathBuf) (pid : N) : fs Materialized :=
  if any_byte_embedded e then
    let dir := join temp_dir (str "rusnel-embed-" ++ fmt_dec pid) in
    with_context (str "failed to create embed tempdir " ++ dir) (create_dir_all dir);;
    ca ← write_if_some dir (str "ca.pem") (EMBED_CA e) false;
    server_cert ← write_if_some dir (str "server.pem") (EMBED_SERVER_CERT e) false;
    server_key ← write_if_some dir (str "server.key") (EMBED_SERVER_KEY e) true;
    client_cert ← write_if_some dir (str "client.pem") (EMBED_CLIENT_CERT e) false;
    client_key ← write_if_some dir (str "client.key") (EMBED_CLIENT_KEY e) true;
    mret (mkMaterialized ca server_cert server_key client_cert client_key)
  else mret (mkMaterialized None None None None None).

End embedding.

(** ** The TLS mode *)

Section tls_modes.
Variable home_dir : option PathBuf.

Definition default_state_dir : result bytes PathBuf :=
  ok_or ((λ h, join h (str ".rusnel")) <$> home_dir)
    (str "could not determine home directory; pass --tls-state-dir explicitly").

Definition resolve_server_tls (insecure tls_self_signed : bool)
    (tls_state_dir tls_cert tls_key tls_ca : option PathBuf) (embedded : Materialized) :
    result bytes ServerTlsConfig :=
  if insecure then Ok ServerInsecure
  else if tls_self_signed then
    state_dir ← match tls_state_dir with Some p => Ok p | None => default_state_dir end;
    Ok (SelfSigned state_dir)
  else
    match tls_cert, tls_key with
    | Some cert, Some key =>
        Ok (match tls_ca with Some ca => ServerMtls cert key ca | None => Provided cert key end)
    | _, _ =>
        match mat_server_cert embedded, mat_server_key embedded with
        | Some cert, Some key =>
            Ok (match mat_ca embedded with
                | Some ca => ServerMtls cert key ca
                | None => Provided cert key
                end)
        | _, _ =>
            Err (str "no TLS mode specified. Pass one of --insecure, --tls-self-signed, --tls-cert + --tls-key (with optional --tls-ca for mTLS), or build with RUSNEL_EMBED_SERVER_CERT / RUSNEL_EMBED_SERVER_KEY.")
        end
    end.

(** A fingerprint is parsed on two of the paths; its panic is the program's. *)
Definition pinned (raw what : bytes) (server_name : option bytes) :
    panicking (result bytes ClientTlsConfig) :=
  match parse_fingerprint raw with
  | Panics => Panics
  | Returns (Ok sha256) => Returns (Ok (Fingerprint sha256 server_name))
  | Returns (Err e) => Returns (Err (what ++ str " `" ++ raw ++ str "`: " ++ e))
  end.

Definition resolve_client_tls (e : Embedded) (insecure : bool)
    (tls_fingerprint tls_ca tls_cert tls_key tls_server_name : option bytes)
    (embedded : Materialized) : panicking (result bytes ClientTlsConfig) :=
  let server_name := match tls_server_name with Some n => Some n | None => EMBED_SERVER_NAME e end in
  if insecure then Returns (Ok ClientInsecure)
  else
    match tls_fingerprint with
    | Some raw => pinned raw (str "invalid --tls-fingerprint value") server_name
    | None =>
        match tls_ca with
        | Some ca =>
            Returns (Ok (match tls_cert, tls_key with
                         | Some cert, Some key => ClientMtls ca cert key server_name
                         | _, _ => Ca ca server_name
                         end))
        | None =>
            match mat_ca embedded with
            | Some ca =>
                Returns (Ok (match mat_client_cert embedded, mat_client_key embedded with
                             | Some cert, Some key => ClientMtls ca cert key server_name
                             | _, _ => Ca ca server_name
                             end))
            | None =>
                match EMBED_FINGERPRINT e with
                | Some fp => pinned fp (str "invalid embedded fingerprint (RUSNEL_EMBED_FINGERPRINT)")
                               server_name
                | None =>
                    Returns (Err (str "no TLS mode specified. Pass one of --insecure, --tls-fingerprint, --tls-ca (with optional --tls-cert + --tls-key for mTLS), or build with RUSNEL_EMBED_CA / RUSNEL_EMBED_FINGERPRINT."))
                end
            end
        end
    end.

End tls_modes.

Definition resolve_argv (pkg_name : bytes) (e : Embedded) (raw : list bytes) : list bytes :=
  if (1 <? length raw)%nat then raw
  else match EMBED_ARGS e with
       | None => raw
       | Some embedded => default pkg_name (head raw) :: embedded
       end.

(** ** Flags and sections *)

Inductive ValueSource := DefaultValue | EnvVariable | CommandLine.

#[export] Instance ValueSource_eq_dec : EqDecision ValueSource.
Proof. solve_decision. Defined.

(** What [ArgMatches::value_source] answers for an argument. *)
Abbreviation ArgMatches := (bytes → option ValueSource).

Definition cli_explicit (matches : ArgMatches) (name : string) : bool :=
  bool_decide (matches (str name) = Some CommandLine).

Definition pick {T} (cli_val : T) (was_explicit : bool) (file_val : option T) : T :=
  if was_explicit then cli_val else default cli_val file_val.

Record ServerCli := mkServerCli {
  sc_host : IpAddr; sc_port : N; sc_allow_reverse : bool; sc_allow_socks : bool;
  sc_insecure : bool; sc_tls_self_signed : bool; sc_tls_state_dir : option PathBuf;
  sc_tls_cert : option PathBuf; sc_tls_key : option PathBuf; sc_tls_ca : option PathBuf;
  sc_congestion : Congestion; sc_max_connections : N; sc_admin_socket : option PathBuf;
  sc_no_admin_socket : bool; sc_is_verbose : bool; sc_is_debug : bool; sc_is_quiet : bool;
  sc_log_format : LogFormat }.

Record ServerSection := mkServerSection {
  ss_host : option IpAddr; ss_port : option N; ss_allow_reverse : option bool;
  ss_allow_socks : option bool; ss_insecure : option bool; ss_tls_self_signed : option bool;
  ss_tls_state_dir : option PathBuf; ss_tls_cert : option PathBuf; ss_tls_key : option PathBuf;
  ss_tls_ca : option PathBuf; ss_congestion : option Congestion; ss_max_connections : option N;
  ss_admin_socket : option PathBuf; ss_no_admin_socket : option bool; ss_verbose : option bool;
  ss_debug : option bool; ss_quiet : option bool; ss_log_format : option LogFormat }.

(** [a.or(b)] *)
Definition or {T} (a b : option T) : option T := match a with Some x => Some x | None => b end.

Definition server_set_tls (matches : ArgMatches) : bool :=
  cli_explicit matches "insecure" || cli_explicit matches "tls_self_signed" ||
  cli_explicit matches "tls_cert" || cli_explicit matches "tls_key" || cli_explicit matches "tls_ca".

Definition merge_server_with_file (cli : ServerCli) (file : option ServerSection)
    (matches : ArgMatches) : ServerCli :=
  match file with
  | None => cli
  | Some file =>
      let cli_set_tls := server_set_tls matches in
      {| sc_host := pick (sc_host cli) (cli_explicit matches "host") (ss_host file);
         sc_port := pick (sc_port cli) (cli_explicit matches "port") (ss_port file);
         sc_allow_reverse := pick (sc_allow_reverse cli) (cli_explicit matches "allow_reverse")
                               (ss_allow_reverse file);
         sc_allow_socks := pick (sc_allow_socks cli) (cli_explicit matches "allow_socks")
                             (ss_allow_socks file);
         sc_insecure := if cli_set_tls then sc_insecure cli
                        else default (sc_insecure cli) (ss_insecure file);
         sc_tls_self_signed := if cli_set_tls then sc_tls_self_signed cli
                               else default (sc_tls_self_signed cli) (ss_tls_self_signed file);
         sc_tls_state_dir := if cli_set_tls then sc_tls_state_dir cli
                             else or (ss_tls_state_dir file) (sc_tls_state_dir cli);
         sc_tls_cert := if cli_set_tls then sc_tls_cert cli
                        else or (ss_tls_cert file) (sc_tls_cert cli);
         sc_tls_key := if cli_set_tls then sc_tls_key cli
                       else or (ss_tls_key file) (sc_tls_key cli);
         sc_tls_ca := if cli_set_tls then sc_tls_ca cli
                      else or (ss_tls_ca file) (sc_tls_ca cli);
         sc_congestion := pick (sc_congestion cli) (cli_explicit matches "congestion")
                            (ss_congestion file);
         sc_max_connections := pick (sc_max_connections cli) (cli_explicit matches "max_connections")
                                 (ss_max_connections file);
         sc_admin_socket := pick (sc_admin_socket cli) (cli_explicit matches "admin_socket")
                              (Some <$> ss_admin_socket file);
         sc_no_admin_socket := pick (sc_no_admin_socket cli) (cli_explicit matches "no_admin_socket")
                                 (ss_no_admin_socket file);
         sc_is_verbose := pick (sc_is_verbose cli) (cli_explicit matches "is_verbose")
                            (ss_verbose file);
         sc_is_debug := pick (sc_is_debug cli) (cli_explicit matches "is_debug") (ss_debug file);
         sc_is_quiet := pick (sc_is_quiet cli) (cli_explicit matches "is_quiet") (ss_quiet file);
         sc_log_format := pick (sc_log_format cli) (cli_explicit matches "log_format")
                            (ss_log_format file) |}
  end.

Record ClientCli := mkClientCli {
  cc_server : option ServerEndpoint; cc_remotes : list RemoteRequest; cc_insecure : bool;
  cc_tls_fingerprint : option bytes; cc_tls_ca : option PathBuf; cc_tls_cert : option PathBuf;
  cc_tls_key : option PathBuf; cc_tls_server_name : option bytes; cc_congestion : Congestion;
  cc_max_retry_count : Z; cc_max_retry_interval : Duration; cc_proxy : option ProxyConfig;
  cc_is_verbose : bool; cc_is_debug : bool; cc_is_quiet : bool; cc_log_format : LogFormat }.

Record ClientSection := mkClientSection {
  cs_server : option bytes; cs_remotes : option (list bytes); cs_insecure : option bool;
  cs_tls_fingerprint : option bytes; cs_tls_ca : option PathBuf; cs_tls_cert : option PathBuf;
  cs_tls_key : option PathBuf; cs_tls_server_name : option bytes; cs_congestion : option Congestion;
  cs_max_retry_count : option Z; cs_max_retry_interval : option N; cs_proxy : option bytes;
  cs_verbose : option bool; cs_debug : option bool; cs_quiet : option bool;
  cs_log_format : option LogFormat }.

(** [iter().map(f).collect::<Result<Vec<_>, _>>()] *)
Fixpoint collect {E A B} (f : A → result E B) (l : list A) : result E (list B) :=
  match l with
  | [] => Ok []
  | a :: l' => b ← f a; bs ← collect f l'; Ok (b :: bs)
  end.

Definition client_set_tls (matches : ArgMatches) : bool :=
  cli_explicit matches "insecure" || cli_explicit matches "tls_fingerprint" ||
  cli_explicit matches "tls_ca" || cli_explicit matches "tls_cert" || cli_explicit matches "tls_key".

Section runs.
Variable lookup : bytes → N → result bytes (list SocketAddr).
Variable home_dir : option PathBuf.
Variable euid : N.

Definition merged_server (cli : ClientCli) (file : ClientSection) :
    result bytes (option ServerEndpoint) :=
  match cc_server cli, cs_server file with
  | Some s, _ => Ok (Some s)
  | None, Some s =>
      Some <$> map_err (λ e, str "[client].server in config file: " ++ e) (parse_server_addr lookup s)
  | None, None => Ok None
  end.

Definition merged_remotes (cli : ClientCli) (file : ClientSection) :
    result bytes (list RemoteRequest) :=
  match cc_remotes cli, cs_remotes file with
  | [], Some l =>
      collect (λ r, map_err (λ e, str "[client].remotes entry `" ++ r ++ str "` in config file: " ++ e)
                      (parse_remote r)) l
  | [], None => Ok []
  | remotes, _ => Ok remotes
  end.

Definition merged_proxy (cli : ClientCli) (file : ClientSection) (matches : ArgMatches) :
    result bytes (option ProxyConfig) :=
  if cli_explicit matches "proxy" then Ok (cc_proxy cli)
  else match cs_proxy file with
       | Some s => Some <$> map_err (λ e, str "[client].proxy in config file: " ++ e) (parse_proxy s)
       | None => Ok (cc_proxy cli)
       end.

Definition merge_client_with_file (cli : ClientCli) (file : option ClientSection)
    (matches : ArgMatches) : result bytes ClientCli :=
  match file with
  | None => Ok cli
  | Some file =>
      server ← merged_server cli file;
      remotes ← merged_remotes cli file;
      proxy ← merged_proxy cli file matches;
      let cli_set_tls := client_set_tls matches in
      Ok {| cc_server := server; cc_remotes := remotes;
            cc_insecure := if cli_set_tls then cc_insecure cli
                           else default (cc_insecure cli) (cs_insecure file);
            cc_tls_fingerprint := if cli_set_tls then cc_tls_fingerprint cli
                                  else or (cs_tls_fingerprint file) (cc_tls_fingerprint cli);
            cc_tls_ca := if cli_set_tls then cc_tls_ca cli else or (cs_tls_ca file) (cc_tls_ca cli);
            cc_tls_cert := if cli_set_tls then cc_tls_cert cli
                           else or (cs_tls_cert file) (cc_tls_cert cli);
            cc_tls_key := if cli_set_tls then cc_tls_key cli
                          else or (cs_tls_key file) (cc_tls_key cli);
            cc_tls_server_name := pick (cc_tls_server_name cli) (cli_explicit matches "tls_server_name")
                                    (Some <$> cs_tls_server_name file);
            cc_congestion := pick (cc_congestion cli) (cli_explicit matches "congestion")
                               (cs_congestion file);
            cc_max_retry_count := pick (cc_max_retry_count cli) (cli_explicit matches "max_retry_count")
                                    (cs_max_retry_count file);
            cc_max_retry_interval :=
              if cli_explicit matches "max_retry_interval" then cc_max_retry_interval cli
              else default (cc_max_retry_interval cli)
                     ((λ secs, secs * 1000000000) <$> cs_max_retry_interval file);
            cc_proxy := proxy;
            cc_is_verbose := pick (cc_is_verbose cli) (cli_explicit matches "is_verbose")
                               (cs_verbose file);
            cc_is_debug := pick (cc_is_debug cli) (cli_explicit matches "is_debug") (cs_debug file);
            cc_is_quiet := pick (cc_is_quiet cli) (cli_explicit matches "is_quiet") (cs_quiet file);
            cc_log_format := pick (cc_log_format cli) (cli_explicit matches "log_format")
                               (cs_log_format file) |}
  end.

(** [ctl::default_socket_path] *)
Definition default_socket_path : PathBuf :=
  match home_dir with
  | Some home => join (join home (str ".rusnel")) (str "admin.sock")
  | None => str "/tmp/rusnel-admin-" ++ fmt_dec euid ++ str ".sock"
  end.

(** The [Mode::Server] arm of [main] on unix: an error is what clap prints before it
    exits; otherwise the configuration [run_server] gets. [section] is what
    [config_file::load] gave and [embedded] what [embedded::materialize] gave. *)
Definition server_main (cli : ServerCli) (section : result bytes (option ServerSection))
    (matches : ArgMatches) (embedded : result bytes Materialized) : result bytes ServerConfig :=
  section ← section;
  let m := merge_server_with_file cli section matches in
  mat ← map_err (λ e, str "failed to materialize embedded credentials: " ++ e) embedded;
  tls ← resolve_server_tls home_dir (sc_insecure m) (sc_tls_self_signed m) (sc_tls_state_dir m)
          (sc_tls_cert m) (sc_tls_key m) (sc_tls_ca m) mat;
  Ok {| cfg_host := sc_host m; cfg_port := sc_port m; cfg_allow_reverse := sc_allow_reverse m;
        cfg_allow_socks := sc_allow_socks m; cfg_tls := tls; cfg_congestion := sc_congestion m;
        cfg_max_connections := if sc_max_connections m =? 0 then None else Some (sc_max_connections m);
        cfg_admin_socket := if sc_no_admin_socket m then None
                            else Some (default default_socket_path (sc_admin_socket m)) |}.

(** The [Mode::Client] arm. *)
Definition client_main (e : Embedded) (cli : ClientCli) (section : result bytes (option ClientSection))
    (matches : ArgMatches) (embedded : result bytes Materialized) :
    panicking (result bytes ClientConfig) :=
  match (section ← section;
         m ← merge_client_with_file cli section matches;
         server ← ok_or (cc_server m)
           (str "missing server address: pass it as a positional argument or set `server = " ++
            octets [34] ++ str "host:port" ++ octets [34] ++ str "` in the [client] section of --config");
         if decide (cc_remotes m = []) then
           Err (str "no remotes specified: pass at least one as a positional argument or set `remotes = [...]` in the [client] section of --config")
         else
           mat ← map_err (λ e, str "failed to materialize embedded credentials: " ++ e) embedded;
           Ok (m, server, mat)) with
  | Err err => Returns (Err err)
  | Ok (m, server, mat) =>
      match resolve_client_tls e (cc_insecure m) (cc_tls_fingerprint m) (cc_tls_ca m) (cc_tls_cert m)
              (cc_tls_key m) (cc_tls_server_name m) mat with
      | Panics => Panics
      | Returns (Err err) => Returns (Err err)
      | Returns (Ok tls) =>
          Returns (max_retries ← max_retries_from_cli (cc_max_retry_count m);
                   Ok {| ccfg_server := server; ccfg_remotes := cc_remotes m; ccfg_tls := tls;
                         ccfg_congestion := cc_congestion m;
                         ccfg_reconnect := mkReconnectConfig max_retries
                           (initial_backoff reconnect_default) (cc_max_retry_interval m);
                         ccfg_proxy := cc_proxy m |})
      end
  end.

End runs.

(** * Properties *)

(** ** The server's address *)

Lemma alternate_perm {A} (p q : list A) : alternate p q ≡ₚ p ++ q.
Proof.
  revert q. induction p as [|a p IH]; intros [|b q]; simpl; [done|done|by rewrite app_nil_r|].
  rewrite IH. by rewrite Permutation_middle.
Qed.

Lemma filter_all {A} (P : A → Prop) `{∀ a, Decision (P a)} l : Forall P l → filter P l = l.
Proof. induction 1; [done|]. rewrite filter_cons_True by done. by f_equal. Qed.

Lemma filter_none {A} (P : A → Prop) `{∀ a, Decision (P a)} l :
  Forall (λ a, ¬ P a) l → filter P l = [].
Proof. induction 1; [done|]. by rewrite filter_cons_False. Qed.

Lemma alternate_nil_r {A} (p : list A) : alternate p [] = p.
Proof. by destruct p. Qed.

Lemma alternate_filter {A} (P : A → Prop) `{∀ a, Decision (P a)} p q :
  Forall P p → Forall (λ a, ¬ P a) q →
  filter P (alternate p q) = p ∧ filter P (alternate q p) = p.
Proof.
  intros Hp. revert q. induction Hp as [|a p Ha Hp IH]; intros q Hq.
  - rewrite alternate_nil_r. assert (alternate [] q = q) as -> by (by destruct q).
    by rewrite filter_none.
  - destruct Hq as [|b q Hb Hq].
    + rewrite alternate_nil_r. cbn [alternate]. split; apply filter_all; by constructor.
    + destruct (IH q Hq) as [E1 E2]. cbn [alternate].
      rewrite !filter_cons. rewrite !(decide_True (P := P a)), !(decide_False (P := P b)) by done.
      by rewrite E1, E2.
Qed.

Lemma alternate_lookup {A} (p q : list A) i a b :
  p !! i = Some a → q !! i = Some b →
  alternate p q !! (2 * i)%nat = Some a ∧ alternate p q !! (2 * i + 1)%nat = Some b.
Proof.
  revert q i. induction p as [|x p IH]; intros [|y q] [|i] Ha Hb; simplify_eq/=; [done|].
  replace (i + S (i + 0))%nat with (S (2 * i)) by lia. cbn [lookup]. by apply IH.
Qed.

Abbreviation family b := (filter (λ a, is_ipv6 a = b)).

Lemma family_all b l : Forall (λ a, is_ipv6 a = b) (family b l).
Proof. apply Forall_forall. by intros a [? _]%list_elem_of_filter. Qed.

Lemma family_none b l : Forall (λ a, ¬ is_ipv6 a = negb b) (family b l).
Proof. eapply Forall_impl; [apply family_all|]. by intros a ->; destruct b. Qed.

Lemma family_perm l : family true l ++ family false l ≡ₚ l.
Proof.
  assert (family false l = filter (λ a, ¬ is_ipv6 a = true) l) as ->.
  { apply list_filter_iff. intros a. by rewrite not_true_iff_false. }
  by rewrite filter_app_complement.
Qed.

Lemma family_single b l : family b l = [] → family (negb b) l = l.
Proof.
  intros E. apply filter_all, Forall_forall. intros a Ha. destruct (decide (is_ipv6 a = b)) as [Hb|Hb].
  - assert (a ∈ family b l) as Hin by (by apply list_elem_of_filter).
    rewrite E in Hin. by apply not_elem_of_nil in Hin.
  - by destruct (is_ipv6 a), b.
Qed.

Lemma interleave_cases l :
  (interleave_address_families l = alternate (family true l) (family false l) ∧
   family true l ≠ [] ∧ family false l ≠ []) ∨
  (interleave_address_families l = l ∧ (family true l = [] ∨ family false l = [])).
Proof.
  unfold interleave_address_families.
  pose proof (family_single true l) as H6. pose proof (family_single false l) as H4. simpl in H6, H4.
  destruct (family true l) as [|a v6], (family false l) as [|b v4]; cbn [alternate]; auto.
Qed.

(** The candidate addresses are the resolved ones, each family in the order the
    resolver gave, the two families alternating as long as both last with an IPv6
    address always first; a single family keeps the resolver's order. *)
Theorem interleave_spec resolved :
  let out := interleave_address_families resolved in
  out ≡ₚ resolved ∧
  family true out = family true resolved ∧ family false out = family false resolved ∧
  (∀ i a b, family true resolved !! i = Some a → family false resolved !! i = Some b →
    out !! (2 * i)%nat = Some a ∧ out !! (2 * i + 1)%nat = Some b) ∧
  (family true resolved = [] ∨ family false resolved = [] → out = resolved).
Proof.
  intros out.
  destruct (alternate_filter (λ a, is_ipv6 a = true) (family true resolved) (family false resolved))
    as [E1 _]; [apply family_all|apply (family_none false)|].
  destruct (alternate_filter (λ a, is_ipv6 a = false) (family false resolved) (family true resolved))
    as [_ E2]; [apply family_all|apply (family_none true)|].
  unfold out. destruct (interleave_cases resolved) as [(-> & ? & ?)|(-> & Hnil)]; split_and!; try done.
  - rewrite alternate_perm. apply family_perm.
  - intros i a b. apply alternate_lookup.
  - naive_solver.
  - intros i a b Ha Hb. destruct Hnil as [E|E]; by rewrite E in *.
Qed.

Lemma to_socket_addrs_literal lookup ip port :
  port < 65536 →
  to_socket_addrs lookup (fmt_socket (socket_addr_new ip port)) = Ok [socket_addr_new ip port].
Proof.
  intros Hp. unfold to_socket_addrs. rewrite parse_fmt_socket; [done|by apply socket_addr_new_ok|].
  destruct ip; [done|]. by intros ? [= <-].
Qed.

Lemma literal_host ip port :
  match strip_prefix (str "[") (fmt_socket (socket_addr_new ip port)) with
  | Some rest => (λ i, take i rest) <$> position "]"%char rest
  | None => fst <$> rsplit_once ":"%char (fmt_socket (socket_addr_new ip port))
  end = Some (fmt_ip ip).
Proof.
  destruct ip as [ip|ip]; unfold fmt_socket, socket_addr_new; cbn [sa4_ip sa4_port sa6_ip sa6_port sa6_scope_id N.eqb].
  - assert (strip_prefix (str "[") (fmt_v4 ip ++ ":"%char :: fmt_dec port) = None) as ->.
    { destruct (strip_prefix _ _) as [r|] eqn:E; [|done]. apply strip_prefix_Some in E.
      assert ("["%char ∈ fmt_v4 ip ++ ":"%char :: fmt_dec port) as Hin by (rewrite E; set_solver).
      rewrite elem_of_app, elem_of_cons in Hin. destruct Hin as [Hin|[?|Hin]]; [|done|].
      - by apply (fmt_ip_not_in "["%char (IpV4 ip)) in Hin.
      - by apply fmt_dec_not_in in Hin. }
    by rewrite rsplit_once_app by (by apply fmt_dec_not_in).
  - cbn [strip_prefix str String.list_ascii_of_string app]. rewrite decide_True by done.
    rewrite position_app by (by apply (fmt_ip_not_in "]"%char (IpV6 ip))). simpl.
    by rewrite take_app_length.
Qed.

Lemma parse_server_addr_primary lookup s ep :
  parse_server_addr lookup s = Ok ep → ∃ a, primary ep = Returns a.
Proof.
  unfold parse_server_addr. intros E. destruct_ok. rename a0 into resolved.
  unfold primary. cbn [ep_addrs].
  destruct (interleave_address_families resolved) as [|x l] eqn:Ei; [|by exists x].
  destruct (interleave_cases resolved) as [(E' & H6 & _)|(E' & _)]; rewrite Ei in E'; [|by subst].
  by destruct (family true resolved), (family false resolved).
Qed.

(** The address of the server: the text of a socket address gives that address
    with its IP (without brackets) as the host, a name and a port give the
    candidates the lookup of that name found and the name as the host, and an
    endpoint that was parsed always has an address to connect to. *)
Theorem parse_server_addr_spec lookup :
  (∀ ip port, port < 65536 →
    parse_server_addr lookup (fmt_socket (socket_addr_new ip port)) =
      Ok (mkEndpoint [socket_addr_new ip port] (fmt_ip ip))) ∧
  (∀ name port, let s := name ++ ":"%char :: fmt_dec port in
    port < 65536 → head name ≠ Some "["%char → name ≠ [] → parse_socket s = None →
    match lookup name port with
    | Ok ((_ :: _) as l) => parse_server_addr lookup s =
        Ok (mkEndpoint (interleave_address_families l) name)
    | _ => is_ok (parse_server_addr lookup s) = false
    end) ∧
  (∀ s ep, parse_server_addr lookup s = Ok ep → ∃ a, primary ep = Returns a).
Proof.
  split_and!.
  - intros ip port Hp. unfold parse_server_addr. pose proof (literal_host ip port) as Hh.
    rewrite to_socket_addrs_literal by done.
    assert (interleave_address_families [socket_addr_new ip port] = [socket_addr_new ip port]) as Hi
      by (by destruct ip).
    destruct (strip_prefix _ _) as [rest|].
    + destruct (position _ _) as [i|]; [|done]. injection Hh as ->. cbn [mbind result_bind map_err].
      by rewrite decide_False, Hi.
    + destruct (rsplit_once _ _) as [[h t]|]; [|done]. injection Hh as ->. cbn [mbind result_bind map_err].
      by rewrite decide_False, Hi.
  - intros name port s Hp Hh Hne Hns. unfold parse_server_addr.
    assert (rsplit_once ":"%char s = Some (name, fmt_dec port)) as Hr
      by (by apply rsplit_once_app, fmt_dec_not_in).
    assert (strip_prefix (str "[") s = None) as ->.
    { unfold s. destruct name as [|c name]; [done|]. simpl in *. rewrite decide_False; [done|naive_solver]. }
    rewrite Hr. unfold to_socket_addrs. rewrite Hns, Hr, parse_u16_fmt_dec by done.
    cbn [mbind result_bind]. destruct (lookup name port) as [[|a l]|]; cbn [map_err mbind result_bind].
    + done.
    + by rewrite decide_False.
    + done.
  - apply parse_server_addr_primary.
Qed.

(** ** The command line and the file *)

(** The two files say the same about a flag, or the flag was given. *)
Definition agree {T} (explicit : bool) (a b : T) : Prop := explicit = true ∨ a = b.

Lemma pick_agree {T} (v : T) explicit a b : agree explicit a b → pick v explicit a = pick v explicit b.
Proof. by intros [-> | ->]. Qed.

Definition server_files_agree (m : ArgMatches) (f g : ServerSection) : Prop :=
  agree (cli_explicit m "host") (ss_host f) (ss_host g) ∧
  agree (cli_explicit m "port") (ss_port f) (ss_port g) ∧
  agree (cli_explicit m "allow_reverse") (ss_allow_reverse f) (ss_allow_reverse g) ∧
  agree (cli_explicit m "allow_socks") (ss_allow_socks f) (ss_allow_socks g) ∧
  agree (cli_explicit m "congestion") (ss_congestion f) (ss_congestion g) ∧
  agree (cli_explicit m "max_connections") (ss_max_connections f) (ss_max_connections g) ∧
  agree (cli_explicit m "admin_socket") (ss_admin_socket f) (ss_admin_socket g) ∧
  agree (cli_explicit m "no_admin_socket") (ss_no_admin_socket f) (ss_no_admin_socket g) ∧
  agree (server_set_tls m)
    (ss_insecure f, ss_tls_self_signed f, ss_tls_state_dir f, ss_tls_cert f, ss_tls_key f, ss_tls_ca f)
    (ss_insecure g, ss_tls_self_signed g, ss_tls_state_dir g, ss_tls_cert g, ss_tls_key g, ss_tls_ca g).

(** A flag given on the command line makes the file's value for it irrelevant,
    and one TLS flag makes all the TLS keys of the file irrelevant: two files that
    differ only there start the same server, or fail the same way. *)
Theorem server_file_scope home euid cli f g m embedded :
  server_files_agree m f g →
  server_main home euid cli (Ok (Some f)) m embedded =
  server_main home euid cli (Ok (Some g)) m embedded.
Proof.
  intros (H1 & H2 & H3 & H4 & H5 & H6 & H7 & H8 & H9).
  assert (agree (cli_explicit m "admin_socket") (Some <$> ss_admin_socket f) (Some <$> ss_admin_socket g))
    as H7' by (by destruct H7 as [|E]; [left|right; rewrite E]).
  unfold server_main. cbn [mbind result_bind].
  set (mf := merge_server_with_file cli (Some f) m). set (mg := merge_server_with_file cli (Some g) m).
  assert (sc_host mf = sc_host mg ∧ sc_port mf = sc_port mg ∧ sc_allow_reverse mf = sc_allow_reverse mg ∧
    sc_allow_socks mf = sc_allow_socks mg ∧ sc_congestion mf = sc_congestion mg ∧
    sc_max_connections mf = sc_max_connections mg ∧ sc_admin_socket mf = sc_admin_socket mg ∧
    sc_no_admin_socket mf = sc_no_admin_socket mg) as (-> & -> & -> & -> & -> & -> & -> & ->)
    by (split_and!; by apply pick_agree).
  assert (sc_insecure mf = sc_insecure mg ∧ sc_tls_self_signed mf = sc_tls_self_signed mg ∧
    sc_tls_state_dir mf = sc_tls_state_dir mg ∧ sc_tls_cert mf = sc_tls_cert mg ∧
    sc_tls_key mf = sc_tls_key mg ∧ sc_tls_ca mf = sc_tls_ca mg) as (-> & -> & -> & -> & -> & ->).
  { unfold mf, mg. cbn. destruct H9 as [-> |E]; [done|]. by injection E as -> -> -> -> -> ->. }
  done.
Qed.

(** The log directive of a server run. *)
Definition server_directive (cli : ServerCli) (file : option ServerSection) (m : ArgMatches) : bytes :=
  let c := merge_server_with_file cli file m in
  default_directive (sc_is_verbose c) (sc_is_debug c) (sc_is_quiet c).

(** The file does override the command line across two pairs of flags that
    exclude each other there: with [no_admin_socket = true] in the file an explicit
    [--admin-socket PATH] is dropped and the admin API is off, and with
    [verbose = true] in the file an explicit [--quiet] leaves the debug logs on. *)
Theorem file_overrides_explicit home euid cli f m embedded cfg :
  cli_explicit m "no_admin_socket" = false → ss_no_admin_socket f = Some true →
  cli_explicit m "is_verbose" = false → ss_verbose f = Some true →
  cli_explicit m "is_debug" = false → sc_is_debug cli = false → ss_debug f = None →
  server_main home euid cli (Ok (Some f)) m embedded = Ok cfg →
  cfg_admin_socket cfg = None ∧ server_directive cli (Some f) m = str "rusnel=debug,info".
Proof.
  intros Hn Hfn Hv Hfv Hd Hcd Hfd E. split.
  - unfold server_main in E. destruct_ok. simpl. unfold pick. by rewrite Hn, Hfn.
  - unfold server_directive, default_directive. simpl. unfold pick. by rewrite Hd, Hv, Hfv, Hfd, Hcd.
Qed.

(** What a client run that starts was made of. *)
Lemma client_main_inv lookup e cli section m embedded cfg :
  client_main lookup e cli section m embedded = Returns (Ok cfg) →
  ∃ sec c mat retries, section = Ok sec ∧ embedded = Ok mat ∧
    merge_client_with_file lookup cli sec m = Ok c ∧
    cc_server c = Some (ccfg_server cfg) ∧ cc_remotes c = ccfg_remotes cfg ∧ ccfg_remotes cfg ≠ [] ∧
    resolve_client_tls e (cc_insecure c) (cc_tls_fingerprint c) (cc_tls_ca c) (cc_tls_cert c)
      (cc_tls_key c) (cc_tls_server_name c) mat = Returns (Ok (ccfg_tls cfg)) ∧
    max_retries_from_cli (cc_max_retry_count c) = Ok retries ∧
    ccfg_reconnect cfg =
      mkReconnectConfig retries (initial_backoff reconnect_default) (cc_max_retry_interval c).
Proof.
  unfold client_main. intros E.
  match type of E with (match ?r with _ => _ end) = _ => destruct r as [[[c server] mat]|] eqn:Er end;
    [|done].
  destruct (resolve_client_tls _ _ _ _ _ _ _ _) as [[tls|]|] eqn:Et; [|done..].
  injection E as E. destruct (max_retries_from_cli _) as [retries|] eqn:Em; [|done].
  simpl in E. destruct section as [sec|]; [|done]. cbn [mbind result_bind] in Er.
  destruct (merge_client_with_file lookup cli sec m) as [c'|] eqn:Ec; [|done]. cbn [mbind result_bind] in Er.
  destruct (cc_server c') as [srv|] eqn:Es; [|done]. cbn [ok_or mbind result_bind] in Er.
  case_decide as Hr; [done|]. destruct embedded as [mat'|]; [|done]. cbn [map_err mbind result_bind] in Er.
  simplify_eq/=. exists sec, c, mat, retries. by split_and!.
Qed.

Lemma merge_client_tls lookup cli f m c :
  merge_client_with_file lookup cli (Some f) m = Ok c → client_set_tls m = true →
  cc_insecure c = cc_insecure cli ∧ cc_tls_fingerprint c = cc_tls_fingerprint cli ∧
  cc_tls_ca c = cc_tls_ca cli ∧ cc_tls_cert c = cc_tls_cert cli ∧ cc_tls_key c = cc_tls_key cli ∧
  cc_tls_server_name c = pick (cc_tls_server_name cli) (cli_explicit m "tls_server_name")
                           (Some <$> cs_tls_server_name f).
Proof. unfold merge_client_with_file. intros E Ht. destruct_ok. cbn. by rewrite Ht. Qed.

Lemma resolve_client_secure e fp ca cert key name mat :
  resolve_client_tls e false fp ca cert key name mat ≠ Returns (Ok ClientInsecure).
Proof. unfold resolve_client_tls, pinned. by repeat case_match. Qed.

(** A client that was given a TLS flag and not [--insecure] verifies the server
    whatever the file says, and the file has no say in how, apart from the server
    name. *)
Theorem client_tls_not_downgraded lookup e cli f g m embedded cfg cfg' :
  client_set_tls m = true → cc_insecure cli = false →
  agree (cli_explicit m "tls_server_name") (cs_tls_server_name f) (cs_tls_server_name g) →
  client_main lookup e cli (Ok (Some f)) m embedded = Returns (Ok cfg) →
  client_main lookup e cli (Ok (Some g)) m embedded = Returns (Ok cfg') →
  ccfg_tls cfg ≠ ClientInsecure ∧ ccfg_tls cfg = ccfg_tls cfg'.
Proof.
  intros Ht Hi Hn (? & c & mat & _ & [= <-] & -> & Ec & _ & _ & _ & Et & _)%client_main_inv.
  intros (? & c' & ? & _ & [= <-] & [= <-] & Ec' & _ & _ & _ & Et' & _)%client_main_inv.
  destruct (merge_client_tls _ _ _ _ _ Ec Ht) as (E1 & E2 & E3 & E4 & E5 & E6).
  destruct (merge_client_tls _ _ _ _ _ Ec' Ht) as (E1' & E2' & E3' & E4' & E5' & E6').
  assert (cc_tls_server_name c = cc_tls_server_name c') as En.
  { rewrite E6, E6'. apply pick_agree. by destruct Hn as [|E]; [left|right; rewrite E]. }
  rewrite E1, E2, E3, E4, E5, Hi in Et. rewrite E1', E2', E3', E4', E5', Hi, <-En in Et'. split.
  - intros E. rewrite E in Et. by apply resolve_client_secure in Et.
  - rewrite Et in Et'. by injection Et'.
Qed.

(** The flags clap built with the parsers of the program, and the integers of the
    file at their width. *)
Definition cli_parsed lookup (cli : ClientCli) : Prop :=
  (∀ ep, cc_server cli = Some ep → ∃ s, parse_server_addr lookup s = Ok ep) ∧
  Forall (λ r, ∃ s, from_str s = Ok r) (cc_remotes cli) ∧
  ∃ s, parse_duration_secs s = Ok (cc_max_retry_interval cli).

Definition section_width (f : option ClientSection) : Prop :=
  ∀ g secs, f = Some g → cs_max_retry_interval g = Some secs → secs ≤ u64_max.

Lemma collect_Forall {E A B} (f : A → result E B) (P : B → Prop) l bs :
  (∀ a b, f a = Ok b → P b) → collect f l = Ok bs → Forall P bs.
Proof.
  intros HP. revert bs. induction l as [|a l IH]; intros bs Hc; simpl in Hc; destruct_ok; constructor; eauto.
Qed.

Lemma map_err_Ok {E F A} (g : E → F) (r : result E A) a : map_err g r = Ok a ↔ r = Ok a.
Proof. destruct r; split; intros; by simplify_eq/=. Qed.

Lemma merge_client_parsed lookup cli f m c :
  cli_parsed lookup cli → section_width f → merge_client_with_file lookup cli f m = Ok c →
  (∀ ep, cc_server c = Some ep → ∃ a, primary ep = Returns a) ∧ Forall remote_wf (cc_remotes c) ∧
  cc_max_retry_interval c ≤ DURATION_MAX.
Proof.
  intros (Hs & Hr & (d & Hd)) Hw E.
  assert (∀ ep, cc_server cli = Some ep → ∃ a, primary ep = Returns a) as Hp.
  { intros ep [s E']%Hs. by eapply parse_server_addr_primary. }
  assert (Forall remote_wf (cc_remotes cli)) as Hwf.
  { eapply Forall_impl; [exact Hr|]. by intros r [s [? _]%from_str_Ok]. }
  assert (∀ secs, secs ≤ u64_max → secs * 1000000000 ≤ DURATION_MAX) as Hmax.
  { unfold u64_max, DURATION_MAX. lia. }
  assert (cc_max_retry_interval cli ≤ DURATION_MAX) as Hi.
  { unfold parse_duration_secs in Hd. destruct (parse_u64 d) as [secs|] eqn:Ed; [|done].
    apply from_str_radix_le in Ed. simplify_eq. rewrite <-Hd. auto. }
  unfold merge_client_with_file in E. destruct f as [f|]; [|by simplify_eq]. destruct_ok. cbn. split_and!.
  - intros ep ->. unfold merged_server in E0. destruct (cc_server cli); [simplify_eq; auto|].
    destruct (cs_server f); [|done]. destruct (parse_server_addr lookup l) as [ep'|] eqn:Ep; [|done].
    simplify_eq/=. by eapply parse_server_addr_primary.
  - unfold merged_remotes in E1. destruct (cc_remotes cli); [|by simplify_eq].
    destruct (cs_remotes f); [|by simplify_eq].
    eapply collect_Forall; [|done]. intros r b Hb. apply map_err_Ok in Hb. unfold parse_remote in Hb.
    apply map_err_Ok in Hb. by apply from_str_Ok in Hb as [? _].
  - case_match; [done|]. destruct (cs_max_retry_interval f) as [secs|] eqn:Es; [|done]. simpl.
    apply Hmax. by eapply Hw.
Qed.

(** A client run that starts is well formed: it has an address to connect to,
    at least one declaration, every declaration well formed whether it came from the
    command line or the file, a retry limit that fits its 32 bits, and backoffs
    within the range in which doubling is exact. *)
Theorem client_config_wf lookup e cli f m embedded cfg :
  cli_parsed lookup cli → section_width f →
  client_main lookup e cli (Ok f) m embedded = Returns (Ok cfg) →
  (∃ a, primary (ccfg_server cfg) = Returns a) ∧
  ccfg_remotes cfg ≠ [] ∧ Forall remote_wf (ccfg_remotes cfg) ∧
  (∀ n, max_retries (ccfg_reconnect cfg) = Some n → n ≤ u32_max) ∧
  initial_backoff (ccfg_reconnect cfg) ≤ DURATION_MAX ∧
  max_backoff (ccfg_reconnect cfg) ≤ DURATION_MAX.
Proof.
  intros Hp Hw (? & c & mat & retries & [= <-] & -> & Ec & Es & Er & Hne & _ & Hret & ->)%client_main_inv.
  destruct (merge_client_parsed _ _ _ _ _ Hp Hw Ec) as (Ha & Hr & Hi). rewrite Er in Hr.
  split_and!; [by apply Ha|done|done| |vm_compute; discriminate|done].
  cbn. intros n ->. unfold max_retries_from_cli in Hret. repeat case_match; simplify_eq. lia.
Qed.

(** ** Examples *)

Definition demo_cli : ServerCli :=
  mkServerCli any_v4 8080 false false true false None None None None Cubic 0 (Some (str "/run/a.sock"))
    false false false true Compact.
Definition demo_section : ServerSection :=
  mkServerSection None (Some 9090) None None None (Some true) None None None None None None None
    (Some true) (Some true) None None None.
(** [--insecure --admin-socket /run/a.sock --quiet] *)
Definition demo_matches : ArgMatches := λ name,
  if decide (name ∈ [str "insecure"; str "admin_socket"; str "is_quiet"])
  then Some CommandLine else Some DefaultValue.
Definition demo_mat : Materialized := mkMaterialized None None None None None.

Lemma server_file_scope_witness :
  server_main None 0 demo_cli (Ok (Some demo_section)) demo_matches (Ok demo_mat) =
  server_main None 0 demo_cli
    (Ok (Some (mkServerSection None (Some 9090) None None None None None (Some (str "c")) None None None
       None (Some (str "/other")) (Some true) None None None None)))
    demo_matches (Ok demo_mat).
Proof. apply server_file_scope. vm_compute. split_and!; auto. Defined.

Lemma file_overrides_explicit_witness :
  cli_explicit demo_matches "admin_socket" = true ∧ cli_explicit demo_matches "is_quiet" = true ∧
  sc_admin_socket demo_cli = Some (str "/run/a.sock") ∧
  cfg_admin_socket (mkServerConfig any_v4 9090 false false ServerInsecure Cubic None None) = None.
Proof.
  split_and!; [reflexivity..|].
  refine (proj1 (file_overrides_explicit None 0 demo_cli demo_section demo_matches (Ok demo_mat)
    (mkServerConfig any_v4 9090 false false ServerInsecure Cubic None None) _ _ _ _ _ _ _ _)); reflexivity.
Defined.

Definition demo_lookup (host : bytes) (port : N) : result bytes (list SocketAddr) :=
  Ok [socket_addr_new any_v4 port].
Definition demo_embedded : Embedded := mkEmbedded None None None None None None None None.
Definition demo_endpoint : ServerEndpoint := mkEndpoint [socket_addr_new any_v4 80] (str "h").
Definition demo_remote : RemoteRequest :=
  mkRemoteRequest Forward (KTcp (socket_addr_new any_v4 22) (mkHostPort (str "db") 22)) false.
Definition demo_client : ClientCli :=
  mkClientCli (Some demo_endpoint) [] false None (Some (str "ca.pem")) None None None Cubic (-1)
    (300 * 1000000000) None false false false Compact.
Definition demo_client_section (insecure : bool) : ClientSection :=
  mkClientSection None (Some [str "db:22"]) (Some insecure) None None None None None None (Some 3%Z) None
    None None None None None.
Definition demo_client_matches : ArgMatches := λ name,
  if decide (name = str "tls_ca") then Some CommandLine else Some DefaultValue.
Definition demo_client_config : ClientConfig :=
  mkClientConfig demo_endpoint [demo_remote] (Ca (str "ca.pem") None) Cubic
    (mkReconnectConfig (Some 3) (200 * 1000000) (300 * 1000000000)) None.

Lemma client_tls_not_downgraded_witness : ccfg_tls demo_client_config ≠ ClientInsecure.
Proof.
  refine (proj1 (client_tls_not_downgraded demo_lookup demo_embedded demo_client
    (demo_client_section true) (demo_client_section false) demo_client_matches (Ok demo_mat)
    demo_client_config demo_client_config _ _ _ _ _)); [reflexivity|reflexivity|by right|reflexivity|reflexivity].
Defined.

Lemma client_config_wf_witness : ∃ a, primary (ccfg_server demo_client_config) = Returns a.
Proof.
  refine (proj1 (client_config_wf demo_lookup demo_embedded demo_client
    (Some (demo_client_section true)) demo_client_matches (Ok demo_mat) demo_client_config _ _ _)).
  - split_and!; [|constructor|by exists (str "300")]. intros ep [= <-]. by exists (str "h:80").
  - by intros g secs [= <-].
  - reflexivity.
Defined.
