(* ===== verification/Udp.v ===== *)
(** * Udp: datagrams through the tunnel
    ([src/common/udp.rs] and the UDP relay of [src/common/socks.rs])

    Two parts. The relay is the loop that receives datagrams for many conns: a table
    from a key (the source, or source and target for SOCKS5) to the channel of a conn
    task, with the tasks running beside it; its steps are the loop's and the tasks',
    in any order. The pumps are the two directions of one conn, over the datagram
    framing of the QUIC stream.

    tokio's bounded channel is an interface with its documented behaviour ([Mpsc]). *)

From S2P Require Import Prelude Text NetAddr Remote Framing Socks.

(** ** tokio's [mpsc::channel]

    One value stands for both ends; [queued] are the messages sent and not yet
    received, [is_closed] says that the receiver was dropped. *)
Class Mpsc (A : Type) := {
  chan : Type;
  channel : nat → chan;
  try_send : A → chan → option chan;
  recv : chan → option (A * chan);
  close : chan → chan;
  is_closed : chan → bool;
  queued : chan → list A;
  capacity : chan → nat;
  channel_new n : queued (channel n) = [] ∧ is_closed (channel n) = false ∧ capacity (channel n) = n;
  try_send_ok a c : is_closed c = false → (length (queued c) < capacity c)%nat →
    ∃ c', try_send a c = Some c' ∧ queued c' = queued c ++ [a] ∧ is_closed c' = false ∧
          capacity c' = capacity c;
  try_send_closed a c : is_closed c = true → try_send a c = None;
  try_send_full a c : (capacity c ≤ length (queued c))%nat → try_send a c = None;
  recv_queued c : match queued c with
    | [] => recv c = None
    | a :: q => ∃ c', recv c = Some (a, c') ∧ queued c' = q ∧ is_closed c' = is_closed c ∧
                      capacity c' = capacity c
    end;
  close_spec c : is_closed (close c) = true ∧ queued (close c) = [] ∧ capacity (close c) = capacity c;
}.
Arguments chan A {_}.
Arguments channel A {_} n.

(** A datagram as [recv_from] returns it. *)
Abbreviation Datagram := (bytes * SocketAddr)%type.

(** ** The relay *)

(** How far a conn task is: in [run_udp_conn]; back from it, with the receiver
    dropped; past [conns.remove(&source)]. *)
Inductive Phase := Running | Dropped | Removed.

#[export] Instance Phase_eq_dec : EqDecision Phase.
Proof. solve_decision. Defined.

Section relay.
Context {K : Type} `{Countable K} `{Mpsc bytes}.

(** The key and the payload of a datagram, [None] for one the loop skips. *)
Variable classify : Datagram → option (K * bytes).
Variable CHANNEL_CAPACITY : nat.

(** A spawned task: its key, its channel, and the payloads it has taken. *)
Record Conn := mkConn { c_key : K; c_chan : chan bytes; c_phase : Phase; c_taken : list bytes }.

(** [conns], every task ever spawned, and the datagram the loop is about to send. *)
Record Relay := mkRelay {
  table : gmap K nat; spawned : list Conn; pending : option (nat * bytes) }.

Definition relay_init : Relay := mkRelay ∅ [] None.

(** The conn of the table, unless its task has ended. *)
Definition reusable (key : K) (st : Relay) : option nat :=
  i ← table st !! key; c ← spawned st !! i; if is_closed (c_chan c) then None else Some i.

(** The loop up to [try_send]: the conn to use, opened where there is none to
    reuse (the insertion replaces the entry of an ended one). *)
Definition receive (d : Datagram) (st : Relay) : Relay :=
  match classify d with
  | None => st
  | Some (key, payload) =>
      match reusable key st with
      | Some i => mkRelay (table st) (spawned st) (Some (i, payload))
      | None =>
          let i := length (spawned st) in
          mkRelay (<[key := i]> (table st))
            (spawned st ++ [mkConn key (channel bytes CHANNEL_CAPACITY) Running []])
            (Some (i, payload))
      end
  end.

Definition with_chan (c : Conn) (ch : chan bytes) : Conn :=
  mkConn (c_key c) ch (c_phase c) (c_taken c).

(** [sender.try_send(payload)]: on an error the datagram is dropped. *)
Definition send_pending (i : nat) (payload : bytes) (st : Relay) : Relay :=
  mkRelay (table st)
    (match spawned st !! i with
     | Some c => <[i := with_chan c (default (c_chan c) (try_send payload (c_chan c)))]> (spawned st)
     | None => spawned st
     end) None.

(** [rx.recv()] in the conn task. *)
Definition take_one (c : Conn) : option Conn :=
  '(p, ch) ← recv (c_chan c); Some (mkConn (c_key c) ch (c_phase c) (c_taken c ++ [p])).

Inductive Event := Receive (d : Datagram) | Send | Take (i : nat) | Finish (i : nat) | Remove (i : nat).

(** One step of the loop or of a task; [None] where the step is not enabled. *)
Definition relay_step (e : Event) (st : Relay) : option Relay :=
  match e with
  | Receive d => if pending st is Some _ then None else Some (receive d st)
  | Send => '(i, p) ← pending st; Some (send_pending i p st)
  | Take i =>
      c ← spawned st !! i;
      if decide (c_phase c = Running) then
        c' ← take_one c; Some (mkRelay (table st) (<[i := c']> (spawned st)) (pending st))
      else None
  | Finish i =>
      c ← spawned st !! i;
      if decide (c_phase c = Running) then
        Some (mkRelay (table st)
                (<[i := mkConn (c_key c) (close (c_chan c)) Dropped (c_taken c)]> (spawned st))
                (pending st))
      else None
  | Remove i =>
      c ← spawned st !! i;
      if decide (c_phase c = Dropped) then
        Some (mkRelay (delete (c_key c) (table st))
                (<[i := mkConn (c_key c) (c_chan c) Removed (c_taken c)]> (spawned st)) (pending st))
      else None
  end.

Fixpoint relay_run (es : list Event) (st : Relay) : option Relay :=
  match es with
  | [] => Some st
  | e :: es' => st' ← relay_step e st; relay_run es' st'
  end.

(** The payloads received for a key, in order. *)
Definition received (es : list Event) (k : K) : list bytes :=
  omap (λ e, match e with
             | Receive d => match classify d with
                            | Some (k', p) => if decide (k' = k) then Some p else None
                            | None => None
                            end
             | _ => None
             end) es.

(** *** The invariant of the relay *)

(** The datagram in the loop's hands, if it is for conn [i]. *)
Definition pending_for (st : Relay) (i : nat) : list bytes :=
  match pending st with Some (j, p) => if decide (j = i) then [p] else [] | None => [] end.

Record relay_inv (es : list Event) (st : Relay) : Prop := {
  inv_table k i : table st !! k = Some i →
    ∃ c, spawned st !! i = Some c ∧ c_key c = k ∧ c_phase c ≠ Removed;
  inv_pending i p : pending st = Some (i, p) → is_Some (spawned st !! i);
  inv_closed i c : spawned st !! i = Some c →
    is_closed (c_chan c) = bool_decide (c_phase c ≠ Running);
  inv_order i c : spawned st !! i = Some c →
    (c_taken c ++ queued (c_chan c) ++ pending_for st i) `sublist_of` received es (c_key c) }.

Lemma received_snoc es e k : received (es ++ [e]) k = received es k ++ received [e] k.
Proof. apply omap_app. Qed.

Lemma received_other es e k : (∀ d, e ≠ Receive d) → received (es ++ [e]) k = received es k.
Proof. intros He. rewrite received_snoc. destruct e as [d| | | |]; [by destruct (He d)|..]; apply app_nil_r. Qed.

(** Steps that replace one conn by another with the same key. *)
Lemma inv_update es e st i c c' tb pd :
  relay_inv es st → (∀ d, e ≠ Receive d) → spawned st !! i = Some c →
  c_key c' = c_key c → (c_phase c' = Removed → c_phase c = Removed ∨ tb = delete (c_key c) (table st)) →
  (tb = table st ∨ tb = delete (c_key c) (table st)) →
  is_closed (c_chan c') = bool_decide (c_phase c' ≠ Running) →
  (pd = pending st ∨ pd = None) →
  (c_taken c' ++ queued (c_chan c') ++ pending_for (mkRelay tb (spawned st) pd) i) `sublist_of`
    (c_taken c ++ queued (c_chan c) ++ pending_for st i) →
  relay_inv (es ++ [e]) (mkRelay tb (<[i := c']> (spawned st)) pd).
Proof.
  intros [Ht Hp Hc Ho] He Hi Hk Hrem Htb Hcl Hpd Hsub.
  assert (∀ j, j ≠ i → <[i := c']> (spawned st) !! j = spawned st !! j) as Hne
    by (intros; by apply list_lookup_insert_ne).
  assert (<[i := c']> (spawned st) !! i = Some c') as Hii
    by (by apply list_lookup_insert_eq, lookup_lt_is_Some; eexists).
  assert (∀ j, pending_for (mkRelay tb (<[i := c']> (spawned st)) pd) j `sublist_of` pending_for st j) as Hpf.
  { intros j. unfold pending_for. simpl. destruct Hpd as [-> | ->]; [done|apply sublist_nil_l]. }
  split; simpl.
  - intros k j Hj. destruct (decide (j = i)) as [->|Hji].
    + exists c'. assert (table st !! k = Some i) as Hj'.
      { destruct Htb as [-> | ->]; [done|]. by apply lookup_delete_Some in Hj as [_ ?]. }
      destruct (Ht _ _ Hj') as (c0 & Hi0 & <- & ?). simplify_eq. split_and!; [done..|].
      intros Hr. destruct (Hrem Hr) as [?|E]; [done|]. by rewrite E, lookup_delete_eq in Hj.
    + rewrite Hne by done. apply Ht. destruct Htb as [-> | ->]; [done|]. by apply lookup_delete_Some in Hj as [_ ?].
  - intros j p Hj. destruct Hpd as [-> | ->]; [|done]. apply Hp in Hj.
    by rewrite lookup_lt_is_Some, length_insert, <-lookup_lt_is_Some.
  - intros j c0 Hj. destruct (decide (j = i)) as [->|Hji]; [by simplify_eq|].
    rewrite Hne in Hj by done. by apply (Hc j).
  - intros j c0 Hj. rewrite received_other by done. destruct (decide (j = i)) as [->|Hji].
    + simplify_eq. rewrite Hk. etrans; [exact Hsub|by apply Ho].
    + rewrite Hne in Hj by done. etrans; [|by apply (Ho j)].
      apply sublist_app; [done|]. by apply sublist_app.
Qed.

Lemma reusable_Some key st i :
  reusable key st = Some i →
  table st !! key = Some i ∧ ∃ c, spawned st !! i = Some c ∧ is_closed (c_chan c) = false.
Proof.
  unfold reusable. destruct (table st !! key) as [i'|] eqn:Et; [|done]. simpl.
  destruct (spawned st !! i') as [c|] eqn:Ei; [|done]. simpl.
  destruct (is_closed (c_chan c)) eqn:Ec; [done|]. intros [= <-]. eauto.
Qed.

(** What a conn has after the loop picked up a datagram for conn [i]. *)
Lemma order_receive es st st' d key p i j c :
  relay_inv es st → pending st = None → classify d = Some (key, p) → pending st' = Some (i, p) →
  (spawned st !! j = Some c ∧ (j = i → c_key c = key)) ∨
    (c_key c = key ∧ c_taken c ++ queued (c_chan c) = []) →
  (c_taken c ++ queued (c_chan c) ++ pending_for st' j) `sublist_of` received (es ++ [Receive d]) (c_key c).
Proof.
  intros Hinv Hn Hcl Hp Hc. rewrite received_snoc, app_assoc.
  assert ((c_taken c ++ queued (c_chan c)) `sublist_of` received es (c_key c)) as Ho.
  { destruct Hc as [[Hj _]|[_ ->]]; [|apply sublist_nil_l].
    pose proof (inv_order _ _ Hinv j c Hj) as Ho. unfold pending_for in Ho. by rewrite Hn, app_nil_r in Ho. }
  apply sublist_app; [done|]. unfold pending_for. rewrite Hp. case_decide as Hji; [|apply sublist_nil_l].
  assert (c_key c = key) as -> by naive_solver.
  unfold received. simpl. by rewrite Hcl, decide_True.
Qed.

Lemma inv_receive es st d :
  relay_inv es st → pending st = None → relay_inv (es ++ [Receive d]) (receive d st).
Proof.
  intros Hinv Hn. pose proof Hinv as [Ht Hp Hc Ho]. unfold receive.
  destruct (classify d) as [[key p]|] eqn:Ecl.
  2:{ split; [done|by rewrite Hn|done|]. intros i c Hi. etrans; [by apply Ho|].
      rewrite received_snoc. by apply sublist_inserts_r. }
  destruct (reusable key st) as [i|] eqn:Ex.
  - apply reusable_Some in Ex as (Et & c & Ei & _). destruct (Ht _ _ Et) as (c0 & ? & Hk & _). simplify_eq.
    split; [done|by intros ? ? [= <- <-]|done|]. intros j c0 Hj. simpl in Hj.
    eapply order_receive; [done..|]. left. split; [done|]. intros ->. by simplify_eq.
  - set (i := length (spawned st)). set (c := mkConn key (channel bytes CHANNEL_CAPACITY) Running []).
    assert ((spawned st ++ [c]) !! i = Some c) as Hi by (by apply list_lookup_middle).
    destruct (channel_new CHANNEL_CAPACITY) as (Hq & Hcl & _).
    split; simpl.
    + intros k j Hj. destruct (decide (k = key)) as [->|Hk].
      * rewrite lookup_insert_eq in Hj. injection Hj as <-. by exists c.
      * rewrite lookup_insert_ne in Hj by done. destruct (Ht _ _ Hj) as (c0 & Hj0 & ?).
        exists c0. split; [|done]. by apply lookup_app_l_Some.
    + intros ? ? [= <- <-]. by eexists.
    + intros j c0 [Hj|[_ Hj]]%lookup_app_Some; [by apply (Hc j)|].
      apply list_lookup_singleton_Some in Hj as [_ <-]. by rewrite bool_decide_false by (simpl; tauto).
    + intros j c0 [Hj|[_ Hj]]%lookup_app_Some; (eapply order_receive; [done..|]).
      * left. split; [done|]. intros ->. apply lookup_lt_Some in Hj. unfold i in Hj. lia.
      * apply list_lookup_singleton_Some in Hj as [_ <-]. right. split; [done|]. simpl. by rewrite Hq.
Qed.

Lemma try_send_queued p c : is_closed c = false ∨ is_closed c = true →
  let c' := default c (try_send p c) in
  is_closed c' = is_closed c ∧ queued c' `sublist_of` queued c ++ [p].
Proof.
  intros Hcl c'. unfold c'. destruct (is_closed c) eqn:E.
  - rewrite try_send_closed by done. simpl. split; [done|]. by apply sublist_inserts_r.
  - destruct (decide (length (queued c) < capacity c)%nat) as [Hlt|Hge].
    + destruct (try_send_ok p c E Hlt) as (c1 & -> & Hq & Hc & _). simpl. by rewrite Hq.
    + rewrite try_send_full by lia. simpl. split; [done|]. by apply sublist_inserts_r.
Qed.

Lemma inv_send es st i p :
  relay_inv es st → pending st = Some (i, p) → relay_inv (es ++ [Send]) (send_pending i p st).
Proof.
  intros Hinv Hp. destruct (inv_pending _ _ Hinv i p Hp) as [c Hi]. unfold send_pending. rewrite Hi.
  destruct (try_send_queued p (c_chan c)) as [Hcl Hq]; [by destruct (is_closed _); auto|].
  eapply inv_update; [done|done|exact Hi|done|by left|by left| |by right|].
  - simpl. rewrite Hcl. by apply (inv_closed _ _ Hinv i).
  - simpl. unfold pending_for. rewrite Hp, decide_True, app_nil_r by done. by apply sublist_app.
Qed.

Lemma relay_step_inv es e st st' :
  relay_inv es st → relay_step e st = Some st' → relay_inv (es ++ [e]) st'.
Proof.
  intros Hinv Hs. destruct e as [d| |i|i|i]; simpl in Hs.
  - destruct (pending st) eqn:Hp; simplify_eq. by apply inv_receive.
  - destruct (pending st) as [[i p]|] eqn:Hp; simplify_eq/=. by apply inv_send.
  - destruct (spawned st !! i) as [c|] eqn:Hi; [|done]. simpl in Hs. case_decide as Hph; [|done].
    unfold take_one in Hs. pose proof (recv_queued (c_chan c)) as Hr.
    destruct (queued (c_chan c)) as [|p q] eqn:Hq; [by rewrite Hr in Hs|].
    destruct Hr as (ch & Er & Eq & Ec & _). rewrite Er in Hs. simplify_eq/=.
    eapply inv_update; [done|done|exact Hi|done|by left|by left| |by left|].
    + simpl. rewrite Ec. by apply (inv_closed _ _ Hinv i).
    + simpl. unfold pending_for. simpl. by rewrite Hq, <-app_assoc.
  - destruct (spawned st !! i) as [c|] eqn:Hi; [|done]. simpl in Hs. case_decide as Hph; [|done].
    simplify_eq. destruct (close_spec (c_chan c)) as (Hcl & Hq & _).
    eapply inv_update; [done|done|exact Hi|done|done|by left|done|by left|].
    simpl. rewrite Hq. apply sublist_app; [done|]. by apply sublist_inserts_l.
  - destruct (spawned st !! i) as [c|] eqn:Hi; [|done]. simpl in Hs. case_decide as Hph; [|done].
    simplify_eq. eapply inv_update; [done|done|exact Hi|done|by right|by right| |by left|done].
    simpl. rewrite (inv_closed _ _ Hinv i c Hi), Hph. reflexivity.
Qed.

Lemma relay_run_snoc es e st : relay_run (es ++ [e]) st = relay_run es st ≫= relay_step e.
Proof.
  revert st. induction es as [|e' es IH]; intros st; simpl.
  - by destruct (relay_step e st).
  - destruct (relay_step e' st); simpl; [apply IH|done].
Qed.

Lemma relay_run_inv es st : relay_run es relay_init = Some st → relay_inv es st.
Proof.
  revert st. induction es as [|e es IH] using rev_ind; intros st Hr.
  - simpl in Hr. simplify_eq. by split; simpl.
  - rewrite relay_run_snoc in Hr. destruct (relay_run es relay_init) as [st0|]; [|done].
    eapply relay_step_inv; [|exact Hr]. by apply IH.
Qed.

(** C11: whatever the order of arrivals, takes and terminations, a conn handles only
    datagrams received for its own key, in the order they were received and each at
    most once: what it has taken, followed by what waits in its channel, is a
    subsequence of what was received for the key. *)
Theorem relay_isolation es st i c :
  relay_run es relay_init = Some st → spawned st !! i = Some c →
  (c_taken c ++ queued (c_chan c)) `sublist_of` received es (c_key c).
Proof.
  intros Hinv%relay_run_inv Hi. etrans; [|by apply (inv_order _ _ Hinv i)].
  apply sublist_app; [done|]. by apply sublist_inserts_r.
Qed.

(** The table never leaks: an entry is always for a task that was spawned for
    that key and has not removed its entry yet, so once every task has run to its
    end the table is empty. *)
Theorem relay_no_leak es st :
  relay_run es relay_init = Some st →
  (∀ k i, table st !! k = Some i →
     ∃ c, spawned st !! i = Some c ∧ c_key c = k ∧ c_phase c ≠ Removed) ∧
  (Forall (λ c, c_phase c = Removed) (spawned st) → table st = ∅).
Proof.
  intros Hinv%relay_run_inv. split; [apply (inv_table _ _ Hinv)|].
  intros Hall. apply map_empty. intros k. destruct (table st !! k) as [i|] eqn:Ht; [|done].
  destruct (inv_table _ _ Hinv _ _ Ht) as (c & Hi & _ & Hn). by eapply Forall_lookup_1 in Hall.
Qed.

(** A datagram is handed to the conn the table has for its key, or to a new one
    where there is none or its task has ended: with room in the channel it is the
    last one waiting there when the loop goes on. *)
Theorem relay_delivers es st st1 st2 d k p :
  relay_run es relay_init = Some st → classify d = Some (k, p) → (0 < CHANNEL_CAPACITY)%nat →
  relay_step (Receive d) st = Some st1 → relay_step Send st1 = Some st2 →
  ∃ i c, table st2 !! k = Some i ∧ spawned st2 !! i = Some c ∧ c_key c = k ∧ c_phase c = Running ∧
    (last (queued (c_chan c)) = Some p ∨ (capacity (c_chan c) ≤ length (queued (c_chan c)))%nat) ∧
    (spawned st !! i = None ∨ table st !! k = Some i).
Proof.
  intros Hrun Hcl Hcap H1 H2. pose proof (relay_run_inv _ _ Hrun) as Hinv.
  assert (relay_inv (es ++ [Receive d]) st1) as Hinv1 by (by eapply relay_step_inv).
  simpl in H1. destruct (pending st) eqn:Hp; simplify_eq. unfold receive in *. rewrite Hcl in *.
  assert (∀ i c tb sp, sp !! i = Some c → is_closed (c_chan c) = false →
    ∃ c', (spawned (send_pending i p (mkRelay tb sp (Some (i, p))))) !! i = Some c' ∧
      c_key c' = c_key c ∧ c_phase c' = c_phase c ∧
      (last (queued (c_chan c')) = Some p ∨ (capacity (c_chan c') ≤ length (queued (c_chan c')))%nat)) as Hsend.
  { intros i c tb sp Hi Ho. unfold send_pending. simpl. rewrite Hi. eexists. split.
    { by apply list_lookup_insert_eq, lookup_lt_is_Some; eexists. }
    simpl. split_and!; [done..|]. destruct (decide (length (queued (c_chan c)) < capacity (c_chan c))%nat).
    - destruct (try_send_ok p (c_chan c)) as (ch & -> & Hq & _); [done..|]. left. simpl. by rewrite Hq, last_snoc.
    - rewrite try_send_full by lia. right. simpl. lia. }
  destruct (reusable k st) as [i|] eqn:Ex; simpl in H2; simplify_eq.
  - apply reusable_Some in Ex as (Et & c & Ei & Eo).
    destruct (Hsend i c (table st) (spawned st) Ei Eo) as (c' & ? & Hk & Hph & ?).
    destruct (inv_table _ _ Hinv _ _ Et) as (c0 & ? & <- & _). simplify_eq. exists i, c'.
    split_and!; [done..| |done|by right]. rewrite Hph.
    pose proof (inv_closed _ _ Hinv i c Ei) as E. rewrite Eo in E. symmetry in E.
    apply bool_decide_eq_false in E. destruct (c_phase c); [done|..]; by destruct E.
  - set (i := length (spawned st)). set (c := mkConn k (channel bytes CHANNEL_CAPACITY) Running []).
    destruct (channel_new CHANNEL_CAPACITY) as (_ & Ho & _).
    destruct (Hsend i c (<[k := i]> (table st)) (spawned st ++ [c])) as (c' & ? & ? & ? & ?);
      [by apply list_lookup_middle|done|].
    exists i, c'. split_and!; [apply lookup_insert_eq|done..|left; by apply lookup_ge_None].
Qed.

End relay.

(** *** The two relays *)

#[export] Instance SocketAddr_countable : Countable SocketAddr.
Proof.
  refine (inj_countable
    (λ a, match a with
          | SAV4 a => inl (v4_octets (sa4_ip a), sa4_port a)
          | SAV6 a => inr (v6_octets (sa6_ip a), sa6_port a, sa6_flowinfo a, sa6_scope_id a)
          end)
    (λ e, match e with
          | inl (o, p) => (λ ip, SAV4 (mkSockV4 ip p)) <$> v4_from_octets o
          | inr (o, p, f, s) => (λ ip, SAV6 (mkSockV6 ip p f s)) <$> v6_from_octets o
          end) _).
  intros [[[] p]|[ip p f s]]; [done|]. cbn -[v6_from_octets v6_octets]. by rewrite v6_from_v6_octets.
Defined.

#[export] Instance HostPort_countable : Countable HostPort.
Proof. by refine (inj_countable' (λ h, (host h, port h)) (λ e, mkHostPort e.1 e.2) _); intros []. Defined.

(** [tunnel_udp_client]: a conn per source. *)
Definition CONN_CHANNEL_CAPACITY : nat := N.to_nat 4096.
Definition udp_key (d : Datagram) : option (SocketAddr * bytes) := Some (d.2, d.1).

(** [run_socks_udp_relay]: a conn per source and target; a datagram without a valid
    header is skipped. *)
Definition SOCKS_UDP_CHANNEL_CAPACITY : nat := N.to_nat 4096.
Definition socks_key (d : Datagram) : option ((SocketAddr * HostPort) * bytes) :=
  match parse_socks_udp_header d.1 with
  | Ok (target, payload) => Some ((d.2, target), payload)
  | Err _ => None
  end.

(** The steps of the two relays. *)
Definition udp_relay_step `{Mpsc bytes} := relay_step udp_key CONN_CHANNEL_CAPACITY.
Definition socks_relay_step `{Mpsc bytes} := relay_step socks_key SOCKS_UDP_CHANNEL_CAPACITY.

(** ** The pumps of one conn *)

Section pumps.
Context `{ByteStreams}.

(** What [timeout(CONN_IDLE_TIMEOUT, rx.recv())] answers. *)
Inductive RxEvent := RxPayload (p : bytes) | RxClosed | RxIdle.

(** [local_to_quic] of [run_udp_conn]: the stream, the bytes counted and the result,
    [None] while it waits for the next event. *)
Fixpoint local_to_quic (send : SendStream) (counted : N) (events : list RxEvent) :
    SendStream * N * option (result bytes unit) :=
  match events with
  | [] => (send, counted, None)
  | RxPayload p :: events' =>
      match write_datagram send p with
      | Ok send' => local_to_quic send' (wadd64 counted (len p)) events'
      | Err e => (send, counted, Some (Err e))
      end
  | RxClosed :: _ | RxIdle :: _ => (send, counted, Some (Ok tt))
  end.

(** [quic_to_local] of [run_udp_conn] and [pump_stream_to_socket]: every datagram
    read is sent to the one peer [send_to] reaches. The loop ends only with an
    error; [fuel] bounds the datagrams, and the result is [None] when it is spent. *)
Fixpoint pump_stream_to_socket (send_to : bytes → result bytes unit) (fuel : nat) (recv : RecvStream)
    (counted : N) : list bytes * N * option bytes :=
  match fuel with
  | O => ([], counted, None)
  | S fuel' =>
      match read_datagram MAX_DATAGRAM recv with
      | Err e => ([], counted, Some e)
      | Ok (payload, recv') =>
          match send_to payload with
          | Err e => ([], counted, Some e)
          | Ok _ =>
              let '(ps, n, r) := pump_stream_to_socket send_to fuel' recv'
                                   (wadd64 counted (len payload)) in
              (payload :: ps, n, r)
          end
      end
  end.

(** [quic_to_local] of [run_socks_udp_conn]: replies get the header of the target. *)
Definition socks_quic_to_local (target : HostPort) (send_to : bytes → result bytes unit) :=
  pump_stream_to_socket (λ payload, send_to (wrap_socks_udp_reply target payload)).

(** [pump_socket_to_stream]: datagrams of other senders are dropped; [None] while
    the loop waits in [recv_from]. *)
Fixpoint pump_socket_to_stream (udp_address : SocketAddr) (send : SendStream) (counted : N)
    (arrivals : list (result bytes Datagram)) : SendStream * N * option bytes :=
  match arrivals with
  | [] => (send, counted, None)
  | Err e :: _ => (send, counted, Some e)
  | Ok (payload, src) :: arrivals' =>
      if decide (src ≠ udp_address) then pump_socket_to_stream udp_address send counted arrivals'
      else match write_datagram send payload with
           | Ok send' => pump_socket_to_stream udp_address send' (wadd64 counted (len payload)) arrivals'
           | Err e => (send, counted, Some e)
           end
  end.

(** [tunnel_udp_stream] joins the two pumps: it returns when both have ended. *)
Definition tunnel_udp_stream (udp_address : SocketAddr) (send_to : bytes → result bytes unit)
    (send : SendStream) (recv : RecvStream) (fuel : nat) (arrivals : list (result bytes Datagram)) :
    option (result bytes unit) :=
  match (pump_socket_to_stream udp_address send 0 arrivals).2,
        (pump_stream_to_socket send_to fuel recv 0).2 with
  | Some _, Some _ => Some (Ok tt)
  | _, _ => None
  end.

(** [tunnel_udp_server]: the target of the request, the address to bind, or the
    error that ends the conn before anything is sent. *)
Definition udp_target (request : RemoteRequest) : result bytes (SocketAddr * bytes) :=
  s ← ok_or (remote_addr_string request) (str "UDP server tunnel requires a host:port remote");
  a ← ok_or (parse_socket s) (str "Failed to parse remote address");
  Ok (a, if is_ipv6 a then str "[::]:0" else str "0.0.0.0:0").

(** [tunnel_udp_server] over a socket: the datagrams it has sent, each with its
    destination, and the result, [None] while it waits. *)
Definition tunnel_udp_server (bind : bytes → result bytes unit) (send_to : SocketAddr → bytes → result bytes unit)
    (request : RemoteRequest) (send : SendStream) (recv : RecvStream) (fuel : nat)
    (arrivals : list (result bytes Datagram)) : list (SocketAddr * bytes) * option (result bytes unit) :=
  match '(remote_addr, bind_addr) ← udp_target request; _ ← bind bind_addr; Ok remote_addr with
  | Err e => ([], Some (Err e))
  | Ok remote_addr =>
      ((λ p, (remote_addr, p)) <$> (pump_stream_to_socket (send_to remote_addr) fuel recv 0).1.1,
       tunnel_udp_stream remote_addr (send_to remote_addr) send recv fuel arrivals)
  end.

(** *** Properties *)

Definition payloads (events : list RxEvent) : list bytes :=
  omap (λ e, match e with RxPayload p => Some p | _ => None end) events.

Lemma local_to_quic_ok s n ps s' : ∀ c,
  local_to_quic s n (map RxPayload ps) = (s', c, None) →
  Forall (λ p, len p < 65536) ps ∧ sent s' = sent s ++ (ps ≫= datagram_frame) ∧
  c = foldl (λ acc p, wadd64 acc (len p)) n ps.
Proof.
  revert s n. induction ps as [|p ps IH]; intros s n c E; simpl in E.
  - simplify_eq. by rewrite app_nil_r.
  - destruct (write_datagram s p) as [s1|] eqn:Ew; [|done]. apply write_datagram_sent in Ew as [Hp Es].
    apply IH in E as (Hps & E & ->). rewrite E, Es, bind_cons, <-app_assoc. by split_and!; [constructor|..].
Qed.

Lemma pump_frames send_to ps rest : ∀ r n fuel,
  (∀ p, send_to p = Ok tt) → Forall (λ p, len p < 65536) ps → (length rest < 2)%nat →
  unread r = (ps ≫= datagram_frame) ++ rest → (length ps < fuel)%nat →
  ∃ e, pump_stream_to_socket send_to fuel r n = (ps, foldl (λ acc p, wadd64 acc (len p)) n ps, Some e).
Proof.
  induction ps as [|p ps IH]; intros r n fuel Hst Hps Hrest Hr Hf; destruct fuel as [|fuel]; [simpl in Hf; lia| |simpl in Hf; lia|].
  - destruct (read_exact_short 2 r) as [e He]; [by rewrite Hr|]. cbn [pump_stream_to_socket].
    unfold read_datagram. rewrite He. cbn. by eexists.
  - inversion Hps; subst. rewrite bind_cons, <-app_assoc in Hr.
    destruct (read_datagram_frame r p _ Hr) as (r1 & E & Hr1); [done|].
    destruct (IH r1 (wadd64 n (len p)) fuel) as (e & E'); [done..|simpl in Hf; lia|].
    exists e. cbn [pump_stream_to_socket]. by rewrite E, Hst, E'.
Qed.

(** End to end, the datagrams a conn takes from its channel are sent to the
    target one by one, unchanged, in order and with their boundaries, and both ends
    count the same number of bytes for them; when the stream ends after them, the
    far pump ends. *)
Theorem udp_end_to_end send_to ps s s' c r :
  (∀ p, send_to p = Ok tt) →
  local_to_quic s 0 (map RxPayload ps) = (s', c, None) → sent s ++ unread r = sent s' →
  ∃ e, pump_stream_to_socket send_to (S (length ps)) r 0 = (ps, c, Some e) ∧
       c = wrap64 (nsum (map (λ p, len p) ps)).
Proof.
  intros Hst (Hps & Es & ->)%local_to_quic_ok Hr. rewrite Es in Hr. apply app_inv_head in Hr.
  destruct (pump_frames send_to ps [] r 0 (S (length ps))) as [e E]; [done..|simpl; lia|by rewrite app_nil_r|lia|].
  exists e. split; [done|]. apply (foldl_wadd64 (λ p, len p) ps 0).
Qed.

(** The socket pump forwards exactly the peer's datagrams, and while none of them
    fails to be written it waits for the next. *)
Lemma pump_socket_waits udp_address s n arrivals :
  Forall (λ a, ∃ p src, a = Ok (p, src) ∧ src ≠ udp_address) arrivals →
  pump_socket_to_stream udp_address s n arrivals = (s, n, None).
Proof. induction 1 as [|a arr (p & src & -> & Hne) _ IH]; simpl; [done|]. by rewrite decide_True. Qed.

(** The far end of a UDP conn does not end with its stream: as long as the
    target sends nothing more and the socket reports no error, it keeps its socket
    and its task, whatever happened to the QUIC stream, even after the stream has
    ended. *)
Theorem udp_stream_outlives_quic udp_address send_to send recv fuel arrivals :
  Forall (λ a, ∃ p src, a = Ok (p, src) ∧ src ≠ udp_address) arrivals →
  tunnel_udp_stream udp_address send_to send recv fuel arrivals = None.
Proof. intros Ha. unfold tunnel_udp_stream. by rewrite pump_socket_waits. Qed.

End pumps.

(** ** Examples *)

(** A channel as a queue, its capacity and whether the receiver was dropped. *)
#[local] Instance queue_channel : Mpsc bytes.
Proof.
  refine {|
    chan := list bytes * nat * bool;
    channel n := ([], n, false);
    try_send a c := if negb c.2 && (length c.1.1 <? c.1.2)%nat then Some (c.1.1 ++ [a], c.1.2, c.2)
                    else None;
    recv c := match c.1.1 with [] => None | a :: q => Some (a, (q, c.1.2, c.2)) end;
    close c := ([], c.1.2, true); is_closed c := c.2; queued c := c.1.1; capacity c := c.1.2 |}.
  - done.
  - intros a [[q n] b]; simpl. intros -> Hl. rewrite (proj2 (Nat.ltb_lt _ _)) by done. by eexists.
  - intros a [[q n] b]; simpl. by intros ->.
  - intros a [[q n] b]; simpl. intros Hl. rewrite (proj2 (Nat.ltb_ge _ _)) by done. by rewrite andb_false_r.
  - intros [[[|a q] n] b]; simpl; [done|]. by eexists.
  - done.
Defined.

Definition src1 : SocketAddr := socket_addr_new (IpV4 v4_localhost) 5353.
Definition udp_run := relay_run (K := SocketAddr) udp_key 4.

(** Conn 0 ends between the datagrams, conn 1 replaces it, and then conn 0's removal
    takes conn 1's entry: the datagrams that follow open a third conn, while conn 1,
    which still runs, has lost its only sender. *)
Definition stale_events : list Event :=
  [Receive (str "a", src1); Send; Take 0; Finish 0; Receive (str "b", src1); Send; Remove 0;
   Receive (str "c", src1); Send].

Example stale_removal :
  (λ st, (table st !! src1, map (λ c, (c_phase c, c_taken c, queued (c_chan c))) (spawned st))) <$>
    udp_run stale_events relay_init =
  Some (Some 2%nat, [(Removed, [str "a"], []); (Running, [], [str "b"]); (Running, [], [str "c"])]).
Proof. vm_compute. reflexivity. Qed.

Definition demo_events : list Event := [Receive (str "a", src1); Send; Receive (str "b", src1); Send; Take 0].
Definition demo_relay : Relay :=
  default relay_init (udp_run demo_events relay_init).
Definition demo_conn : Conn :=
  mkConn src1 ([str "b"], 4%nat, false) Running [str "a"].

Lemma relay_isolation_witness :
  ([str "a"] ++ [str "b"]) `sublist_of` received udp_key demo_events src1.
Proof.
  refine (relay_isolation udp_key 4 demo_events demo_relay 0 demo_conn _ _);
    [vm_cast_no_check (eq_refl (Some demo_relay))|vm_cast_no_check (eq_refl (Some demo_conn))].
Defined.

Lemma relay_no_leak_witness : ∃ c, spawned demo_relay !! 0%nat = Some c ∧ c_key c = src1 ∧ c_phase c ≠ Removed.
Proof.
  refine (proj1 (relay_no_leak udp_key 4 demo_events demo_relay _) src1 0%nat _);
    [vm_cast_no_check (eq_refl (Some demo_relay))|vm_cast_no_check (eq_refl (Some 0%nat))].
Defined.

Definition demo_relay1 : Relay := receive udp_key 4 (str "c", src1) demo_relay.

Lemma relay_delivers_witness : ∃ i c, table (send_pending 0 (str "c") demo_relay1) !! src1 = Some i ∧
  spawned (send_pending 0 (str "c") demo_relay1) !! i = Some c.
Proof.
  refine (match relay_delivers udp_key 4 demo_events demo_relay demo_relay1
            (send_pending 0 (str "c") demo_relay1) (str "c", src1) src1 (str "c") _ _ _ _ _ with
          | ex_intro _ i (ex_intro _ c (conj H1 (conj H2 _))) => ex_intro _ i (ex_intro _ c (conj H1 H2))
          end);
    [vm_cast_no_check (eq_refl (Some demo_relay))|reflexivity|lia
    |vm_cast_no_check (eq_refl (Some demo_relay1))
    |vm_cast_no_check (eq_refl (Some (send_pending 0 (str "c") demo_relay1)))].
Defined.

Lemma udp_end_to_end_witness :
  ∃ e, @pump_stream_to_socket memory_streams (λ _, Ok tt) 3
         (datagram_frame (str "ab") ++ datagram_frame []) 0 = ([str "ab"; []], 2, Some e) ∧
       2 = wrap64 (nsum (map (λ p, len p) [str "ab"; []])).
Proof.
  refine (@udp_end_to_end memory_streams (λ _, Ok tt) [str "ab"; []] []
    (datagram_frame (str "ab") ++ datagram_frame []) 2 (datagram_frame (str "ab") ++ datagram_frame []) _ _ _);
    [done|vm_compute; reflexivity|reflexivity].
Defined.

Lemma udp_stream_outlives_quic_witness :
  @tunnel_udp_stream memory_streams src1 (λ _, Ok tt) [] [] 1 [] = None ∧
  (@pump_stream_to_socket memory_streams (λ _, Ok tt) 1 [] 0).2 ≠ None.
Proof.
  split; [|by vm_compute].
  refine (@udp_stream_outlives_quic memory_streams src1 (λ _, Ok tt) [] [] 1 [] _). constructor.
Defined.

(** A target that is a name is refused, although it is what the declaration allows. *)
Example udp_name_refused :
  (request ← from_str (str "53:dns.example:53/udp"); udp_target request) =
  Err (str "Failed to parse remote address").
Proof. vm_compute. reflexivity. Qed.
