(* ===== verification/Admin.v ===== *)
(** * Admin: what the admin API answers ([src/server/admin.rs])

    Every handler of the router as a function of the server state it reads, with the
    snapshots taken in the order of the concurrent maps ([MapOrder]), the DTOs of
    [State] and the sort by key that follows. A handler is one read of the state;
    routing, HTTP and JSON are code the program calls. *)

From stdpp Require Import sorting.
From S2P Require Import Prelude Text NetAddr Remote State Ledger.

(** ** Sorting by key *)

(** The order of tuples of integers. *)
Fixpoint lexb (a b : list N) : bool :=
  match a, b with
  | [], _ => true
  | _ :: _, [] => false
  | x :: a', y :: b' => (x <? y) || ((x =? y) && lexb a' b')
  end.

Definition key_le {A} (key : A → list N) (x y : A) : Prop := lexb (key x) (key y) = true.

#[export] Instance key_le_dec {A} (key : A → list N) x y : Decision (key_le key x y).
Proof. unfold key_le. apply _. Defined.

(** [out.sort_by_key(key)]; no list sorted here has two elements of the same key, so
    stability plays no role. *)
Definition sort_by_key {A} (key : A → list N) (l : list A) : list A := merge_sort (key_le key) l.

(** ** Handlers *)

Definition DEFAULT_HISTORY_LIMIT : nat := 50.

Inductive ApiError := NotFound.

Record ClientDetailDto := mkClientDetail { cdt_summary : ClientSummaryDto; cdt_tunnels : list TunnelDto }.
Record TunnelDetailDto := mkTunnelDetail { tdt_summary : TunnelDto; tdt_conns : list ConnDto }.

Section handlers.
Context `{MapOrder}.

Definition conn_dtos (w : World) (m : gmap N loc) : list ConnDto :=
  omap (λ kc, conn_dto <$> hn w !! kc.2) (iter m).
Definition tunnel_dtos (w : World) (m : gmap N loc) : list TunnelDto :=
  omap (λ kt, tunnel_dto w <$> ht w !! kt.2) (iter m).

Definition get_server (now : SystemTime) (w : World) : ServerInfoDto := server_info w now.

Definition list_clients (w : World) : list ClientSummaryDto :=
  sort_by_key (λ c, [cs_id c]) (omap (λ l, client_summary w <$> hc w !! l) (clients_snapshot w)).

Definition get_client (id : N) (w : World) : result ApiError ClientDetailDto :=
  entry ← ok_or (l ← client id w; hc w !! l) NotFound;
  Ok (mkClientDetail (client_summary w entry)
        (sort_by_key (λ t, [td_id t]) (tunnel_dtos w (cl_tunnels entry)))).

Definition list_client_tunnels (id : N) (w : World) : result ApiError (list TunnelDto) :=
  entry ← ok_or (l ← client id w; hc w !! l) NotFound;
  Ok (sort_by_key (λ t, [td_id t]) (tunnel_dtos w (cl_tunnels entry))).

Definition list_tunnels (w : World) : list TunnelDto :=
  sort_by_key (λ t, [td_client_id t; td_id t])
    (omap (λ t, tunnel_dto w <$> ht w !! t) (tunnels_snapshot w)).

Definition get_tunnel (id : N) (w : World) : result ApiError TunnelDetailDto :=
  entry ← ok_or (t ← tunnel id w; ht w !! t) NotFound;
  Ok (mkTunnelDetail (tunnel_dto w entry)
        (sort_by_key (λ c, [cd_id c]) (conn_dtos w (te_conns entry)))).

Definition list_tunnel_conns (id : N) (w : World) : result ApiError (list ConnDto) :=
  entry ← ok_or (t ← tunnel id w; ht w !! t) NotFound;
  Ok (sort_by_key (λ c, [cd_id c]) (conn_dtos w (te_conns entry))).

Definition list_conns (w : World) : list ConnDto :=
  sort_by_key (λ c, [cd_client_id c; cd_tunnel_id c; cd_id c])
    (omap (λ c, conn_dto <$> hn w !! c) (conns_snapshot w)).

Definition get_conn (id : N) (w : World) : result ApiError ConnDto :=
  entry ← ok_or (c ← conn id w; hn w !! c) NotFound; Ok (conn_dto entry).

(** The two nested loops over the client's tunnels and their conns. *)
Definition client_conn_dtos (w : World) (entry : ClientEntry) : list ConnDto :=
  kt ← iter (cl_tunnels entry);
  match ht w !! kt.2 with Some te => conn_dtos w (te_conns te) | None => [] end.

Definition list_client_conns (id : N) (w : World) : result ApiError (list ConnDto) :=
  entry ← ok_or (l ← client id w; hc w !! l) NotFound;
  Ok (sort_by_key (λ c, [cd_tunnel_id c; cd_id c]) (client_conn_dtos w entry)).

Definition list_history (limit : option nat) (w : World) : list HistoryEntry :=
  history_snapshot (default DEFAULT_HISTORY_LIMIT limit) w.

End handlers.

(** ** The order of keys *)

Lemma lexb_total a b : lexb a b = true ∨ lexb b a = true.
Proof.
  revert b. induction a as [|x a IH]; intros [|y b]; simpl; auto.
  destruct (N.lt_total x y) as [?|[->|?]].
  - left. by rewrite (proj2 (N.ltb_lt x y)).
  - rewrite N.ltb_irrefl, N.eqb_refl. simpl. apply IH.
  - right. by rewrite (proj2 (N.ltb_lt y x)).
Qed.

Lemma lexb_trans a b c : lexb a b = true → lexb b c = true → lexb a c = true.
Proof.
  revert b c. induction a as [|x a IH]; intros [|y b] [|z c]; simpl; try done.
  rewrite !orb_true_iff, !andb_true_iff, !N.ltb_lt, !N.eqb_eq.
  intros [?|[-> ?]] [?|[-> ?]]; [left; lia|by left|by left|right; eauto].
Qed.

Lemma lexb_antisym a b : lexb a b = true → lexb b a = true → a = b.
Proof.
  revert b. induction a as [|x a IH]; intros [|y b]; simpl; try done.
  rewrite !orb_true_iff, !andb_true_iff, !N.ltb_lt, !N.eqb_eq.
  intros [?|[-> ?]] [?|[? ?]]; [lia..|]. f_equal. by apply IH.
Qed.

#[export] Instance key_le_total {A} (key : A → list N) : Total (key_le key).
Proof. intros x y. apply lexb_total. Qed.
#[export] Instance key_le_trans {A} (key : A → list N) : Transitive (key_le key).
Proof. intros x y z. apply lexb_trans. Qed.

Lemma sort_by_key_perm {A} (key : A → list N) l : sort_by_key key l ≡ₚ l.
Proof. apply merge_sort_Permutation. Qed.

Lemma sort_by_key_sorted {A} (key : A → list N) l : StronglySorted (key_le key) (sort_by_key key l).
Proof. apply (StronglySorted_merge_sort (key_le key)). Qed.

(** Two sorted lists with the same elements are one list when the key identifies
    the elements. *)
Lemma sorted_unique {A} (key : A → list N) l k :
  StronglySorted (key_le key) l → StronglySorted (key_le key) k → l ≡ₚ k →
  (∀ x y, x ∈ l → y ∈ l → key x = key y → x = y) → l = k.
Proof.
  intros Hl Hk Hp Hinj. apply (StronglySorted_unique_strong (key_le key)); try done.
  intros x y Hx Hy Hxy Hyx. apply Hinj; [done| |by apply lexb_antisym]. by rewrite Hp.
Qed.

Lemma StronglySorted_filter {A} (R : A → A → Prop) (P : A → Prop) `{∀ a, Decision (P a)} l :
  StronglySorted R l → StronglySorted R (filter P l).
Proof.
  induction 1 as [|x l _ IH Hx]; [constructor|]. rewrite filter_cons. case_decide; [|done].
  constructor; [done|]. apply Forall_forall. intros y [_ Hy]%list_elem_of_filter.
  by eapply Forall_forall in Hx.
Qed.

Lemma StronglySorted_impl_in {A} (R S : A → A → Prop) l :
  (∀ x y, x ∈ l → y ∈ l → R x y → S x y) → StronglySorted R l → StronglySorted S l.
Proof.
  induction l as [|x l IH]; intros Hi Hs; [constructor|]. inversion Hs as [|? ? Hl Hx]; subst.
  constructor; [apply IH; [set_solver|done]|]. apply Forall_forall. intros y Hy.
  apply Hi; [set_solver..|]. by eapply Forall_forall in Hx.
Qed.

(** ** Listings of an index *)

Section listing.
Context `{MapOrder} {D : Type}.

(** A DTO per entry, tagged with the id of its entry. *)
Definition listing (f : loc → option D) (m : gmap N loc) : list D := omap (λ kx, f kx.2) (iter m).

Variables (f : loc → option D) (idof : D → N) (m : gmap N loc).
Hypothesis Hid : ∀ id x, m !! id = Some x → ∃ d, f x = Some d ∧ idof d = id.

Lemma elem_of_listing d : d ∈ listing f m ↔ ∃ x, m !! idof d = Some x ∧ f x = Some d.
Proof.
  unfold listing. rewrite list_elem_of_omap. split.
  - intros ([id x] & Hin & Hd). apply elem_of_iter in Hin. destruct (Hid _ _ Hin) as (d' & E & <-).
    simpl in Hd. simplify_eq. eauto.
  - intros (x & Hx & Hd). exists (idof d, x). by rewrite elem_of_iter.
Qed.

Lemma listing_ids : map idof (listing f m) = (iter m).*1.
Proof.
  unfold listing. assert (∀ kx, kx ∈ iter m → ∃ d, f kx.2 = Some d ∧ idof d = kx.1) as Hall.
  { intros [id x] Hin%elem_of_iter. by apply Hid. }
  induction (iter m) as [|kx l IH]; [done|]. destruct (Hall kx) as (d & E & Ed); [set_solver|].
  csimpl. rewrite E. csimpl. f_equal; [done|]. apply IH. set_solver.
Qed.

Lemma NoDup_listing : NoDup (listing f m).
Proof.
  apply (NoDup_fmap_1 idof). change (idof <$> listing f m) with (map idof (listing f m)).
  rewrite listing_ids. rewrite (fmap_Permutation fst _ _ (iter_perm m)). apply NoDup_fst_map_to_list.
Qed.

Lemma listing_inj x y : x ∈ listing f m → y ∈ listing f m → idof x = idof y → x = y.
Proof. intros (a & Ha & ?)%elem_of_listing (b & Hb & ?)%elem_of_listing E. rewrite E in Ha. by simplify_eq. Qed.

End listing.

(** The answers do not depend on the order of the map. *)
Lemma listing_order {D} (o1 o2 : MapOrder) (f : loc → option D) m :
  @listing o1 D f m ≡ₚ @listing o2 D f m.
Proof. unfold listing. by rewrite !iter_perm. Qed.

(** ** The views of the API agree *)

Lemma omap_snd {A B C} (f : B → option C) (l : list (A * B)) :
  omap f l.*2 = omap (λ kx, f kx.2) l.
Proof. induction l as [|[a b] l IH]; [done|]. csimpl. by rewrite IH. Qed.

Section views.
Context `{MapOrder}.
Variables (w : World) (g : gmap loc loc).
Hypothesis Hwf : wf w g.

Abbreviation conn_of := (λ c, conn_dto <$> hn w !! c).
Abbreviation tunnel_of := (λ t, tunnel_dto w <$> ht w !! t).

Lemma conns_id id c : conns w !! id = Some c → ∃ d, conn_of c = Some d ∧ cd_id d = id.
Proof. intros (_ & ce & -> & <-)%(wf_conns _ _ Hwf). by eexists. Qed.

Lemma te_conns_id t te id c :
  ht w !! t = Some te → te_conns te !! id = Some c → ∃ d, conn_of c = Some d ∧ cd_id d = id.
Proof. intros Ht Hc. destruct (wf_tunnel_conns _ _ Hwf _ _ _ _ Ht Hc) as (_ & ce & -> & <-). by eexists. Qed.

Lemma tunnels_id id t : tunnels w !! id = Some t → ∃ d, tunnel_of t = Some d ∧ td_id d = id.
Proof. intros (te & -> & <-)%(wf_tunnels _ _ Hwf). by eexists. Qed.

Lemma cl_tunnels_id l e id t :
  hc w !! l = Some e → cl_tunnels e !! id = Some t → ∃ d, tunnel_of t = Some d ∧ td_id d = id.
Proof.
  intros Hl Ht. destruct (wf_client_tunnels _ _ Hwf _ _ _ _ Hl Ht) as ((te & -> & <- & _) & _). by eexists.
Qed.

(** A conn of the index is a conn of its tunnel, which its client owns. *)
Lemma listed_conn_owner id c ce :
  conns w !! id = Some c → hn w !! c = Some ce →
  ∃ t te, ht w !! t = Some te ∧ te_id te = ce_tunnel_id ce ∧ te_client_id te = ce_client_id ce ∧
          te_conns te !! id = Some c.
Proof.
  intros Hc Hn. destruct (wf_conns _ _ Hwf _ _ Hc) as ((t & Hg) & ce' & Hn' & <-). simplify_eq.
  destruct (wf_guard _ _ Hwf _ _ Hg) as (te & ce'' & Ht & Hn'' & Hin & Htid & Hcid). simplify_eq.
  by exists t, te.
Qed.

Lemma tunnel_conns_fields t te id c ce :
  ht w !! t = Some te → te_conns te !! id = Some c → hn w !! c = Some ce →
  ce_tunnel_id ce = te_id te ∧ ce_client_id ce = te_client_id te.
Proof.
  intros Ht Hc Hn. destruct (wf_tunnel_conns _ _ Hwf _ _ _ _ Ht Hc) as (Hg & _).
  destruct (wf_guard _ _ Hwf _ _ Hg) as (te' & ce' & ? & ? & _ & ? & ?). by simplify_eq.
Qed.

Lemma elem_of_list_conns d : d ∈ list_conns w ↔ ∃ c, conns w !! cd_id d = Some c ∧ conn_of c = Some d.
Proof.
  unfold list_conns, conns_snapshot. rewrite sort_by_key_perm, omap_snd.
  apply (elem_of_listing conn_of cd_id (conns w)). apply conns_id.
Qed.

Lemma NoDup_list_conns : NoDup (list_conns w).
Proof.
  unfold list_conns, conns_snapshot. rewrite sort_by_key_perm, omap_snd.
  apply (NoDup_listing conn_of cd_id (conns w)), conns_id.
Qed.

Lemma elem_of_list_tunnels d :
  d ∈ list_tunnels w ↔ ∃ t, tunnels w !! td_id d = Some t ∧ tunnel_of t = Some d.
Proof.
  unfold list_tunnels, tunnels_snapshot. rewrite sort_by_key_perm, omap_snd.
  apply (elem_of_listing tunnel_of td_id (tunnels w)). apply tunnels_id.
Qed.

Lemma NoDup_list_tunnels : NoDup (list_tunnels w).
Proof.
  unfold list_tunnels, tunnels_snapshot. rewrite sort_by_key_perm, omap_snd.
  apply (NoDup_listing tunnel_of td_id (tunnels w)), tunnels_id.
Qed.

(** A sorted listing is the part of a sorted index with a property, when it has the
    same elements and the two sort keys agree there. *)
Lemma view_filter {D} (key key' : D → list N) (P : D → Prop) `{∀ d, Decision (P d)} raw index :
  StronglySorted (key_le key') index → NoDup index → NoDup raw →
  (∀ d, d ∈ raw ↔ P d ∧ d ∈ index) →
  (∀ x y, x ∈ index → y ∈ index → P x → P y → key_le key' x y → key_le key x y) →
  (∀ x y, x ∈ raw → y ∈ raw → key x = key y → x = y) →
  sort_by_key key raw = filter P index.
Proof.
  intros Hs Hn Hr Hel Hkey Hinj.
  assert (sort_by_key key raw ≡ₚ filter P index) as Hp.
  { rewrite sort_by_key_perm. apply NoDup_Permutation; [done|by apply NoDup_filter|].
    intros d. by rewrite Hel, list_elem_of_filter. }
  apply (sorted_unique key); [apply sort_by_key_sorted| |done|].
  - eapply StronglySorted_impl_in; [|by apply StronglySorted_filter].
    intros x y [? ?]%list_elem_of_filter [? ?]%list_elem_of_filter. by apply Hkey.
  - intros x y. rewrite sort_by_key_perm. apply Hinj.
Qed.

Lemma lexb_head a x y : lexb (a :: x) (a :: y) = lexb x y.
Proof. simpl. by rewrite N.ltb_irrefl, N.eqb_refl. Qed.

Lemma client_tunnels_view l e :
  clients w !! cl_id e = Some l → hc w !! l = Some e →
  sort_by_key (λ t, [td_id t]) (tunnel_dtos w (cl_tunnels e)) =
  filter (λ t, td_client_id t = cl_id e) (list_tunnels w).
Proof.
  intros Hc Hl. pose proof (cl_tunnels_id l e) as Hid.
  apply (view_filter _ (λ t, [td_client_id t; td_id t])).
  - apply sort_by_key_sorted.
  - apply NoDup_list_tunnels.
  - apply (NoDup_listing tunnel_of td_id). by intros; eapply Hid.
  - intros d. rewrite elem_of_list_tunnels.
    setoid_rewrite (elem_of_listing tunnel_of td_id (cl_tunnels e)); [|by intros; eapply Hid]. split.
    + intros (t & Ht & Hd). destruct (wf_client_tunnels _ _ Hwf _ _ _ _ Hl Ht) as ((te & Hte & ? & Hcl) & Hidx).
      rewrite Hc in Hidx. rewrite Hte in Hd. simplify_eq/=. split; [done|]. exists t. by rewrite Hte.
    + intros (Hcl & t & Ht & Hd). destruct (wf_tunnels _ _ Hwf _ _ Ht) as (te & Hte & Hi).
      rewrite Hte in Hd. simplify_eq/=.
      destruct (wf_owner _ _ Hwf _ _ Hte) as (l' & e' & Hl' & Hc' & Hin).
      assert (l' = l) as -> by (eapply (wf_client_inj _ _ Hwf); eauto; congruence). simplify_eq.
      exists t. by rewrite Hte.
  - intros x y _ _ Hx Hy. unfold key_le. rewrite Hx, Hy. by rewrite lexb_head.
  - intros x y Hx Hy [= E]. eapply (listing_inj tunnel_of td_id (cl_tunnels e)); eauto.
Qed.

Lemma tunnel_conns_view t te :
  tunnels w !! te_id te = Some t → ht w !! t = Some te →
  sort_by_key (λ c, [cd_id c]) (conn_dtos w (te_conns te)) =
  filter (λ c, cd_tunnel_id c = te_id te) (list_conns w).
Proof.
  intros Htl Ht. pose proof (te_conns_id t te) as Hid.
  assert (∀ c ce, conns w !! ce_id ce = Some c → hn w !! c = Some ce → ce_tunnel_id ce = te_id te →
            te_conns te !! ce_id ce = Some c ∧ ce_client_id ce = te_client_id te) as Hown.
  { intros c ce Hc Hn E. destruct (listed_conn_owner _ _ _ Hc Hn) as (t' & te' & Ht' & ? & ? & ?).
    assert (t' = t) as -> by (eapply (wf_tunnel_inj _ _ Hwf); eauto; congruence). simplify_eq. eauto. }
  apply (view_filter _ (λ c, [cd_client_id c; cd_tunnel_id c; cd_id c])).
  - apply sort_by_key_sorted.
  - apply NoDup_list_conns.
  - apply (NoDup_listing conn_of cd_id). by intros; eapply Hid.
  - intros d. rewrite elem_of_list_conns.
    setoid_rewrite (elem_of_listing conn_of cd_id (te_conns te)); [|by intros; eapply Hid]. split.
    + intros (c & Hc & Hd). pose proof (wf_conns_complete _ _ Hwf _ _ _ _ Ht Htl Hc) as Hidx.
      destruct (hn w !! c) as [ce|] eqn:Hn; simplify_eq/=.
      destruct (tunnel_conns_fields _ _ _ _ _ Ht Hc Hn) as [? _].
      split; [done|]. exists c. by rewrite Hn.
    + intros (Hcl & c & Hc & Hd). destruct (hn w !! c) as [ce|] eqn:Hn; simplify_eq/=.
      destruct (Hown c ce Hc Hn Hcl) as [? _]. exists c. by rewrite Hn.
  - intros x y (c & Hc & Hx)%elem_of_list_conns (c' & Hc' & Hy)%elem_of_list_conns Ex Ey.
    destruct (hn w !! c) as [ce|] eqn:Hn; simplify_eq/=. destruct (hn w !! c') as [ce'|] eqn:Hn'; simplify_eq/=.
    unfold key_le. cbn [conn_dto cd_id cd_client_id cd_tunnel_id snapshot] in *.
    destruct (Hown c ce Hc Hn Ex) as [_ ->], (Hown c' ce' Hc' Hn' Ey) as [_ ->].
    by rewrite Ex, Ey, !lexb_head.
  - intros x y Hx Hy [= E]. eapply (listing_inj conn_of cd_id (te_conns te)); eauto.
Qed.

Lemma elem_of_client_conns e d :
  d ∈ client_conn_dtos w e ↔
  ∃ id t te c ce, cl_tunnels e !! id = Some t ∧ ht w !! t = Some te ∧
    te_conns te !! cd_id d = Some c ∧ hn w !! c = Some ce ∧ d = conn_dto ce.
Proof.
  unfold client_conn_dtos. rewrite list_elem_of_bind. split.
  - intros ([id t] & Hd & Hin%elem_of_iter). simpl in Hd.
    destruct (ht w !! t) as [te|] eqn:Ht; [|by apply not_elem_of_nil in Hd].
    apply (elem_of_listing conn_of cd_id) in Hd as (c & Hc & Hd); [|by intros; eapply te_conns_id].
    destruct (hn w !! c) as [ce|] eqn:Hn; simplify_eq/=. by exists id, t, te, c, ce.
  - intros (id & t & te & c & ce & Hin & Ht & Hc & Hn & ->). exists (id, t). rewrite elem_of_iter.
    split; [|done]. simpl. rewrite Ht.
    apply (elem_of_listing conn_of cd_id); [by intros; eapply te_conns_id|]. exists c. by rewrite Hn.
Qed.

Lemma NoDup_client_conns l e : hc w !! l = Some e → NoDup (client_conn_dtos w e).
Proof.
  intros Hl. apply NoDup_bind.
  - intros [id t] [id' t'] d Hin%elem_of_iter Hin'%elem_of_iter. simpl. intros Hd Hd'.
    destruct (ht w !! t) as [te|] eqn:Ht; [|by apply not_elem_of_nil in Hd].
    destruct (ht w !! t') as [te'|] eqn:Ht'; [|by apply not_elem_of_nil in Hd'].
    apply (elem_of_listing conn_of cd_id) in Hd as (c & Hc & Hd); [|by intros; eapply (te_conns_id t te)].
    apply (elem_of_listing conn_of cd_id) in Hd' as (c' & Hc' & Hd'); [|by intros; eapply (te_conns_id t' te')].
    destruct (hn w !! c) as [ce|] eqn:Hn; simplify_eq/=.
    destruct (hn w !! c') as [ce'|] eqn:Hn'; simplify_eq/=.
    assert (c' = c) as -> by (by eapply (wf_conn_inj _ _ Hwf)).
    destruct (wf_tunnel_conns _ _ Hwf _ _ _ _ Ht Hc) as [Hg _].
    destruct (wf_tunnel_conns _ _ Hwf _ _ _ _ Ht' Hc') as [Hg' _].
    destruct (wf_client_tunnels _ _ Hwf _ _ _ _ Hl Hin) as ((? & ? & <- & _) & _).
    destruct (wf_client_tunnels _ _ Hwf _ _ _ _ Hl Hin') as ((? & ? & <- & _) & _). by simplify_eq.
  - intros [id t] Hin. simpl. destruct (ht w !! t) as [te|] eqn:Ht; [|constructor].
    apply (NoDup_listing conn_of cd_id). by intros; eapply te_conns_id.
  - rewrite iter_perm. apply NoDup_map_to_list.
Qed.

Lemma client_conns_listed l e d :
  clients w !! cl_id e = Some l → hc w !! l = Some e →
  d ∈ client_conn_dtos w e ↔ cd_client_id d = cl_id e ∧ d ∈ list_conns w.
Proof.
  intros Hcl Hl. rewrite elem_of_client_conns, elem_of_list_conns. split.
  - intros (id & t & te & c & ce & Hin & Ht & Hc & Hn & ->).
    destruct (wf_client_tunnels _ _ Hwf _ _ _ _ Hl Hin) as ((te' & ? & <- & Hcid) & Hidx). simplify_eq.
    rewrite Hcl in Hidx. destruct (tunnel_conns_fields _ _ _ _ _ Ht Hc Hn) as [_ E].
    split; [simpl; congruence|]. exists c. rewrite Hn. split; [|done].
    by eapply (wf_conns_complete _ _ Hwf).
  - intros (E & c & Hc & Hd). destruct (hn w !! c) as [ce|] eqn:Hn; simplify_eq/=.
    destruct (listed_conn_owner _ _ _ Hc Hn) as (t & te & Ht & Htid & Hcid & Hin).
    destruct (wf_owner _ _ Hwf _ _ Ht) as (l' & e' & Hl' & Hc' & Hown).
    assert (l' = l) as -> by (eapply (wf_client_inj _ _ Hwf); eauto; congruence). simplify_eq.
    by exists (te_id te), t, te, c, ce.
Qed.

Lemma client_conns_view l e :
  clients w !! cl_id e = Some l → hc w !! l = Some e →
  sort_by_key (λ c, [cd_tunnel_id c; cd_id c]) (client_conn_dtos w e) =
  filter (λ c, cd_client_id c = cl_id e) (list_conns w).
Proof.
  intros Hcl Hl. pose proof (λ d, client_conns_listed l e d Hcl Hl) as Hel.
  apply (view_filter _ (λ c, [cd_client_id c; cd_tunnel_id c; cd_id c])).
  - apply sort_by_key_sorted.
  - apply NoDup_list_conns.
  - by eapply NoDup_client_conns.
  - done.
  - intros x y _ _ Ex Ey. unfold key_le. by rewrite Ex, Ey, lexb_head.
  - intros x y [_ (c & Hc & Hx)%elem_of_list_conns]%Hel [_ (c' & Hc' & Hy)%elem_of_list_conns]%Hel [= _ E].
    rewrite E in Hc. by simplify_eq.
Qed.

End views.

Section properties.
Context `{MapOrder}.

(** C13: the views of the API agree with each other in every reachable state: the
    tunnels and conns reported for one client, and the conns reported for one
    tunnel, are exactly the part of the global lists that carries its id, in the
    same order; an id is not found exactly when it is not in the index. *)
Theorem admin_views_agree s id :
  reachable s →
  let w := world s in
  list_client_tunnels id w =
    (if clients w !! id is Some _ then Ok (filter (λ t, td_client_id t = id) (list_tunnels w)) else Err NotFound) ∧
  list_client_conns id w =
    (if clients w !! id is Some _ then Ok (filter (λ c, cd_client_id c = id) (list_conns w)) else Err NotFound) ∧
  list_tunnel_conns id w =
    (if tunnels w !! id is Some _ then Ok (filter (λ c, cd_tunnel_id c = id) (list_conns w)) else Err NotFound).
Proof.
  intros Hr w. pose proof (inv_wf _ (reachable_inv _ Hr)) as Hwf. fold w in Hwf.
  unfold list_client_tunnels, list_client_conns, list_tunnel_conns, client, tunnel. split_and!.
  - destruct (clients w !! id) as [l|] eqn:Hc; [|done]. simpl.
    destruct (wf_clients _ _ Hwf _ _ Hc) as (e & He & <-). rewrite He. simpl.
    by rewrite (client_tunnels_view _ _ Hwf l e).
  - destruct (clients w !! id) as [l|] eqn:Hc; [|done]. simpl.
    destruct (wf_clients _ _ Hwf _ _ Hc) as (e & He & <-). rewrite He. simpl.
    by rewrite (client_conns_view _ _ Hwf l e).
  - destruct (tunnels w !! id) as [t|] eqn:Ht; [|done]. simpl.
    destruct (wf_tunnels _ _ Hwf _ _ Ht) as (te & Hte & <-). rewrite Hte. simpl.
    by rewrite (tunnel_conns_view _ _ Hwf t te).
Qed.

(** Every entry of an index is reported exactly once, sorted by id, and looking
    it up by id reports the same. *)
Theorem admin_lists_complete s :
  reachable s →
  let w := world s in
  (∀ d, d ∈ list_conns w ↔ get_conn (cd_id d) w = Ok d) ∧ NoDup (map cd_id (list_conns w)) ∧
  (∀ d, d ∈ list_tunnels w ↔ tdt_summary <$> get_tunnel (td_id d) w = Ok d) ∧
  NoDup (map td_id (list_tunnels w)) ∧
  StronglySorted (key_le (λ c, [cd_client_id c; cd_tunnel_id c; cd_id c])) (list_conns w) ∧
  StronglySorted (key_le (λ t, [td_client_id t; td_id t])) (list_tunnels w).
Proof.
  intros Hr w. pose proof (inv_wf _ (reachable_inv _ Hr)) as Hwf. fold w in Hwf.
  assert (∀ {D} (f : D → N) l, NoDup l → (∀ x y, x ∈ l → y ∈ l → f x = f y → x = y) → NoDup (map f l)) as Hnd.
  { intros D f l ? ?. by apply (NoDup_fmap_2_strong f). }
  split_and!.
  - intros d. rewrite (elem_of_list_conns _ _ Hwf). unfold get_conn, conn.
    destruct (conns w !! cd_id d) as [c|]; simpl; [|by split; [intros (? & ? & _)|]].
    split; [intros (? & [= <-] & Hd)|intros Hd; exists c; split; [done|]];
      by destruct (hn w !! c); simplify_eq/=.
  - apply Hnd; [by eapply NoDup_list_conns|].
    intros x y (c & Hc & Hx)%(elem_of_list_conns _ _ Hwf) (c' & Hc' & Hy)%(elem_of_list_conns _ _ Hwf) E.
    rewrite E in Hc. by simplify_eq.
  - intros d. rewrite (elem_of_list_tunnels _ _ Hwf). unfold get_tunnel, tunnel.
    destruct (tunnels w !! td_id d) as [t|]; simpl; [|by split; [intros (? & ? & _)|]].
    split; [intros (? & [= <-] & Hd)|intros Hd; exists t; split; [done|]];
      by destruct (ht w !! t); simplify_eq/=.
  - apply Hnd; [by eapply NoDup_list_tunnels|].
    intros x y (c & Hc & Hx)%(elem_of_list_tunnels _ _ Hwf) (c' & Hc' & Hy)%(elem_of_list_tunnels _ _ Hwf) E.
    rewrite E in Hc. by simplify_eq.
  - apply sort_by_key_sorted.
  - apply sort_by_key_sorted.
Qed.

End properties.

(** ** Examples *)

#[local] Existing Instance by_tree.

Lemma admin_views_agree_witness :
  list_tunnel_conns 1 (world demo_state) =
    Ok (filter (λ c, cd_tunnel_id c = 1) (list_conns (world demo_state))) ∧
  length (list_conns (world demo_state)) = 1%nat.
Proof.
  split; [|reflexivity].
  refine (eq_trans (proj2 (proj2 (admin_views_agree demo_state 1 demo_reachable))) _).
  vm_compute. reflexivity.
Defined.

Lemma admin_lists_complete_witness : NoDup (map cd_id (list_conns (world demo_state))).
Proof. exact (proj1 (proj2 (admin_lists_complete demo_state demo_reachable))). Defined.
