(* ===== verification/Tcp.v ===== *)
(** * Tcp: the two copies of a TCP conn ([src/common/tcp.rs])

    [tunnel_tcp_stream] joins two futures in one task, each a [select!] of an abort signal
    and tokio's [copy_buf] from a counted reader; the stdio tunnel does the same with the
    standard streams, which it does not count and flushes instead of closing. Sockets,
    streams and [copy_buf] are not of this repository: they are parameters, with what their
    documentation promises as laws. A poll of [copy_buf] is the reads and writes it makes,
    which the model performs on the readers the source wraps and over the cells of the
    counters. Polls of the two directions come in any order. *)

From S2P Require Import Prelude Text Counted.

Definition TUNNEL_COPY_BUF : N := 256 * 1024.

(** ** What the copies are made over *)

(** [AsyncRead] and [AsyncWrite]: [remaining] is what a reader is still to hand out and
    [accepted] what a writer has taken. A successful read that fills nothing is the end of
    the source; a write takes a prefix of what it is offered. *)
Class AsyncIo := {
  AsyncReader : Type;
  AsyncWriter : Type;
  poll_read : AsyncReader → bytes → AsyncReader * (Poll (result bytes unit) * bytes);
  poll_write : AsyncWriter → bytes → AsyncWriter * Poll (result bytes N);
  remaining : AsyncReader → bytes;
  accepted : AsyncWriter → bytes;
  poll_read_ready r buf r' buf' : poll_read r buf = (r', (Ready (Ok tt), buf')) →
    ∃ chunk, buf' = buf ++ chunk ∧ remaining r = chunk ++ remaining r' ∧ (chunk = [] → remaining r = []);
  poll_read_other r buf r' res buf' : poll_read r buf = (r', (res, buf')) → res ≠ Ready (Ok tt) →
    remaining r' = remaining r;
  poll_write_ready w bs w' n : poll_write w bs = (w', Ready (Ok n)) →
    n ≤ len bs ∧ accepted w' = accepted w ++ take (N.to_nat n) bs;
  poll_write_other w bs w' res : poll_write w bs = (w', res) → (∀ n, res ≠ Ready (Ok n)) →
    accepted w' = accepted w }.

(** What one poll of a copy does to its reader and its writer until it returns. *)
Inductive CopyProg (S : Type) :=
| CRead (k : Poll (result bytes unit) * bytes → CopyProg S)
| CWrite (bs : bytes) (k : Poll (result bytes N) → CopyProg S)
| CReturn (s : S) (res : Poll (result bytes N)).
Arguments CRead {S} k.
Arguments CWrite {S} bs k.
Arguments CReturn {S} s res.

Definition read_bytes (answer : Poll (result bytes unit) * bytes) : bytes :=
  match answer.1 with Ready (Ok _) => answer.2 | _ => [] end.
Definition read_eof (answer : Poll (result bytes unit) * bytes) : bool :=
  match answer with (Ready (Ok _), []) => true | _ => false end.
Definition write_len (res : Poll (result bytes N)) : N :=
  match res with Ready (Ok n) => n | _ => 0 end.

(** A poll that keeps what it has read in order: it offers to the writer bytes it holds,
    oldest first, lets go of those that were taken, and returns [Ok] only when the source
    has ended and nothing is held. *)
Fixpoint conforms {S} (holds : S → bytes) (p : CopyProg S) (held : bytes) (eof : bool) : Prop :=
  match p with
  | CRead k => ∀ answer, conforms holds (k answer) (held ++ read_bytes answer) (eof || read_eof answer)
  | CWrite bs k => bs `prefix_of` held ∧
      ∀ res, write_len res ≤ len bs → conforms holds (k res) (drop (N.to_nat (write_len res)) held) eof
  | CReturn s res => holds s = held ∧ ∀ n, res = Ready (Ok n) → held = [] ∧ eof = true
  end.

(** [tokio::io::copy_buf] over a [BufReader] of [TUNNEL_COPY_BUF] bytes: "copies the entire
    contents of a reader into a writer", "until the reader returns EOF or fails". *)
Class CopyBuf := {
  CopyState : Type;
  copy_new : CopyState;
  copy_poll : CopyState → CopyProg CopyState;
  copy_held : CopyState → bytes;
  copy_new_held : copy_held copy_new = [];
  copy_conforms s : conforms copy_held (copy_poll s) (copy_held s) false }.

Section tcp.
Context `{AsyncIo, CopyBuf}.

(** ** The two directions *)

Inductive CopyOutcome := Eof | Errored (e : bytes) | Aborted.

(** How a direction leaves its write half: [shutdown()], [reset(ABORT_CODE)], or
    [flush()] for the standard output. *)
Inductive Close := Fin | Reset | Flushed.

(** A future that was not polled yet, one that waits (and whether
    [notify_waiters] was called since it registered), and one that is done. *)
Inductive CopyPhase := Unpolled | Waiting (notified : bool) | Done (outcome : CopyOutcome).

Abbreviation Boxed := (@BoxedReader AsyncReader).

Record CopyDirection := mkCopyDirection {
  phase : CopyPhase; reader : Boxed; writer : AsyncWriter; copier : CopyState; closed : option Close }.

Definition direction_new (r : Boxed) (w : AsyncWriter) : CopyDirection :=
  mkCopyDirection Unpolled r w copy_new None.

(** A poll of [copy_buf], with the reads and writes it makes. *)
Fixpoint run_copy (p : CopyProg CopyState) (r : Boxed) (w : AsyncWriter) (m : Atomics) :
    CopyState * Poll (result bytes N) * Boxed * AsyncWriter * Atomics :=
  match p with
  | CRead k => let '(r, answer, m) := boxed_poll poll_read r [] m in run_copy (k answer) r w m
  | CWrite bs k => let '(w, res) := poll_write w bs in run_copy (k res) r w m
  | CReturn s res => (s, res, r, w, m)
  end.

Definition set_phase (p : CopyPhase) (c : option Close) (d : CopyDirection) : CopyDirection :=
  mkCopyDirection p (reader d) (writer d) (copier d) c.

(** [notify_waiters()] reaches the direction only while it is registered. *)
Definition notify (d : CopyDirection) : CopyDirection :=
  match phase d with Waiting _ => set_phase (Waiting true) (closed d) d | _ => d end.

(** One poll of a direction; [eof] is how it leaves its write half at the end of its
    source and [teardown] on an error or an abort. The second component says whether it
    calls [notify_waiters]. *)
Definition poll_direction (eof teardown : Close) (d : CopyDirection) (m : Atomics) :
    option (CopyDirection * bool * Atomics) :=
  match phase d with
  | Done _ => None
  | Waiting true => Some (set_phase (Done Aborted) (Some teardown) d, false, m)
  | _ =>
      let '(s, res, r, w, m) := run_copy (copy_poll (copier d)) (reader d) (writer d) m in
      let after p c := mkCopyDirection p r w s c in
      Some (match res with
            | Pending => (after (Waiting false) (closed d), false, m)
            | Ready (Ok _) => (after (Done Eof) (Some eof), false, m)
            | Ready (Err e) => (after (Done (Errored e)) (Some teardown), true, m)
            end)
  end.

(** The futures of [tunnel_tcp_stream], from TCP to QUIC and back, and the cells of the
    counters. *)
Record Tunnel := mkTunnel { client_to_server : CopyDirection; server_to_client : CopyDirection; cells : Atomics }.

Inductive PollEvent := PollC2s | PollS2c.

(** One poll of the joined futures; [back] is how the second one leaves its write half:
    [tunnel_tcp_stream] shuts the TCP stream down however its copy ended, and
    [tunnel_stdio_client] (stdin to QUIC and QUIC to stdout) flushes stdout. *)
Definition joined_step (back : Close) (p : PollEvent) (t : Tunnel) : option Tunnel :=
  match p with
  | PollC2s =>
      '(d, signal, m) ← poll_direction Fin Reset (client_to_server t) (cells t);
      Some (mkTunnel d (if signal : bool then notify (server_to_client t) else server_to_client t) m)
  | PollS2c =>
      '(d, signal, m) ← poll_direction back back (server_to_client t) (cells t);
      Some (mkTunnel (if signal : bool then notify (client_to_server t) else client_to_server t) d m)
  end.

Fixpoint joined_run (back : Close) (ps : list PollEvent) (t : Tunnel) : option Tunnel :=
  match ps with [] => Some t | p :: ps' => t' ← joined_step back p t; joined_run back ps' t' end.

(** The futures as [tunnel_tcp_stream] makes them. *)
Definition tcp_futures (tcp_recv : AsyncReader) (tcp_send : AsyncWriter) (recv_channel : AsyncReader) (send_channel : AsyncWriter)
    (counters : option TunnelCounters) (m : Atomics) : Tunnel :=
  let tcp_recv := count_out tcp_recv counters in
  let quic_recv := count_in recv_channel counters in
  mkTunnel (direction_new tcp_recv send_channel) (direction_new quic_recv tcp_send) m.

(** The futures of [tunnel_stdio_client]. *)
Definition stdio_futures (stdin : AsyncReader) (stdout : AsyncWriter) (recv : AsyncReader) (send : AsyncWriter) (m : Atomics) : Tunnel :=
  mkTunnel (direction_new (Plain stdin) send) (direction_new (Plain recv) stdout) m.

Definition is_done (d : CopyDirection) : bool := match phase d with Done _ => true | _ => false end.

(** [join!]: the conn is over when both directions are; its result is always [Ok]. *)
Definition tunnel_tcp_stream (ps : list PollEvent) tcp_recv tcp_send recv_channel send_channel counters m :
    option (result bytes unit * Atomics) :=
  t ← joined_run Fin ps (tcp_futures tcp_recv tcp_send recv_channel send_channel counters m);
  if is_done (client_to_server t) && is_done (server_to_client t) then Some (Ok tt, cells t) else None.

(** The same for the copies of the stdio tunnel, whose result is [Ok] too. *)
Definition tunnel_stdio_stream (ps : list PollEvent) stdin stdout recv send m : option (result bytes unit) :=
  t ← joined_run Flushed ps (stdio_futures stdin stdout recv send m);
  if is_done (client_to_server t) && is_done (server_to_client t) then Some (Ok tt) else None.

(** ** One poll of a copy *)

Definition boxed_inner (r : Boxed) : AsyncReader :=
  match r with Plain r => r | Counted r => cr_inner r end.
Definition boxed_cell (r : Boxed) : option N :=
  match r with Plain _ => None | Counted r => Some (cr_counter r) end.

(** The cell of a reader grew by [n], and no other one changed. *)
Definition grows (cell : option N) (n : N) (m m' : Atomics) : Prop :=
  match cell with
  | None => m' = m
  | Some a => load_relaxed a m' = wrap64 (load_relaxed a m + n) ∧
      ∀ b, b ≠ a → load_relaxed b m' = load_relaxed b m
  end.

Definition cells_ok (m : Atomics) : Prop := ∀ a, load_relaxed a m < 2 ^ 64.

Lemma grows_0 cell m : cells_ok m → grows cell 0 m m.
Proof. intros Hok. destruct cell as [a|]; [|done]. cbn. by rewrite N.add_0_r, wrap64_id. Qed.

Lemma grows_trans cell n1 n2 m m1 m2 : grows cell n1 m m1 → grows cell n2 m1 m2 → grows cell (n1 + n2) m m2.
Proof.
  destruct cell as [a|]; cbn; [|congruence]. intros [E1 O1] [E2 O2]. split.
  - by rewrite E2, E1, wrap64_add_l, N.add_assoc.
  - intros b Hb. by rewrite O2, O1.
Qed.

Lemma grows_ok cell n m m' : cells_ok m → grows cell n m m' → cells_ok m'.
Proof.
  destruct cell as [a|]; cbn; [|by intros ? ->]. intros Hok [Ea Eo] b. destruct (decide (b = a)) as [->|Hb].
  - rewrite Ea. apply wrap64_lt.
  - by rewrite Eo.
Qed.

(** A read through the box: what it hands out leaves the source and is counted. *)
Lemma boxed_poll_spec (r : Boxed) m :
  cells_ok m →
  let '(r', answer, m') := boxed_poll poll_read r [] m in
  remaining (boxed_inner r) = read_bytes answer ++ remaining (boxed_inner r') ∧
  (read_eof answer = true → remaining (boxed_inner r) = []) ∧
  boxed_cell r' = boxed_cell r ∧ grows (boxed_cell r) (len (read_bytes answer)) m m'.
Proof.
  intros Hok.
  assert (∀ (q q' : AsyncReader) answer, poll_read q [] = (q', answer) →
    remaining q = read_bytes answer ++ remaining q' ∧ (read_eof answer = true → remaining q = []) ∧
    filled [] answer = len (read_bytes answer)) as Hread.
  { intros q q' [res b] E. unfold filled, read_bytes, read_eof. cbn [fst snd].
    destruct res as [[[]|e]|]; [|split_and!; [by erewrite (poll_read_other q _ q') by done|done|done]..].
    destruct (poll_read_ready _ _ _ _ E) as (chunk & -> & Hr & He). cbn in *.
    split_and!; [done| |lia]. destruct chunk; [by intros _; apply He|done]. }
  destruct r as [q|q]; cbn [boxed_poll].
  - destruct (poll_read q []) as [q' answer] eqn:E. destruct (Hread _ _ _ E) as (H1 & H2 & _). by split_and!.
  - pose proof (counted_poll_spec poll_read q [] m (Hok _)) as Hc.
    destruct (counted_poll poll_read q [] m) as [[q' answer] m']. destruct Hc as (E & Ec & Hl & Ho).
    destruct (Hread _ _ _ E) as (H1 & H2 & H3). cbn [boxed_inner boxed_cell]. rewrite H3 in Hl. split_and!; [done..|by f_equal|done].
Qed.

(** One poll: what was read, [chunk], and what was written, [out]. *)
Lemma run_copy_spec (p : CopyProg CopyState) : ∀ held eof (r : Boxed) w m,
  conforms copy_held p held eof → (eof = true → remaining (boxed_inner r) = []) → cells_ok m →
  let '(s, res, r', w', m') := run_copy p r w m in
  ∃ chunk out, remaining (boxed_inner r) = chunk ++ remaining (boxed_inner r') ∧ accepted w' = accepted w ++ out ∧
    held ++ chunk = out ++ copy_held s ∧ boxed_cell r' = boxed_cell r ∧ grows (boxed_cell r) (len chunk) m m' ∧
    ∀ n, res = Ready (Ok n) → copy_held s = [] ∧ remaining (boxed_inner r') = [].
Proof.
  induction p as [k IH|bs k IH|s res]; intros held eof r w m Hc He Hok; cbn [run_copy conforms] in *.
  - pose proof (boxed_poll_spec r m Hok) as Hp. destruct (boxed_poll poll_read r [] m) as [[r1 answer] m1].
    destruct Hp as (Hr & Heof & Hcell & Hg).
    assert (eof || read_eof answer = true → remaining (boxed_inner r1) = []) as He1.
    { intros Hor. assert (remaining (boxed_inner r) = []) as Hz by (destruct eof; [by apply He|by apply Heof]).
      rewrite Hz in Hr. by apply symmetry, app_eq_nil in Hr as [_ ?]. }
    specialize (IH answer _ _ r1 w m1 (Hc answer) He1 (grows_ok _ _ _ _ Hok Hg)).
    destruct (run_copy (k answer) r1 w m1) as [[[[s res] r'] w'] m']. destruct IH as (chunk & out & Hr' & Ha & Hh & Hc' & Hg' & Hend).
    exists (read_bytes answer ++ chunk), out. rewrite Hcell in *. split_and!; [|done| |done| |done].
    + by rewrite Hr, Hr', app_assoc.
    + by rewrite app_assoc.
    + replace (len (read_bytes answer ++ chunk)) with (len (read_bytes answer) + len chunk) by (rewrite length_app; lia).
      by eapply grows_trans.
  - destruct Hc as [[rest ->] Hk]. destruct (poll_write w bs) as [w1 res] eqn:Ew.
    assert (write_len res ≤ len bs ∧ accepted w1 = accepted w ++ take (N.to_nat (write_len res)) bs) as [Hn Ha1].
    { destruct res as [[n|e]|]; cbn; [by eapply poll_write_ready|..];
        (split; [lia|]; rewrite app_nil_r; by eapply poll_write_other). }
    specialize (IH res _ _ r w1 m (Hk res Hn) He Hok).
    destruct (run_copy (k res) r w1 m) as [[[[s res'] r'] w'] m']. destruct IH as (chunk & out & Hr' & Ha & Hh & Hc' & Hg' & Hend).
    exists chunk, (take (N.to_nat (write_len res)) bs ++ out). split_and!; [done| | |done|done|done].
    + by rewrite Ha, Ha1, app_assoc.
    + rewrite drop_app_le in Hh by lia. rewrite <-(app_assoc (take _ bs)), <-Hh.
      by rewrite !app_assoc, take_drop.
  - destruct Hc as [<- Hend]. exists [], []. rewrite !app_nil_r. split_and!; try done; [by apply grows_0|].
    intros n Hn. destruct (Hend n Hn) as [? ?]. split; [done|]. by apply He.
Qed.

(** ** A direction *)

(** A direction that has read [pulled] of its source [src] and written [out] to [dst]. *)
Definition carried (eof teardown : Close) (src : AsyncReader) (dst : AsyncWriter) (d : CopyDirection) (pulled out : bytes) : Prop :=
  remaining src = pulled ++ remaining (boxed_inner (reader d)) ∧ accepted (writer d) = accepted dst ++ out ∧
  out `prefix_of` pulled ∧
  match phase d with
  | Done Eof => out = remaining src ∧ closed d = Some eof
  | Done _ => closed d = Some teardown
  | _ => closed d = None
  end.

(** With what it holds, as long as it goes on. *)
Definition carries (eof teardown : Close) src dst d cell pulled out : Prop :=
  carried eof teardown src dst d pulled out ∧ boxed_cell (reader d) = cell ∧
  (is_done d = false → pulled = out ++ copy_held (copier d)).

Lemma carries_new eof teardown r w : carries eof teardown (boxed_inner r) w (direction_new r w) (boxed_cell r) [] [].
Proof.
  split; [|split; [done|]]; [|by intros _; cbn; rewrite copy_new_held].
  split_and!; [done|by rewrite app_nil_r|done|done].
Qed.

Lemma carries_notify eof teardown src dst d cell pulled out :
  carries eof teardown src dst d cell pulled out → carries eof teardown src dst (notify d) cell pulled out.
Proof.
  unfold notify. destruct (phase d) eqn:E; [done| |done]. intros ((H1 & H2 & H3 & H4) & Hc & Hh). rewrite E in H4.
  split; [by split_and!|]. split; [done|]. intros _. apply Hh. unfold is_done. by rewrite E.
Qed.

(** A poll of the copy of a direction that goes on, before its outcome is handled. *)
Lemma carries_copy eof teardown src dst d cell pulled out m s res r' w' m' p c :
  carries eof teardown src dst d cell pulled out → is_done d = false → cells_ok m →
  run_copy (copy_poll (copier d)) (reader d) (writer d) m = (s, res, r', w', m') →
  match res with
  | Pending => p = Waiting false ∧ c = None
  | Ready (Ok _) => p = Done Eof ∧ c = Some eof
  | Ready (Err e) => p = Done (Errored e) ∧ c = Some teardown
  end →
  ∃ chunk out', carries eof teardown src dst (mkCopyDirection p r' w' s c) cell (pulled ++ chunk) (out ++ out') ∧
    grows cell (len chunk) m m'.
Proof.
  intros ((H1 & H2 & H3 & H4) & Hcell & Hh) Hd Hok Er Hp.
  pose proof (run_copy_spec (copy_poll (copier d)) (copy_held (copier d)) false (reader d) (writer d) m
    (copy_conforms _) ltac:(done) Hok) as Hr. rewrite Er in Hr.
  destruct Hr as (chunk & out' & Hrem & Hacc & Hheld & Hcell' & Hg & Hend).
  assert (pulled ++ chunk = (out ++ out') ++ copy_held s) as Hnew by (by rewrite (Hh Hd), <-!app_assoc, Hheld).
  assert (remaining src = (pulled ++ chunk) ++ remaining (boxed_inner r')) as Hsrc by (by rewrite H1, Hrem, app_assoc).
  exists chunk, out'. rewrite Hcell in *. split; [|done]. split; [|by split].
  split_and!; cbn [reader writer phase closed]; [done|by rewrite Hacc, H2, app_assoc|rewrite Hnew; by apply prefix_app_r|].
  destruct res as [[n|e]|]; destruct Hp as [-> ->]; [|done..].
  destruct (Hend n eq_refl) as [Hz Hz']. split; [|done]. by rewrite Hsrc, Hnew, Hz, Hz', !app_nil_r.
Qed.

Lemma carries_poll eof teardown src dst d cell pulled out m d' signal m' :
  carries eof teardown src dst d cell pulled out → cells_ok m →
  poll_direction eof teardown d m = Some (d', signal, m') →
  ∃ chunk out', carries eof teardown src dst d' cell (pulled ++ chunk) (out ++ out') ∧ grows cell (len chunk) m m'.
Proof.
  intros Hc Hok Hp. unfold poll_direction in Hp. pose proof Hc as ((H1 & H2 & H3 & H4) & Hcell & Hh).
  destruct (phase d) as [|[]|o] eqn:Hph; [| | |done].
  2:{ injection Hp as <- <- <-. exists [], []. rewrite !app_nil_r. split; [|by apply grows_0].
      split; [by split_and!|]. by split. }
  all: destruct (run_copy (copy_poll (copier d)) (reader d) (writer d) m) as [[[[s res] r'] w'] m1] eqn:Er;
    assert (m1 = m') as -> by (by destruct res as [[n|e]|]; injection Hp);
    eapply (carries_copy _ _ _ _ _ _ _ _ _ _ _ _ _ _ (phase d') (closed d')) in Er as (chunk & out' & Hd' & Hg);
      [|exact Hc|unfold is_done; by rewrite Hph|done|by destruct res as [[n|e]|]; injection Hp as <- <-];
    exists chunk, out'; (split; [|done]); by destruct res as [[n|e]|]; injection Hp as <- <-.
Qed.

(** ** Both directions *)

(** The cells after [n1] bytes were read through one reader and [n2] through the other. *)
Definition tallied (c1 c2 : option N) (n1 n2 : N) (m m' : Atomics) : Prop :=
  match c1, c2 with
  | Some a1, Some a2 =>
      load_relaxed a1 m' = wrap64 (load_relaxed a1 m + n1) ∧ load_relaxed a2 m' = wrap64 (load_relaxed a2 m + n2) ∧
      ∀ b, b ≠ a1 → b ≠ a2 → load_relaxed b m' = load_relaxed b m
  | None, None => m' = m
  | _, _ => True
  end.

Lemma tallied_1 c1 c2 n1 n2 k m m1 m2 :
  (c1 = c2 → c1 = None) → tallied c1 c2 n1 n2 m m1 → grows c1 k m1 m2 → tallied c1 c2 (n1 + k) n2 m m2.
Proof.
  intros Hne Ht Hg. destruct c1 as [a1|], c2 as [a2|]; cbn in *; [|done..|congruence].
  assert (a2 ≠ a1) by (intros ->; by discriminate Hne). destruct Ht as (E1 & E2 & Eo), Hg as [G1 Go]. split_and!.
  - by rewrite G1, E1, wrap64_add_l, N.add_assoc.
  - by rewrite Go, E2.
  - intros b Hb1 Hb2. by rewrite Go, Eo.
Qed.

Lemma tallied_sym c1 c2 n1 n2 m m' : tallied c1 c2 n1 n2 m m' → tallied c2 c1 n2 n1 m m'.
Proof. destruct c1, c2; cbn; [|done..]. intros (? & ? & Ho). split_and!; [done..|]. intros b ? ?. by apply Ho. Qed.

Lemma tallied_0 c1 c2 m : cells_ok m → tallied c1 c2 0 0 m m.
Proof. intros Hok. destruct c1, c2; cbn; rewrite ?N.add_0_r; [|done..]. by rewrite !wrap64_id. Qed.

Lemma tallied_ok c1 c2 n1 n2 m m' : (c1 = None ↔ c2 = None) → cells_ok m → tallied c1 c2 n1 n2 m m' → cells_ok m'.
Proof.
  intros Hn Hok Ht. destruct c1 as [a1|], c2 as [a2|]; cbn in Ht; [|naive_solver..|by subst].
  destruct Ht as (E1 & E2 & Eo). intros b. destruct (decide (b = a1)) as [->|]; [rewrite E1; apply wrap64_lt|].
  destruct (decide (b = a2)) as [->|]; [rewrite E2; apply wrap64_lt|]. by rewrite Eo.
Qed.

Section joined.
Variables (back : Close) (src1 src2 : AsyncReader) (dst1 dst2 : AsyncWriter) (c1 c2 : option N) (m0 : Atomics).
Hypothesis Hcells : c1 = c2 → c1 = None.
Hypothesis Hcounted : c1 = None ↔ c2 = None.
Hypothesis Hok : cells_ok m0.

(** Both directions carry, and the cells hold what they have read. *)
Definition joined_ok (t : Tunnel) : Prop :=
  ∃ p1 o1 p2 o2, carries Fin Reset src1 dst1 (client_to_server t) c1 p1 o1 ∧
    carries back back src2 dst2 (server_to_client t) c2 p2 o2 ∧ tallied c1 c2 (len p1) (len p2) m0 (cells t).

Lemma joined_step_ok p t t' : joined_ok t → joined_step back p t = Some t' → joined_ok t'.
Proof.
  intros (p1 & o1 & p2 & o2 & H1 & H2 & Ht) E. pose proof (tallied_ok _ _ _ _ _ _ Hcounted Hok Ht) as Hok'.
  destruct p; cbn [joined_step] in E; destruct (poll_direction _ _ _ (cells t)) as [[[d signal] m]|] eqn:Hp; [|done| |done];
    injection E as <-; (eapply carries_poll in Hp as (chunk & out & Hd & Hg); [|done..]).
  - exists (p1 ++ chunk), (o1 ++ out), p2, o2. split_and!; [done| |].
    + destruct signal; [by apply carries_notify|done].
    + cbn [cells]. replace (len (p1 ++ chunk)) with (len p1 + len chunk) by (rewrite length_app; lia). by eapply tallied_1.
  - exists p1, o1, (p2 ++ chunk), (o2 ++ out). split_and!; [|done|].
    + destruct signal; [by apply carries_notify|done].
    + cbn [cells]. replace (len (p2 ++ chunk)) with (len p2 + len chunk) by (rewrite length_app; lia).
      apply tallied_sym. eapply tallied_1; [|by apply tallied_sym|done]. intros E. rewrite E. by apply Hcells.
Qed.

Lemma joined_run_ok ps : ∀ t t', joined_ok t → joined_run back ps t = Some t' → joined_ok t'.
Proof.
  induction ps as [|p ps IH]; intros t t' Hj E; cbn in E; [by injection E as <-|].
  destruct (joined_step back p t) as [t1|] eqn:E1; [|done]. cbn in E. eapply IH; [|done]. by eapply joined_step_ok.
Qed.

End joined.

(** C34: the two copies of a conn and its counters, over any sockets and streams and any
    [copy_buf] that keep their documented promises, in whatever order the futures are
    polled. At every moment each direction has written, in order, a prefix of the bytes it
    has read of its source; one that ended at the end of its source has written all of it
    and finished its write half, one that failed or was told to stop has torn it down (the
    stream to the peer is reset), and one that goes on has left it open. The conn's
    counters have grown, modulo 2^64, by exactly the bytes read: in by those read from the
    peer's stream, out by those read from the socket; no other cell has changed, and none
    at all without counters. The stdio tunnel carries its bytes likewise, flushes the
    standard output and counts nothing. *)
Theorem tcp_copies_faithful local_recv local_send recv send counters m ps :
  cells_ok m → (∀ c, counters = Some c → bytes_in c ≠ bytes_out c) →
  (∀ t, joined_run Fin ps (tcp_futures local_recv local_send recv send counters m) = Some t →
   ∃ pulled_out out pulled_in back,
     carried Fin Reset local_recv send (client_to_server t) pulled_out out ∧
     carried Fin Fin recv local_send (server_to_client t) pulled_in back ∧
     match counters with
     | Some c =>
         counters_snapshot c (cells t) = (wrap64 ((counters_snapshot c m).1 + len pulled_in),
                                          wrap64 ((counters_snapshot c m).2 + len pulled_out)) ∧
         ∀ a, a ≠ bytes_in c → a ≠ bytes_out c → load_relaxed a (cells t) = load_relaxed a m
     | None => cells t = m
     end) ∧
  (∀ t, joined_run Flushed ps (stdio_futures local_recv local_send recv send m) = Some t →
   ∃ pulled_out out pulled_in back,
     carried Fin Reset local_recv send (client_to_server t) pulled_out out ∧
     carried Flushed Flushed recv local_send (server_to_client t) pulled_in back ∧ cells t = m).
Proof.
  intros Hok Hne. split; intros t E.
  - assert (∃ c1 c2, (c1 = match counters with Some c => Some (bytes_out c) | None => None end) ∧
      (c2 = match counters with Some c => Some (bytes_in c) | None => None end)) as (c1 & c2 & E1 & E2) by eauto.
    eapply (joined_run_ok Fin local_recv recv send local_send c1 c2 m) in E as (p1 & o1 & p2 & o2 & [H1 _] & [H2 _] & Ht).
    + exists p1, o1, p2, o2. split_and!; [done..|]. subst c1 c2. destruct counters as [c|]; [|done].
      destruct Ht as (T1 & T2 & To). unfold counters_snapshot. cbn. rewrite T1, T2. split; [done|]. intros a ? ?. by apply To.
    + subst. destruct counters as [c|]; [|done]. intros [= Ec]. by destruct (Hne c).
    + subst. by destruct counters.
    + done.
    + exists [], [], [], []. subst. split_and!; [| |by apply tallied_0]; destruct counters as [c|].
      * apply (carries_new Fin Reset (count_out local_recv (Some c)) send).
      * apply (carries_new Fin Reset (Plain local_recv) send).
      * apply (carries_new Fin Fin (count_in recv (Some c)) local_send).
      * apply (carries_new Fin Fin (Plain recv) local_send).
  - eapply (joined_run_ok Flushed local_recv recv send local_send None None m) in E as (p1 & o1 & p2 & o2 & [H1 _] & [H2 _] & Ht);
      [by exists p1, o1, p2, o2|done..|].
    exists [], [], [], []. split_and!; [|by apply (carries_new Flushed Flushed (Plain recv) local_send)|done].
    apply (carries_new Fin Reset (Plain local_recv) send).
Qed.

Lemma poll_errored eof teardown d m d' signal m' e :
  poll_direction eof teardown d m = Some (d', signal, m') → phase d' = Done (Errored e) →
  signal = true ∧ closed d' = Some teardown.
Proof.
  unfold poll_direction. intros Hp Hph. destruct (phase d) as [|[]|]; [|by simplify_eq| |done];
    destruct (run_copy _ _ _ m) as [[[[s res] r'] w'] m1]; by destruct res as [[n|e']|]; simplify_eq.
Qed.

(** An error in one direction ends the conn: once the other direction has been
    polled, so that it waits for the signal, it ends at its next poll, without
    copying any further, and closes its half; then both are done. *)
Theorem tcp_error_ends_both back t t' e b :
  phase (server_to_client t) = Waiting b →
  joined_step back PollC2s t = Some t' → phase (client_to_server t') = Done (Errored e) →
  ∃ t'', joined_step back PollS2c t' = Some t'' ∧
    phase (server_to_client t'') = Done Aborted ∧ closed (server_to_client t'') = Some back ∧
    closed (client_to_server t'') = Some Reset ∧ writer (server_to_client t'') = writer (server_to_client t) ∧
    is_done (client_to_server t'') && is_done (server_to_client t'') = true.
Proof.
  intros Hw Hs He. cbn in Hs. destruct (poll_direction _ _ _ (cells t)) as [[[d s] m]|] eqn:Hp; [|done].
  simplify_eq/=. destruct (poll_errored _ _ _ _ _ _ _ _ Hp He) as [-> Hcl].
  unfold notify, poll_direction. rewrite Hw. cbn. eexists. split; [done|]. cbn.
  split_and!; try done. unfold is_done. cbn. by rewrite He.
Qed.

(** A direction whose source and destination are silent. *)
Definition stalled (d : CopyDirection) (m : Atomics) : Prop :=
  run_copy (copy_poll (copier d)) (reader d) (writer d) m = (copier d, Pending, reader d, writer d, m).

(** The signal is not kept for a direction that was not polled yet: when the first
    poll of the other one fails, it waits for its own source as if nothing had
    happened. *)
Theorem tcp_signal_lost back t t' e n :
  phase (server_to_client t) = Unpolled →
  joined_step back PollC2s t = Some t' → phase (client_to_server t') = Done (Errored e) →
  stalled (server_to_client t) (cells t') →
  ∃ t'', joined_run back (repeat PollS2c n) t' = Some t'' ∧ is_done (server_to_client t'') = false.
Proof.
  intros Hw Hs He Hst. cbn in Hs. destruct (poll_direction _ _ _ (cells t)) as [[[d s] m]|] eqn:Hp; [|done].
  simplify_eq/=. destruct (poll_errored _ _ _ _ _ _ _ _ Hp He) as [-> _]. unfold notify. rewrite Hw. clear Hp.
  assert (phase (server_to_client t) = Unpolled ∨ phase (server_to_client t) = Waiting false) as Hph by auto.
  clear Hw. revert Hst Hph. generalize (server_to_client t). induction n as [|n IH]; intros s2c Hst Hph.
  - eexists. split; [done|]. unfold is_done. cbn. by destruct Hph as [-> | ->].
  - destruct (IH (mkCopyDirection (Waiting false) (reader s2c) (writer s2c) (copier s2c) (closed s2c))) as (t'' & Hr & Hd); [done|by right|].
    exists t''. split; [|done]. rewrite <-Hr. cbn [repeat joined_run joined_step server_to_client client_to_server cells].
    unfold poll_direction. destruct Hph as [-> | ->]; by rewrite Hst.
Qed.

End tcp.

(** ** Examples *)

(** A socket as the answers it gives in turn: a string is read, an empty one stands for a
    read that is not ready; and a writer that takes as many bytes of each write as it is
    told, or fails. *)
Definition demo_write (w : list (result bytes N) * bytes) (bs : bytes) :
    list (result bytes N) * bytes * Poll (result bytes N) :=
  match w with
  | ([], got) => (([], got), Pending)
  | (Ok n :: w, got) => ((w, got ++ take (N.to_nat n) bs), Ready (Ok (n `min` len bs)))
  | (Err e :: w, got) => ((w, got), Ready (Err e))
  end.

#[local, refine] Instance demo_io : AsyncIo := {|
  AsyncReader := list bytes;
  AsyncWriter := list (result bytes N) * bytes;
  poll_read := demo_reader;
  poll_write := demo_write;
  remaining := λ r, mjoin r;
  accepted := snd |}.
Proof.
  - intros r buf r' buf' E. destruct r as [|[|x c] r]; cbn in E; simplify_eq.
    + exists []. by rewrite app_nil_r.
    + by exists (x :: c).
  - intros r buf r' res buf' E Hn. destruct r as [|[|x c] r]; cbn in E; by simplify_eq.
  - intros [[|[n|e] w] got] bs w' k E; cbn in E; simplify_eq. cbn. split; [lia|]. f_equal.
    destruct (N.min_spec n (len bs)) as [[_ ->]|[Hle ->]]; [done|]. rewrite !take_ge by lia. done.
  - intros [[|[n|e] w] got] bs w' res E Hn; cbn in E; simplify_eq; [done| |done]. by destruct (Hn (n `min` len bs)).
Defined.

(** One read or write at a time, what is held first. *)
Definition demo_flush (held : bytes) : CopyProg bytes :=
  CWrite held (λ res,
    match res with
    | Ready (Ok n) => CReturn (drop (N.to_nat n) held) Pending
    | Ready (Err e) => CReturn held (Ready (Err e))
    | Pending => CReturn held Pending
    end).

#[local, refine] Instance demo_copy : CopyBuf := {|
  CopyState := bytes;
  copy_new := [];
  copy_poll held :=
    match held with
    | [] => CRead (λ answer,
        match answer with
        | (Ready (Ok _), []) => CReturn [] (Ready (Ok 0))
        | (Ready (Ok _), chunk) => demo_flush chunk
        | (Ready (Err e), _) => CReturn [] (Ready (Err e))
        | (Pending, _) => CReturn [] Pending
        end)
    | _ => demo_flush held
    end;
  copy_held := λ held, held;
  copy_new_held := eq_refl |}.
Proof.
  assert (∀ held eof, conforms (λ s, s) (demo_flush held) held eof) as Hf.
  { intros held eof. split; [done|]. by intros [[n|e]|] _. }
  intros [|x held]; [|apply Hf]. intros [[[[]|e]|] [|y chunk]]; cbn [app]; try apply Hf; by split.
Defined.

(** The peer's answer arrives in full; the local side fails after two of four bytes. *)
Definition demo_counters : TunnelCounters := mkCounters 1 2.
Definition demo_local_recv : @AsyncReader demo_io := [str "ab"; str "cd"].
Definition demo_local_send : @AsyncWriter demo_io := ([Ok 1; Ok 5], []).
Definition demo_recv : @AsyncReader demo_io := [str "xyz"].
Definition demo_send : @AsyncWriter demo_io := ([Ok 2; Err (str "reset by peer")], []).
Definition demo_futures : Tunnel :=
  tcp_futures demo_local_recv demo_local_send demo_recv demo_send (Some demo_counters) {[ 7 := 9 ]}.
Definition demo_polls : list PollEvent := [PollC2s; PollS2c; PollS2c; PollC2s; PollS2c].
Definition demo_conn : Tunnel := default demo_futures (joined_run Fin demo_polls demo_futures).

Example demo_conn_seen :
  (accepted (writer (client_to_server demo_conn)), phase (client_to_server demo_conn), closed (client_to_server demo_conn),
   accepted (writer (server_to_client demo_conn)), phase (server_to_client demo_conn)) =
  (str "ab", Done (Errored (str "reset by peer")), Some Reset, str "xyz", Done Aborted).
Proof. vm_compute. reflexivity. Qed.

Lemma tcp_copies_faithful_witness :
  counters_snapshot demo_counters (cells demo_conn) = (3, 4) ∧
  ∃ pulled out, carried Fin Reset demo_local_recv demo_send (client_to_server demo_conn) pulled out.
Proof.
  split; [vm_compute; reflexivity|].
  destruct (tcp_copies_faithful demo_local_recv demo_local_send demo_recv demo_send
    (Some demo_counters) {[ 7 := 9 ]} demo_polls) as [Htcp _].
  - intros a. unfold load_relaxed. destruct (decide (a = 7)) as [->|]; [by rewrite lookup_singleton_eq|by rewrite lookup_singleton_ne].
  - by intros c [= <-].
  - destruct (Htcp demo_conn) as (pulled & out & _ & _ & Hc & _); [vm_compute; reflexivity|]. exists pulled, out. exact Hc.
Defined.
