(* ===== verification/Json.v ===== *)
(** * Json: the documents the admin API serves and [ctl] reads

    The data model of [serde_json::Value], and what [#[derive(Serialize)]] and
    [#[derive(Deserialize)]] make of the declarations of [src/server/state.rs] and
    [src/ctl/mod.rs]: an object whose keys are the field names; a struct is read from
    an object, where unknown keys are ignored, or from an array of its fields in
    order, and an [Option] field may be absent or [null]. [#[serde(flatten)]] merges
    the fields of the inner struct. *)

From S2P Require Import Prelude Text NetAddr Remote State Ledger Admin.

(** [serde_json::Number]: a [u64], or a number that is not one. *)
Inductive Number := PosInt (n : N) | NegInt (z : Z) | Float (text : bytes).

(** [serde_json::Value] *)
#[local] Unset Elimination Schemes.
Inductive Value :=
| Null
| Bool (b : bool)
| Num (n : Number)
| String (s : bytes)
| Array (l : list Value)
| Object (m : gmap bytes Value).
#[local] Set Elimination Schemes.

(** ** Writing *)

Class Serialize (A : Type) := to_value : A → Value.

#[export] Instance u64_serialize : Serialize N := λ n, Num (PosInt n).
#[export] Instance str_serialize : Serialize bytes := String.
#[export] Instance option_serialize {A} `{Serialize A} : Serialize (option A) := λ o,
  match o with Some a => to_value a | None => Null end.
#[export] Instance vec_serialize {A} `{Serialize A} : Serialize (list A) | 10 := λ l,
  Array (map to_value l).

(** The fields of a struct, in the order of its declaration. *)
Definition struct (fields : list (string * Value)) : gmap bytes Value :=
  list_to_map (prod_map str id <$> fields).

Definition server_info_fields (s : ServerInfoDto) : gmap bytes Value := struct
  [("version", to_value (si_version s)); ("listen_addr", to_value (si_listen_addr s));
   ("started_at_ms", to_value (si_started_at_ms s)); ("uptime_ms", to_value (si_uptime_ms s));
   ("client_count", to_value (si_client_count s)); ("tunnel_count", to_value (si_tunnel_count s));
   ("active_conn_count", to_value (si_active_conn_count s))].

Definition client_summary_fields (s : ClientSummaryDto) : gmap bytes Value := struct
  [("id", to_value (cs_id s)); ("remote", to_value (cs_remote s));
   ("connected_at_ms", to_value (cs_connected_at_ms s)); ("tunnel_count", to_value (cs_tunnel_count s));
   ("active_conn_count", to_value (cs_active_conn_count s)); ("total_conns", to_value (cs_total_conns s));
   ("bytes_in", to_value (cs_bytes_in s)); ("bytes_out", to_value (cs_bytes_out s))].

Definition tunnel_fields (t : TunnelDto) : gmap bytes Value := struct
  [("id", to_value (td_id t)); ("client_id", to_value (td_client_id t));
   ("direction", to_value (td_direction t)); ("kind", to_value (td_kind t));
   ("spec", to_value (td_spec t)); ("opened_at_ms", to_value (td_opened_at_ms t));
   ("active_conn_count", to_value (td_active_conn_count t)); ("total_conns", to_value (td_total_conns t));
   ("active_bytes_in", to_value (td_active_bytes_in t));
   ("active_bytes_out", to_value (td_active_bytes_out t));
   ("bytes_in", to_value (td_bytes_in t)); ("bytes_out", to_value (td_bytes_out t))].

Definition conn_fields (c : ConnDto) : gmap bytes Value := struct
  [("id", to_value (cd_id c)); ("tunnel_id", to_value (cd_tunnel_id c));
   ("client_id", to_value (cd_client_id c)); ("opened_at_ms", to_value (cd_opened_at_ms c));
   ("peer", to_value (cd_peer c)); ("bytes_in", to_value (cd_bytes_in c));
   ("bytes_out", to_value (cd_bytes_out c))].

Definition history_fields (h : HistoryEntry) : gmap bytes Value := struct
  [("client_id", to_value (hi_client_id h)); ("remote", to_value (hi_remote h));
   ("connected_at_ms", to_value (hi_connected_at_ms h));
   ("disconnected_at_ms", to_value (hi_disconnected_at_ms h)); ("reason", to_value (hi_reason h));
   ("bytes_in", to_value (hi_bytes_in h)); ("bytes_out", to_value (hi_bytes_out h));
   ("total_conns", to_value (hi_total_conns h))].

#[export] Instance ServerInfoDto_serialize : Serialize ServerInfoDto := λ s, Object (server_info_fields s).
#[export] Instance ClientSummaryDto_serialize : Serialize ClientSummaryDto := λ s,
  Object (client_summary_fields s).
#[export] Instance TunnelDto_serialize : Serialize TunnelDto := λ t, Object (tunnel_fields t).
#[export] Instance ConnDto_serialize : Serialize ConnDto := λ c, Object (conn_fields c).
#[export] Instance HistoryEntry_serialize : Serialize HistoryEntry := λ h, Object (history_fields h).

(** [#[serde(flatten)] summary] beside one more field. *)
Definition ClientDetailDto_serialize : Serialize ClientDetailDto := λ d,
  Object (<[str "tunnels" := to_value (cdt_tunnels d)]> (client_summary_fields (cdt_summary d))).
#[export] Existing Instance ClientDetailDto_serialize.
Definition TunnelDetailDto_serialize : Serialize TunnelDetailDto := λ d,
  Object (<[str "conns" := to_value (tdt_conns d)]> (tunnel_fields (tdt_summary d))).
#[export] Existing Instance TunnelDetailDto_serialize.

(** ** Reading *)

Class Deserialize (A : Type) := from_value : Value → option A.

#[export] Instance u64_deserialize : Deserialize N := λ v,
  match v with Num (PosInt n) => Some n | _ => None end.
#[export] Instance string_deserialize : Deserialize bytes := λ v,
  match v with String s => Some s | _ => None end.
#[export] Instance vec_deserialize {A} `{Deserialize A} : Deserialize (list A) | 10 := λ v,
  match v with Array l => mapM from_value l | _ => None end.

(** A constructor applied to the fields that were found. *)
Definition opt_ap {A B} (f : option (A → B)) (x : option A) : option B := g ← f; g <$> x.
#[local] Infix "<*>" := opt_ap (at level 61, left associativity).

(** The value of a field: an absent key and [null] are both [None] of an [Option]. *)
Definition field {A} `{Deserialize A} (o : option Value) : option A := v ← o; from_value v.
Definition opt_field {A} `{Deserialize A} (o : option Value) : option (option A) :=
  match o with
  | None | Some Null => Some None
  | Some v => Some <$> from_value v
  end.

(** What a derived visitor finds for each field of a struct. *)
Definition entries (names : list string) (v : Value) : option (list (option Value)) :=
  match v with
  | Object m => Some ((λ k, m !! str k) <$> names)
  | Array l => if decide (length l = length names) then Some (Some <$> l) else None
  | _ => None
  end.

(** The rows of [ctl]; [ConnRow] and [HistoryRow] have the fields of the DTOs they are
    read from, so the model uses one type for both. *)
Record TunnelRow := mkTunnelRow {
  tr_id : N; tr_client_id : N; tr_direction : bytes; tr_kind : bytes; tr_spec : bytes;
  tr_opened_at_ms : N; tr_active_conn_count : N; tr_total_conns : N; tr_bytes_in : N;
  tr_bytes_out : N }.
Record ClientDetail := mkClientDetailRow { cr_summary : ClientSummaryDto; cr_tunnels : list TunnelRow }.
Record TunnelDetail := mkTunnelDetailRow { tr_summary : TunnelRow; tr_conns : list ConnDto }.

Definition ServerInfo_deserialize : Deserialize ServerInfoDto := λ v,
  fs ← entries ["version"; "listen_addr"; "started_at_ms"; "uptime_ms"; "client_count";
                "tunnel_count"; "active_conn_count"]%string v;
  match fs with
  | [a; b; c; d; e; f; g] =>
      mkServerInfo <$> field a <*> field b <*> field c <*> field d <*> field e <*> field f <*> field g
  | _ => None
  end.
#[export] Existing Instance ServerInfo_deserialize.

Definition ClientSummary_deserialize : Deserialize ClientSummaryDto := λ v,
  fs ← entries ["id"; "remote"; "connected_at_ms"; "tunnel_count"; "active_conn_count";
                "total_conns"; "bytes_in"; "bytes_out"]%string v;
  match fs with
  | [a; b; c; d; e; f; g; h] =>
      mkClientSummary <$> field a <*> field b <*> field c <*> field d <*> field e <*> field f
        <*> field g <*> field h
  | _ => None
  end.
#[export] Existing Instance ClientSummary_deserialize.

Definition TunnelRow_deserialize : Deserialize TunnelRow := λ v,
  fs ← entries ["id"; "client_id"; "direction"; "kind"; "spec"; "opened_at_ms";
                "active_conn_count"; "total_conns"; "bytes_in"; "bytes_out"]%string v;
  match fs with
  | [a; b; c; d; e; f; g; h; i; j] =>
      mkTunnelRow <$> field a <*> field b <*> field c <*> field d <*> field e <*> field f
        <*> field g <*> field h <*> field i <*> field j
  | _ => None
  end.
#[export] Existing Instance TunnelRow_deserialize.

Definition ConnRow_deserialize : Deserialize ConnDto := λ v,
  fs ← entries ["id"; "tunnel_id"; "client_id"; "opened_at_ms"; "peer"; "bytes_in"; "bytes_out"]%string v;
  match fs with
  | [a; b; c; d; e; f; g] =>
      mkConnDto <$> field a <*> field b <*> field c <*> field d
        <*> opt_field e <*> field f <*> field g
  | _ => None
  end.
#[export] Existing Instance ConnRow_deserialize.

Definition HistoryRow_deserialize : Deserialize HistoryEntry := λ v,
  fs ← entries ["client_id"; "remote"; "connected_at_ms"; "disconnected_at_ms"; "reason";
                "bytes_in"; "bytes_out"; "total_conns"]%string v;
  match fs with
  | [a; b; c; d; e; f; g; h] =>
      mkHistory <$> field a <*> field b <*> field c <*> field d <*> field e <*> field f
        <*> field g <*> field h
  | _ => None
  end.
#[export] Existing Instance HistoryRow_deserialize.

(** A struct with a flattened field is read from an object only. *)
Definition ClientDetail_deserialize : Deserialize ClientDetail := λ v,
  match v with
  | Object m => mkClientDetailRow <$> from_value v <*> field (m !! str "tunnels")
  | _ => None
  end.
#[export] Existing Instance ClientDetail_deserialize.
Definition TunnelDetail_deserialize : Deserialize TunnelDetail := λ v,
  match v with
  | Object m => mkTunnelDetailRow <$> from_value v <*> field (m !! str "conns")
  | _ => None
  end.
#[export] Existing Instance TunnelDetail_deserialize.

(** ** What is written is read back *)

Definition tunnel_row (t : TunnelDto) : TunnelRow :=
  mkTunnelRow (td_id t) (td_client_id t) (td_direction t) (td_kind t) (td_spec t) (td_opened_at_ms t)
    (td_active_conn_count t) (td_total_conns t) (td_bytes_in t) (td_bytes_out t).
Definition client_detail (d : ClientDetailDto) : ClientDetail :=
  mkClientDetailRow (cdt_summary d) (map tunnel_row (cdt_tunnels d)).
Definition tunnel_detail (d : TunnelDetailDto) : TunnelDetail :=
  mkTunnelDetailRow (tunnel_row (tdt_summary d)) (tdt_conns d).

(** [B] reads what [A] writes as [f]. *)
Class Reads {A B} `{Serialize A, Deserialize B} (f : A → B) : Prop :=
  reads a : from_value (to_value a) = Some (f a).

#[export] Instance vec_reads {A B} `{Reads A B f} : Reads (map f).
Proof.
  intros l. unfold to_value, vec_serialize, from_value, vec_deserialize.
  induction l as [|a l IH]; [done|]. simpl. rewrite reads. simpl. by rewrite IH.
Qed.

#[export] Instance server_info_reads : Reads (@id ServerInfoDto).
Proof. intros []. vm_compute. reflexivity. Qed.
#[export] Instance client_summary_reads : Reads (@id ClientSummaryDto).
Proof. intros []. vm_compute. reflexivity. Qed.
#[export] Instance tunnel_reads : Reads tunnel_row.
Proof. intros []. vm_compute. reflexivity. Qed.
#[export] Instance conn_reads : Reads (@id ConnDto).
Proof. intros [???? [] ??]; vm_compute; reflexivity. Qed.
#[export] Instance history_reads : Reads (@id HistoryEntry).
Proof. intros []. vm_compute. reflexivity. Qed.

(** The flattened summary is found beside the list. *)
Lemma client_summary_beside (s : ClientSummaryDto) v :
  from_value (Object (<[str "tunnels" := v]> (client_summary_fields s))) = Some s.
Proof. destruct s. vm_compute. reflexivity. Qed.
Lemma tunnel_beside (t : TunnelDto) v :
  from_value (Object (<[str "conns" := v]> (tunnel_fields t))) = Some (tunnel_row t).
Proof. destruct t. vm_compute. reflexivity. Qed.

#[export] Instance client_detail_reads : Reads client_detail.
Proof.
  intros [s ts]. unfold to_value, ClientDetailDto_serialize, from_value at 1, ClientDetail_deserialize.
  cbn [cdt_summary cdt_tunnels]. rewrite client_summary_beside, lookup_insert_eq.
  unfold field. cbn [mbind option_bind]. by rewrite (reads (f := map tunnel_row)).
Qed.

#[export] Instance tunnel_detail_reads : Reads tunnel_detail.
Proof.
  intros [t cs]. unfold to_value, TunnelDetailDto_serialize, from_value at 1, TunnelDetail_deserialize.
  cbn [tdt_summary tdt_conns]. rewrite tunnel_beside, lookup_insert_eq.
  unfold field. cbn [mbind option_bind]. rewrite (reads (f := map (@id ConnDto))).
  unfold tunnel_detail. cbn. by rewrite map_id.
Qed.
