(* ===== verification/Ctl.v ===== *)
(** * Ctl: the admin client ([src/ctl/mod.rs], [run_ctl] of [src/main.rs])

    The tables [rusnel ctl] prints, how it reads the documents of the admin API, the
    request behind each action, and the router of [src/server/admin.rs] that answers
    it. HTTP, JSON text and axum's matching are third-party code (class [AdminHttp]);
    the paths, the routes, the decoded structs and the printed text are the program's. *)

From S2P Require Import Prelude Text NetAddr Remote State Ledger Tls Admin Json.

(** ** Tables *)

Record Table := mkTable { headers : list bytes; rows : list (list bytes) }.

Definition Table_new (hs : list string) : Table := mkTable (str <$> hs) [].

(** [Table::row]; the length of the row is checked in debug builds only. *)
Definition table_row (cells : list bytes) (t : Table) : Table := mkTable (headers t) (rows t ++ [cells]).

(** The characters of a text: the bytes that do not continue one. *)
Definition char_count (s : bytes) : nat := length (filter (λ b, is_cont b = false) s).

(** [format!("{:width$}", cell)] pads on the right, counting characters. *)
Definition pad (width : nat) (cell : bytes) : bytes :=
  cell ++ replicate (width - char_count cell) " "%char.

(** The loop over the cells of one row that widens [widths]; [cell.len()] is in
    bytes. *)
Fixpoint widen_row (i : nat) (row : list bytes) (widths : list nat) : list nat :=
  match row with
  | [] => widths
  | cell :: row' =>
      widen_row (S i) row'
        (match widths !! i with
         | Some w => if (w <? length cell)%nat then <[i := length cell]> widths else widths
         | None => widths
         end)
  end.

Definition column_widths (t : Table) : list nat :=
  foldl (λ widths row, widen_row 0 row widths) (length <$> headers t) (rows t).

(** The loop of [push_row]; [widths[i]] panics out of range. *)
Fixpoint push_cells (i n : nat) (cells : list bytes) (widths : list nat) : panicking bytes :=
  match cells with
  | [] => Returns []
  | cell :: cells' =>
      text ← (if (i + 1 <? n)%nat then
                match widths !! i with Some w => Returns (pad w cell) | None => Panics end
              else Returns cell);
      rest ← push_cells (S i) n cells' widths;
      Returns ((if (0 <? i)%nat then str "  " else []) ++ text ++ rest)
  end.

Definition newline : bytes := [Ascii.ascii_of_N 10].

Definition push_row (out : bytes) (cells : list bytes) (widths : list nat) : panicking bytes :=
  line ← push_cells 0 (length cells) cells widths; Returns (out ++ line ++ newline).

Fixpoint push_rows (out : bytes) (rs : list (list bytes)) (widths : list nat) : panicking bytes :=
  match rs with
  | [] => Returns out
  | row :: rs' => out ← push_row out row widths; push_rows out rs' widths
  end.

Definition table_render (t : Table) : panicking bytes :=
  let widths := column_widths t in
  out ← push_row [] (headers t) widths; push_rows out (rows t) widths.

(** *** The table as a declaration

    The width of a column is the longest of its cells, and a line is its cells, each
    but the last padded to the width of its column, two blanks apart. *)

Definition cell_len (j : nat) (row : list bytes) : nat := from_option length 0%nat (row !! j).
Definition column_width (t : Table) (j : nat) : nat :=
  max_list (cell_len j (headers t) :: (cell_len j <$> rows t)).

Fixpoint join_cells (t : Table) (j : nat) (cells : list bytes) : bytes :=
  match cells with
  | [] => []
  | [cell] => cell
  | cell :: cells' => pad (column_width t j) cell ++ str "  " ++ join_cells t (S j) cells'
  end.

Definition reference_table (t : Table) : bytes :=
  concat ((λ row, join_cells t 0 row ++ newline) <$> headers t :: rows t).

(** Every row has a cell per column. *)
Definition rectangular (t : Table) : Prop := Forall (λ row, length row = length (headers t)) (rows t).

#[export] Instance rectangular_dec t : Decision (rectangular t).
Proof. unfold rectangular. apply _. Defined.

(** *** Widths *)

Lemma length_widen_row row i ws : length (widen_row i row ws) = length ws.
Proof.
  revert i ws. induction row as [|c row IH]; intros i ws; [done|]. simpl. rewrite IH.
  destruct (ws !! i); [|done]. destruct (_ <? _)%nat; [|done]. apply length_insert.
Qed.

Lemma lookup_widen_row row i ws j :
  widen_row i row ws !! j =
  (λ w, if (i <=? j)%nat then Nat.max w (cell_len (j - i) row) else w) <$> ws !! j.
Proof.
  revert i ws. induction row as [|c row IH]; intros i ws; simpl.
  { unfold cell_len. destruct (ws !! j); simpl; [|done].
    destruct (_ <=? _)%nat; f_equal; lia. }
  rewrite IH. unfold cell_len. destruct (decide (i = j)) as [->|Hij].
  - rewrite (proj2 (Nat.leb_nle (S j) j)), Nat.leb_refl, Nat.sub_diag by lia. simpl.
    destruct (ws !! j) as [w|] eqn:E; [|by rewrite E]. simpl.
    destruct (Nat.ltb_spec w (length c)).
    + rewrite list_lookup_insert_eq by (by eapply lookup_lt_Some). simpl. f_equal. lia.
    + rewrite E. simpl. f_equal. lia.
  - assert ((match ws !! i with
             | Some w => if (w <? length c)%nat then <[i:=length c]> ws else ws
             | None => ws end) !! j = ws !! j) as ->.
    { destruct (ws !! i); [|done]. destruct (_ <? _)%nat; [|done]. by rewrite list_lookup_insert_ne. }
    destruct (Nat.leb_spec (S i) j), (Nat.leb_spec i j); try lia; [|done].
    replace (j - i)%nat with (S (j - S i)) by lia. done.
Qed.

Lemma lookup_column_widths t j :
  column_widths t !! j = if decide (j < length (headers t))%nat then Some (column_width t j) else None.
Proof.
  unfold column_widths, column_width. assert (∀ rs ws,
    foldl (λ ws row, widen_row 0 row ws) ws rs !! j =
    (λ w, max_list (w :: (cell_len j <$> rs))) <$> ws !! j) as Hfold.
  { intros rs. induction rs as [|r rs IH]; intros ws; csimpl.
    - destruct (ws !! j); [|done]. simpl. f_equal. lia.
    - rewrite IH, lookup_widen_row. simpl. rewrite Nat.sub_0_r. destruct (ws !! j); [|done].
      csimpl. apply (f_equal Some). simpl. lia. }
  rewrite Hfold, list_lookup_fmap. unfold cell_len at 2. case_decide as Hj.
  - by apply lookup_lt_is_Some_2 in Hj as [h ->].
  - by rewrite lookup_ge_None_2 by lia.
Qed.

(** *** Lines *)

Lemma push_cells_join t cells i :
  (i + length cells ≤ length (headers t))%nat →
  push_cells i (i + length cells) cells (column_widths t) =
  Returns ((if (0 <? i)%nat && negb (bool_decide (cells = [])) then str "  " else []) ++
           join_cells t i cells).
Proof.
  revert i. induction cells as [|c cells IH]; intros i Hi; [by rewrite andb_false_r|].
  cbn [length] in *. cbn [push_cells]. replace (i + S (length cells))%nat with (S i + length cells)%nat by lia.
  rewrite IH by lia. rewrite (lookup_column_widths t i), decide_True by lia.
  rewrite (bool_decide_eq_false_2 (c :: cells = [])) by done. rewrite andb_true_r.
  destruct cells as [|c' cells].
  - rewrite (proj2 (Nat.ltb_nlt (i + 1) _)) by (simpl; lia). simpl. by rewrite app_nil_r.
  - rewrite (proj2 (Nat.ltb_lt (i + 1) _)) by (simpl; lia). simpl. done.
Qed.

Lemma push_row_join t out row :
  length row = length (headers t) →
  push_row out row (column_widths t) = Returns (out ++ join_cells t 0 row ++ newline).
Proof.
  intros E. unfold push_row. change (length row) with (0 + length row)%nat at 1.
  by rewrite (push_cells_join t row 0) by lia.
Qed.

Lemma push_rows_join t out rs :
  Forall (λ row, length row = length (headers t)) rs →
  push_rows out rs (column_widths t) =
  Returns (out ++ concat ((λ row, join_cells t 0 row ++ newline) <$> rs)).
Proof.
  intros H. revert out. induction H as [|row rs Hrow _ IH]; intros out; simpl; [by rewrite app_nil_r|].
  rewrite push_row_join by done. simpl. rewrite IH. by rewrite <-app_assoc.
Qed.

Lemma table_render_eq t : rectangular t → table_render t = Returns (reference_table t).
Proof. intros H. unfold table_render. rewrite push_row_join by done. simpl. by rewrite push_rows_join. Qed.

(** *** Columns *)

(** Where a column starts, in characters. *)
Definition column_start (t : Table) (j : nat) : nat :=
  sum_list_with (λ k, column_width t k + 2)%nat (seq 0 j).

Lemma char_count_app a b : char_count (a ++ b) = (char_count a + char_count b)%nat.
Proof. unfold char_count. by rewrite filter_app, length_app. Qed.

Lemma char_count_le s : (char_count s ≤ length s)%nat.
Proof. apply length_filter. Qed.

Lemma char_count_blanks n : char_count (replicate n " "%char) = n.
Proof. induction n as [|n IH]; [done|]. unfold char_count in *. simpl. by f_equal. Qed.

Lemma char_count_pad w cell : (length cell ≤ w)%nat → char_count (pad w cell) = w.
Proof.
  intros H. unfold pad. rewrite char_count_app, char_count_blanks. pose proof (char_count_le cell). lia.
Qed.

(** The text of a line before its cell [j]. *)
Lemma join_cells_split t i row j cell :
  (∀ k c, row !! k = Some c → (length c ≤ column_width t (i + k))%nat) → row !! j = Some cell →
  ∃ pre post, join_cells t i row = pre ++ cell ++ post ∧
    char_count pre = sum_list_with (λ k, column_width t k + 2)%nat (seq i j) ∧
    (if j is O then pre = [] else ∃ pre', pre = pre' ++ str "  ").
Proof.
  revert i j. induction row as [|c row IH]; intros i j Hw Hj; [done|]. destruct j as [|j].
  - simplify_eq/=. exists []. destruct row as [|c' row]; [by exists []; rewrite app_nil_r|].
    exists (replicate (column_width t i - char_count cell) " "%char ++ str "  " ++ join_cells t (S i) (c' :: row)).
    unfold pad. by rewrite <-app_assoc.
  - destruct row as [|c' row]; [done|].
    destruct (IH (S i) j) as (pre & post & E & Hc & Hsep); [|done|].
    { intros k d Hk. replace (S i + k)%nat with (i + S k)%nat by lia. by apply Hw. }
    exists (pad (column_width t i) c ++ str "  " ++ pre), post. split_and!.
    + change (join_cells t i (c :: c' :: row)) with
        (pad (column_width t i) c ++ str "  " ++ join_cells t (S i) (c' :: row)).
      rewrite E. by rewrite <-!app_assoc.
    + rewrite !char_count_app, Hc. simpl. rewrite char_count_pad; [|].
      * change (char_count (str "  ")) with 2%nat. lia.
      * specialize (Hw 0%nat c eq_refl). by rewrite Nat.add_0_r in Hw.
    + destruct j as [|j]; [|destruct Hsep as [pre' ->]].
      * exists (pad (column_width t i) c). by rewrite Hsep, app_nil_r.
      * exists (pad (column_width t i) c ++ str "  " ++ pre'). by rewrite <-!app_assoc.
Qed.

Lemma cell_fits t row j cell :
  row ∈ headers t :: rows t → row !! j = Some cell → (length cell ≤ column_width t j)%nat.
Proof.
  intros Hrow Hj. assert (length cell = cell_len j row) as -> by (unfold cell_len; by rewrite Hj).
  unfold column_width. change (cell_len j (headers t) :: (cell_len j <$> rows t)) with
    (cell_len j <$> headers t :: rows t). apply max_list_elem_of_le. by apply list_elem_of_fmap_2.
Qed.

(** C30: the table renderer of [ctl], which widens a vector of widths in place and
    indexes it row by row, never panics on a rectangular table and prints exactly the
    declared table: every cell but the last of its line padded to the longest cell of
    its column, two blanks apart, one line for the headers and one per row. *)
Theorem table_render_reference t :
  rectangular t → table_render t = Returns (reference_table t).
Proof. apply table_render_eq. Qed.

(** The printed table is aligned: on every line, the cell of column [j] starts
    after the same number of characters, which depends on the column only, and cells
    are at least two blanks apart. The text may be any UTF-8: the widths are measured
    in bytes, which is never less than the number of characters, and the padding
    counts characters. *)
Theorem table_aligned t :
  rectangular t →
  ∃ lines, table_render t = Returns (concat ((λ l, l ++ newline) <$> lines)) ∧
    length lines = S (length (rows t)) ∧
    ∀ i j row cell, (headers t :: rows t) !! i = Some row → row !! j = Some cell →
      ∃ pre post, lines !! i = Some (pre ++ cell ++ post) ∧ char_count pre = column_start t j ∧
        (if j is O then pre = [] else ∃ pre', pre = pre' ++ str "  ").
Proof.
  intros Hr. exists (join_cells t 0 <$> headers t :: rows t). split_and!.
  - rewrite table_render_eq by done. unfold reference_table. by rewrite <-list_fmap_compose.
  - by rewrite length_fmap.
  - intros i j row cell Hi Hj. destruct (join_cells_split t 0 row j cell) as (pre & post & E & Hpre); [|done|].
    + intros k c Hk. eapply cell_fits; [|done]. by eapply list_elem_of_lookup_2.
    + exists pre, post. rewrite list_lookup_fmap, Hi. simpl. by rewrite E.
Qed.

(** ** Rendering *)

Inductive Format := Json | AsTable.

(** [anyhow::Error]: the messages of its chain, the outermost context first. *)
Abbreviation AnyError := (list bytes).

Definition with_ctx {A} (msg : bytes) (r : result AnyError A) : result AnyError A :=
  map_err (λ e, msg :: e) r.

(** [{e}] and the causes behind it. *)
Definition flatten_error (e : AnyError) : bytes :=
  match e with
  | [] => []
  | msg :: causes => foldl (λ s cause, s ++ str ": " ++ cause) msg causes
  end.

(** What [ctl] and the admin API use of hyper, axum, http and serde_json. *)
Class AdminHttp := {
  (** the bytes of a response *)
  Body : Type;
  (** [axum::Json] writes a document; [serde_json::from_slice] reads it *)
  to_body : Value → Body;
  from_slice : Body → result bytes Value;
  from_slice_to_body v : from_slice (to_body v) = Ok v;
  (** [String::from_utf8_lossy] of a body *)
  body_text : Body → bytes;
  (** [serde_json::to_string_pretty], [Value::to_string], and the error of
      [serde_json::from_value] *)
  to_string_pretty : Value → result unit bytes;
  value_to_string : Value → bytes;
  from_value_error : Value → bytes;
  (** [StatusCode]'s [Display] *)
  fmt_status : N → bytes;
  (** [tokio::runtime::Runtime::new], the unix socket and the HTTP/1.1 exchange *)
  runtime_new : result bytes unit;
  connect : PathBuf → result bytes unit;
  handshake : result bytes unit;
  build_request : bytes → result bytes unit;
  send_request : bytes → result bytes (N * result bytes Body);
}.

(** The table of a list of rows. *)
Definition table_of {A} (hs : list string) (cells : A → list bytes) (l : list A) : Table :=
  foldl (λ t r, table_row (cells r) t) (Table_new hs) l.

Definition client_cells (r : ClientSummaryDto) : list bytes :=
  [fmt_dec (cs_id r); cs_remote r; fmt_dec (cs_connected_at_ms r); fmt_dec (cs_tunnel_count r);
   fmt_dec (cs_active_conn_count r); fmt_dec (cs_total_conns r); fmt_dec (cs_bytes_in r);
   fmt_dec (cs_bytes_out r)].
Definition conn_cells (r : ConnDto) : list bytes :=
  [fmt_dec (cd_id r); fmt_dec (cd_tunnel_id r); fmt_dec (cd_client_id r); fmt_dec (cd_opened_at_ms r);
   default (str "-") (cd_peer r); fmt_dec (cd_bytes_in r); fmt_dec (cd_bytes_out r)].
Definition tunnel_cells (r : TunnelRow) : list bytes :=
  [fmt_dec (tr_id r); fmt_dec (tr_client_id r); tr_direction r; tr_kind r; tr_spec r;
   fmt_dec (tr_opened_at_ms r); fmt_dec (tr_active_conn_count r); fmt_dec (tr_total_conns r);
   fmt_dec (tr_bytes_in r); fmt_dec (tr_bytes_out r)].
Definition history_cells (r : HistoryEntry) : list bytes :=
  [fmt_dec (hi_client_id r); hi_remote r; fmt_dec (hi_connected_at_ms r);
   fmt_dec (hi_disconnected_at_ms r); fmt_dec (hi_total_conns r); fmt_dec (hi_bytes_in r);
   fmt_dec (hi_bytes_out r); hi_reason r].

Definition render_conn_rows (rows : list ConnDto) : panicking bytes :=
  table_render (table_of ["ID"; "TUNNEL"; "CLIENT"; "OPENED-MS"; "PEER"; "IN"; "OUT"]%string conn_cells rows).

Definition render_tunnel_rows (rows : list TunnelRow) : panicking bytes :=
  table_render (table_of ["ID"; "CLIENT"; "DIR"; "KIND"; "SPEC"; "OPENED-MS"; "ACTIVE"; "TOTAL";
                          "IN"; "OUT"]%string tunnel_cells rows).

Section rendering.
Context `{AdminHttp}.

Definition pretty (v : Value) : bytes :=
  match to_string_pretty v with Ok s => s | Err _ => value_to_string v end.

(** Every renderer: the document itself, or the struct it is read as, rendered. *)
Definition render_with {A} `{Deserialize A} (f : A → panicking bytes) (payload : Value)
    (format : Format) : panicking (result AnyError bytes) :=
  match format with
  | Json => Returns (Ok (pretty payload))
  | AsTable =>
      match from_value payload with
      | None => Returns (Err [from_value_error payload])
      | Some a => out ← f a; Returns (Ok out)
      end
  end.

Definition server_text (s : ServerInfoDto) : bytes :=
  str "version           " ++ si_version s ++ newline ++
  str "listen            " ++ si_listen_addr s ++ newline ++
  str "started-at-ms     " ++ fmt_dec (si_started_at_ms s) ++ newline ++
  str "uptime-ms         " ++ fmt_dec (si_uptime_ms s) ++ newline ++
  str "clients           " ++ fmt_dec (si_client_count s) ++ newline ++
  str "tunnels           " ++ fmt_dec (si_tunnel_count s) ++ newline ++
  str "active-conns      " ++ fmt_dec (si_active_conn_count s).
Definition render_server : Value → Format → panicking (result AnyError bytes) :=
  render_with (λ s, Returns (server_text s)).

Definition client_table (rows : list ClientSummaryDto) : panicking bytes :=
  table_render (table_of ["ID"; "REMOTE"; "CONNECTED-MS"; "TUNNELS"; "ACTIVE"; "TOTAL"; "IN"; "OUT"]%string
                  client_cells rows).
Definition render_clients : Value → Format → panicking (result AnyError bytes) :=
  render_with client_table.

Definition client_detail_text (d : ClientDetail) : panicking bytes :=
  let s := cr_summary d in
  let out :=
    str "id                " ++ fmt_dec (cs_id s) ++ newline ++
    str "remote            " ++ cs_remote s ++ newline ++
    str "connected-ms      " ++ fmt_dec (cs_connected_at_ms s) ++ newline ++
    str "tunnels           " ++ fmt_dec (cs_tunnel_count s) ++ newline ++
    str "active-conns      " ++ fmt_dec (cs_active_conn_count s) ++ newline ++
    str "total-conns       " ++ fmt_dec (cs_total_conns s) ++ newline ++
    str "bytes-in          " ++ fmt_dec (cs_bytes_in s) ++ newline ++
    str "bytes-out         " ++ fmt_dec (cs_bytes_out s) ++ newline in
  if decide (cr_tunnels d = []) then Returns out
  else rows ← render_tunnel_rows (cr_tunnels d); Returns (out ++ newline ++ rows).
Definition render_client_detail : Value → Format → panicking (result AnyError bytes) :=
  render_with client_detail_text.

Definition tunnel_detail_text (d : TunnelDetail) : panicking bytes :=
  let s := tr_summary d in
  let out :=
    str "id                " ++ fmt_dec (tr_id s) ++ newline ++
    str "client            " ++ fmt_dec (tr_client_id s) ++ newline ++
    str "direction         " ++ tr_direction s ++ newline ++
    str "kind              " ++ tr_kind s ++ newline ++
    str "spec              " ++ tr_spec s ++ newline ++
    str "opened-ms         " ++ fmt_dec (tr_opened_at_ms s) ++ newline ++
    str "active-conns      " ++ fmt_dec (tr_active_conn_count s) ++ newline ++
    str "total-conns       " ++ fmt_dec (tr_total_conns s) ++ newline ++
    str "bytes-in          " ++ fmt_dec (tr_bytes_in s) ++ newline ++
    str "bytes-out         " ++ fmt_dec (tr_bytes_out s) ++ newline in
  if decide (tr_conns d = []) then Returns out
  else rows ← render_conn_rows (tr_conns d); Returns (out ++ newline ++ rows).
Definition render_tunnel_detail : Value → Format → panicking (result AnyError bytes) :=
  render_with tunnel_detail_text.

Definition render_conns : Value → Format → panicking (result AnyError bytes) :=
  render_with render_conn_rows.
Definition render_tunnels : Value → Format → panicking (result AnyError bytes) :=
  render_with render_tunnel_rows.

Definition history_table (rows : list HistoryEntry) : panicking bytes :=
  table_render (table_of ["CLIENT"; "REMOTE"; "CONNECTED-MS"; "DISCONNECTED-MS"; "SESSIONS"; "IN";
                          "OUT"; "REASON"]%string history_cells rows).
Definition render_history : Value → Format → panicking (result AnyError bytes) :=
  render_with history_table.

(** ** Requests *)

(** [StatusCode::is_success] *)
Definition is_success (status : N) : bool := (200 <=? status) && (status <? 300).

(** A third-party error under the context the program gives it. *)
Definition in_ctx {A} (msg : bytes) (r : result bytes A) : result AnyError A :=
  with_ctx msg (map_err (λ e, [e]) r).

Definition get (socket : PathBuf) (path : bytes) : result AnyError Value :=
  in_ctx (str "connecting to admin socket " ++ socket) (connect socket);;
  in_ctx (str "HTTP/1.1 handshake") handshake;;
  in_ctx (str "building request") (build_request path);;
  '(status, body) ← in_ctx (str "sending request") (send_request path);
  body ← in_ctx (str "reading response body") body;
  if negb (is_success status) then
    Err [str "admin API returned " ++ fmt_status status ++ str ": " ++ body_text body]
  else in_ctx (str "parsing JSON response for GET " ++ path) (from_slice body).

Inductive CtlAction :=
| CServer
| CClients
| CClient (id : N)
| CClientConns (id : N)
| CTunnels
| CTunnel (id : N)
| CTunnelConns (id : N)
| CConns
| CHistory (limit : option N).

Definition action_path (a : CtlAction) : bytes :=
  match a with
  | CServer => str "/api/v1/server"
  | CClients => str "/api/v1/clients"
  | CClient id => str "/api/v1/clients/" ++ fmt_dec id
  | CClientConns id => str "/api/v1/clients/" ++ fmt_dec id ++ str "/conns"
  | CTunnels => str "/api/v1/tunnels"
  | CTunnel id => str "/api/v1/tunnels/" ++ fmt_dec id
  | CTunnelConns id => str "/api/v1/tunnels/" ++ fmt_dec id ++ str "/conns"
  | CConns => str "/api/v1/conns"
  | CHistory (Some n) => str "/api/v1/history?limit=" ++ fmt_dec n
  | CHistory None => str "/api/v1/history"
  end.

Definition action_render (a : CtlAction) : Value → Format → panicking (result AnyError bytes) :=
  match a with
  | CServer => render_server
  | CClients => render_clients
  | CClient _ => render_client_detail
  | CClientConns _ | CTunnelConns _ | CConns => render_conns
  | CTunnels => render_tunnels
  | CTunnel _ => render_tunnel_detail
  | CHistory _ => render_history
  end.

(** [run_ctl]: the text printed on standard output. *)
Definition run_ctl (socket : PathBuf) (json : bool) (action : CtlAction) :
    panicking (result AnyError bytes) :=
  let format := if json then Json else AsTable in
  match map_err (λ e, [e]) runtime_new with
  | Err e => Returns (Err e)
  | Ok _ =>
      match get socket (action_path action) with
      | Err e => Returns (Err e)
      | Ok payload =>
          r ← action_render action payload format;
          Returns (output ← r;
                   Ok (output ++ if ends_with (Ascii.ascii_of_N 10) output then [] else newline))
      end
  end.

(** The end of a [ctl] run: standard output, standard error and exit status. *)
Record Exit := mkExit { stdout : bytes; stderr : bytes; status_code : N }.

Definition ctl_main (socket : option PathBuf) (default_socket : PathBuf) (json : bool)
    (action : CtlAction) : panicking Exit :=
  r ← run_ctl (default default_socket socket) json action;
  Returns match r with
          | Ok out => mkExit out [] 0
          | Err e => mkExit [] (str "ctl: " ++ flatten_error e ++ newline) 1
          end.

(** [ensure_socket_exists], which nothing calls *)
Definition ensure_socket_exists (path : PathBuf) (st : Files) : result AnyError unit :=
  if negb (exists_file path st) then
    Err [str "admin socket " ++ path ++
         str " does not exist. Is the rusnel server running with --admin-socket?"]
  else Ok tt.

(** ** The server's side: [router] and the extractors of its handlers *)

(** The segments of a path. *)
Fixpoint split_on (c : byte) (s : bytes) : list bytes :=
  match s with
  | [] => [[]]
  | b :: s' =>
      if decide (b = c) then [] :: split_on c s'
      else match split_on c s' with [] => [[b]] | h :: t => (b :: h) :: t end
  end.

(** The parameters of a route that a path matches: [:name] stands for one segment. *)
Fixpoint fill (pat segs : list bytes) : option (list bytes) :=
  match pat, segs with
  | [], [] => Some []
  | p :: pat', s :: segs' =>
      if starts_with ":"%char p then
        if decide (s = []) then None else cons s <$> fill pat' segs'
      else if decide (p = s) then fill pat' segs' else None
  | _, _ => None
  end.
Definition matches (pat path : bytes) : option (list bytes) :=
  fill (split_on "/"%char pat) (split_on "/"%char path).

(** What the router uses of axum: a path is dispatched to the one route it matches,
    [Path<u64>] reads a decimal segment, [Query<HistoryQuery>] an optional limit, and
    requests they refuse are answered by axum itself. *)
Class Axum := {
  match_path : list bytes → bytes → option (nat * list bytes);
  match_path_unique pats path i params :
    (∀ j pat, pats !! j = Some pat → matches pat path = if decide (j = i) then Some params else None) →
    (i < length pats)%nat → match_path pats path = Some (i, params);
  path_u64 : bytes → option N;
  path_u64_dec n : n < 2 ^ 64 → path_u64 (fmt_dec n) = Some n;
  query_limit : option bytes → option (option N);
  query_limit_none : query_limit None = Some None;
  query_limit_dec n : n < 2 ^ 64 → query_limit (Some (str "limit=" ++ fmt_dec n)) = Some (Some n);
  refused : N → Body;
}.

Inductive Handler :=
| HGetServer | HListClients | HGetClient | HListClientTunnels | HListClientConns | HListTunnels
| HGetTunnel | HListTunnelConns | HListConns | HGetConn | HListHistory.

Definition router : list (bytes * Handler) :=
  [(str "/api/v1/server", HGetServer);
   (str "/api/v1/clients", HListClients);
   (str "/api/v1/clients/:id", HGetClient);
   (str "/api/v1/clients/:id/tunnels", HListClientTunnels);
   (str "/api/v1/clients/:id/conns", HListClientConns);
   (str "/api/v1/tunnels", HListTunnels);
   (str "/api/v1/tunnels/:id", HGetTunnel);
   (str "/api/v1/tunnels/:id/conns", HListTunnelConns);
   (str "/api/v1/conns", HListConns);
   (str "/api/v1/conns/:id", HGetConn);
   (str "/api/v1/history", HListHistory)].

(** [ApiError::into_response]: the status and the document. *)
Definition api_error (e : ApiError) : N * Value :=
  match e with
  | NotFound => (404, Object (struct [("error", to_value (str "not found"))]))
  end.

Definition ok_response {A} `{Serialize A} (a : A) : N * Body := (200, to_body (to_value a)).
Definition response {A} `{Serialize A} (r : result ApiError A) : N * Body :=
  match r with
  | Ok a => ok_response a
  | Err e => let '(status, doc) := api_error e in (status, to_body doc)
  end.

Section server.
Context `{Axum, MapOrder}.

(** [AxumPath(id): AxumPath<u64>] *)
Definition with_id (params : list bytes) (k : N → N * Body) : N * Body :=
  match params with
  | [p] => match path_u64 p with Some id => k id | None => (400, refused 400) end
  | _ => (500, refused 500)
  end.

(** [Query(q): Query<HistoryQuery>] *)
Definition with_query (query : option bytes) (k : option N → N * Body) : N * Body :=
  match query_limit query with Some limit => k limit | None => (400, refused 400) end.

Definition handle (now : SystemTime) (w : World) (h : Handler) (params : list bytes)
    (query : option bytes) : N * Body :=
  match h with
  | HGetServer => ok_response (get_server now w)
  | HListClients => ok_response (list_clients w)
  | HGetClient => with_id params (λ id, response (get_client id w))
  | HListClientTunnels => with_id params (λ id, response (list_client_tunnels id w))
  | HListClientConns => with_id params (λ id, response (list_client_conns id w))
  | HListTunnels => ok_response (list_tunnels w)
  | HGetTunnel => with_id params (λ id, response (get_tunnel id w))
  | HListTunnelConns => with_id params (λ id, response (list_tunnel_conns id w))
  | HListConns => ok_response (list_conns w)
  | HGetConn => with_id params (λ id, response (get_conn id w))
  | HListHistory => with_query query (λ limit, ok_response (list_history (N.to_nat <$> limit) w))
  end.

(** The answer to [GET uri]. *)
Definition serve_request (now : SystemTime) (w : World) (uri : bytes) : N * Body :=
  let '(path, query) := match split_once "?"%char uri with
                        | Some (p, q) => (p, Some q)
                        | None => (uri, None)
                        end in
  match match_path router.*1 path with
  | Some (i, params) =>
      match router !! i with
      | Some (_, h) => handle now w h params query
      | None => (404, refused 404)
      end
  | None => (404, refused 404)
  end.

End server.

End rendering.

(** ** Routing *)

Lemma split_on_plain c s : c ∉ s → split_on c s = [s].
Proof.
  induction s as [|b s IH]; intros H; [done|]. cbn [split_on]. rewrite decide_False by set_solver.
  by rewrite IH by set_solver.
Qed.

Lemma split_on_app c s t : c ∉ s → split_on c (s ++ c :: t) = s :: split_on c t.
Proof.
  induction s as [|b s IH]; intros H; [cbn; by rewrite decide_True|]. cbn [split_on app].
  rewrite decide_False by set_solver. by rewrite IH by set_solver.
Qed.

Lemma fmt_dec_nonempty n : fmt_dec n ≠ [].
Proof. apply fmt_radix_nonempty. Qed.

(** The route of every request [ctl] makes, and the id in it. *)
Definition action_route (a : CtlAction) : nat * list bytes :=
  match a with
  | CServer => (0, [])
  | CClients => (1, [])
  | CClient id => (2, [fmt_dec id])
  | CClientConns id => (4, [fmt_dec id])
  | CTunnels => (5, [])
  | CTunnel id => (6, [fmt_dec id])
  | CTunnelConns id => (7, [fmt_dec id])
  | CConns => (8, [])
  | CHistory _ => (10, [])
  end%nat.

(** The path of a request, without its query. *)
Definition action_segments (a : CtlAction) : list bytes :=
  map str ["" ; "api"; "v1"]%string ++
  match a with
  | CServer => [str "server"]
  | CClients => [str "clients"]
  | CClient id => [str "clients"; fmt_dec id]
  | CClientConns id => [str "clients"; fmt_dec id; str "conns"]
  | CTunnels => [str "tunnels"]
  | CTunnel id => [str "tunnels"; fmt_dec id]
  | CTunnelConns id => [str "tunnels"; fmt_dec id; str "conns"]
  | CConns => [str "conns"]
  | CHistory _ => [str "history"]
  end.

Definition action_query (a : CtlAction) : option bytes :=
  if a is CHistory (Some n) then Some (str "limit=" ++ fmt_dec n) else None.

Fixpoint join_with (c : byte) (l : list bytes) : bytes :=
  match l with [] => [] | [s] => s | s :: l' => s ++ c :: join_with c l' end.

Lemma split_on_join c l : l ≠ [] → Forall (λ s, c ∉ s) l → split_on c (join_with c l) = l.
Proof.
  intros Hne Hl. induction Hl as [|s l Hs Hl IH]; [done|]. destruct l as [|s' l]; [by apply split_on_plain|].
  change (join_with c (s :: s' :: l)) with (s ++ c :: join_with c (s' :: l)).
  rewrite split_on_app by done. f_equal. by apply IH.
Qed.

Lemma join_with_not_in c d l : c ≠ d → Forall (λ s, c ∉ s) l → c ∉ join_with d l.
Proof.
  intros Hcd. induction 1 as [|s l Hs Hl IH]; [apply not_elem_of_nil|]. destruct l as [|s' l]; [done|].
  change (join_with d (s :: s' :: l)) with (s ++ d :: join_with d (s' :: l)). set_solver.
Qed.

Lemma action_segments_plain a c :
  to_digit 10 c = None → forallb (λ s, negb (contains_char c (str s)))
    ["api"; "v1"; "server"; "clients"; "tunnels"; "conns"; "history"]%string = true →
  Forall (λ s, c ∉ s) (action_segments a).
Proof.
  intros Hd Hl. assert (∀ n, c ∉ fmt_dec n) as Hn by (intros; by apply fmt_dec_not_in).
  assert (c ∉ str "") as H0 by apply not_elem_of_nil.
  cbn [forallb] in Hl. unfold contains_char in Hl. rewrite !andb_true_iff, !negb_true_iff in Hl.
  destruct_and! Hl. repeat match goal with H : bool_decide _ = false |- _ => apply bool_decide_eq_false in H end.
  destruct a; repeat constructor; done.
Qed.

Lemma action_uri a :
  match split_once "?"%char (action_path a) with
  | Some (p, q) => (p, Some q)
  | None => (action_path a, None)
  end = (join_with "/"%char (action_segments a), action_query a).
Proof.
  assert ("?"%char ∉ join_with "/"%char (action_segments a)) as Hq.
  { apply join_with_not_in; [done|]. by apply action_segments_plain. }
  destruct (action_query a) as [q|] eqn:E.
  - destruct a as [| | | | | | | |[n|]]; try discriminate. simplify_eq.
    assert (action_path (CHistory (Some n)) =
      join_with "/"%char (action_segments (CHistory (Some n))) ++ "?"%char :: str "limit=" ++ fmt_dec n) as -> by done.
    rewrite (proj2 (split_once_Some "?"%char _ (join_with "/"%char (action_segments (CHistory (Some n))))
                      (str "limit=" ++ fmt_dec n))); [by rewrite <-E|done].
  - assert (action_path a = join_with "/"%char (action_segments a)) as -> by (by destruct a as [| | | | | | | |[n|]]).
    by rewrite (proj2 (split_once_None _ _)).
Qed.

Lemma action_matches a j pat :
  router.*1 !! j = Some pat →
  matches pat (join_with "/"%char (action_segments a)) =
  if decide (j = (action_route a).1) then Some (action_route a).2 else None.
Proof.
  intros Hj. unfold matches. rewrite split_on_join by (by apply action_segments_plain || by destruct a).
  assert (∀ n, fmt_dec n ≠ []) as Hne by (intros; apply fmt_radix_nonempty).
  do 11 (try destruct j as [|j]). all: simpl in Hj; simplify_eq.
  all: destruct a as [| |n|n| |n|n| |l]; unfold action_segments, action_route; try (specialize (Hne n)).
  all: try (destruct (fmt_dec n); [done|]); try (vm_compute; reflexivity).
Qed.

Section serving.
Context `{Axum, MapOrder}.

Lemma serve_action now w a :
  serve_request now w (action_path a) =
  match router !! (action_route a).1 with
  | Some (_, h) => handle now w h (action_route a).2 (action_query a)
  | None => (404, refused 404)
  end.
Proof.
  unfold serve_request. rewrite action_uri.
  rewrite (match_path_unique _ _ (action_route a).1 (action_route a).2); [done| |by destruct a; simpl; lia].
  intros j pat. apply action_matches.
Qed.

(** The numbers an action carries are [u64]s. *)
Definition action_ok (a : CtlAction) : Prop :=
  match a with
  | CClient n | CClientConns n | CTunnel n | CTunnelConns n | CHistory (Some n) => n < 2 ^ 64
  | _ => True
  end.

(** The document behind an action, and the text it is shown as. *)
Definition document (now : SystemTime) (w : World) (a : CtlAction) : result ApiError Value :=
  match a with
  | CServer => Ok (to_value (get_server now w))
  | CClients => Ok (to_value (list_clients w))
  | CClient id => to_value <$> get_client id w
  | CClientConns id => to_value <$> list_client_conns id w
  | CTunnels => Ok (to_value (list_tunnels w))
  | CTunnel id => to_value <$> get_tunnel id w
  | CTunnelConns id => to_value <$> list_tunnel_conns id w
  | CConns => Ok (to_value (list_conns w))
  | CHistory limit => Ok (to_value (list_history (N.to_nat <$> limit) w))
  end.

Definition shown (now : SystemTime) (w : World) (a : CtlAction) : result ApiError (panicking bytes) :=
  match a with
  | CServer => Ok (Returns (server_text (get_server now w)))
  | CClients => Ok (client_table (list_clients w))
  | CClient id => (λ d, client_detail_text (client_detail d)) <$> get_client id w
  | CClientConns id => render_conn_rows <$> list_client_conns id w
  | CTunnels => Ok (render_tunnel_rows (map tunnel_row (list_tunnels w)))
  | CTunnel id => (λ d, tunnel_detail_text (tunnel_detail d)) <$> get_tunnel id w
  | CTunnelConns id => render_conn_rows <$> list_tunnel_conns id w
  | CConns => Ok (render_conn_rows (list_conns w))
  | CHistory limit => Ok (history_table (list_history (N.to_nat <$> limit) w))
  end.

Definition doc_response (r : result ApiError Value) : N * Body :=
  match r with
  | Ok v => (200, to_body v)
  | Err e => let '(status, doc) := api_error e in (status, to_body doc)
  end.

Lemma response_doc {A} `{Serialize A} (r : result ApiError A) : response r = doc_response (to_value <$> r).
Proof. by destruct r. Qed.

Lemma serve_document now w a :
  action_ok a → serve_request now w (action_path a) = doc_response (document now w a).
Proof.
  intros Ha. rewrite serve_action.
  destruct a as [| |n|n| |n|n| |[n|]]; cbn -[fmt_dec str]; rewrite ?path_u64_dec, ?response_doc by done; try done.
  - unfold with_query. by rewrite query_limit_dec.
  - unfold with_query. by rewrite query_limit_none.
Qed.

(** The struct read from the document is the one the handler answered. *)
Lemma render_reads {A B} `{Reads A B f} (g : B → panicking bytes) a :
  render_with g (to_value a) AsTable = (out ← g (f a); Returns (Ok out)).
Proof. unfold render_with. by rewrite reads. Qed.

Lemma render_reads_id {A} `{Serialize A, Deserialize A} `{!Reads (@id A)} (g : list A → panicking bytes) l :
  render_with g (to_value l) AsTable = (out ← g l; Returns (Ok out)).
Proof. rewrite (render_reads (f := map (@id A))). by rewrite map_id. Qed.

Lemma action_render_shown now w a v :
  document now w a = Ok v →
  ∃ text, shown now w a = Ok text ∧ action_render a v AsTable = (out ← text; Returns (Ok out)).
Proof.
  destruct a as [| |n|n| |n|n| |l]; cbn [document shown action_render]; intros Hd.
  all: try (match type of Hd with context [to_value <$> ?r] => destruct r as [d|]; [|discriminate Hd] end).
  all: apply Ok_inj in Hd; subst v; cbn [fmap result_fmap]; eexists; (split; [reflexivity|]).
  - apply (render_reads (f := @id ServerInfoDto)).
  - apply render_reads_id.
  - apply (render_reads (f := client_detail)).
  - apply render_reads_id.
  - apply (render_reads (f := map tunnel_row)).
  - apply (render_reads (f := tunnel_detail)).
  - apply render_reads_id.
  - apply render_reads_id.
  - apply render_reads_id.
Qed.

(** *** Every printed table is rectangular *)

Lemma table_of_rows {A} hs (cells : A → list bytes) l :
  table_of hs cells l = mkTable (str <$> hs) (cells <$> l).
Proof.
  unfold table_of, Table_new. assert (∀ t, foldl (λ t r, table_row (cells r) t) t l =
    mkTable (headers t) (rows t ++ (cells <$> l))) as ->; [|done].
  induction l as [|r l IH]; intros [h rs]; simpl; [by rewrite app_nil_r|]. rewrite IH. simpl.
  by rewrite <-app_assoc.
Qed.

Lemma table_of_render {A} hs (cells : A → list bytes) l :
  (∀ r, length (cells r) = length hs) →
  table_render (table_of hs cells l) = Returns (reference_table (mkTable (str <$> hs) (cells <$> l))).
Proof.
  intros Hc. rewrite table_of_rows. apply table_render_eq. unfold rectangular. simpl.
  rewrite Forall_fmap, length_fmap. apply Forall_true. apply Hc.
Qed.

Lemma shown_returns now w a text : shown now w a = Ok text → ∃ out, text = Returns out.
Proof.
  assert (∀ l, ∃ out, render_conn_rows l = Returns out) as Hc.
  { intros l. unfold render_conn_rows. rewrite table_of_render by done. by eexists. }
  assert (∀ l, ∃ out, render_tunnel_rows l = Returns out) as Ht.
  { intros l. unfold render_tunnel_rows. rewrite table_of_render by done. by eexists. }
  destruct a as [| |n|n| |n|n| |l]; cbn [shown]; intros Hs.
  all: try (match type of Hs with context [_ <$> ?r] => destruct r as [d|]; [|discriminate Hs] end).
  all: apply Ok_inj in Hs; subst text; eauto.
  - unfold client_table. rewrite table_of_render by done. by eexists.
  - unfold client_detail_text. case_decide; [by eexists|]. destruct (Ht (cr_tunnels (client_detail d))) as [o ->].
    by eexists.
  - unfold tunnel_detail_text. case_decide; [by eexists|]. destruct (Hc (tr_conns (tunnel_detail d))) as [o ->].
    by eexists.
  - unfold history_table. rewrite table_of_render by done. by eexists.
Qed.

(** ** The two ends together *)

(** The socket is served, and requests reach the router over the state [w]. *)
Definition serving (socket : PathBuf) (now : SystemTime) (w : World) : Prop :=
  runtime_new = Ok tt ∧ connect socket = Ok tt ∧ handshake = Ok tt ∧
  ∀ uri, build_request uri = Ok tt ∧
         send_request uri = Ok ((serve_request now w uri).1, Ok (serve_request now w uri).2).

(** The end of the printed text: a newline unless there is one. *)
Definition end_line (out : bytes) : bytes :=
  out ++ if ends_with (Ascii.ascii_of_N 10) out then [] else newline.

Definition not_found_error : AnyError :=
  let '(status, doc) := api_error NotFound in
  [str "admin API returned " ++ fmt_status status ++ str ": " ++ body_text (to_body doc)].

Lemma get_document socket now w a :
  serving socket now w → action_ok a →
  get socket (action_path a) =
  match document now w a with Ok v => Ok v | Err _ => Err not_found_error end.
Proof.
  intros (_ & Hc & Hh & Hs) Ha. unfold get. rewrite Hc, Hh. destruct (Hs (action_path a)) as [-> ->].
  rewrite serve_document by done. destruct (document now w a) as [v|[]].
  - simpl. by rewrite from_slice_to_body.
  - done.
Qed.

(** [rusnel ctl] against a running server, from the action to the printed text.
    The request of every action is routed to the handler for it with the same id;
    without [--json] what is printed is the table or summary of exactly what that
    handler reports on the state (the structs [ctl] reads agree field by field with
    the DTOs the server writes), with [--json] the document itself, ending in a
    newline; nothing panics; and an id the server does not know is the error 404 and
    nothing else is. *)
Theorem ctl_shows_state socket now w a :
  serving socket now w → action_ok a →
  match document now w a with
  | Ok v =>
      run_ctl socket true a = Returns (Ok (end_line (pretty v))) ∧
      ∃ out, shown now w a = Ok (Returns out) ∧ run_ctl socket false a = Returns (Ok (end_line out))
  | Err _ => ∀ json, run_ctl socket json a = Returns (Err not_found_error)
  end.
Proof.
  intros Hserve Ha. pose proof (get_document _ _ _ _ Hserve Ha) as Hget.
  destruct Hserve as [Hrt _]. unfold run_ctl. rewrite Hrt, Hget.
  destruct (document now w a) as [v|[]] eqn:Hd; [|done]. split.
  - by destruct a.
  - destruct (action_render_shown now w a v Hd) as (text & Htext & Hrender).
    destruct (shown_returns _ _ _ _ Htext) as [out ->]. exists out. split; [done|]. by rewrite Hrender.
Qed.

End serving.

(** ** A client and a server in memory *)

Fixpoint first_match (i : nat) (pats : list bytes) (path : bytes) : option (nat * list bytes) :=
  match pats with
  | [] => None
  | pat :: pats' =>
      match matches pat path with Some ps => Some (i, ps) | None => first_match (S i) pats' path end
  end.

Lemma first_match_unique o pats path i params :
  (∀ j pat, pats !! j = Some pat → matches pat path = if decide (j = i) then Some params else None) →
  (i < length pats)%nat → first_match o pats path = Some ((o + i)%nat, params).
Proof.
  revert o i. induction pats as [|pat pats IH]; intros o i Hm Hi; simpl in *; [lia|].
  rewrite (Hm 0%nat pat eq_refl). destruct i as [|i].
  - rewrite decide_True by done. by rewrite Nat.add_0_r.
  - rewrite decide_False by done. rewrite (IH (S o) i); [do 2 f_equal; lia| |lia].
    intros j p Hj. rewrite (Hm (S j) p Hj). destruct (decide (j = i)), (decide (S j = S i)); done || lia.
Qed.

(** Bodies are the documents themselves; [answer] is what comes back. *)
Definition memory_http (answer : bytes → N * Value) : AdminHttp := {|
  Body := Value; to_body v := v; from_slice := Ok; from_slice_to_body v := eq_refl;
  body_text _ := str "{}"; to_string_pretty _ := Err tt; value_to_string _ := str "{}";
  from_value_error _ := str "invalid type"; fmt_status := fmt_dec; runtime_new := Ok tt;
  connect _ := Ok tt; handshake := Ok tt; build_request _ := Ok tt;
  send_request uri := Ok ((answer uri).1, Ok (answer uri).2) |}.

Definition memory_query (q : option bytes) : option (option N) :=
  match q with
  | None => Some None
  | Some q => s ← strip_prefix (str "limit=") q; Some <$> ok (parse_u64 s)
  end.

Lemma parse_u64_fmt_dec n : n < 2 ^ 64 → parse_u64 (fmt_dec n) = Ok n.
Proof. intros. unfold parse_u64, fmt_dec. apply from_str_radix_fmt; unfold u64_max; lia. Qed.

Lemma memory_query_dec n : n < 2 ^ 64 → memory_query (Some (str "limit=" ++ fmt_dec n)) = Some (Some n).
Proof. intros. unfold memory_query. rewrite strip_prefix_app. simpl. by rewrite parse_u64_fmt_dec. Qed.

#[local] Program Instance memory_axum answer : @Axum (memory_http answer) := {|
  match_path := first_match 0;
  path_u64 s := ok (parse_u64 s);
  query_limit := memory_query;
  refused _ := Null |}.
Next Obligation. intros. by apply (first_match_unique 0). Qed.
Next Obligation. intros ? n Hn. cbn beta. by rewrite parse_u64_fmt_dec. Qed.
Next Obligation. done. Qed.
Next Obligation. intros. by apply memory_query_dec. Qed.

#[local] Existing Instance by_tree.

Definition demo_http : AdminHttp :=
  memory_http (@serve_request (memory_http (λ _, (404, Null))) (memory_axum _) _ 0 (world demo_state)).

Lemma demo_serving : @serving demo_http (memory_axum _) _ (str "admin.sock") 0 (world demo_state).
Proof. done. Qed.

Definition demo_table : Table := mkTable [str "ID"; str "PEER"] [[str "1"; str "10.0.0.1:9"]; [str "12"; str "-"]].

Lemma table_render_reference_witness :
  table_render demo_table = Returns (str "ID  PEER" ++ newline ++ str "1   10.0.0.1:9" ++ newline ++
                                     str "12  -" ++ newline).
Proof. rewrite table_render_reference by (repeat constructor). reflexivity. Defined.

Lemma table_aligned_witness :
  ∃ lines, table_render demo_table = Returns (concat ((λ l, l ++ newline) <$> lines)) ∧
    length lines = 3%nat ∧
    ∃ pre post, lines !! 2%nat = Some (pre ++ str "-" ++ post) ∧ char_count pre = 4%nat.
Proof.
  destruct (table_aligned demo_table) as (lines & Hl & Hn & Hc); [repeat constructor|].
  exists lines. split; [done|]. split; [done|].
  destruct (Hc 2%nat 1%nat [str "12"; str "-"] (str "-")) as (pre & post & E & Hpre & _); [done..|].
  by exists pre, post.
Defined.

Lemma ctl_shows_state_witness :
  @run_ctl demo_http (str "admin.sock") false (CTunnel 9) =
    Returns (Err (@not_found_error demo_http)) ∧
  ∃ out, @run_ctl demo_http (str "admin.sock") false CConns = Returns (Ok (end_line out)).
Proof.
  assert (@document _ 0 (world demo_state) (CTunnel 9) = Err NotFound) as E9
    by (vm_cast_no_check (eq_refl (@Err ApiError Value NotFound))).
  pose proof (@ctl_shows_state demo_http (memory_axum _) _ (str "admin.sock") 0 (world demo_state) (CTunnel 9)
                demo_serving eq_refl) as H9.
  pose proof (@ctl_shows_state demo_http (memory_axum _) _ (str "admin.sock") 0 (world demo_state) CConns
                demo_serving I) as [_ (out & _ & E)].
  rewrite E9 in H9. split; [exact (H9 false)|by exists out].
Defined.

(** A close reason is printed as it is: one disconnect whose reason has a line break in
    it prints like two. *)
Definition demo_history (id : N) (reason : bytes) : HistoryEntry :=
  mkHistory id (str "10.0.0.1:5000") 1000 2000 reason 0 0 0.
Definition demo_forged_line : bytes :=
  match history_table [demo_history 2 (str "closed")] with
  | Returns out => from_option (λ p, removelast p.2) [] (split_once (Ascii.ascii_of_N 10) out)
  | Panics => []
  end.
Example history_forged :
  history_table [demo_history 1 (str "bye" ++ newline ++ demo_forged_line)] =
  history_table [demo_history 1 (str "bye"); demo_history 2 (str "closed")].
Proof. by vm_compute. Qed.
