(* ===== verification/Cert.v ===== *)
(** * Cert: certificate generation ([src/cert.rs], [run_cert] of [src/main.rs])

    The three generators, the fingerprint printer and the files they write, over the
    file system of [Tls]. Keys and certificates are made by rcgen, whose interface is
    the class [Rcgen]; what rustls makes of its output is the class [RcgenPki]. Two
    sources of randomness are arguments: the outcome of [KeyPair::generate] and the
    nonce of the signature. *)

From S2P Require Import Prelude Text NetAddr Tls.

(** ** Parameters of a certificate *)

Inductive SanType := DnsName (name : bytes) | SanIpAddress (ip : IpAddr).
Inductive KeyUsagePurpose := KeyCertSign | CrlSign | DigitalSignature | KeyEncipherment.
Inductive ExtendedKeyUsagePurpose := ServerAuth | ClientAuth.

Record CertificateParams := mkParams {
  subject_alt_names : list SanType;
  is_ca : bool;
  key_usages : list KeyUsagePurpose;
  extended_key_usages : list ExtendedKeyUsagePurpose }.

Definition set_sans (l : list SanType) (p : CertificateParams) : CertificateParams :=
  mkParams l (is_ca p) (key_usages p) (extended_key_usages p).
Definition set_is_ca (b : bool) (p : CertificateParams) : CertificateParams :=
  mkParams (subject_alt_names p) b (key_usages p) (extended_key_usages p).
Definition set_key_usages (l : list KeyUsagePurpose) (p : CertificateParams) : CertificateParams :=
  mkParams (subject_alt_names p) (is_ca p) l (extended_key_usages p).
Definition set_extended (l : list ExtendedKeyUsagePurpose) (p : CertificateParams) : CertificateParams :=
  mkParams (subject_alt_names p) (is_ca p) (key_usages p) l.

Class Rcgen := {
  KeyPair : Type;
  Issuer : Type;
  (** a name given to [CertificateParams::new], which makes a SAN of it *)
  san_of_name : bytes → result bytes SanType;
  (** the conversion of a [String] into the text of a [DnsName] *)
  ia5_string : bytes → result bytes bytes;
  (** the DER certificate [self_signed] and [signed_by] make, by the nonce *)
  self_signed : CertificateParams → KeyPair → bytes → result bytes bytes;
  signed_by : CertificateParams → KeyPair → Issuer → bytes → result bytes bytes;
  (** [Certificate::pem], [KeyPair::serialize_pem] and their readers *)
  pem : bytes → bytes;
  serialize_pem : KeyPair → bytes;
  key_from_pem : bytes → result bytes KeyPair;
  from_ca_cert_pem : bytes → KeyPair → result bytes Issuer;
}.

(** ** Generators *)

Record CertOutput := mkOutput { cert_path : PathBuf; key_path : PathBuf }.

Section generators.
Context `{Faults, Rcgen}.

(** [CertificateParams::new]: the given names become SANs; no CA, no key usages. *)
Definition params_new (names : list bytes) : result bytes CertificateParams :=
  sans ← mapM san_of_name names; Ok (mkParams sans false [] []).

(** [fs::read_to_string] *)
Definition read_to_string (p : PathBuf) : fs bytes :=
  b ← fs_read p;
  if utf8_valid b then mret b else fs_lift (Err (str "stream did not contain valid UTF-8")).

Definition write_pem (path : PathBuf) (contents : bytes) : fs unit :=
  with_context (str "failed to write " ++ path) (fs_write path contents).

Definition write_secret_pem (path : PathBuf) (contents : bytes) : fs unit :=
  with_context (str "failed to write " ++ path) (fs_write path contents);; set_mode path 0x180.

(** The end of every generator: the two files of the pair. *)
Definition write_output (out_dir : PathBuf) (file_stem cert_pem key_pem : bytes) : fs CertOutput :=
  let cert_path := join out_dir (file_stem ++ str ".pem") in
  let key_path := join out_dir (file_stem ++ str ".key") in
  write_pem cert_path cert_pem;;
  write_secret_pem key_path key_pem;;
  mret (mkOutput cert_path key_path).

Definition load_signing_ca (cert_path key_path : PathBuf) : fs Issuer :=
  cert_pem ← with_context (str "failed to read CA cert " ++ cert_path) (read_to_string cert_path);
  key_pem ← with_context (str "failed to read CA key " ++ key_path) (read_to_string key_path);
  key_pair ← with_context (str "failed to parse CA key as PEM") (fs_lift (key_from_pem key_pem));
  with_context (str "failed to parse CA cert as PEM") (fs_lift (from_ca_cert_pem cert_pem key_pair)).

Definition generate_ca (key : result bytes KeyPair) (nonce : bytes) (out_dir : PathBuf)
    (common_name : bytes) : fs CertOutput :=
  with_context (str "failed to create " ++ out_dir) (create_dir_all out_dir);;
  params ← with_context (str "failed to build CA params") (fs_lift (params_new [common_name]));
  let params := set_is_ca true params in
  let params := set_key_usages [KeyCertSign; CrlSign; DigitalSignature] params in
  key_pair ← with_context (str "failed to generate CA key pair") (fs_lift key);
  cert ← with_context (str "failed to self-sign CA cert") (fs_lift (self_signed params key_pair nonce));
  write_output out_dir (str "ca") (pem cert) (serialize_pem key_pair).

(** The two loops that push the SANs of a server certificate. *)
Fixpoint push_dns (dns_sans : list bytes) (params : CertificateParams) : fs CertificateParams :=
  match dns_sans with
  | [] => mret params
  | dns :: rest =>
      name ← with_context (str "invalid DNS SAN `" ++ dns ++ str "`") (fs_lift (ia5_string dns));
      push_dns rest (set_sans (subject_alt_names params ++ [DnsName name]) params)
  end.
Definition push_ips (ip_sans : list IpAddr) (params : CertificateParams) : CertificateParams :=
  foldl (λ params ip, set_sans (subject_alt_names params ++ [SanIpAddress ip]) params) params ip_sans.

Definition generate_server_cert (key : result bytes KeyPair) (nonce : bytes)
    (out_dir ca_cert_path ca_key_path : PathBuf) (common_name : bytes) (dns_sans : list bytes)
    (ip_sans : list IpAddr) (file_stem : bytes) : fs CertOutput :=
  if decide (dns_sans = [] ∧ ip_sans = []) then
    fs_lift (Err (str "server certs require at least one --name or --ip SAN; without it clients won't be able to verify the connection"))
  else
    with_context (str "failed to create " ++ out_dir) (create_dir_all out_dir);;
    params ← with_context (str "failed to build server cert params") (fs_lift (params_new [common_name]));
    params ← push_dns dns_sans params;
    let params := push_ips ip_sans params in
    let params := set_key_usages [DigitalSignature; KeyEncipherment] params in
    let params := set_extended [ServerAuth] params in
    issuer ← load_signing_ca ca_cert_path ca_key_path;
    key_pair ← with_context (str "failed to generate server key pair") (fs_lift key);
    cert ← with_context (str "failed to sign server cert") (fs_lift (signed_by params key_pair issuer nonce));
    write_output out_dir file_stem (pem cert) (serialize_pem key_pair).

Definition generate_client_cert (key : result bytes KeyPair) (nonce : bytes)
    (out_dir ca_cert_path ca_key_path : PathBuf) (common_name file_stem : bytes) : fs CertOutput :=
  with_context (str "failed to create " ++ out_dir) (create_dir_all out_dir);;
  params ← with_context (str "failed to build client cert params") (fs_lift (params_new [common_name]));
  let params := set_key_usages [DigitalSignature] params in
  let params := set_extended [ClientAuth] params in
  issuer ← load_signing_ca ca_cert_path ca_key_path;
  key_pair ← with_context (str "failed to generate client key pair") (fs_lift key);
  cert ← with_context (str "failed to sign client cert") (fs_lift (signed_by params key_pair issuer nonce));
  write_output out_dir file_stem (pem cert) (serialize_pem key_pair).

Context `{Pki}.

Definition print_fingerprint (path : PathBuf) : fs bytes :=
  pem ← with_context (str "failed to read cert file " ++ path) (fs_read path);
  certs ← with_context (str "failed to parse PEM certs in " ++ path) (fs_lift (pem_certs pem));
  leaf ← fs_lift (ok_or (head certs) (str "no certificates found in " ++ path));
  mret (format_fingerprint (cert_sha256 leaf)).

(** ** [rusnel cert] *)

Inductive CertAction :=
| ACa (out_dir : PathBuf) (common_name : bytes)
| AServer (out_dir ca ca_key : PathBuf) (common_name : option bytes) (names : list bytes)
    (ips : list IpAddr) (file_stem : bytes)
| AClient (out_dir ca ca_key : PathBuf) (common_name : bytes) (file_stem : option bytes)
| AFingerprint (cert : PathBuf).

(** The INFO line every generator logs when both files are written. *)
Definition wrote (out : CertOutput) : bytes :=
  str "wrote " ++ cert_path out ++ str " and " ++ key_path out.

(** The text printed on standard output, and the messages logged at INFO. *)
Definition run_cert (key : result bytes KeyPair) (nonce : bytes) (action : CertAction) : fs (bytes * list bytes) :=
  match action with
  | ACa out_dir common_name => out ← generate_ca key nonce out_dir common_name; mret ([], [wrote out])
  | AServer out_dir ca ca_key common_name names ips file_stem =>
      let cn := match common_name with
                | Some cn => cn
                | None => default (str "rusnel-server") (head names)
                end in
      out ← generate_server_cert key nonce out_dir ca ca_key cn names ips file_stem; mret ([], [wrote out])
  | AClient out_dir ca ca_key common_name file_stem =>
      let stem := default common_name file_stem in
      out ← generate_client_cert key nonce out_dir ca ca_key common_name stem; mret ([], [wrote out])
  | AFingerprint cert => fp ← print_fingerprint cert; mret (fp ++ [Ascii.ascii_of_N 10], [])
  end.

End generators.

(** ** What a generator may change

    [Touches m ps]: whatever happens, [m] changes no file but [ps]. *)
Class Touches {A} (m : fs A) (P : list PathBuf) : Prop :=
  touches st p : p ∉ P → (m st).1 !! p = st !! p.

Section touches.
Context `{Faults} {A B : Type} (P : list PathBuf).

#[export] Instance touches_lift (r : result bytes A) : Touches (fs_lift r) P.
Proof. by intros st p _. Qed.
#[export] Instance touches_ret (a : A) : Touches (mret a) P.
Proof. by intros st p _. Qed.
#[export] Instance touches_bind (m : fs A) (k : A → fs B) :
  Touches m P → (∀ a, Touches (k a) P) → Touches (m ≫= k) P.
Proof.
  intros Hm Hk st p Hp. unfold mbind, fs_bind. pose proof (Hm st p Hp) as E.
  destruct (m st) as [st1 [a|e]]; simpl in *; [|done]. by rewrite (Hk a st1 p Hp).
Qed.
#[export] Instance touches_with_context msg (m : fs A) : Touches m P → Touches (with_context msg m) P.
Proof. intros Hm st p Hp. unfold with_context. pose proof (Hm st p Hp). by destruct (m st). Qed.
#[export] Instance touches_if (b : bool) (m1 m2 : fs A) :
  Touches m1 P → Touches m2 P → Touches (if b then m1 else m2) P.
Proof. by destruct b. Qed.
#[export] Instance touches_read q : Touches (fs_read q) P.
Proof. by intros st p _. Qed.
#[export] Instance touches_mkdir q : Touches (create_dir_all q) P.
Proof. by intros st p _. Qed.
End touches.

Lemma TCElemOf_in {A} (x : A) l : TCElemOf x l → x ∈ l.
Proof. induction 1; by constructor. Qed.

#[export] Instance touches_write `{Faults} (P : list PathBuf) q b : TCElemOf q P → Touches (fs_write q b) P.
Proof.
  intros HP%TCElemOf_in st p Hp. assert (q ≠ p) by (by intros ->).
  unfold fs_write, put_file. destruct (write_fault q) as [[e [part|]]|]; simpl; by rewrite ?lookup_insert_ne.
Qed.
#[export] Instance touches_mode `{Faults} (P : list PathBuf) q m : TCElemOf q P → Touches (set_mode q m) P.
Proof.
  intros HP%TCElemOf_in st p Hp. assert (q ≠ p) by (by intros ->).
  unfold set_mode. destruct (chmod_fault q), (st !! q); simpl; by rewrite ?lookup_insert_ne.
Qed.

Section generated.
Context `{Faults, Rcgen}.

#[export] Instance touches_push_dns dns params P : Touches (push_dns dns params) P.
Proof. revert params. induction dns as [|d dns IH]; intros params; apply _. Qed.

#[export] Instance touches_load_ca cert key P : Touches (load_signing_ca cert key) P.
Proof. unfold load_signing_ca, read_to_string. apply _. Qed.

(** The paths of a pair. *)
Definition pair_paths (out_dir : PathBuf) (stem : bytes) : list PathBuf :=
  [join out_dir (stem ++ str ".pem"); join out_dir (stem ++ str ".key")].

#[export] Instance touches_output out_dir stem c k : Touches (write_output out_dir stem c k) (pair_paths out_dir stem).
Proof. unfold write_output, write_pem, write_secret_pem, pair_paths. apply _. Qed.

Lemma touches_server key nonce out ca cak cn dns ips stem :
  Touches (generate_server_cert key nonce out ca cak cn dns ips stem) (pair_paths out stem).
Proof. unfold generate_server_cert. case_decide; apply _. Qed.
Lemma touches_client key nonce out ca cak cn stem :
  Touches (generate_client_cert key nonce out ca cak cn stem) (pair_paths out stem).
Proof. unfold generate_client_cert. apply _. Qed.
Lemma touches_ca key nonce out cn : Touches (generate_ca key nonce out cn) (pair_paths out (str "ca")).
Proof. unfold generate_ca. apply _. Qed.

(** *** The files of a pair *)

Lemma last_join dir n : n ≠ [] → last (join dir n) = last n.
Proof.
  intros Hn. unfold join. destruct (starts_with _ _); [done|]. case_decide; [done|].
  destruct (exists_last Hn) as (n' & c & ->). destruct (ends_with _ _); by rewrite ?app_assoc, !last_snoc.
Qed.

Lemma pair_distinct dir stem : join dir (stem ++ str ".pem") ≠ join dir (stem ++ str ".key").
Proof.
  intros E. apply (f_equal last) in E. rewrite !last_join in E by (by destruct stem).
  change (str ".pem") with (str ".pe" ++ ["m"%char]) in E. change (str ".key") with (str ".ke" ++ ["y"%char]) in E.
  rewrite !app_assoc, !last_snoc in E. done.
Qed.

Lemma fs_write_inv p b st st' : fs_write p b st = (st', Ok tt) → st' = put_file p b st.
Proof. unfold fs_write. destruct (write_fault p) as [[e [part|]]|]; by intros [= <-]. Qed.

Lemma write_output_inv dir stem c k st st' out :
  write_output dir stem c k st = (st', Ok out) →
  out = mkOutput (join dir (stem ++ str ".pem")) (join dir (stem ++ str ".key")) ∧
  contents <$> st' !! cert_path out = Some c ∧ st' !! key_path out = Some (mkFile k 0x180).
Proof.
  unfold write_output, write_pem, write_secret_pem. intros E.
  apply fs_bind_inv in E as (st1 & [] & E1 & E). fs_inv. apply fs_write_inv in E1 as ->.
  apply fs_bind_inv in E as (st2 & [] & E1 & E). fs_inv. apply fs_bind_inv in E1 as (st3 & [] & E1 & E2).
  fs_inv. apply fs_write_inv in E1 as ->. pose proof (pair_distinct dir stem) as Hne.
  unfold set_mode in E2. destruct (chmod_fault _); [done|]. unfold put_file in *.
  rewrite lookup_insert_eq in E2. simplify_eq/=. split; [done|]. split; [|apply lookup_insert_eq].
  rewrite !lookup_insert_ne by done. by rewrite lookup_insert_eq.
Qed.

(** The pair of a stem is there, the key for its owner only. *)
Definition pair_written (dir stem : bytes) (st : Files) (out : CertOutput) : Prop :=
  [cert_path out; key_path out] = pair_paths dir stem ∧ is_Some (st !! cert_path out) ∧
  mode <$> st !! key_path out = Some 0x180.

Lemma write_output_pair dir stem c k st st' out :
  write_output dir stem c k st = (st', Ok out) → pair_written dir stem st' out.
Proof.
  intros (-> & Hc & Hk)%write_output_inv. split; [done|]. rewrite Hk. split; [|done]. by destruct (st' !! _).
Qed.

(** What a generator returns are the files it wrote. *)
Lemma generate_ca_out key nonce dir cn st st' out :
  generate_ca key nonce dir cn st = (st', Ok out) → pair_written dir (str "ca") st' out.
Proof.
  unfold generate_ca. intros E. do 4 (apply fs_bind_inv in E as (? & ? & _ & E)). by eapply write_output_pair.
Qed.
Lemma generate_server_out key nonce dir ca cak cn dns ips stem st st' out :
  generate_server_cert key nonce dir ca cak cn dns ips stem st = (st', Ok out) → pair_written dir stem st' out.
Proof.
  unfold generate_server_cert. case_decide; [done|]. intros E. do 6 (apply fs_bind_inv in E as (? & ? & _ & E)).
  by eapply write_output_pair.
Qed.
Lemma generate_client_out key nonce dir ca cak cn stem st st' out :
  generate_client_cert key nonce dir ca cak cn stem st = (st', Ok out) → pair_written dir stem st' out.
Proof.
  unfold generate_client_cert. intros E. do 5 (apply fs_bind_inv in E as (? & ? & _ & E)). by eapply write_output_pair.
Qed.

End generated.

(** ** rcgen's output in rustls

    What the program relies on. The encodings are read back. A certificate says what its
    parameters were ([cert_params]), and one that was signed with the issuer made of a CA
    certificate and its key is issued by that CA ([issued_by]). A certificate for a CA is
    accepted as a root; a leaf and its key are a usable identity. And of webpki's
    verification, its documented rule: an end-entity certificate for server
    authentication that was issued by a root which may sign certificates is valid for a
    server name that its SANs present; rcgen's default validity covers every date. *)

(** A reference identity of RFC 6125 that the SANs present: a DNS name, by its spelling,
    or an address. [dns_name] is the syntax [rustls::pki_types::ServerName] takes for a
    DNS name (a wildcard is none). *)
Definition presented (dns_name : bytes → bool) (sans : list SanType) (name : bytes) : Prop :=
  (dns_name name = true ∧ DnsName name ∈ sans) ∨
  match parse_ipaddr name with Some ip => SanIpAddress ip ∈ sans | None => False end.

Class RcgenPki `{Rcgen, Pki} := {
  key_bytes : KeyPair → bytes;
  cert_params : bytes → option CertificateParams;
  issued_by : bytes → bytes → Prop;
  dns_name : bytes → bool;
  pem_certs_pem c : pem_certs (pem c) = Ok [c];
  pem_private_key_pem k : pem_private_key (serialize_pem k) = Ok (Some (key_bytes k));
  key_from_pem_pem k : key_from_pem (serialize_pem k) = Ok k;
  pem_utf8 c : utf8_valid (pem c) = true;
  key_pem_utf8 k : utf8_valid (serialize_pem k) = true;
  ia5_string_same s b : ia5_string s = Ok b → b = s;
  self_signed_params params k nonce c : self_signed params k nonce = Ok c → cert_params c = Some params;
  signed_by_params params k issuer nonce c : signed_by params k issuer nonce = Ok c → cert_params c = Some params;
  signed_by_issuer ca_params ca_key ca_nonce ca params k issuer nonce leaf :
    self_signed ca_params ca_key ca_nonce = Ok ca → from_ca_cert_pem (pem ca) ca_key = Ok issuer →
    signed_by params k issuer nonce = Ok leaf → issued_by leaf ca;
  leaf_usable params k issuer nonce leaf :
    signed_by params k issuer nonce = Ok leaf → usable_identity [leaf] (key_bytes k) = Ok tt;
  root_of_ca ca params : cert_params ca = Some params → is_ca params = true → root_add ca = Ok tt;
  webpki_valid roots root leaf rp lp name :
    root ∈ roots → cert_params root = Some rp → is_ca rp = true → KeyCertSign ∈ key_usages rp →
    issued_by leaf root → cert_params leaf = Some lp → is_ca lp = false →
    ServerAuth ∈ extended_key_usages lp → presented dns_name (subject_alt_names lp) name →
    webpki_verify roots leaf [] name = Ok tt;
}.

Section pki.
Context `{Faults, RcgenPki}.

Lemma generate_ca_inv key nonce dir cn st st' out :
  generate_ca key nonce dir cn st = (st', Ok out) →
  ∃ kp params cert st1, key = Ok kp ∧ is_ca params = true ∧ KeyCertSign ∈ key_usages params ∧
    self_signed params kp nonce = Ok cert ∧
    write_output dir (str "ca") (pem cert) (serialize_pem kp) st1 = (st', Ok out).
Proof.
  unfold generate_ca. intros E. apply fs_bind_inv in E as (st1 & [] & E1 & E).
  apply fs_bind_inv in E as (st2 & params & E2 & E). apply fs_bind_inv in E as (st3 & kp & E3 & E).
  apply fs_bind_inv in E as (st4 & cert & E4 & E).
  apply with_context_inv in E3, E4. unfold fs_lift in E3, E4. injection E3 as -> ->. injection E4 as -> E4.
  exists kp, (set_key_usages [KeyCertSign; CrlSign; DigitalSignature] (set_is_ca true params)), cert, st4.
  split_and!; try done. constructor.
Qed.

Lemma params_new_ca names params : params_new names = Ok params → is_ca params = false.
Proof. unfold params_new. destruct (mapM san_of_name names); [|done]. by intros [= <-]. Qed.

Lemma push_dns_inv dns params st st' params' :
  push_dns dns params st = (st', Ok params') →
  st' = st ∧ subject_alt_names params' = subject_alt_names params ++ map DnsName dns ∧ is_ca params' = is_ca params.
Proof.
  revert params. induction dns as [|d dns IH]; intros params E; cbn [push_dns] in E.
  - injection E as <- <-. by rewrite app_nil_r.
  - apply fs_bind_inv in E as (st1 & name & E1 & E). apply with_context_inv in E1.
    unfold fs_lift in E1. injection E1 as -> E1. apply ia5_string_same in E1 as ->.
    apply IH in E as (-> & E & Ec). split; [done|]. rewrite E, Ec. simpl. by rewrite <-app_assoc.
Qed.

Lemma push_ips_sans ips params :
  subject_alt_names (push_ips ips params) = subject_alt_names params ++ map SanIpAddress ips ∧
  is_ca (push_ips ips params) = is_ca params.
Proof.
  unfold push_ips. revert params. induction ips as [|ip ips IH]; intros params; simpl; [by rewrite app_nil_r|].
  destruct (IH (set_sans (subject_alt_names params ++ [SanIpAddress ip]) params)) as [-> ->].
  simpl. by rewrite <-app_assoc.
Qed.

Lemma read_to_string_inv p st st' b :
  read_to_string p st = (st', Ok b) → st' = st ∧ ∃ f, st !! p = Some f ∧ contents f = b.
Proof.
  unfold read_to_string. intros E. apply fs_bind_inv in E as (st1 & c & E1 & E).
  apply fs_read_inv in E1 as (-> & f & Hf & <-). destruct (utf8_valid _); [|done].
  injection E as <- <-. split; [done|]. by exists f.
Qed.

Lemma load_signing_ca_inv cert key st st' issuer :
  load_signing_ca cert key st = (st', Ok issuer) →
  st' = st ∧ ∃ fc fk k, st !! cert = Some fc ∧ st !! key = Some fk ∧
    key_from_pem (contents fk) = Ok k ∧ from_ca_cert_pem (contents fc) k = Ok issuer.
Proof.
  unfold load_signing_ca. intros E. apply fs_bind_inv in E as (st1 & c & E1 & E).
  apply with_context_inv, read_to_string_inv in E1 as (-> & fc & ? & <-).
  apply fs_bind_inv in E as (st2 & k & E1 & E). apply with_context_inv, read_to_string_inv in E1 as (-> & fk & ? & <-).
  apply fs_bind_inv in E as (st3 & kp & E1 & E). apply with_context_inv in E1, E. unfold fs_lift in E1, E.
  injection E1 as -> ?. injection E as -> ?. split; [done|]. by exists fc, fk, kp.
Qed.

Lemma generate_server_inv key nonce dir ca cak cn dns ips stem st st' out :
  generate_server_cert key nonce dir ca cak cn dns ips stem st = (st', Ok out) →
  ∃ kp params issuer cert, key = Ok kp ∧ load_signing_ca ca cak st = (st, Ok issuer) ∧
    ServerAuth ∈ extended_key_usages params ∧ is_ca params = false ∧
    (∀ name, name ∈ dns → DnsName name ∈ subject_alt_names params) ∧
    (∀ ip, ip ∈ ips → SanIpAddress ip ∈ subject_alt_names params) ∧
    signed_by params kp issuer nonce = Ok cert ∧
    write_output dir stem (pem cert) (serialize_pem kp) st = (st', Ok out).
Proof.
  unfold generate_server_cert. case_decide; [done|]. intros E.
  apply fs_bind_inv in E as (st1 & [] & E1 & E). apply with_context_inv in E1. injection E1 as -> _.
  apply fs_bind_inv in E as (st2 & params & E2 & E). apply with_context_inv in E2. injection E2 as -> Hnew.
  apply params_new_ca in Hnew.
  apply fs_bind_inv in E as (st3 & params' & E3 & E). apply push_dns_inv in E3 as (-> & Hsans & Hca).
  apply fs_bind_inv in E as (st4 & issuer & E4 & E). pose proof (load_signing_ca_inv _ _ _ _ _ E4) as [-> _].
  apply fs_bind_inv in E as (st5 & kp & E5 & E). apply fs_bind_inv in E as (st6 & cert & E6 & E).
  apply with_context_inv in E5, E6. unfold fs_lift in E5, E6. injection E5 as -> ->. injection E6 as -> E6.
  eexists kp, _, issuer, cert. split_and!; [done..| | | | |done|done]; [constructor| | |];
    cbn [subject_alt_names set_extended set_key_usages is_ca]; destruct (push_ips_sans ips params') as [Es Ec].
  - by rewrite Ec, Hca.
  - intros name Hd. rewrite Es, Hsans, !elem_of_app. left. right. by apply (list_elem_of_fmap_2 DnsName).
  - intros ip Hip. rewrite Es, elem_of_app. right. by apply (list_elem_of_fmap_2 SanIpAddress).
Qed.

Lemma load_root_store_one p st f ca :
  read_fault p = None → st !! p = Some f → contents f = pem ca → root_add ca = Ok tt →
  load_root_store p st = (st, Ok [ca]).
Proof.
  intros Hr Hf Hc Hroot. unfold load_root_store, load_pem_certs, mbind, fs_bind, with_context, fs_read, fs_lift.
  rewrite Hr, Hf, Hc. simpl. rewrite pem_certs_pem. simpl. unfold mbind, fs_bind, with_context, fs_lift.
  by rewrite Hroot.
Qed.

(** C36: the documented way to set up TLS works end to end: after [rusnel cert ca] and
    [rusnel cert server] (with output names that do not overwrite the CA), the server
    started on the two written files presents the issued certificate, and a client
    given the written CA file accepts it for every IP address of the command line and
    for every DNS name there that can be a server name at all; both private keys are
    readable by their owner only. *)
Theorem pki_workflow ca_key ca_nonce dir cn key nonce dir' cn' dns ips stem st st1 st2 ca out :
  generate_ca ca_key ca_nonce dir cn st = (st1, Ok ca) →
  generate_server_cert key nonce dir' (cert_path ca) (key_path ca) cn' dns ips stem st1 = (st2, Ok out) →
  cert_path ca ∉ pair_paths dir' stem → key_path ca ∉ pair_paths dir' stem →
  Forall (λ p, read_fault p = None) [cert_path ca; cert_path out; key_path out] → quic_crypto = Ok tt →
  ∃ leaf k cfg,
    (∀ generated, create_server_endpoint generated (Provided (cert_path out) (key_path out)) st2 =
       (st2, Ok (mkTlsServer ([leaf], k) None ALPN_QUIC_HTTP))) ∧
    build_quic_client_config (Ca (cert_path ca) None) st2 = (st2, Ok cfg) ∧
    (∀ name, (name ∈ dns ∧ dns_name name = true) ∨ (∃ ip, ip ∈ ips ∧ name = fmt_ip ip) →
       verify_server_cert (tc_verifier cfg) leaf [] name = Ok tt) ∧
    mode <$> st2 !! key_path ca = Some 0x180 ∧ mode <$> st2 !! key_path out = Some 0x180.
Proof.
  intros Hca Hsrv Hnc Hnk Hread Hquic. pose proof (touches_server key nonce dir' (cert_path ca) (key_path ca)
    cn' dns ips stem) as Hframe.
  destruct (generate_ca_inv _ _ _ _ _ _ _ Hca) as (kca & pca & cac & st0 & -> & Hisca & Hsign & Hself & Hw).
  apply write_output_inv in Hw as (_ & Hcac & Hcak).
  destruct (generate_server_inv _ _ _ _ _ _ _ _ _ _ _ _ Hsrv) as (kp & p & iss & leaf & -> & Hload & Hauth & Hnoca & Hdns & Hips & Hsigned & Hw).
  apply write_output_inv in Hw as (_ & Hlc & Hlk).
  assert (∀ q, q ∉ pair_paths dir' stem → st2 !! q = st1 !! q) as Hkeep.
  { intros q Hq. pose proof (Hframe st1 q Hq) as E. by rewrite Hsrv in E. }
  apply load_signing_ca_inv in Hload as (_ & fc & fk & k & Hfc & Hfk & Hk & Hiss).
  rewrite Hfc in Hcac. rewrite Hfk in Hcak. simplify_eq/=. rewrite key_from_pem_pem in Hk. simplify_eq.
  match goal with E : contents fc = _ |- _ => rename E into Hpem end. rewrite Hpem in Hiss.
  rewrite !Forall_cons in Hread. destruct Hread as (Hr1 & Hr2 & Hr3 & _).
  destruct (st2 !! cert_path out) as [fl|] eqn:Efl; simplify_eq/=.
  exists leaf, (key_bytes kp), (mkTlsClient (WebPkiVerifier [cac]) None ALPN_QUIC_HTTP). split_and!.
  - intros generated. unfold create_server_endpoint. cbn [load_server_identity].
    rewrite (fs_bind_ok _ _ _ _ _ (load_pem_identity_ok _ _ _ fl _ [leaf] (key_bytes kp) Hr2 Hr3 Efl Hlk
      ltac:(by rewrite Hlc, pem_certs_pem) ltac:(done) (pem_private_key_pem kp))).
    unfold build_quic_server_config, mbind, fs_bind, fs_lift. simpl.
    by rewrite (leaf_usable _ _ _ _ _ Hsigned), Hquic.
  - unfold build_quic_client_config.
    rewrite (fs_bind_ok _ _ _ st2 (WebPkiVerifier [cac], None)).
    + unfold mbind, fs_bind, fs_lift. by rewrite Hquic.
    + rewrite (fs_bind_ok _ _ _ st2 [cac]); [done|].
      eapply load_root_store_one; [done|rewrite Hkeep by done; exact Hfc|done|by eapply root_of_ca; [eapply self_signed_params|]].
  - intros name Hname. simpl.
    eapply (webpki_valid [cac] cac); [left|by eapply self_signed_params|done|done|by eapply signed_by_issuer|
      by eapply signed_by_params|done|done|].
    destruct Hname as [[Hd Hn]|(ip & Hip & ->)]; [left; by auto|right]. rewrite parse_fmt_ip. by apply Hips.
  - rewrite Hkeep by done. by rewrite Hfk.
  - by rewrite Hlk.
Qed.

(** [rusnel cert server], whatever the file system and rcgen do: it changes no
    file but its two outputs; without a name or address it changes nothing and says
    so; and when it succeeds the key it wrote is the generated one, with mode 0600. *)
Theorem server_cert_safe key nonce dir ca cak cn dns ips stem st :
  let '(st', r) := generate_server_cert key nonce dir ca cak cn dns ips stem st in
  (∀ p, p ∉ pair_paths dir stem → st' !! p = st !! p) ∧
  (dns = [] → ips = [] → st' = st ∧ is_ok r = false) ∧
  (∀ out, r = Ok out → out = mkOutput (join dir (stem ++ str ".pem")) (join dir (stem ++ str ".key")) ∧
     ∃ kp, key = Ok kp ∧ st' !! key_path out = Some (mkFile (serialize_pem kp) 0x180)).
Proof.
  pose proof (touches_server key nonce dir ca cak cn dns ips stem) as Hframe.
  destruct (generate_server_cert key nonce dir ca cak cn dns ips stem st) as [st' r] eqn:E. split_and!.
  - intros p Hp. pose proof (Hframe st p Hp) as E'. by rewrite E in E'.
  - intros -> ->. unfold generate_server_cert in E. rewrite decide_True in E by done.
    unfold fs_lift in E. by simplify_eq.
  - intros out ->. apply generate_server_inv in E as (kp & ? & ? & ? & -> & _ & _ & _ & _ & _ & _ & Hw).
    apply write_output_inv in Hw as (Hout & _ & Hk). split; [done|]. by exists kp.
Qed.

(** What [rusnel cert fingerprint] prints can be given to [--tls-fingerprint]: it
    parses, and a client pinned to it accepts exactly the certificates with the digest
    of the first certificate of the file. *)
Theorem printed_fingerprint_pins path st st' fp :
  print_fingerprint path st = (st', Ok fp) →
  st' = st ∧
  ∃ leaf rest f sha, st !! path = Some f ∧ pem_certs (contents f) = Ok (leaf :: rest) ∧
    parse_fingerprint fp = Returns (Ok sha) ∧
    ∀ end_entity inter name,
      verify_server_cert (FingerprintVerifier sha) end_entity inter name = Ok tt ↔
      cert_sha256 end_entity = cert_sha256 leaf.
Proof.
  unfold print_fingerprint. intros E. apply fs_bind_inv in E as (st1 & b & E1 & E).
  apply with_context_inv, fs_read_inv in E1 as (-> & f & Hf & <-).
  apply fs_bind_inv in E as (st2 & certs & E1 & E). apply with_context_inv in E1. unfold fs_lift in E1.
  injection E1 as -> Hcerts. apply fs_bind_inv in E as (st3 & leaf & E1 & E). unfold fs_lift in E1.
  injection E1 as -> Hleaf. injection E as -> <-. split; [done|].
  destruct certs as [|c rest]; simplify_eq/=. exists leaf, rest, f, (cert_sha256 leaf). split_and!; [done..| |].
  - apply parse_format_fingerprint, cert_sha256_length.
  - intros. case_decide; by split.
Qed.

End pki.

(** ** An X.509 in miniature

    Armour is hexadecimal; a certificate is the key of its issuer and its parameters,
    as the bits of a number; a verifier decodes both certificates and checks what the
    rule says. *)

Definition armour (b : bytes) : bytes := concat (map fmt_hex02 b).

Fixpoint unarmour (s : bytes) : result bytes bytes :=
  match s with
  | [] => Ok []
  | c :: d :: s' =>
      match from_str_radix 16 255 [c; d] with
      | Ok n => cons (n2b n) <$> unarmour s'
      | Err _ => Err (str "bad armour")
      end
  | _ => Err (str "bad armour")
  end.

Lemma hex02_ascii b : ∃ c d, fmt_hex02 b = [c; d] ∧ utf8_width c = 1 ∧ utf8_width d = 1.
Proof.
  revert b. assert (∀ b, match fmt_hex02 b with
    | [c; d] => utf8_width c = 1 ∧ utf8_width d = 1 | _ => False end) as Hall.
  { refine (forall_byte (λ b, match fmt_hex02 b with
      | [c; d] => utf8_width c = 1 ∧ utf8_width d = 1 | _ => False end) _).
    vm_compute. reflexivity. }
  intros b. specialize (Hall b). destruct (fmt_hex02 b) as [|c [|d [|]]]; try done. by exists c, d.
Qed.

Lemma unarmour_armour b : unarmour (armour b) = Ok b.
Proof.
  induction b as [|c b IH]; [done|]. change (armour (c :: b)) with (fmt_hex02 c ++ armour b).
  pose proof (parse_fmt_hex02 c) as Hp. destruct (hex02_ascii c) as (x & y & E & _). rewrite E in *.
  cbn [app unarmour]. rewrite Hp, IH. simpl. by rewrite n2b_b2n.
Qed.

Lemma utf8_armour b : utf8_valid (armour b) = true.
Proof.
  induction b as [|c b IH]; [done|]. change (armour (c :: b)) with (fmt_hex02 c ++ armour b).
  destruct (hex02_ascii c) as (x & y & E & Hx & Hy). rewrite E. cbn [app utf8_valid]. by rewrite Hx, Hy.
Qed.

#[local] Instance SanType_eq_dec : EqDecision SanType.
Proof. solve_decision. Defined.
#[local] Instance SanType_countable : Countable SanType.
Proof.
  refine (inj_countable (λ s, match s with DnsName n => inl n | SanIpAddress ip => inr (fmt_ip ip) end)
    (λ x, match x with inl n => Some (DnsName n) | inr t => SanIpAddress <$> parse_ipaddr t end) _).
  intros [n|ip]; [done|]. by rewrite parse_fmt_ip.
Defined.
#[local] Instance KeyUsagePurpose_eq_dec : EqDecision KeyUsagePurpose.
Proof. solve_decision. Defined.
#[local] Instance KeyUsagePurpose_countable : Countable KeyUsagePurpose.
Proof.
  refine (inj_countable' (λ u, match u with
      KeyCertSign => (false, false) | CrlSign => (false, true) | DigitalSignature => (true, false)
    | KeyEncipherment => (true, true) end)
    (λ x : bool * bool, match x with
      (false, false) => KeyCertSign | (false, true) => CrlSign | (true, false) => DigitalSignature
    | (true, true) => KeyEncipherment end) _). by intros [].
Defined.
#[local] Instance ExtendedKeyUsagePurpose_eq_dec : EqDecision ExtendedKeyUsagePurpose.
Proof. solve_decision. Defined.
#[local] Instance ExtendedKeyUsagePurpose_countable : Countable ExtendedKeyUsagePurpose.
Proof.
  refine (inj_countable' (λ u, match u with ServerAuth => true | ClientAuth => false end)
    (λ b : bool, if b then ServerAuth else ClientAuth) _). by intros [].
Defined.

Definition MiniCert : Type := bytes * (list SanType * bool * (list KeyUsagePurpose * list ExtendedKeyUsagePurpose)).

Fixpoint of_bits (s : bytes) : option positive :=
  match s with
  | [] => Some 1%positive
  | c :: s => p ← of_bits s; Some (if decide (c = "1"%char) then p~1 else p~0)%positive
  end.
Fixpoint to_bits (p : positive) : bytes :=
  match p with xH => [] | xO p => "0"%char :: to_bits p | xI p => "1"%char :: to_bits p end.

Lemma of_to_bits p : of_bits (to_bits p) = Some p.
Proof. induction p as [p IH|p IH|]; cbn; [by rewrite IH..|done]. Qed.

Definition mini_cert (issuer : bytes) (p : CertificateParams) : bytes :=
  to_bits (encode ((issuer, (subject_alt_names p, is_ca p, (key_usages p, extended_key_usages p))) : MiniCert)).
Definition mini_read (c : bytes) : option (bytes * CertificateParams) :=
  '(issuer, (sans, ca, (ku, eku))) ← of_bits c ≫= @decode MiniCert _ _;
  Some (issuer, mkParams sans ca ku eku).

Lemma mini_read_cert issuer p : mini_read (mini_cert issuer p) = Some (issuer, p).
Proof.
  unfold mini_read, mini_cert. rewrite of_to_bits. cbn [mbind option_bind]. rewrite decode_encode.
  by destruct p.
Qed.

Definition mini_dns (name : bytes) : bool := bool_decide (name ≠ [] ∧ "*"%char ∉ name).

#[local] Instance presented_dec f sans name : Decision (presented f sans name).
Proof. unfold presented. destruct (parse_ipaddr name); apply _. Defined.

Definition mini_valid (root leaf : bytes * CertificateParams) (name : bytes) : bool :=
  bool_decide (is_ca root.2 = true ∧ KeyCertSign ∈ key_usages root.2 ∧ leaf.1 = root.1 ∧ is_ca leaf.2 = false ∧
    ServerAuth ∈ extended_key_usages leaf.2 ∧ presented mini_dns (subject_alt_names leaf.2) name).

#[local] Instance mini_faults : Faults := {|
  read_fault _ := None; write_fault _ := None; mkdir_fault _ := None; chmod_fault _ := None;
  default_mode := 0x1A4 |}.

#[local] Instance mini_rcgen : Rcgen := {|
  KeyPair := bytes; Issuer := bytes;
  san_of_name n := Ok (DnsName n);
  ia5_string := Ok;
  self_signed p k nonce := Ok (mini_cert k p);
  signed_by p k issuer nonce := Ok (mini_cert issuer p);
  pem := armour; serialize_pem := armour; key_from_pem := unarmour;
  from_ca_cert_pem s k := Ok k |}.

#[local] Program Instance mini_pki : Pki := {|
  pem_certs s := (λ c, [c]) <$> unarmour s;
  pem_private_key s := Some <$> unarmour s;
  cert_sha256 c := resize 32 zero c;
  root_add c := match mini_read c with Some _ => Ok tt | None => Err (str "bad certificate") end;
  client_verifier _ := Ok tt; usable_identity _ _ := Ok tt; quic_crypto := Ok tt;
  webpki_verify roots leaf _ name :=
    match mini_read leaf with
    | Some l => if existsb (λ root, match mini_read root with Some r => mini_valid r l name | None => false end) roots
                then Ok tt else Err (str "UnknownIssuer")
    | None => Err (str "bad certificate")
    end |}.
Next Obligation. intros c. apply length_resize. Qed.

#[local] Program Instance mini_rcgen_pki : @RcgenPki mini_rcgen mini_pki := {|
  key_bytes k := k;
  cert_params c := snd <$> mini_read c;
  issued_by leaf ca := fst <$> mini_read leaf = fst <$> mini_read ca;
  dns_name := mini_dns |}.
Next Obligation. intros c. simpl. by rewrite unarmour_armour. Qed.
Next Obligation. intros k. simpl. by rewrite unarmour_armour. Qed.
Next Obligation. apply unarmour_armour. Qed.
Next Obligation. apply utf8_armour. Qed.
Next Obligation. apply utf8_armour. Qed.
Next Obligation. by intros s b [= <-]. Qed.
Next Obligation. intros p k n c [= <-]. by rewrite mini_read_cert. Qed.
Next Obligation. intros p k i n c [= <-]. by rewrite mini_read_cert. Qed.
Next Obligation. intros pca kca nca ca p k issuer n leaf [= <-] [= <-] [= <-]. by rewrite !mini_read_cert. Qed.
Next Obligation. done. Qed.
Next Obligation. intros ca p Hp _. cbn [root_add mini_pki]. cbn beta in Hp. by destruct (mini_read ca). Qed.
Next Obligation.
  intros roots root leaf rp lp name Hin Hr Hca Hsign Hby Hl Hno Hauth Hn. cbn [webpki_verify mini_pki]. cbn beta in *.
  destruct (mini_read leaf) as [[li lp']|]; [|done]. destruct (mini_read root) as [[ri rp']|] eqn:Er; [|done].
  simplify_eq/=. replace (existsb _ roots) with true; [done|]. symmetry. apply existsb_exists. exists root.
  split; [by apply list_elem_of_In|]. rewrite Er. by apply bool_decide_eq_true.
Qed.

Definition demo_pki_dir : PathBuf := str "./pki".
Definition demo_ca_run : Files * result bytes CertOutput :=
  generate_ca (Ok (str "k1")) [] demo_pki_dir (str "rusnel-ca") ∅.
Definition demo_ca : CertOutput := mkOutput (str "./pki/ca.pem") (str "./pki/ca.key").
Definition demo_server_run : Files * result bytes CertOutput :=
  generate_server_cert (Ok (str "k2")) [] demo_pki_dir (cert_path demo_ca) (key_path demo_ca)
    (str "example.org") [str "example.org"] [] (str "server") demo_ca_run.1.
Definition demo_server : CertOutput := mkOutput (str "./pki/server.pem") (str "./pki/server.key").

Lemma pki_workflow_witness :
  ∃ leaf cfg, build_quic_client_config (Ca (cert_path demo_ca) None) demo_server_run.1 =
      (demo_server_run.1, Ok cfg) ∧
    verify_server_cert (tc_verifier cfg) leaf [] (str "example.org") = Ok tt.
Proof.
  destruct (@pki_workflow mini_faults mini_rcgen mini_pki mini_rcgen_pki (Ok (str "k1")) [] demo_pki_dir (str "rusnel-ca") (Ok (str "k2")) [] demo_pki_dir
    (str "example.org") [str "example.org"] [] (str "server") ∅ demo_ca_run.1 demo_server_run.1
    demo_ca demo_server) as (leaf & k & cfg & _ & Hb & Hv & _).
  - vm_cast_no_check (eq_refl demo_ca_run).
  - vm_cast_no_check (eq_refl demo_server_run).
  - apply (bool_decide_unpack _). vm_compute. exact I.
  - apply (bool_decide_unpack _). vm_compute. exact I.
  - repeat constructor.
  - reflexivity.
  - exists leaf, cfg. split; [exact Hb|]. apply Hv. left. split; [constructor|reflexivity].
Defined.

Definition demo_ca_cert : bytes :=
  mini_cert (str "k1") (mkParams [DnsName (str "rusnel-ca")] true [KeyCertSign; CrlSign; DigitalSignature] []).

Lemma printed_fingerprint_pins_witness :
  ∃ sha, parse_fingerprint (format_fingerprint (cert_sha256 demo_ca_cert)) = Returns (Ok sha).
Proof.
  destruct (printed_fingerprint_pins (cert_path demo_ca) demo_ca_run.1 demo_ca_run.1
    (format_fingerprint (cert_sha256 demo_ca_cert))) as (_ & leaf & rest & f & sha & _ & _ & E & _).
  - vm_cast_no_check (eq_refl (print_fingerprint (cert_path demo_ca) demo_ca_run.1)).
  - by exists sha.
Defined.

(** The stem of a client certificate defaults to its common name, and nothing keeps it
    from being [ca]: such a certificate overwrites the authority that signed it. *)
Lemma client_named_ca :
  let '(st, r) := @run_cert mini_faults mini_rcgen mini_pki (Ok (str "k3")) []
    (AClient demo_pki_dir (cert_path demo_ca) (key_path demo_ca) (str "ca") None) demo_ca_run.1 in
  is_ok r = true ∧ contents <$> st !! key_path demo_ca = Some (armour (str "k3")) ∧
  contents <$> demo_ca_run.1 !! key_path demo_ca = Some (armour (str "k1")).
Proof. vm_compute. done. Qed.
