(* ===== verification/Session.v ===== *)
(** * Session: the client's life and its shutdown signal ([src/client/mod.rs])

    [run_with_reconnect] and [run_connection] as one state machine with the broadcast
    channel of the shutdown signal between them: a message reaches the receivers that
    exist when it is sent. The loop subscribes at the top of every round; a session
    subscribes only after its hello was answered and its tasks were spawned. The
    rounds of [Client] are the abstraction of this machine. *)

From S2P Require Import Prelude Text NetAddr Remote Framing Client.

(** Where the task is: waiting for a connect attempt, in the hello exchange, between
    the spawn of the tasks and the subscription, in the [select!] of the session, in the
    sleep between rounds (after the answer of this round), or done. *)
Inductive ClientPhase :=
| Connecting
| InHello
| Spawned
| InSession
| Sleeping (answer : ConnectAnswer)
| Finished (r : result bytes unit).

(** The variables of the loop; whether a message waits for the loop's receiver and for
    the session's; and how this end closed the connection, if it did. *)
Record ClientLoop := mkClientLoop {
  cl_phase : ClientPhase; cl_attempt : N; cl_backoff : Duration;
  outer_pending : bool; inner_pending : bool; closed_with : option (N * bytes) }.

Definition set_client_phase (p : ClientPhase) (m : ClientLoop) : ClientLoop :=
  mkClientLoop p (cl_attempt m) (cl_backoff m) (outer_pending m) (inner_pending m) (closed_with m).

(** What happens to the client: a send on the channel (by the ^C task or by a stdio
    task), the answers of the network, its own progress, and a branch of a [select!]. *)
Inductive ClientEvent :=
| Signal
| ConnectOk
| ConnectErr (e : bytes)
| HelloErr (e : bytes)
| HelloDone
| Subscribe
| ConnClosed (reason : bytes)
| SleepDone
| RecvOuter
| RecvInner.

Section machine.
Context (config : ReconnectConfig).

Definition client_start : ClientLoop :=
  mkClientLoop Connecting 0 (initial_backoff config) false false None.

(** After a round without a shutdown: count the attempt, give up or sleep. *)
Definition after_round (answer : ConnectAnswer) (m : ClientLoop) : ClientLoop :=
  let attempt := N.min (cl_attempt m + 1) u32_max in
  let m := mkClientLoop (cl_phase m) attempt (cl_backoff m) (outer_pending m) (inner_pending m)
             (closed_with m) in
  match max_retries config with
  | Some max =>
      if max <? attempt then
        set_client_phase (Finished (Err (str "giving up after " ++ fmt_dec (attempt - 1) ++
                                         str " reconnect attempt(s)"))) m
      else set_client_phase (Sleeping answer) m
  | None => set_client_phase (Sleeping answer) m
  end.

(** One event, and the round it completes if any. *)
Definition client_step (e : ClientEvent) (m : ClientLoop) : option (ClientLoop * option Round) :=
  match e, cl_phase m with
  | Signal, Finished _ => None
  | Signal, p =>
      Some (mkClientLoop p (cl_attempt m) (cl_backoff m) true
              (match p with InSession => true | _ => inner_pending m end) (closed_with m), None)
  | ConnectOk, Connecting =>
      Some (mkClientLoop InHello 0 (initial_backoff config) (outer_pending m) false (closed_with m), None)
  | ConnectErr e, Connecting =>
      let m' := after_round (ConnectFailed e) m in
      Some (m', match cl_phase m' with
                | Finished _ => Some (mkRound (ConnectFailed e) false) | _ => None end)
  | RecvOuter, Connecting =>
      if outer_pending m then
        Some (set_client_phase (Finished (Ok tt)) m, Some (mkRound ConnectInterrupted false))
      else None
  | HelloErr e, InHello =>
      let answer := SessionRan (Disconnected (str "session hello failed: " ++ e)) in
      let m' := after_round answer m in
      Some (m', match cl_phase m' with Finished _ => Some (mkRound answer false) | _ => None end)
  | HelloDone, InHello => Some (set_client_phase Spawned m, None)
  | Subscribe, Spawned =>
      Some (mkClientLoop InSession (cl_attempt m) (cl_backoff m) (outer_pending m) false (closed_with m),
            None)
  | RecvInner, InSession =>
      if inner_pending m then
        Some (mkClientLoop (Finished (Ok tt)) (cl_attempt m) (cl_backoff m) (outer_pending m) false
                (Some (130, str "client received ^C")),
              Some (mkRound (SessionRan Shutdown) false))
      else None
  | ConnClosed reason, InSession =>
      let answer := SessionRan (Disconnected reason) in
      let m' := after_round answer m in
      Some (m', match cl_phase m' with Finished _ => Some (mkRound answer false) | _ => None end)
  | RecvOuter, Sleeping answer =>
      if outer_pending m then
        Some (set_client_phase (Finished (Ok tt)) m, Some (mkRound answer true))
      else None
  | SleepDone, Sleeping answer =>
      Some (mkClientLoop Connecting (cl_attempt m) (next_backoff (cl_backoff m) (max_backoff config))
              false (inner_pending m) (closed_with m), Some (mkRound answer false))
  | _, _ => None
  end.

(** A run, with the rounds it completed. *)
Fixpoint client_run (es : list ClientEvent) (m : ClientLoop) : option (ClientLoop * list Round) :=
  match es with
  | [] => Some (m, [])
  | e :: es' =>
      '(m, r) ← client_step e m; '(m, rs) ← client_run es' m; Some (m, option_list r ++ rs)
  end.

(** ** The rounds of [Client] describe every run *)

Lemma reconnect_loop_app rounds : ∀ st st' ds r,
  reconnect_loop config rounds st = (Client.Waiting st', ds) →
  (reconnect_loop config (rounds ++ [r]) st).1 = (reconnect_round config r st').1.
Proof.
  induction rounds as [|r' rounds IH]; intros st st' ds r E; simpl in *.
  - simplify_eq. by destruct (reconnect_round config r st') as [[|] ?].
  - destruct (reconnect_round config r' st) as [[res|st1] d]; [done|].
    destruct (reconnect_loop config rounds st1) as [p ds1] eqn:E1. simplify_eq/=.
    specialize (IH st1 st' ds1 r E1). by destruct (reconnect_loop config (rounds ++ [r]) st1).
Qed.

(** The loop of [Client] after these rounds is at [st]. *)
Definition at_loop (rounds : list Round) (st : Loop) : Prop :=
  (run_with_reconnect config rounds).1 = Client.Waiting st.

Lemma at_loop_next rounds st r :
  at_loop rounds st → (run_with_reconnect config (rounds ++ [r])).1 = (reconnect_round config r st).1.
Proof.
  unfold at_loop, run_with_reconnect. intros Hat.
  destruct (reconnect_loop config rounds (mkLoop 0 (initial_backoff config))) as [p ds] eqn:E. simpl in Hat.
  subst p. by eapply reconnect_loop_app.
Qed.

(** What the rounds so far say about the machine. *)
Definition refines (m : ClientLoop) (rounds : list Round) : Prop :=
  match cl_phase m with
  | Connecting => at_loop rounds (mkLoop (cl_attempt m) (cl_backoff m))
  | InHello | Spawned | InSession =>
      cl_attempt m = 0 ∧ cl_backoff m = initial_backoff config ∧ ∃ st, at_loop rounds st
  | Sleeping answer =>
      ∃ st, at_loop rounds st ∧
        (reconnect_round config (mkRound answer true) st).1 = Returned (Ok tt) ∧
        (reconnect_round config (mkRound answer false) st).1 =
          Client.Waiting (mkLoop (cl_attempt m) (next_backoff (cl_backoff m) (max_backoff config)))
  | Finished r => (run_with_reconnect config rounds).1 = Returned r
  end.

(** The end of a round agrees with [reconnect_round]. *)
Lemma after_round_refines answer m rounds st :
  at_loop rounds st →
  (match answer with
   | ConnectFailed _ => st = mkLoop (cl_attempt m) (cl_backoff m)
   | SessionRan (Disconnected _) => cl_attempt m = 0 ∧ cl_backoff m = initial_backoff config
   | _ => False
   end) →
  refines (after_round answer m)
    (rounds ++ option_list (match cl_phase (after_round answer m) with
                            | Finished _ => Some (mkRound answer false) | _ => None end)).
Proof.
  intros Hat Ha. pose proof (at_loop_next rounds st (mkRound answer false) Hat) as Hnext.
  unfold refines, after_round, reconnect_round in *. cbn [connect_answer sleep_interrupted] in *.
  destruct answer as [|e|[|reason]]; [done| |done|].
  - subst st. cbn [attempt backoff] in *. destruct (max_retries config) as [max|].
    + destruct (max <? _) eqn:Hm; cbn [cl_phase set_client_phase option_list] in *; [done|].
      rewrite app_nil_r. eexists. split; [exact Hat|]. cbn [attempt backoff]. by rewrite ?Hm.
    + cbn [cl_phase set_client_phase option_list]. rewrite app_nil_r. eexists. by split; [exact Hat|].
  - destruct Ha as [Ea Eb]. rewrite Ea, Eb. cbn [attempt backoff] in *. destruct (max_retries config) as [max|].
    + destruct (max <? _) eqn:Hm; cbn [cl_phase set_client_phase option_list] in *; [done|].
      rewrite app_nil_r. eexists. split; [exact Hat|]. cbn [attempt backoff]. by rewrite ?Hm.
    + cbn [cl_phase set_client_phase option_list]. rewrite app_nil_r. eexists. by split; [exact Hat|].
Qed.

Lemma client_step_refines e m m' r rounds :
  refines m rounds → client_step e m = Some (m', r) → refines m' (rounds ++ option_list r).
Proof.
  intros Href Hstep. unfold client_step in Hstep.
  destruct e, (cl_phase m) as [| | | |answer|res] eqn:Hph; try discriminate Hstep;
    unfold refines in Href; rewrite Hph in Href.
  all: try (destruct (outer_pending m); [|discriminate Hstep]).
  all: try (destruct (inner_pending m); [|discriminate Hstep]).
  all: injection Hstep as <- <-.
  all: try (eapply after_round_refines; [eassumption|done]).
  all: try (destruct Href as (Ha & Hb & st & Hat); eapply after_round_refines; [exact Hat|done]).
  all: simpl option_list; rewrite ?app_nil_r; unfold refines; cbn [cl_phase set_client_phase cl_attempt cl_backoff].
  all: first
    [ done
    | destruct Href as (st & Hat & H1 & H2); unfold at_loop; by rewrite (at_loop_next _ _ _ Hat)
    | destruct Href as (Ha & Hb & st & Hat); first [by rewrite (at_loop_next _ _ _ Hat)|by split_and!; eauto]
    | by rewrite (at_loop_next _ _ _ Href)
    | by split_and!; eauto ].
Qed.

Lemma client_run_refines es : ∀ m rounds m' rs,
  refines m rounds → client_run es m = Some (m', rs) → refines m' (rounds ++ rs).
Proof.
  induction es as [|e es IH]; intros m rounds m' rs Href Hr; simpl in Hr.
  { simplify_eq. by rewrite app_nil_r. }
  destruct (client_step e m) as [[m1 r]|] eqn:Hs; [|done]. simpl in Hr.
  destruct (client_run es m1) as [[m2 rs2]|] eqn:Hr2; [|done]. simplify_eq/=.
  rewrite app_assoc. eapply IH; [|done]. by eapply client_step_refines.
Qed.

(** C16: the client's state machine, with its hello exchange, its subscriptions and
    the races of its [select!]s, implements the reconnect loop as a function of rounds:
    in every run, when the machine has finished with a result, the loop returns that
    result on the rounds the machine went through; and when it is about to connect
    again, the loop waits with the same attempt count and backoff. *)
Theorem client_loop_refines es m rounds :
  client_run es client_start = Some (m, rounds) →
  match cl_phase m with
  | Finished r => (run_with_reconnect config rounds).1 = Returned r
  | Connecting => (run_with_reconnect config rounds).1 = Client.Waiting (mkLoop (cl_attempt m) (cl_backoff m))
  | _ => ∃ st, (run_with_reconnect config rounds).1 = Client.Waiting st
  end.
Proof.
  intros Hr. assert (refines client_start []) as H0 by done.
  pose proof (client_run_refines _ _ _ _ _ H0 Hr) as Href. simpl in Href. unfold refines in Href.
  destruct (cl_phase m); try done; try (by destruct Href as (_ & _ & Href)).
  destruct Href as (st & Hat & _). by exists st.
Qed.

(** ** The shutdown signal *)

(** Events other than a new signal and the end of the session by the server. *)
Definition quiet (e : ClientEvent) : Prop :=
  match e with Signal | ConnClosed _ | HelloErr _ => False | _ => True end.

(** The session has not seen the signal that waits for the loop. *)
Definition deaf (m : ClientLoop) : Prop :=
  outer_pending m = true ∧
  match cl_phase m with InHello | Spawned => True | InSession => inner_pending m = false | _ => False end.

Lemma deaf_step e m m' r :
  deaf m → quiet e → client_step e m = Some (m', r) → deaf m' ∧ r = None ∧ closed_with m' = closed_with m.
Proof.
  unfold deaf, client_step. intros [Ho Hp] Hq Hs.
  destruct e, (cl_phase m); try done; rewrite ?Hp in Hs; simplify_eq/=; by rewrite ?Ho.
Qed.

Lemma deaf_run es : ∀ m m' rs,
  deaf m → Forall quiet es → client_run es m = Some (m', rs) →
  deaf m' ∧ rs = [] ∧ closed_with m' = closed_with m.
Proof.
  induction es as [|e es IH]; intros m m' rs Hd Hq Hr; cbn [client_run] in Hr; [by simplify_eq|].
  inversion Hq; subst. destruct (client_step e m) as [[m1 r]|] eqn:Hs; [|done]. cbn [mbind option_bind] in Hr.
  destruct (client_run es m1) as [[m2 rs2]|] eqn:Hr2; [|done]. cbn [mbind option_bind] in Hr.
  destruct (deaf_step _ _ _ _ Hd ltac:(done) Hs) as (Hd1 & -> & Hc1).
  destruct (IH _ _ _ Hd1 ltac:(done) Hr2) as (Hd2 & -> & Hc2). simplify_eq/=. by rewrite Hc2.
Qed.

(** A signal that arrives during the hello exchange, or before the session has
    subscribed, is not obeyed by the session: the ^C task listens only once, so no
    other signal comes from it, and until the server ends the session the client
    stays in it, however long it runs, without closing the connection; the message
    waits for a receiver nobody polls. *)
Theorem signal_lost_in_hello m m' es rounds :
  cl_phase m = InHello ∨ cl_phase m = Spawned → Forall quiet es →
  client_run (Signal :: es) m = Some (m', rounds) →
  (cl_phase m' = InHello ∨ cl_phase m' = Spawned ∨ cl_phase m' = InSession) ∧
  rounds = [] ∧ closed_with m' = closed_with m ∧ outer_pending m' = true ∧
  client_step RecvInner m' = None ∧ client_step RecvOuter m' = None.
Proof.
  intros Hph Hq Hr. cbn [client_run] in Hr.
  assert (∃ m1, client_step Signal m = Some (m1, None) ∧ deaf m1 ∧ closed_with m1 = closed_with m)
    as (m1 & E1 & Hd1 & Hc1).
  { unfold client_step, deaf. destruct Hph as [-> | ->]; by eexists. }
  rewrite E1 in Hr. cbn [mbind option_bind] in Hr.
  destruct (client_run es m1) as [[m2 rs]|] eqn:E2; [|done]. cbn [mbind option_bind] in Hr.
  destruct (deaf_run _ _ _ _ Hd1 Hq E2) as ([Ho Hp] & -> & Hc2). simplify_eq/=. unfold client_step.
  destruct (cl_phase m'); try done; rewrite ?Hp, Hc2; split_and!; auto.
Qed.

End machine.

(** ** Examples *)

Definition demo_reconnect : ReconnectConfig := mkReconnectConfig (Some 1) 1000 3000.
Definition demo_trace : list ClientEvent :=
  [ConnectErr (str "refused"); SleepDone; ConnectOk; HelloDone; Subscribe; ConnClosed (str "reset");
   Signal; RecvOuter].

Lemma client_loop_refines_witness :
  (run_with_reconnect demo_reconnect
     [mkRound (ConnectFailed (str "refused")) false;
      mkRound (SessionRan (Disconnected (str "reset"))) true]).1 = Returned (Ok tt).
Proof.
  exact (client_loop_refines demo_reconnect demo_trace
    (mkClientLoop (Finished (Ok tt)) 1 1000 true false None) _ eq_refl).
Defined.

Definition demo_in (p : ClientPhase) : ClientLoop := mkClientLoop p 0 1000 false false None.

Lemma signal_lost_in_hello_witness :
  client_step demo_reconnect RecvInner (mkClientLoop InSession 0 1000 true false None) = None.
Proof.
  refine (proj1 (proj2 (proj2 (proj2 (proj2
    (signal_lost_in_hello demo_reconnect (demo_in InHello) _ [HelloDone; Subscribe] [] (or_introl eq_refl) _ eq_refl)))))).
  by repeat constructor.
Defined.
