(* ===== verification/Tunnel.v ===== *)
(** * Tunnel: listeners, and a declaration end to end

    The side of a tunnel that listens: the accept loops of [tunnel_tcp_client]
    ([src/common/tcp.rs]) and [tunnel_socks_client] ([src/common/socks.rs]), the task
    of one accepted connection, the stdio tunnel, the SOCKS5 UDP association, and the
    reverse handlers of the server ([spawn_reverse_handler] of [src/server/mod.rs]).
    Forward tunnels are listened to by the client without accounting, reverse ones by
    the server with it. The theorems follow a declaration from the session hello to
    the target that is dialled for it on the other end. *)

From S2P Require Import Prelude Text NetAddr Remote State Ledger Framing Server Socks Client.

(** ** Accept loops *)

(** The loop over [listener.accept()]: the connections handed to tasks with their local
    number, and the error that ended the loop if one did. *)
Fixpoint accept_loop (counter : N) (accepts : list (result bytes SocketAddr)) :
    list (N * SocketAddr) * option bytes :=
  match accepts with
  | [] => ([], None)
  | Err e :: _ => ([], Some e)
  | Ok peer :: rest =>
      let local_id := wadd64 counter 1 in
      let '(tasks, e) := accept_loop local_id rest in ((local_id, peer) :: tasks, e)
  end.

(** Binding and accepting: [bind] is the answer of the operating system. *)
Definition listen (bind : SocketAddr → result bytes unit) (remote : RemoteRequest)
    (accepts : list (result bytes SocketAddr)) : list (N * SocketAddr) * option bytes :=
  match bind (local_socket_addr remote) with
  | Err e => ([], Some e)
  | Ok _ => accept_loop 0 accepts
  end.

(** [tunnel_socks_client] binds and accepts like [tunnel_tcp_client]. *)
Definition socks_listen : (SocketAddr → result bytes unit) → RemoteRequest → list (result bytes SocketAddr) →
    list (N * SocketAddr) * option bytes := listen.

(** [spawn_reverse_handler]: the request rebuilt from the entry, and the handler run
    with it and the tunnel's id. *)
Definition spawn_reverse_handler (te : TunnelEntry) : ForwardHandler * RemoteRequest * N :=
  let request := RemoteRequest_new (te_direction te) (te_kind te) in
  (match te_kind te with
   | KTcp _ _ => TcpClient
   | KUdp _ _ => UdpClient
   | KSocks5 _ => SocksClient
   end, request, te_id te).

(** The reverse handlers of a session: one per registered tunnel declared reverse. *)
Definition reverse_handlers (w : World) (registered : list loc) : list (ForwardHandler * RemoteRequest * N) :=
  omap (λ t, te ← ht w !! t;
             match te_direction te with Reverse => Some (spawn_reverse_handler te) | Forward => None end)
    registered.

Section conns.
Context `{MapOrder} `{ByteStreams}.
Context `{SerdeHelper OpenConn, SerdeHelper OpenConnResponse}.

(** ** One accepted connection *)

(** [handle.as_ref().map(|h| h.open_conn(peer))]: accounting is optional. *)
Definition tracked {A} (handle : option (loc * TunnelEntry)) (peer : bytes) (now : SystemTime)
    (body : option loc → World → World * A) (w : World) : World * A :=
  match handle with
  | Some (t, te) => with_conn t te (Some peer) now (λ c, body (Some c)) w
  | None => body None w
  end.

(** The task of [tunnel_tcp_client]: the stream is opened and announced first, and the
    conn is registered only when the peer has accepted it. [pump] is
    [tunnel_tcp_stream] on the accepted socket. *)
Definition tcp_conn (bi : result bytes (SendStream * RecvStream)) (tunnel_id : N)
    (handle : option (loc * TunnelEntry)) (peer : SocketAddr) (now : SystemTime)
    (pump : SendStream → RecvStream → option loc → World → World * result bytes unit) (w : World) :
    World * result bytes unit :=
  match bi with
  | Err e => (w, Err e)
  | Ok (send, recv) =>
      match send_open_conn (mkOpenConn tunnel_id None) send recv with
      | Err e => (w, Err e)
      | Ok (send, recv) => tracked handle (fmt_socket peer) now (pump send recv) w
      end
  end.

(** [tunnel_stdio_client]: one stream, announced like a TCP conn, never tracked;
    [pump] is the pair of copies between the stream and the standard streams. *)
Definition tunnel_stdio_client (bi : result bytes (SendStream * RecvStream)) (tunnel_id : N)
    (pump : SendStream → RecvStream → result bytes unit) : result bytes unit :=
  '(send, recv) ← bi;
  '(send, recv) ← send_open_conn (mkOpenConn tunnel_id None) send recv;
  pump send recv.

(** [tunnel_tcp_server]: the far end dials the target of the request. *)
Definition tunnel_tcp_server {Stream} (connect : bytes → result bytes Stream) (request : RemoteRequest)
    (pump : Stream → result bytes unit) : result bytes unit :=
  remote_addr ← ok_or (remote_addr_string request) (str "TCP server tunnel requires a host:port remote");
  tcp_stream ← connect remote_addr;
  pump tcp_stream.

(** The task of [tunnel_socks_client]. A CONNECT is registered before the stream is
    announced; [associate] is the rest of a UDP ASSOCIATE. *)
Definition socks_conn (conn : Duplex) (bi : result bytes (SendStream * RecvStream)) (tunnel_id : N)
    (handle : option (loc * TunnelEntry)) (peer : SocketAddr) (now : SystemTime)
    (pump : Duplex → SendStream → RecvStream → option loc → World → World * result bytes unit)
    (associate : Duplex → World → World * result bytes unit) (w : World) :
    World * result bytes unit :=
  match socks_handshake conn with
  | (_, Err e) => (w, Err e)
  | (conn, Ok (Connect target)) =>
      match bi with
      | Err e => (w, Err e)
      | Ok (send, recv) =>
          tracked handle (fmt_socket peer ++ str "=>" ++ to_addr_string target) now
            (λ c w, match start_client_dynamic_tunnel send recv tunnel_id target conn with
                    | (_, Err e) => (w, Err e)
                    | (conn, Ok (send, recv)) => pump conn send recv c w
                    end) w
      end
  | (conn, Ok UdpAssociate) => associate conn w
  end.

(** ** UDP ASSOCIATE *)

(** The loop that drains the control connection: whether it has seen its end. *)
Fixpoint control_closed (reads : list (result bytes nat)) : bool :=
  match reads with
  | [] => false
  | Err _ :: _ => true
  | Ok n :: rest => if decide (n = 0%nat) then true else control_closed rest
  end.

(** [handle_socks_udp_associate]: [bind] answers with the bound address. The relay runs
    from the reply on until the control connection is closed; the second component
    says whether it is (still) running. *)
Definition handle_socks_udp_associate (bind : SocketAddr → result bytes SocketAddr)
    (remote : RemoteRequest) (control : list (result bytes nat)) (conn : Duplex) :
    Duplex * bool * result bytes unit :=
  let listen_ip := sa_ip (local_socket_addr remote) in
  match bind (socket_addr_new listen_ip 0) with
  | Err e => (conn, false, Err e)
  | Ok bound =>
      match write_socks_udp_associate_reply bound conn with
      | (conn, Err e) => (conn, false, Err e)
      | (conn, Ok _) => (conn, negb (control_closed control), Ok tt)
      end
  end.

(** [run_socks_udp_conn] and the static UDP conns announce themselves the same way. *)
Definition udp_conn_open (tunnel_id : N) (dynamic : option DynamicTarget)
    (bi : result bytes (SendStream * RecvStream)) : result bytes (SendStream * RecvStream) :=
  '(send, recv) ← bi; send_open_conn (mkOpenConn tunnel_id dynamic) send recv.

(** ** Accounting of a listener's conns *)

(** A connection accepted by a reverse TCP listener is accounted for like one the
    client opens: when the peer refuses the stream (or it cannot be opened) the state
    is unchanged and the refusal is the result; when it accepts, the conn is
    registered for the time of the copy and removed afterwards whatever the copy's
    result, and its bytes are added to the tunnel. *)
Theorem reverse_conn_served s send recv tunnel_id t te peer now pump i o res :
  reachable s → next_conn_id (world s) + 1 < 2 ^ 64 → ht (world s) !! t = Some te →
  i < 2 ^ 64 → o < 2 ^ 64 →
  (∀ snd rcv c w, pump snd rcv (Some c) w = (upd_conn c (λ ce, add_out o (add_in i ce)) w, res)) →
  match send_open_conn (mkOpenConn tunnel_id None) send recv with
  | Err e => tcp_conn (Ok (send, recv)) tunnel_id (Some (t, te)) peer now pump (world s) = (world s, Err e)
  | Ok _ => ∃ w', tcp_conn (Ok (send, recv)) tunnel_id (Some (t, te)) peer now pump (world s) = (w', res) ∧
      conns w' = conns (world s) ∧ tunnels w' = tunnels (world s) ∧
      clients w' = clients (world s) ∧ ht w' = <[t := te_served i o te]> (ht (world s))
  end.
Proof.
  intros Hs Hid Ht Hi Ho Hp. unfold tcp_conn.
  destruct (send_open_conn (mkOpenConn tunnel_id None) send recv) as [[snd rcv]|e]; [|done].
  unfold tracked. by apply with_conn_served.
Qed.

End conns.

(** ** Declarations are never changed *)

(** The fields of an entry that come from its declaration. *)
Definition same_decl (te te' : TunnelEntry) : Prop :=
  te_id te' = te_id te ∧ te_client_id te' = te_client_id te ∧
  te_direction te' = te_direction te ∧ te_kind te' = te_kind te ∧ te_spec te' = te_spec te.

#[export] Instance same_decl_preorder : PreOrder same_decl.
Proof. split; [by intros te|]. unfold same_decl. intros a b c; naive_solver congruence. Qed.

Section stable.
Context `{MapOrder}.

(** Every entry of [w] is an entry of [w'] with the same declaration. *)
Definition keeps (w w' : World) : Prop :=
  ∀ t te, ht w !! t = Some te → ∃ te', ht w' !! t = Some te' ∧ same_decl te te'.

#[export] Instance keeps_preorder : PreOrder keeps.
Proof.
  split; [by intros w t te Ht; exists te|]. intros w1 w2 w3 H12 H23 t te Ht.
  destruct (H12 _ _ Ht) as (te2 & Ht2 & ?). destruct (H23 _ _ Ht2) as (te3 & ? & ?).
  exists te3. split; [done|]. by etrans.
Qed.

Lemma keeps_ht w w' : ht w' = ht w → keeps w w'.
Proof. intros E t te Ht. exists te. by rewrite E. Qed.

Lemma keeps_upd_tunnel t f w : (∀ te, same_decl te (f te)) → keeps w (upd_tunnel t f w).
Proof.
  intros Hf t' te Ht. simpl. destruct (decide (t = t')) as [<-|].
  - exists (f te). by rewrite lookup_alter_eq, Ht.
  - exists te. by rewrite lookup_alter_ne.
Qed.

Lemma keeps_register_tunnels l id reqs : ∀ w,
  (∀ t te, ht w !! t = Some te → t < next_loc w) → keeps w (register_tunnels l id reqs w).1.
Proof.
  induction reqs as [|[req now] reqs IH]; intros w Hfresh; [done|]. rewrite register_tunnels_cons. cbn [fst].
  assert (∀ t te, ht (register_tunnel l id req now w).1 !! t = Some te → t < next_loc w + 1) as Hf1.
  { simpl. intros t te [[<- _]|[? Ht]]%lookup_insert_Some; [lia|]. apply Hfresh in Ht. lia. }
  etrans; [|by apply IH]. intros t te Ht. exists te. simpl. apply Hfresh in Ht as Hlt.
  by rewrite lookup_insert_ne by lia.
Qed.

Lemma exec_keeps o s s' : inv s → exec o s = Some s' → keeps (world s) (world s').
Proof.
  intros [Hw _ _] He. destruct o as [id remote now|l reqs|t peer now|c n|c n|c|id reason now]; simpl in He.
  - case_decide; [|done]. simplify_eq. by apply keeps_ht.
  - destruct (hc (world s) !! l) as [e|]; [|done]. simpl in He. case_decide; [|done].
    pose proof (keeps_register_tunnels l (cl_id e) reqs (world s) (wf_loc_t _ _ Hw)) as Hk.
    destruct (register_tunnels l (cl_id e) reqs (world s)) as [w' ts]. by simplify_eq.
  - destruct (ht (world s) !! t) as [te|]; [|done]. simpl in He. case_decide; [|done]. simplify_eq.
    unfold register_conn. cbn [world fst].
    etrans; [|by apply keeps_upd_tunnel]. etrans; [|by apply keeps_ht].
    etrans; [|by apply keeps_upd_tunnel]. by apply keeps_ht.
  - destruct (hn (world s) !! c); [|done]. simplify_eq/=. by apply keeps_ht.
  - destruct (hn (world s) !! c); [|done]. simplify_eq/=. by apply keeps_ht.
  - destruct (guards s !! c) as [t|]; [|done]. simpl in He. destruct (hn (world s) !! c) as [ce|]; [|done].
    simplify_eq/=. unfold close_conn. simpl. etrans; [|by apply keeps_ht].
    do 2 (etrans; [|by apply keeps_upd_tunnel]). by apply keeps_upd_tunnel.
  - simplify_eq. apply keeps_ht. cbn [world]. unfold deregister_client.
    destruct (clients (world s) !! id) as [l|]; [|done]. cbn [hc set_clients].
    destruct (hc (world s) !! l) as [e|]; [|done]. cbn [ht set_history].
    by destruct (drop_tunnels_spec (tunnel_ids (set_clients (delete id (clients (world s))) (world s)) e)
      (set_clients (delete id (clients (world s))) (world s))) as ((_ & -> & _) & _).
Qed.

Lemma run_keeps os : ∀ s s', inv s → run os s = Some s' → keeps (world s) (world s').
Proof.
  induction os as [|o os IH]; intros s s' Hi Hr; simplify_eq/=; [done|].
  destruct (exec o s) as [s1|] eqn:E; simplify_eq/=. etrans; [by eapply exec_keeps|].
  apply IH; [|done]. by eapply exec_inv.
Qed.

(** A session: the hello of the client [l] in state [s] registered [reqs], and
    afterwards anything happened that left the client connected. *)
Record session (s s2 : Sys) (l : loc) (client_id : N) (reqs : list (RemoteRequest * SystemTime)) : Prop := {
  ses_reachable : reachable s;
  ses_client : ∃ e, hc (world s) !! l = Some e ∧ cl_id e = client_id;
  ses_run : ∃ s1 os, exec (RegisterTunnels l reqs) s = Some s1 ∧ run os s1 = Some s2;
  ses_connected : is_Some (clients (world s2) !! client_id) }.

(** The id the [k]-th declaration of a session gets. *)
Definition assigned (s : Sys) (k : nat) : N := next_tunnel_id (world s) + 1 + N.of_nat k.

(** Every declaration of a connected client is listed under its id, as declared. *)
Lemma session_tunnel s s2 l id reqs k r now :
  session s s2 l id reqs → reqs !! k = Some (r, now) →
  ∃ t te, tunnel (assigned s k) (world s2) = Some t ∧ ht (world s2) !! t = Some te ∧
    te_id te = assigned s k ∧ te_client_id te = id ∧ te_direction te = direction r ∧ te_kind te = kind r.
Proof.
  intros [Hr (e & Hl & <-) (s1 & os & He & Hrun) Hcon] Hk.
  assert (reachable s1) as Hr1 by (by eapply reach_step).
  assert (reachable s2) as Hr2 by (by eapply run_reachable).
  assert (∃ t te1, ht (world s1) !! t = Some te1 ∧ te_id te1 = assigned s k ∧ te_client_id te1 = cl_id e ∧
    te_direction te1 = direction r ∧ te_kind te1 = kind r) as (t & te1 & Ht1 & E1 & E2 & E3 & E4).
  { simpl in He. rewrite Hl in He. simpl in He. case_decide as Hd; [|done].
    destruct (register_tunnels_ids l (cl_id e) reqs (world s) k r now) as (t & te1 & _ & ? & ? & ? & ? & ? & _);
      [tauto|done|].
    destruct (register_tunnels l (cl_id e) reqs (world s)) as [w' ts]. simplify_eq/=. by exists t, te1. }
  destruct (run_keeps os s1 s2 (reachable_inv _ Hr1) Hrun t te1 Ht1) as (te & Ht & D1 & D2 & D3 & D4 & _).
  exists t, te. split; [|split_and!; congruence]. destruct (reachable_inv _ Hr2) as [Hw _ _].
  destruct (wf_owner _ _ Hw _ _ Ht) as (l2 & e2 & Hl2 & Hid2 & Hin).
  destruct (wf_client_tunnels _ _ Hw _ _ _ _ Hl2 Hin) as (_ & Hidx). unfold tunnel.
  rewrite <-E1, <-D1, Hidx, Hid2, D2, E2. by destruct Hcon as [? ->].
Qed.

End stable.

(** ** A declaration end to end *)

(** The target of a conn on a declaration: the declared one, or the one asked of a
    SOCKS5 listener. *)
Definition declared_target (r : RemoteRequest) (dynamic : option DynamicTarget) : option DynamicTarget :=
  match kind r, dynamic with
  | KTcp _ h, None => Some (DynTcp h)
  | KUdp _ h, None => Some (DynUdp h)
  | KSocks5 _, Some d => Some d
  | _, _ => None
  end.

Definition reverse_target (d : ReverseDispatch) : option DynamicTarget :=
  match d with
  | ReverseTcp r => match kind r with KTcp _ h => Some (DynTcp h) | _ => None end
  | ReverseUdp r => match kind r with KUdp _ h => Some (DynUdp h) | _ => None end
  end.

(** A conn over TCP is one connection to its target. *)
Definition dials (r : RemoteRequest) (h : HostPort) : Prop :=
  ∀ Stream (connect : bytes → result bytes Stream) pump,
    tunnel_tcp_server connect r pump = connect (to_addr_string h) ≫= pump.

Lemma dispatch_dials d h :
  dispatch_target d = Some (DynTcp h) → ∃ r, d = DispatchTcp r ∧ dials r h.
Proof.
  destruct d as [r|r]; cbn; [|by destruct (kind r)]. intros E. exists r. split; [done|]. intros Stream connect pump.
  unfold tunnel_tcp_server, remote_addr_string. by destruct (kind r); simplify_eq/=.
Qed.

Section end_to_end.
Context `{MapOrder} `{ByteStreams}.
Context `{SerdeHelper OpenConn, SerdeHelper OpenConnResponse}.

(** Announcing a conn to a peer that accepts it. *)
Lemma send_open_conn_accepted open send recv ob rb rest :
  live send → to_bytes open = Ok ob → len ob < 2 ^ 32 →
  to_bytes OpenOk = Ok rb → len rb ≤ MAX_CONTROL_MSG → unread recv = frame rb ++ rest →
  ∃ send' recv', send_open_conn open send recv = Ok (send', recv') ∧
    sent send' = sent send ++ frame ob ∧ unread recv' = rest.
Proof.
  intros Hl Eo Ho Er Hr Hun. destruct (write_framed_live send open ob Hl Eo Ho) as (s1 & E1 & _).
  destruct (read_framed_frame recv rb rest OpenOk Hun Hr) as (r1 & E2 & Hr1); [by apply from_to_bytes|].
  exists s1, r1. unfold send_open_conn. rewrite E1. cbn [mbind result_bind]. rewrite E2. split; [done|].
  apply write_framed_sent in E1 as (ob' & Eo' & _ & E1). split; [congruence|done].
Qed.

Lemma receive_open_conn_frame open recv ob rest :
  to_bytes open = Ok ob → len ob ≤ MAX_CONTROL_MSG → unread recv = frame ob ++ rest →
  ∃ recv', receive_open_conn recv = Ok (open, recv') ∧ unread recv' = rest.
Proof. intros Eo Ho Hun. apply (read_framed_frame recv ob rest); [done..|]. by apply from_to_bytes. Qed.

Lemma reply_open_conn_ok send rb :
  live send → to_bytes OpenOk = Ok rb → len rb < 2 ^ 32 →
  ∃ send', reply_open_conn send OpenOk = Ok send' ∧ sent send' = sent send ++ frame rb.
Proof.
  intros Hl Er Hr. destruct (write_framed_live send OpenOk rb Hl Er Hr) as (s1 & E1 & _).
  exists s1. split; [done|]. apply write_framed_sent in E1 as (rb' & Er' & _ & E1). congruence.
Qed.

(** C6: a forward declaration end to end. At any time after the hello, while the client
    is connected, a conn that the client announces under the id it was assigned for
    its [k]-th declaration is accepted, and the server runs it, on an entry of that
    client, to exactly the declared target (or, on a SOCKS5 declaration, to the target
    the SOCKS5 client asked for), over the declared protocol, for TCP by one connection
    to it; both ends then see the bytes that follow the handshake. *)
Theorem forward_end_to_end s s2 l id reqs k r now dynamic target cs cr ss sr ob rb data data' body t0 :
  session s s2 l id reqs → reqs !! k = Some (r, now) → is_reversed r = false →
  declared_target r dynamic = Some target →
  let open := mkOpenConn (assigned s k) dynamic in
  to_bytes open = Ok ob → len ob ≤ MAX_CONTROL_MSG → to_bytes OpenOk = Ok rb → len rb ≤ MAX_CONTROL_MSG →
  live cs → live ss → unread sr = frame ob ++ data → unread cr = frame rb ++ data' →
  ∃ cs' cr' ss' d t te,
    send_open_conn open cs cr = Ok (cs', cr') ∧ sent cs' = sent cs ++ frame ob ∧ unread cr' = data' ∧
    ht (world s2) !! t = Some te ∧ te_client_id te = id ∧ dispatch_target d = Some target ∧
    (∀ h, target = DynTcp h → ∃ r', d = DispatchTcp r' ∧ dials r' h) ∧
    sent ss' = sent ss ++ frame rb ∧
    handle_open_conn ss sr body t0 (world s2) =
      (let '(w, res) := with_conn t te (peer_label d) t0 (body d) (world s2) in (w, Some ss', res)).
Proof.
  intros Hses Hk Hfwd Htgt open Eo Ho Er Hr Hcs Hss Hsr Hcr. assert (MAX_CONTROL_MSG < 2 ^ 32) by done.
  destruct (session_tunnel _ _ _ _ _ _ _ _ Hses Hk) as (t & te & Htun & Ht & Eid & Ecl & Edir & Ekind).
  destruct (send_open_conn_accepted open cs cr ob rb data') as (cs' & cr' & Es & Hs' & Hu'); [done|done|lia|done..|].
  destruct (receive_open_conn_frame open sr ob data Eo Ho Hsr) as (sr' & Erecv & _).
  destruct (reply_open_conn_ok ss rb Hss Er) as (ss' & Erep & Hss'); [lia|].
  assert (∃ d, resolve_dispatch te dynamic = Ok d ∧ dispatch_target d = Some target) as (d & Ed & Hd).
  { unfold resolve_dispatch, declared_target, is_reversed in *. rewrite Edir, Ekind.
    destruct (direction r); [|done]. destruct (kind r), dynamic as [[]|]; simplify_eq; by eexists. }
  exists cs', cr', ss', d, t, te. split_and!; try done.
  { intros h ->. by apply dispatch_dials. }
  unfold handle_open_conn. rewrite Erecv. cbn [open oc_tunnel_id oc_dynamic].
  rewrite Htun. cbn [mbind option_bind]. rewrite Ht. cbn [mbind option_bind]. by rewrite Ed, Erep.
Qed.

(** C7: a reverse declaration end to end. The server listens on exactly the declared
    local address with the handler of the declared kind, and a conn its handler
    announces under the tunnel's id is accepted by the client, which runs it to
    exactly the target it declared itself (or, on a reverse SOCKS5 declaration, to the
    one asked for). *)
Theorem reverse_end_to_end s s2 l id reqs k r now dynamic target cs cr ss sr ob rb data data' :
  session s s2 l id reqs → reqs !! k = Some (r, now) → is_reversed r = true →
  declared_target r dynamic = Some target →
  let ids := map (assigned s) (seq 0 (length reqs)) in
  let open := mkOpenConn (assigned s k) dynamic in
  to_bytes open = Ok ob → len ob ≤ MAX_CONTROL_MSG → to_bytes OpenOk = Ok rb → len rb ≤ MAX_CONTROL_MSG →
  live cs → live ss → unread cr = frame ob ++ data → unread sr = frame rb ++ data' →
  (∃ t te, tunnel (assigned s k) (world s2) = Some t ∧ ht (world s2) !! t = Some te ∧
     te_direction te = Reverse ∧
     spawn_reverse_handler te =
       (match kind r with KTcp _ _ => TcpClient | KUdp _ _ => UdpClient | KSocks5 _ => SocksClient end,
        RemoteRequest_new Reverse (kind r), assigned s k) ∧
     local_socket_addr (spawn_reverse_handler te).1.2 = local_socket_addr r) ∧
  ∃ ss' sr' cs' cr' d,
    send_open_conn open ss sr = Ok (ss', sr') ∧ sent ss' = sent ss ++ frame ob ∧ unread sr' = data' ∧
    client_accept_reverse_conn cs cr (remotes_by_id ids reqs.*1) = (Some cs', Some (d, cr')) ∧
    sent cs' = sent cs ++ frame rb ∧ unread cr' = data ∧ reverse_target d = Some target.
Proof.
  intros Hses Hk Hrev Htgt ids open Eo Ho Er Hr Hcs Hss Hcr Hsr. assert (MAX_CONTROL_MSG < 2 ^ 32) by done.
  assert (direction r = Reverse) as Hdir by (unfold is_reversed in Hrev; by destruct (direction r)).
  destruct (session_tunnel _ _ _ _ _ _ _ _ Hses Hk) as (t & te & Htun & Ht & Eid & Ecl & Edir & Ekind).
  split.
  { exists t, te. unfold spawn_reverse_handler, local_socket_addr. rewrite Edir, Ekind, Eid, Hdir. done. }
  destruct (send_open_conn_accepted open ss sr ob rb data') as (ss' & sr' & Es & Hs' & Hu'); [done|done|lia|done..|].
  destruct (receive_open_conn_frame open cr ob data Eo Ho Hcr) as (cr' & Erecv & Hcr').
  destruct (reply_open_conn_ok cs rb Hcs Er) as (cs' & Erep & Hcs'); [lia|].
  assert (remotes_by_id ids reqs.*1 !! assigned s k = Some r) as Hlook.
  { eapply (proj1 (remotes_by_id_spec ids reqs.*1 _ _) k).
    - unfold ids. change (map (assigned s)) with (fmap (M:=list) (assigned s)). rewrite list_lookup_fmap.
      rewrite lookup_seq_lt; [done|]. by eapply lookup_lt_Some.
    - by rewrite list_lookup_fmap, Hk. }
  assert (∃ d, resolve_reverse_dispatch r dynamic = Ok d ∧ reverse_target d = Some target) as (d & Ed & Hd).
  { unfold resolve_reverse_dispatch, declared_target in *. rewrite Hdir.
    destruct (kind r), dynamic as [[]|]; simplify_eq; by eexists. }
  exists ss', sr', cs', cr', d. split_and!; try done. unfold client_accept_reverse_conn.
  rewrite Erecv. cbn [open oc_tunnel_id oc_dynamic]. by rewrite Hlook, Ed, Erep.
  Unshelve.
  - unfold ids. apply NoDup_fmap_2; [|apply NoDup_seq]. intros i j. unfold assigned. lia.
  - unfold ids. by rewrite length_map, length_seq, length_fmap.
Qed.

End end_to_end.

(** ** Examples *)

Section instances.
#[local] Instance mo : MapOrder := by_tree.
#[local] Instance qs : ByteStreams := memory_streams.
#[local] Instance c1 : SerdeHelper OpenConnResponse := reply_codec.

(** A codec that knows the announcement of this example. *)
#[local] Instance c2 : SerdeHelper OpenConn.
Proof.
  refine {| to_bytes := λ m, if decide (m = mkOpenConn 1 None) then Ok [n2b 1] else Err [];
            from_bytes := λ b, Ok (mkOpenConn 1 None) |}.
  intros m b. case_decide; [|done]. by subst.
Defined.

Definition demo_before : Sys :=
  default (init 0 demo_addr) (run [RegisterClient 1 demo_addr 0] (init 0 demo_addr)).
Definition demo_reqs (d : Direction) : list (RemoteRequest * SystemTime) :=
  [(RemoteRequest_new d (kind demo_remote), 0%Z)].
Definition demo_after (d : Direction) : Sys :=
  default demo_before (exec (RegisterTunnels 0 (demo_reqs d)) demo_before).

Lemma demo_session d : session demo_before (demo_after d) 0 1 (demo_reqs d).
Proof.
  split.
  - eapply (run_reachable [RegisterClient 1 demo_addr 0]); [apply (reach_init 0 demo_addr)|].
    vm_cast_no_check (eq_refl (Some demo_before)).
  - exists (mkClient 1 demo_addr 0 ∅). split; [|done].
    vm_cast_no_check (eq_refl (hc (world demo_before) !! 0)).
  - exists (demo_after d), []. split; [|done].
    destruct d; [vm_cast_no_check (eq_refl (exec (RegisterTunnels 0 (demo_reqs Forward)) demo_before))
                |vm_cast_no_check (eq_refl (exec (RegisterTunnels 0 (demo_reqs Reverse)) demo_before))].
  - exists 0. destruct d; vm_compute; reflexivity.
Qed.

Lemma forward_end_to_end_witness :
  ∃ d t te w, dispatch_target d = (λ h, DynTcp h) <$> (if kind demo_remote is KTcp _ h then Some h else None) ∧
    handle_open_conn [] (frame [n2b 1]) demo_body 0 (world (demo_after Forward)) =
      (w, Some (frame [n2b 0]), Err (str "reset")) ∧
    ht (world (demo_after Forward)) !! t = Some te.
Proof.
  destruct (forward_end_to_end (H0 := qs) demo_before (demo_after Forward) 0 1 (demo_reqs Forward) 0
    (RemoteRequest_new Forward (kind demo_remote)) 0 None
    (default (DynTcp (mkHostPort [] 0)) (declared_target demo_remote None)) [] (frame [n2b 0]) []
    (frame [n2b 1]) [n2b 1] [n2b 0] [] [] demo_body 0 (demo_session Forward) eq_refl eq_refl eq_refl)
    as (cs' & cr' & ss' & d & t & te & _ & _ & _ & Ht & _ & Hd & _ & Hss & Hh); try (vm_compute; done).
  exists d, t, te. unfold with_conn, demo_body in Hh.
  destruct (register_conn t te (peer_label d) 0 (world (demo_after Forward))) as [w1 c].
  eexists. split; [exact Hd|]. simpl in Hss. subst ss'. split; [exact Hh|exact Ht].
Defined.

Lemma reverse_end_to_end_witness :
  ∃ cs' d cr', client_accept_reverse_conn [] (frame [n2b 1])
      (remotes_by_id [1] [RemoteRequest_new Reverse (kind demo_remote)]) = (Some cs', Some (d, cr')) ∧
    reverse_target d = declared_target demo_remote None.
Proof.
  destruct (reverse_end_to_end (H0 := qs) demo_before (demo_after Reverse) 0 1 (demo_reqs Reverse) 0
    (RemoteRequest_new Reverse (kind demo_remote)) 0 None
    (default (DynTcp (mkHostPort [] 0)) (declared_target demo_remote None)) [] (frame [n2b 1]) []
    (frame [n2b 0]) [n2b 1] [n2b 0] [] [] (demo_session Reverse) eq_refl eq_refl eq_refl)
    as (_ & ss' & sr' & cs' & cr' & d & _ & _ & _ & Ha & _ & _ & Hd); try (vm_compute; done).
  exists cs', d, cr'. split; [exact Ha|exact Hd].
Defined.

Lemma reverse_conn_served_witness :
  ∃ w', tcp_conn (Ok ([], frame [n2b 0])) 1 (Some (2, demo_tunnel)) demo_addr 0
          (λ _ _ c w, match c with
                      | Some c => (upd_conn c (λ ce, add_out 5 (add_in 3 ce)) w, Ok tt)
                      | None => (w, Ok tt) end) (world demo_state) = (w', Ok tt) ∧
        conns w' = conns (world demo_state).
Proof.
  pose proof (reverse_conn_served (H0 := qs) demo_state [] (frame [n2b 0]) 1 2 demo_tunnel demo_addr 0
    (λ _ _ c w, match c with
                | Some c => (upd_conn c (λ ce, add_out 5 (add_in 3 ce)) w, Ok tt)
                | None => (w, Ok tt) end) 3 5 (Ok tt) demo_reachable) as Hs.
  destruct Hs as (w' & E & Ec & _); [by vm_compute|by vm_compute|by vm_compute|by vm_compute|done|].
  exists w'. split; [exact E|exact Ec].
Defined.

End instances.
