(* ===== verification/Args.v ===== *)
(** * Args: the flags of [rusnel server] and [rusnel client] ([src/main.rs])

    The arguments the two subcommands declare to clap, and how the derived code reads
    the structs of [Cli] from what clap matched. clap itself is third-party code: the
    class [Clap] has its parser with the documented meaning of a declaration (defaults,
    value parsers, [requires], [conflicts_with], and that conflicts take precedence over
    requirements). *)

From S2P Require Import Prelude Text NetAddr Remote Proxy Tls Client Cli.

(** ** Declarations *)

Inductive Spelling := Long (name : string) (short : option ascii) | Positional.

(** [Flag] is [ArgAction::SetTrue], [Single] is [Set] and [Many] is [Append]. *)
Inductive Arity := Flag | Single | Many.

Record Arg := mkArg {
  arg_id : string;
  arg_spelling : Spelling;
  arg_arity : Arity;
  arg_default : option bytes;
  arg_requires : list string;
  arg_conflicts : list string;
  arg_valid : bytes → bool;  (** the value parser *)
  arg_required : bool;
}.

Definition flag (id long : string) (short : option ascii) (conflicts : list string) : Arg :=
  mkArg id (Long long short) Flag (Some (str "false")) [] conflicts
    (λ v, bool_decide (v = str "true" ∨ v = str "false")) false.
Definition opt (id long : string) (requires conflicts : list string) (valid : bytes → bool) : Arg :=
  mkArg id (Long long None) Single None requires conflicts valid false.
Definition opt_default (id long : string) (d : string) (valid : bytes → bool) : Arg :=
  mkArg id (Long long None) Single (Some (str d)) [] [] valid false.

(** *** Value parsers *)

(** clap refuses an empty path. *)
Definition is_path (v : bytes) : bool := bool_decide (v ≠ []).
Definition is_string (v : bytes) : bool := true.

(** [i64::from_str] *)
Definition parse_i64 (s : bytes) : option Z :=
  match s with
  | "-"%char :: (c :: _) as r =>
      if decide (c = "+"%char) then None
      else (λ n, (- Z.of_N n)%Z) <$> ok (from_str_radix 10 (2 ^ 63) r)
  | _ => Z.of_N <$> ok (from_str_radix 10 (2 ^ 63 - 1) s)
  end.

(** [ValueEnum] of [CongestionArg] and [LogFormat], with the conversion into the
    library's type. *)
Definition parse_congestion (s : bytes) : option Congestion :=
  if decide (s = str "cubic") then Some Cubic else if decide (s = str "bbr") then Some Bbr else None.
Definition parse_log_format (s : bytes) : option LogFormat :=
  if decide (s = str "compact") then Some Compact else if decide (s = str "json") then Some Json else None.

Definition by_parser {A} (parse : bytes → option A) (v : bytes) : bool := bool_decide (is_Some (parse v)).

(** ** The two subcommands *)

Definition server_args : list Arg :=
  [ opt "config" "config" [] [] is_path;
    opt_default "host" "host" "0.0.0.0" (by_parser parse_ipaddr);
    mkArg "port" (Long "port" (Some "p"%char)) Single (Some (str "8080")) [] []
      (by_parser (λ v, ok (parse_u16 v))) false;
    flag "allow_reverse" "allow-reverse" None [];
    flag "allow_socks" "allow-socks" None [];
    flag "insecure" "insecure" None [];
    flag "tls_self_signed" "tls-self-signed" None ["insecure"; "tls_cert"; "tls_key"];
    opt "tls_state_dir" "tls-state-dir" ["tls_self_signed"] [] is_path;
    opt "tls_cert" "tls-cert" ["tls_key"] ["insecure"; "tls_self_signed"] is_path;
    opt "tls_key" "tls-key" ["tls_cert"] [] is_path;
    opt "tls_ca" "tls-ca" ["tls_cert"] ["insecure"; "tls_self_signed"] is_path;
    opt_default "congestion" "congestion" "cubic" (by_parser parse_congestion);
    opt_default "max_connections" "max-connections" "0" (by_parser (λ v, ok (parse_u64 v)));
    opt "admin_socket" "admin-socket" [] ["no_admin_socket"] is_path;
    flag "no_admin_socket" "no-admin-socket" None [];
    flag "is_verbose" "verbose" (Some "v"%char) [];
    flag "is_debug" "debug" None [];
    flag "is_quiet" "quiet" (Some "q"%char) ["is_verbose"; "is_debug"];
    opt_default "log_format" "log-format" "compact" (by_parser parse_log_format) ]%string.

Section client.
Variable lookup : bytes → N → result bytes (list SocketAddr).

Definition client_args : list Arg :=
  [ opt "config" "config" [] [] is_path;
    mkArg "server" Positional Single None [] [] (by_parser (λ v, ok (parse_server_addr lookup v))) false;
    mkArg "remote" Positional Many None [] [] (by_parser (λ v, ok (parse_remote v))) false;
    flag "insecure" "insecure" None [];
    opt "tls_fingerprint" "tls-fingerprint" [] ["insecure"; "tls_ca"] is_string;
    opt "tls_ca" "tls-ca" [] ["insecure"] is_path;
    opt "tls_cert" "tls-cert" ["tls_key"; "tls_ca"] [] is_path;
    opt "tls_key" "tls-key" ["tls_cert"; "tls_ca"] [] is_path;
    opt "tls_server_name" "tls-server-name" [] [] is_string;
    opt_default "congestion" "congestion" "cubic" (by_parser parse_congestion);
    opt_default "max_retry_count" "max-retry-count" "-1" (by_parser parse_i64);
    opt_default "max_retry_interval" "max-retry-interval" "300"
      (by_parser (λ v, ok (parse_duration_secs v)));
    opt "proxy" "proxy" [] [] (by_parser (λ v, ok (parse_proxy v)));
    flag "is_verbose" "verbose" (Some "v"%char) [];
    flag "is_debug" "debug" None [];
    flag "is_quiet" "quiet" (Some "q"%char) ["is_verbose"; "is_debug"];
    opt_default "log_format" "log-format" "compact" (by_parser parse_log_format) ]%string.

End client.

(** ** Matches *)

(** The values clap found for an argument and where it found them. *)
Definition Matches : Type := bytes → option (ValueSource * list bytes).

Definition sources (m : Matches) : ArgMatches := λ id, fst <$> m id.

Abbreviation given m id := (cli_explicit (sources m) id).

Definition values (m : Matches) (id : string) : list bytes := from_option snd [] (m (str id)).
Definition one (m : Matches) (id : string) : option bytes := head (values m id).
Definition is_set (m : Matches) (id : string) : bool := bool_decide (one m id = Some (str "true")).

(** Two arguments exclude each other when one of them declares it. *)
Definition excludes (decls : list Arg) (x y : string) : bool :=
  existsb (λ a, (bool_decide (arg_id a = x) && bool_decide (y ∈ arg_conflicts a)) ||
                (bool_decide (arg_id a = y) && bool_decide (x ∈ arg_conflicts a))) decls.

Definition excluders (decls : list Arg) (r : string) : list string :=
  filter (λ x, excludes decls x r = true) (arg_id <$> decls).

(** A requirement is met by its argument, and lapses when an argument that excludes it
    is given. *)
Definition requirement_met (decls : list Arg) (m : Matches) (r : string) : bool :=
  given m r || existsb (λ x, given m x) (excluders decls r).

Definition arg_matched (decls : list Arg) (m : Matches) (a : Arg) : bool :=
  if given m (arg_id a) then
    forallb (arg_valid a) (values m (arg_id a)) &&
    match arg_arity a, values m (arg_id a) with
    | Flag, vs => bool_decide (vs = [str "true"])
    | Single, [_] | Many, _ :: _ => true
    | _, _ => false
    end &&
    forallb (requirement_met decls m) (arg_requires a) &&
    forallb (λ c, negb (given m c)) (arg_conflicts a)
  else negb (arg_required a) && bool_decide (m (str (arg_id a)) = (λ d, (DefaultValue, [d])) <$> arg_default a).

(** What clap documents of the matches of a command line. *)
Definition matched (decls : list Arg) (m : Matches) : bool := forallb (arg_matched decls m) decls.

Class Clap := {
  (** [Command::try_get_matches_from] of one subcommand *)
  try_get_matches : list Arg → list bytes → result bytes Matches;
  clap_matched decls argv m : try_get_matches decls argv = Ok m → matched decls m = true }.

(** *** [from_arg_matches] as derived *)

Definition server_of_matches (m : Matches) : option (option PathBuf * ServerCli) :=
  host ← one m "host" ≫= parse_ipaddr;
  port ← one m "port" ≫= λ v, ok (parse_u16 v);
  congestion ← one m "congestion" ≫= parse_congestion;
  max_connections ← one m "max_connections" ≫= λ v, ok (parse_u64 v);
  log_format ← one m "log_format" ≫= parse_log_format;
  Some (one m "config",
    {| sc_host := host; sc_port := port; sc_allow_reverse := is_set m "allow_reverse";
       sc_allow_socks := is_set m "allow_socks"; sc_insecure := is_set m "insecure";
       sc_tls_self_signed := is_set m "tls_self_signed"; sc_tls_state_dir := one m "tls_state_dir";
       sc_tls_cert := one m "tls_cert"; sc_tls_key := one m "tls_key"; sc_tls_ca := one m "tls_ca";
       sc_congestion := congestion; sc_max_connections := max_connections;
       sc_admin_socket := one m "admin_socket"; sc_no_admin_socket := is_set m "no_admin_socket";
       sc_is_verbose := is_set m "is_verbose"; sc_is_debug := is_set m "is_debug";
       sc_is_quiet := is_set m "is_quiet"; sc_log_format := log_format |}).

(** An optional argument with a value parser: absent, or parsed. *)
Definition one_opt {A} (parse : bytes → option A) (m : Matches) (id : string) : option (option A) :=
  match one m id with None => Some None | Some v => Some <$> parse v end.

Definition client_of_matches (lookup : bytes → N → result bytes (list SocketAddr)) (m : Matches) :
    option (option PathBuf * ClientCli) :=
  server ← one_opt (λ v, ok (parse_server_addr lookup v)) m "server";
  remotes ← mapM (λ v, ok (parse_remote v)) (values m "remote");
  congestion ← one m "congestion" ≫= parse_congestion;
  max_retry_count ← one m "max_retry_count" ≫= parse_i64;
  max_retry_interval ← one m "max_retry_interval" ≫= λ v, ok (parse_duration_secs v);
  proxy ← one_opt (λ v, ok (parse_proxy v)) m "proxy";
  log_format ← one m "log_format" ≫= parse_log_format;
  Some (one m "config",
    {| cc_server := server; cc_remotes := remotes; cc_insecure := is_set m "insecure";
       cc_tls_fingerprint := one m "tls_fingerprint"; cc_tls_ca := one m "tls_ca";
       cc_tls_cert := one m "tls_cert"; cc_tls_key := one m "tls_key";
       cc_tls_server_name := one m "tls_server_name"; cc_congestion := congestion;
       cc_max_retry_count := max_retry_count; cc_max_retry_interval := max_retry_interval;
       cc_proxy := proxy; cc_is_verbose := is_set m "is_verbose"; cc_is_debug := is_set m "is_debug";
       cc_is_quiet := is_set m "is_quiet"; cc_log_format := log_format |}).

(** ** What is known of matched arguments *)

Section arguments.
Context (decls : list Arg) (m : Matches).
Hypothesis Hm : matched decls m = true.

Lemma matched_arg i a : decls !! i = Some a → arg_matched decls m a = true.
Proof. intros Hi. eapply forallb_forall; [exact Hm|]. apply list_elem_of_In. by eapply list_elem_of_lookup_2. Qed.

Lemma arg_not_given i a :
  decls !! i = Some a → given m (arg_id a) = false → values m (arg_id a) = option_list (arg_default a).
Proof.
  intros Hi Hg. pose proof (matched_arg i a Hi) as H. unfold arg_matched in H. rewrite Hg in H.
  apply andb_prop in H as [_ H]. apply bool_decide_eq_true in H. unfold values. rewrite H. by destruct (arg_default a).
Qed.

Lemma arg_given i a :
  decls !! i = Some a → given m (arg_id a) = true →
  Forall (λ v, arg_valid a v = true) (values m (arg_id a)) ∧
  (arg_arity a = Flag → values m (arg_id a) = [str "true"]) ∧
  (arg_arity a = Single → ∃ v, values m (arg_id a) = [v]) ∧
  Forall (λ r, requirement_met decls m r = true) (arg_requires a) ∧
  Forall (λ c, given m c = false) (arg_conflicts a).
Proof.
  intros Hi Hg. pose proof (matched_arg i a Hi) as H. unfold arg_matched in H. rewrite Hg in H.
  apply andb_prop in H as [H Hc]. apply andb_prop in H as [H Hr]. apply andb_prop in H as [Hv Ha].
  rewrite forallb_forall in Hv, Hr, Hc. split_and!.
  - apply Forall_forall. intros v Hin. by apply Hv, list_elem_of_In.
  - intros E. rewrite E in Ha. by apply bool_decide_eq_true in Ha.
  - intros E. rewrite E in Ha. destruct (values m (arg_id a)) as [|v [|]]; [done| |done]. by exists v.
  - apply Forall_forall. intros r Hin. by apply Hr, list_elem_of_In.
  - apply Forall_forall. intros c Hin. apply negb_true_iff. by apply Hc, list_elem_of_In.
Qed.

(** A flag is set exactly when it is given. *)
Lemma flag_given i a :
  decls !! i = Some a → arg_arity a = Flag → arg_default a = Some (str "false") →
  is_set m (arg_id a) = given m (arg_id a).
Proof.
  intros Hi Ha Hd. unfold is_set, one. destruct (given m (arg_id a)) eqn:Hg.
  - destruct (arg_given i a Hi Hg) as (_ & Hf & _). by rewrite Hf.
  - by rewrite (arg_not_given i a Hi Hg), Hd.
Qed.

(** An option without a default has a value exactly when it is given. *)
Lemma option_given i a :
  decls !! i = Some a → arg_arity a = Single → arg_default a = None →
  if given m (arg_id a) then ∃ v, one m (arg_id a) = Some v ∧ arg_valid a v = true
  else one m (arg_id a) = None.
Proof.
  intros Hi Ha Hd. unfold one. destruct (given m (arg_id a)) eqn:Hg.
  - destruct (arg_given i a Hi Hg) as (Hv & _ & Hs & _). destruct (Hs Ha) as [v E]. rewrite E in *.
    exists v. split; [done|]. by inversion Hv.
  - by rewrite (arg_not_given i a Hi Hg), Hd.
Qed.

(** An option with a default has a value its parser accepts. *)
Lemma option_default i a d :
  decls !! i = Some a → arg_arity a = Single → arg_default a = Some d → arg_valid a d = true →
  ∃ v, one m (arg_id a) = Some v ∧ arg_valid a v = true.
Proof.
  intros Hi Ha Hd Hv. unfold one. destruct (given m (arg_id a)) eqn:Hg.
  - destruct (arg_given i a Hi Hg) as (Hvs & _ & Hs & _). destruct (Hs Ha) as [v E]. rewrite E in *.
    exists v. split; [done|]. by inversion Hvs.
  - rewrite (arg_not_given i a Hi Hg), Hd. by exists d.
Qed.

(** The same with the value parsed. *)
Lemma option_default_parsed {A} (parse : bytes → option A) i a d :
  decls !! i = Some a → arg_arity a = Single → arg_default a = Some d → arg_valid a = by_parser parse →
  by_parser parse d = true → is_Some (one m (arg_id a) ≫= parse).
Proof.
  intros Hi Ha Hd Ep Hp. destruct (option_default i a d Hi Ha Hd) as (v & -> & Hv).
  - by rewrite Ep.
  - rewrite Ep in Hv. by apply bool_decide_eq_true in Hv.
Qed.

Lemma option_parsed {A} (parse : bytes → option A) i a :
  decls !! i = Some a → arg_arity a = Single → arg_default a = None → arg_valid a = by_parser parse →
  is_Some (one_opt parse m (arg_id a)).
Proof.
  intros Hi Ha Hd Ep. pose proof (option_given i a Hi Ha Hd) as H. unfold one_opt.
  destruct (given m (arg_id a)); [|by rewrite H]. destruct H as (v & -> & Hv). rewrite Ep in Hv.
  apply bool_decide_eq_true in Hv as [x ->]. by eexists.
Qed.

Lemma many_parsed {A} (parse : bytes → option A) i a :
  decls !! i = Some a → arg_default a = None → arg_valid a = by_parser parse →
  is_Some (mapM parse (values m (arg_id a))).
Proof.
  intros Hi Hd Ep. apply mapM_is_Some. destruct (given m (arg_id a)) eqn:Hg.
  - destruct (arg_given i a Hi Hg) as (Hv & _). eapply Forall_impl; [exact Hv|]. intros v Hv'.
    rewrite Ep in Hv'. by apply bool_decide_eq_true in Hv'.
  - by rewrite (arg_not_given i a Hi Hg), Hd.
Qed.

(** A required argument is given. *)
Lemma required_given i a : decls !! i = Some a → arg_required a = true → given m (arg_id a) = true.
Proof.
  intros Hi Hr. pose proof (matched_arg i a Hi) as H. unfold arg_matched in H. rewrite Hr in H.
  by destruct (given m (arg_id a)).
Qed.

(** The requirements and conflicts of one argument, as implications between flags. *)
Lemma requirement_of i r a :
  decls !! i = Some a → r ∈ arg_requires a → given m (arg_id a) = true →
  given m r = true ∨ Exists (λ x, given m x = true) (excluders decls r).
Proof.
  intros Hi Hr Hg. destruct (arg_given i a Hi Hg) as (_ & _ & _ & H & _).
  rewrite Forall_forall in H. specialize (H r Hr). unfold requirement_met in H.
  apply orb_prop in H as [->|H]; [by left|right]. apply existsb_exists in H as (x & Hx & E).
  apply Exists_exists. exists x. split; [by apply list_elem_of_In|done].
Qed.

Lemma conflict_of i c a :
  decls !! i = Some a → c ∈ arg_conflicts a → given m (arg_id a) = true → given m c = false.
Proof.
  intros Hi Hc Hg. destruct (arg_given i a Hi Hg) as (_ & _ & _ & _ & H).
  rewrite Forall_forall in H. by apply H.
Qed.

End arguments.
Arguments requirement_of {decls m} Hm i r {a}.
Arguments conflict_of {decls m} Hm i c {a}.

(** Implications between concrete booleans. *)
Ltac bool_cases :=
  repeat match goal with
  | H : ?b = ?b → _ |- _ => specialize (H eq_refl)
  | H : true = false → _ |- _ => clear H
  | H : false = true → _ |- _ => clear H
  end; intuition congruence.

(** Every combination of the flags the context speaks of, and their values. *)
Ltac tls_cases :=
  repeat match goal with H : context [given ?m ?id] |- _ => destruct (given m id) end;
  try discriminate; try (exfalso; bool_cases; fail).
Ltac destruct_values :=
  repeat match goal with
  | H : ∃ v, one _ _ = Some v ∧ _ |- _ => destruct H as (? & -> & _)
  | H : one _ _ = None |- _ => rewrite H; clear H
  end; cbn [mbind option_bind].

(** The value of a field with a default, parsed. *)
Ltac field_parsed Hm parse i :=
  let E := fresh "E" in
  destruct (option_default_parsed _ _ Hm parse i _ _ eq_refl eq_refl eq_refl eq_refl eq_refl) as [? E];
  cbn [arg_id opt_default] in E; rewrite E; clear E; cbn [mbind option_bind].

(** ** The flags of the server *)

Section server.
Context `{Clap} (home_dir : option PathBuf) (euid : N).

(** The TLS mode a command line spells: one of [--insecure], [--tls-self-signed] and
    [--tls-cert], the last with or without [--tls-ca]. *)
Definition server_mode (m : Matches) : option ServerTlsConfig :=
  match given m "insecure", given m "tls_self_signed", given m "tls_cert", given m "tls_ca" with
  | true, false, false, false => Some ServerInsecure
  | false, true, false, false =>
      SelfSigned <$> or (one m "tls_state_dir") (ok (default_state_dir home_dir))
  | false, false, true, false => cert ← one m "tls_cert"; key ← one m "tls_key"; Some (Provided cert key)
  | false, false, true, true =>
      cert ← one m "tls_cert"; key ← one m "tls_key"; ca ← one m "tls_ca"; Some (ServerMtls cert key ca)
  | _, _, _, _ => None
  end.

Lemma server_excluders :
  excluders server_args "tls_key" = ["tls_self_signed"]%string ∧
  excluders server_args "tls_cert" = ["insecure"; "tls_self_signed"]%string.
Proof. by split; vm_compute. Qed.

(** The combinations of TLS flags clap lets through. *)
Lemma server_tls_combinations m :
  matched server_args m = true →
  (given m "tls_self_signed" = true →
     given m "insecure" = false ∧ given m "tls_cert" = false ∧ given m "tls_key" = false) ∧
  (given m "tls_cert" = true →
     given m "insecure" = false ∧ given m "tls_self_signed" = false ∧ given m "tls_key" = true) ∧
  (given m "tls_key" = true → given m "tls_cert" = true ∨ given m "insecure" = true) ∧
  (given m "tls_ca" = true →
     given m "insecure" = false ∧ given m "tls_self_signed" = false ∧ given m "tls_cert" = true).
Proof.
  intros Hm. destruct server_excluders as [Ek Ec].
  pose proof (conflict_of Hm 6 "insecure" eq_refl ltac:(in_list)) as C1.
  pose proof (conflict_of Hm 6 "tls_cert" eq_refl ltac:(in_list)) as C2.
  pose proof (conflict_of Hm 6 "tls_key" eq_refl ltac:(in_list)) as C3.
  pose proof (conflict_of Hm 8 "insecure" eq_refl ltac:(in_list)) as C4.
  pose proof (conflict_of Hm 8 "tls_self_signed" eq_refl ltac:(in_list)) as C5.
  pose proof (conflict_of Hm 10 "insecure" eq_refl ltac:(in_list)) as C6.
  pose proof (conflict_of Hm 10 "tls_self_signed" eq_refl ltac:(in_list)) as C7.
  pose proof (requirement_of Hm 8 "tls_key" eq_refl ltac:(in_list)) as R1.
  pose proof (requirement_of Hm 9 "tls_cert" eq_refl ltac:(in_list)) as R2.
  pose proof (requirement_of Hm 10 "tls_cert" eq_refl ltac:(in_list)) as R3.
  rewrite Ek, Exists_cons, Exists_nil in R1. rewrite Ec, !Exists_cons, Exists_nil in R2, R3.
  cbn [arg_id flag opt] in *. clear Hm Ek Ec.
  revert C1 C2 C3 C4 C5 C6 C7 R1 R2 R3.
  generalize (given m "insecure") (given m "tls_self_signed") (given m "tls_cert") (given m "tls_key")
    (given m "tls_ca"). intros [] [] [] [] []; intros; bool_cases.
Qed.

(** The derived code finds a value for every field. *)
Lemma server_of_matched m : matched server_args m = true → is_Some (server_of_matches m).
Proof.
  intros Hm. unfold server_of_matches. field_parsed Hm parse_ipaddr 1%nat.
  field_parsed Hm (λ v, ok (parse_u16 v)) 2%nat. field_parsed Hm parse_congestion 11%nat.
  field_parsed Hm (λ v, ok (parse_u64 v)) 12%nat. field_parsed Hm parse_log_format 18%nat. by eexists.
Qed.

(** The TLS fields of what the derived code reads. *)
Lemma server_of_matches_tls m config cli :
  server_of_matches m = Some (config, cli) →
  sc_insecure cli = is_set m "insecure" ∧ sc_tls_self_signed cli = is_set m "tls_self_signed" ∧
  sc_tls_state_dir cli = one m "tls_state_dir" ∧ sc_tls_cert cli = one m "tls_cert" ∧
  sc_tls_key cli = one m "tls_key" ∧ sc_tls_ca cli = one m "tls_ca".
Proof.
  unfold server_of_matches. intros E.
  repeat (apply bind_Some in E as (? & _ & E)). by injection E as <- <-.
Qed.

Lemma server_no_tls_flags m config cli :
  matched server_args m = true → server_set_tls (sources m) = false →
  server_of_matches m = Some (config, cli) →
  sc_insecure cli = false ∧ sc_tls_self_signed cli = false ∧ sc_tls_cert cli = None ∧
  sc_tls_key cli = None ∧ sc_tls_ca cli = None.
Proof.
  intros Hm Hset E. destruct (server_of_matches_tls m config cli E) as (-> & -> & _ & -> & -> & ->).
  pose proof (flag_given _ m Hm 5 _ eq_refl eq_refl eq_refl) as Gi.
  pose proof (flag_given _ m Hm 6 _ eq_refl eq_refl eq_refl) as Gs.
  pose proof (option_given _ m Hm 8 _ eq_refl eq_refl eq_refl) as Gc.
  pose proof (option_given _ m Hm 9 _ eq_refl eq_refl eq_refl) as Gk.
  pose proof (option_given _ m Hm 10 _ eq_refl eq_refl eq_refl) as Ga.
  cbn [arg_id flag opt] in *. rewrite Gi, Gs. unfold server_set_tls in Hset. by tls_cases.
Qed.

(** The TLS fields after the merge, when the command line has one of them. *)
Lemma merged_server_tls cli section matches :
  server_set_tls matches = true →
  let c := merge_server_with_file cli section matches in
  sc_insecure c = sc_insecure cli ∧ sc_tls_self_signed c = sc_tls_self_signed cli ∧
  sc_tls_state_dir c = sc_tls_state_dir cli ∧ sc_tls_cert c = sc_tls_cert cli ∧
  sc_tls_key c = sc_tls_key cli ∧ sc_tls_ca c = sc_tls_ca cli.
Proof. intros E. destruct section; [|done]. cbn. by rewrite E. Qed.

Lemma server_main_tls cli section matches mat :
  let c := merge_server_with_file cli section matches in
  cfg_tls <$> ok (server_main home_dir euid cli (Ok section) matches (Ok mat)) =
  ok (resolve_server_tls home_dir (sc_insecure c) (sc_tls_self_signed c) (sc_tls_state_dir c)
        (sc_tls_cert c) (sc_tls_key c) (sc_tls_ca c) mat).
Proof. unfold server_main. cbn [mbind result_bind map_err]. by destruct (resolve_server_tls _ _ _ _ _ _ _ _). Qed.

(** C19: the documented rule that exactly one TLS mode is chosen. For every command line
    clap accepts, the derived code reads the flags; when a TLS flag is given, the mode
    the server starts with (or the refusal to start) is the one the command line spells,
    whatever the configuration file and the embedded credentials are, and a client CA
    that is given is always enforced; when none is given and there is neither a file
    nor a credential the server does not start. *)
Theorem server_tls_from_flags argv m :
  try_get_matches server_args argv = Ok m →
  ∃ config cli, server_of_matches m = Some (config, cli) ∧
    let starts section mat :=
      cfg_tls <$> ok (server_main home_dir euid cli (Ok section) (sources m) (Ok mat)) in
    (server_set_tls (sources m) = true → ∀ section mat, starts section mat = server_mode m) ∧
    (server_set_tls (sources m) = false →
       starts None (mkMaterialized None None None None None) = None) ∧
    (given m "tls_ca" = true → ∃ cert key ca, one m "tls_ca" = Some ca ∧
       server_mode m = Some (ServerMtls cert key ca)).
Proof.
  intros Hm%clap_matched. destruct (server_of_matched m Hm) as [[config cli] Ecli].
  exists config, cli. split; [done|]. cbn zeta.
  destruct (server_of_matches_tls m config cli Ecli) as (Fi & Fs & Fd & Fc & Fk & Fa).
  pose proof (flag_given _ m Hm 5 _ eq_refl eq_refl eq_refl) as Gi.
  pose proof (flag_given _ m Hm 6 _ eq_refl eq_refl eq_refl) as Gs.
  pose proof (option_given _ m Hm 8 _ eq_refl eq_refl eq_refl) as Gc.
  pose proof (option_given _ m Hm 9 _ eq_refl eq_refl eq_refl) as Gk.
  pose proof (option_given _ m Hm 10 _ eq_refl eq_refl eq_refl) as Ga.
  cbn [arg_id flag opt] in *. rewrite Gi in Fi. rewrite Gs in Fs.
  pose proof (server_tls_combinations m Hm) as (K1 & K2 & K3 & K4).
  split_and!.
  - intros Hset section mat. rewrite server_main_tls.
    destruct (merged_server_tls cli section (sources m) Hset) as (-> & -> & -> & -> & -> & ->).
    rewrite Fi, Fs, Fd, Fc, Fk, Fa. unfold server_mode, resolve_server_tls, server_set_tls in *.
    tls_cases; destruct_values; try done.
    unfold default_state_dir. by destruct (one m "tls_state_dir"), home_dir.
  - intros Hset. rewrite server_main_tls. cbn [merge_server_with_file].
    by destruct (server_no_tls_flags m config cli Hm Hset Ecli) as (-> & -> & -> & -> & ->).
  - intros Hca. unfold server_mode. tls_cases; destruct_values. by do 3 eexists.
Qed.

End server.

(** ** The flags of the client *)

Section client_flags.
Context `{Clap} (lookup : bytes → N → result bytes (list SocketAddr)) (e : Embedded).

(** The TLS mode a command line spells: one of [--insecure], [--tls-fingerprint] and
    [--tls-ca], the last with or without a certificate of the client. *)
Definition client_mode (name : option bytes) (m : Matches) : panicking (option ClientTlsConfig) :=
  match given m "insecure", given m "tls_fingerprint", given m "tls_ca" with
  | true, false, false => Returns (Some ClientInsecure)
  | false, true, false =>
      match parse_fingerprint (default [] (one m "tls_fingerprint")) with
      | Panics => Panics
      | Returns r => Returns ((λ sha, Fingerprint sha name) <$> ok r)
      end
  | false, false, true =>
      Returns (ca ← one m "tls_ca";
               if given m "tls_cert" then
                 cert ← one m "tls_cert"; key ← one m "tls_key"; Some (ClientMtls ca cert key name)
               else Some (Ca ca name))
  | _, _, _ => Returns None
  end.

Definition tls_outcome (r : panicking (result bytes ClientConfig)) : panicking (option ClientTlsConfig) :=
  match r with Panics => Panics | Returns r => Returns (ccfg_tls <$> ok r) end.

Lemma client_excluders :
  excluders (client_args lookup) "tls_key" = [] ∧ excluders (client_args lookup) "tls_cert" = [] ∧
  excluders (client_args lookup) "tls_ca" = ["insecure"; "tls_fingerprint"]%string.
Proof. by split_and!; vm_compute. Qed.

Lemma client_tls_combinations m :
  matched (client_args lookup) m = true →
  (given m "tls_fingerprint" = true → given m "insecure" = false ∧ given m "tls_ca" = false) ∧
  (given m "tls_ca" = true → given m "insecure" = false ∧ given m "tls_fingerprint" = false) ∧
  (given m "tls_cert" = true ↔ given m "tls_key" = true) ∧
  (given m "tls_cert" = true →
     given m "tls_ca" = true ∨ given m "insecure" = true ∨ given m "tls_fingerprint" = true).
Proof.
  intros Hm. destruct client_excluders as (Ek & Ec & Ea).
  pose proof (conflict_of Hm 4 "insecure" eq_refl ltac:(in_list)) as C1.
  pose proof (conflict_of Hm 4 "tls_ca" eq_refl ltac:(in_list)) as C2.
  pose proof (conflict_of Hm 5 "insecure" eq_refl ltac:(in_list)) as C3.
  pose proof (requirement_of Hm 6 "tls_key" eq_refl ltac:(in_list)) as R1.
  pose proof (requirement_of Hm 6 "tls_ca" eq_refl ltac:(in_list)) as R2.
  pose proof (requirement_of Hm 7 "tls_cert" eq_refl ltac:(in_list)) as R3.
  rewrite Ek, Exists_nil in R1. rewrite Ec, Exists_nil in R3. rewrite Ea, !Exists_cons, Exists_nil in R2.
  cbn [arg_id opt] in *. clear Hm Ek Ec Ea. revert C1 C2 C3 R1 R2 R3.
  generalize (given m "insecure") (given m "tls_fingerprint") (given m "tls_ca") (given m "tls_cert")
    (given m "tls_key"). intros [] [] [] [] []; intros; bool_cases.
Qed.

Lemma client_of_matched m :
  matched (client_args lookup) m = true → is_Some (client_of_matches lookup m).
Proof.
  intros Hm. unfold client_of_matches.
  destruct (option_parsed _ m Hm (λ v, ok (parse_server_addr lookup v)) 1 _ eq_refl eq_refl eq_refl eq_refl)
    as [server E]. cbn [arg_id] in E. rewrite E. cbn [mbind option_bind]. clear E.
  destruct (many_parsed _ m Hm (λ v, ok (parse_remote v)) 2 _ eq_refl eq_refl eq_refl) as [remotes E].
  cbn [arg_id] in E. rewrite E. cbn [mbind option_bind]. clear E.
  field_parsed Hm parse_congestion 9%nat. field_parsed Hm parse_i64 10%nat.
  field_parsed Hm (λ v, ok (parse_duration_secs v)) 11%nat.
  destruct (option_parsed _ m Hm (λ v, ok (parse_proxy v)) 12 _ eq_refl eq_refl eq_refl eq_refl)
    as [proxy E]. cbn [arg_id opt] in E. rewrite E. cbn [mbind option_bind]. clear E.
  field_parsed Hm parse_log_format 16%nat. by eexists.
Qed.

Lemma client_of_matches_tls m config cli :
  client_of_matches lookup m = Some (config, cli) →
  cc_insecure cli = is_set m "insecure" ∧ cc_tls_fingerprint cli = one m "tls_fingerprint" ∧
  cc_tls_ca cli = one m "tls_ca" ∧ cc_tls_cert cli = one m "tls_cert" ∧ cc_tls_key cli = one m "tls_key".
Proof.
  unfold client_of_matches. intros E.
  repeat (apply bind_Some in E as (? & _ & E)). by injection E as <- <-.
Qed.

Lemma merged_client_tls cli section matches c :
  client_set_tls matches = true → merge_client_with_file lookup cli section matches = Ok c →
  cc_insecure c = cc_insecure cli ∧ cc_tls_fingerprint c = cc_tls_fingerprint cli ∧
  cc_tls_ca c = cc_tls_ca cli ∧ cc_tls_cert c = cc_tls_cert cli ∧ cc_tls_key c = cc_tls_key cli.
Proof.
  intros Hset E. destruct section; [|by simplify_eq/=]. unfold merge_client_with_file in E.
  destruct_ok. cbn. by rewrite Hset.
Qed.

Lemma client_main_tls cli section matches mat c :
  merge_client_with_file lookup cli section matches = Ok c →
  is_Some (cc_server c) → cc_remotes c ≠ [] → is_ok (max_retries_from_cli (cc_max_retry_count c)) = true →
  tls_outcome (client_main lookup e cli (Ok section) matches (Ok mat)) =
  match resolve_client_tls e (cc_insecure c) (cc_tls_fingerprint c) (cc_tls_ca c) (cc_tls_cert c)
          (cc_tls_key c) (cc_tls_server_name c) mat with
  | Panics => Panics
  | Returns r => Returns (ok r)
  end.
Proof.
  intros E [server Es] Hr Hmax. unfold client_main. cbn [mbind result_bind]. rewrite E.
  cbn [mbind result_bind]. rewrite Es. cbn [ok_or mbind result_bind]. rewrite decide_False by done.
  cbn [map_err mbind result_bind]. destruct (resolve_client_tls _ _ _ _ _ _ _ _) as [[]|]; [|done|done].
  by destruct (max_retries_from_cli _).
Qed.

(** C20: for every command line of the client that clap accepts, the derived code reads
    the flags; when a TLS flag is given, the mode the client starts with is the one the
    command line spells, with the values given, whatever the configuration file and the
    embedded credentials are; without any, and with neither a file nor a credential, the
    client does not start. In particular no file and no embedded credential turns off a
    verification that was asked for. *)
Theorem client_tls_from_flags argv m :
  try_get_matches (client_args lookup) argv = Ok m →
  ∃ config cli, client_of_matches lookup m = Some (config, cli) ∧
    (client_set_tls (sources m) = true → ∀ section mat c,
       merge_client_with_file lookup cli section (sources m) = Ok c →
       is_Some (cc_server c) → cc_remotes c ≠ [] →
       is_ok (max_retries_from_cli (cc_max_retry_count c)) = true →
       tls_outcome (client_main lookup e cli (Ok section) (sources m) (Ok mat)) =
       client_mode (or (cc_tls_server_name c) (EMBED_SERVER_NAME e)) m) ∧
    (client_set_tls (sources m) = false → EMBED_FINGERPRINT e = None →
       ∀ cfg, client_main lookup e cli (Ok None) (sources m)
                (Ok (mkMaterialized None None None None None)) ≠ Returns (Ok cfg)).
Proof.
  intros Hm%clap_matched. destruct (client_of_matched m Hm) as [[config cli] Ecli].
  exists config, cli. split; [done|].
  destruct (client_of_matches_tls m config cli Ecli) as (Fi & Ff & Fa & Fc & Fk).
  pose proof (flag_given _ m Hm 3 _ eq_refl eq_refl eq_refl) as Gi.
  pose proof (option_given _ m Hm 4 _ eq_refl eq_refl eq_refl) as Gf.
  pose proof (option_given _ m Hm 5 _ eq_refl eq_refl eq_refl) as Ga.
  pose proof (option_given _ m Hm 6 _ eq_refl eq_refl eq_refl) as Gc.
  pose proof (option_given _ m Hm 7 _ eq_refl eq_refl eq_refl) as Gk.
  cbn [arg_id flag opt] in *. rewrite Gi in Fi.
  pose proof (client_tls_combinations m Hm) as (K1 & K2 & K3 & K4). split.
  - intros Hset section mat c Ec Hs Hr Hmax. rewrite (client_main_tls cli section _ mat c) by done.
    destruct (merged_client_tls cli section (sources m) c Hset Ec) as (-> & -> & -> & -> & ->).
    rewrite Fi, Ff, Fa, Fc, Fk. unfold client_mode, resolve_client_tls, client_set_tls, pinned, or in *.
    clear Hs Hr Hmax Ec. tls_cases; destruct_values; cbn [default from_option]; try done.
    all: by destruct (parse_fingerprint _) as [[]|].
  - intros Hset Hfp cfg. unfold client_main. cbn [mbind result_bind merge_client_with_file].
    destruct (cc_server cli) as [server|]; cbn [ok_or mbind result_bind]; [|done].
    case_decide; [done|]. cbn [map_err mbind result_bind]. rewrite Fi, Ff, Fa, Fc, Fk.
    unfold client_set_tls, resolve_client_tls in *. tls_cases. destruct_values.
    cbn [mat_ca]. by rewrite Hfp.
Qed.

End client_flags.

(** ** Examples

    A parser of flags, options and positionals that checks what it matched against the
    declarations. *)

Definition spelled_as (tok : bytes) (a : Arg) : bool :=
  match arg_spelling a with
  | Long name short => bool_decide (tok = str "--" ++ str name) ||
                       bool_decide (Some tok = (λ c, ["-"%char; c]) <$> short)
  | Positional => false
  end.

Definition takes_positional (acc : list (string * bytes)) (a : Arg) : bool :=
  match arg_spelling a, arg_arity a with
  | Positional, Many => true
  | Positional, _ => negb (existsb (λ kv, bool_decide (kv.1 = arg_id a)) acc)
  | _, _ => false
  end.

Fixpoint scan (decls : list Arg) (toks : list bytes) (acc : list (string * bytes)) :
    option (list (string * bytes)) :=
  match toks with
  | [] => Some acc
  | tok :: rest =>
      match List.find (spelled_as tok) decls with
      | Some a =>
          match arg_arity a, rest with
          | Flag, _ => scan decls rest (acc ++ [(arg_id a, str "true")])
          | _, v :: rest => scan decls rest (acc ++ [(arg_id a, v)])
          | _, [] => None
          end
      | None =>
          if strip_prefix (str "-") tok is Some _ then None
          else match List.find (takes_positional acc) decls with
               | Some a => scan decls rest (acc ++ [(arg_id a, tok)])
               | None => None
               end
      end
  end.

Definition scanned_matches (decls : list Arg) (found : list (string * bytes)) : Matches := λ id,
  match snd <$> filter (λ kv, str kv.1 = id) found with
  | [] => a ← List.find (λ a, bool_decide (str (arg_id a) = id)) decls;
          (λ d, (DefaultValue, [d])) <$> arg_default a
  | vs => Some (CommandLine, vs)
  end.

#[local] Instance scanning_clap : Clap.
Proof.
  refine {| try_get_matches := λ decls argv,
              match scan decls argv [] with
              | Some found => if matched decls (scanned_matches decls found)
                              then Ok (scanned_matches decls found) else Err (str "usage")
              | None => Err (str "usage")
              end |}.
  intros decls argv m. destruct (scan _ _ _); [|done]. by destruct (matched _ _) eqn:?; intros [= <-].
Defined.

Definition demo_server_argv : list bytes :=
  str <$> ["--tls-cert"; "a.pem"; "--tls-key"; "a.key"; "-p"; "9000"; "--tls-ca"; "ca.pem"]%string.
Definition demo_client_argv : list bytes :=
  str <$> ["127.0.0.1:8080"; "--tls-ca"; "ca.pem"; "1080:socks"; "-v"; "3000"]%string.
Definition argv_matches (decls : list Arg) (argv : list bytes) : Matches :=
  match try_get_matches decls argv with Ok m => m | Err _ => λ _, None end.
Definition no_lookup (host : bytes) (port : N) : result bytes (list SocketAddr) := Err (str "no such host").
Definition not_embedded : Embedded := mkEmbedded None None None None None None None None.

Lemma server_tls_from_flags_witness :
  ∃ config cli, server_of_matches (argv_matches server_args demo_server_argv) = Some (config, cli) ∧
    cfg_tls <$> ok (server_main None 0 cli (Ok None)
      (sources (argv_matches server_args demo_server_argv)) (Ok (mkMaterialized None None None None None))) =
    Some (ServerMtls (str "a.pem") (str "a.key") (str "ca.pem")).
Proof.
  destruct (server_tls_from_flags None 0 demo_server_argv (argv_matches server_args demo_server_argv))
    as (config & cli & E & Hmode & _).
  - vm_cast_no_check (eq_refl (try_get_matches server_args demo_server_argv)).
  - exists config, cli. split; [exact E|]. rewrite Hmode; by vm_compute.
Defined.

Lemma client_tls_from_flags_witness :
  ∃ config cli, client_of_matches no_lookup (argv_matches (client_args no_lookup) demo_client_argv) =
      Some (config, cli) ∧
    tls_outcome (client_main no_lookup not_embedded cli (Ok None)
      (sources (argv_matches (client_args no_lookup) demo_client_argv))
      (Ok (mkMaterialized None None None None None))) = Returns (Some (Ca (str "ca.pem") None)).
Proof.
  destruct (client_tls_from_flags no_lookup not_embedded demo_client_argv
    (argv_matches (client_args no_lookup) demo_client_argv)) as (config & cli & E & Hmode & _).
  - vm_cast_no_check (eq_refl (try_get_matches (client_args no_lookup) demo_client_argv)).
  - exists config, cli. split; [exact E|].
    assert (client_of_matches no_lookup (argv_matches (client_args no_lookup) demo_client_argv) =
      Some (config, cli)) as E' by exact E. vm_compute in E'. injection E' as <- <-.
    rewrite (Hmode ltac:(by vm_compute) None _ _ eq_refl); [by vm_compute|by eexists|done|by vm_compute].
Defined.

(** A client certificate beside a fingerprint is accepted and not used: the requirement
    of [--tls-ca] lapses since [--tls-fingerprint] excludes it. *)
Example client_cert_ignored :
  let argv := str <$> ["127.0.0.1:8080"; "3000"; "--tls-fingerprint";
    "sha256:0000000000000000000000000000000000000000000000000000000000000000";
    "--tls-cert"; "c.pem"; "--tls-key"; "c.key"]%string in
  is_ok (try_get_matches (client_args no_lookup) argv) = true ∧
  client_mode None (argv_matches (client_args no_lookup) argv) =
    Returns (Some (Fingerprint (replicate 32 (n2b 0)) None)).
Proof. by vm_compute. Qed.
