(* ===== verification/Build.v ===== *)
(** * Build: the build script and the constants it bakes in ([build.rs], [src/embedded.rs])

    The environment and the files at build time are inputs; [shlex::split] is a
    parameter. The script writes a Rust file of constants; the model has the constants
    themselves, and [compiled] is what rustc makes of them ([include_bytes!] reads the
    file named by the script). *)

From S2P Require Import Prelude Text Tls Cli.

Definition PATH_VARS : list string :=
  ["RUSNEL_EMBED_CA"; "RUSNEL_EMBED_SERVER_CERT"; "RUSNEL_EMBED_SERVER_KEY";
   "RUSNEL_EMBED_CLIENT_CERT"; "RUSNEL_EMBED_CLIENT_KEY"]%string.

Definition STRING_VARS : list string :=
  ["RUSNEL_EMBED_SERVER_ADDR"; "RUSNEL_EMBED_FINGERPRINT"; "RUSNEL_EMBED_SERVER_NAME"]%string.

(** One line [pub const NAME: ... = ...;] of the generated file. *)
Inductive Const :=
| BytesConst (name : bytes) (include : option PathBuf)
| StrConst (name : bytes) (value : option bytes)
| ArgsConst (value : option (list bytes)).

(** What a run of the script leaves: the directives for cargo and the constants. *)
Record Generated := mkGenerated { directives : list bytes; consts : list Const }.

Definition const_for_var (var : bytes) : bytes := default var (strip_prefix (str "RUSNEL_") var).

Inductive BuildNode := BuildFile (b : bytes) | BuildDir.

Section script.
(** [env::var], [None] also for a value that is not Unicode; the files of the build
    machine; [shlex::split]. *)
Variable env : bytes → option bytes.
Variable at_path : PathBuf → option BuildNode.
Variable shlex_split : bytes → option (list bytes).

Definition is_absolute (p : PathBuf) : bool := starts_with "/"%char p.

Definition absolutize (p : bytes) : PathBuf :=
  if is_absolute p then p else join (default (str ".") (env (str "CARGO_MANIFEST_DIR"))) p.

(** [Ok(s) if !s.is_empty()] *)
Definition set_var (var : string) : option bytes :=
  s ← env (str var); if decide (s = []) then None else Some s.

Definition path_const (var : string) : panicking Generated :=
  let const_name := const_for_var (str var) in
  match set_var var with
  | Some p =>
      let abs := absolutize p in
      if at_path abs is Some _ then
        Returns (mkGenerated [str "cargo:rerun-if-changed=" ++ abs] [BytesConst const_name (Some abs)])
      else Panics
  | None => Returns (mkGenerated [] [BytesConst const_name None])
  end.

Definition string_const (var : string) : Const := StrConst (const_for_var (str var)) (set_var var).

Definition args_const : panicking Const :=
  match env (str "RUSNEL_EMBED_ARGS") with
  | Some s =>
      if decide (trim s = []) then Returns (ArgsConst None)
      else match shlex_split s with
           | None => Panics
           | Some [] => Returns (ArgsConst None)
           | Some parts => Returns (ArgsConst (Some parts))
           end
  | None => Returns (ArgsConst None)
  end.

Fixpoint path_consts (vars : list string) : panicking Generated :=
  match vars with
  | [] => Returns (mkGenerated [] [])
  | var :: vars =>
      g ← path_const var; g' ← path_consts vars;
      Returns (mkGenerated (directives g ++ directives g') (consts g ++ consts g'))
  end.

(** [main] of the build script *)
Definition build_main : panicking Generated :=
  let env_changed := (λ v, str "cargo:rerun-if-env-changed=" ++ str v) <$> (PATH_VARS ++ STRING_VARS) in
  paths ← path_consts PATH_VARS;
  args ← args_const;
  Returns (mkGenerated
    (env_changed ++ directives paths ++ [str "cargo:rerun-if-env-changed=RUSNEL_EMBED_ARGS"])
    (consts paths ++ (string_const <$> STRING_VARS) ++ [args])).

(** ** The constants in the binary *)

Record Constants := mkConstants { EMBED_SERVER_ADDR : option bytes; credentials : Embedded }.

Definition const_name (c : Const) : bytes :=
  match c with BytesConst n _ | StrConst n _ => n | ArgsConst _ => str "EMBED_ARGS" end.

(** rustc: a constant of bytes includes the file, or the build fails. *)
Definition included (o : option PathBuf) : option (option bytes) :=
  match o with
  | None => Some None
  | Some p => match at_path p with Some (BuildFile b) => Some (Some b) | _ => None end
  end.
Definition bytes_value (cs : list Const) (name : string) : option (option bytes) :=
  match List.find (λ c, bool_decide (const_name c = str name)) cs with
  | Some (BytesConst _ o) => included o
  | _ => None
  end.
Definition str_value (cs : list Const) (name : string) : option (option bytes) :=
  match List.find (λ c, bool_decide (const_name c = str name)) cs with
  | Some (StrConst _ v) => Some v
  | _ => None
  end.
Definition args_value (cs : list Const) : option (option (list bytes)) :=
  match List.find (λ c, bool_decide (const_name c = str "EMBED_ARGS")) cs with
  | Some (ArgsConst v) => Some v
  | _ => None
  end.

Definition compiled (cs : list Const) : option Constants :=
  ca ← bytes_value cs "EMBED_CA";
  server_cert ← bytes_value cs "EMBED_SERVER_CERT"; server_key ← bytes_value cs "EMBED_SERVER_KEY";
  client_cert ← bytes_value cs "EMBED_CLIENT_CERT"; client_key ← bytes_value cs "EMBED_CLIENT_KEY";
  addr ← str_value cs "EMBED_SERVER_ADDR"; fingerprint ← str_value cs "EMBED_FINGERPRINT";
  server_name ← str_value cs "EMBED_SERVER_NAME";
  args ← args_value cs;
  Some (mkConstants addr
    (mkEmbedded ca server_cert server_key client_cert client_key fingerprint server_name args)).

(** [embedded::any_embedded] *)
Definition any_embedded (k : Constants) : bool :=
  let e := credentials k in
  bool_decide (is_Some (EMBED_CA e)) || bool_decide (is_Some (EMBED_SERVER_CERT e)) ||
  bool_decide (is_Some (EMBED_SERVER_KEY e)) || bool_decide (is_Some (EMBED_CLIENT_CERT e)) ||
  bool_decide (is_Some (EMBED_CLIENT_KEY e)) || bool_decide (is_Some (EMBED_SERVER_ADDR k)) ||
  bool_decide (is_Some (EMBED_FINGERPRINT e)) || bool_decide (is_Some (EMBED_SERVER_NAME e)) ||
  bool_decide (is_Some (EMBED_ARGS e)).

(** ** What a build embeds *)

(** The file a path variable names, as it is embedded. *)
Definition embeds (var : string) (b : option bytes) : Prop :=
  match set_var var with
  | Some p => ∃ f, at_path (absolutize p) = Some (BuildFile f) ∧ b = Some f
  | None => b = None
  end.

Definition embeds_args (o : option (list bytes)) : Prop :=
  match env (str "RUSNEL_EMBED_ARGS") with
  | Some s => if decide (trim s = []) then o = None
              else ∃ parts, shlex_split s = Some parts ∧ o = (if decide (parts = []) then None else Some parts)
  | None => o = None
  end.

Lemma path_const_inv var g :
  path_const var = Returns g →
  consts g = [BytesConst (const_for_var (str var)) (absolutize <$> set_var var)].
Proof.
  unfold path_const. destruct (set_var var) as [p|]; [|by intros [= <-]].
  by destruct (at_path _); intros [= <-].
Qed.

Lemma path_consts_inv vars : ∀ g,
  path_consts vars = Returns g →
  consts g = (λ var, BytesConst (const_for_var (str var)) (absolutize <$> set_var var)) <$> vars.
Proof.
  induction vars as [|var vars IH]; intros g E; cbn in E; [by injection E as <-|].
  destruct (path_const var) as [g1|] eqn:E1; [|done]. cbn in E.
  destruct (path_consts vars) as [g2|] eqn:E2; [|done]. cbn in E. injection E as <-.
  cbn [consts fmap list_fmap]. by rewrite (path_const_inv _ _ E1), (IH _ eq_refl).
Qed.

Lemma args_const_inv c :
  args_const = Returns c → ∃ o, c = ArgsConst o ∧ embeds_args o.
Proof.
  unfold args_const, embeds_args. destruct (env _) as [s|]; [|intros [= <-]; by eexists].
  case_decide; [intros [= <-]; by eexists|].
  destruct (shlex_split s) as [[|p ps]|]; [..|done]; intros [= <-]; eexists; (split; [done|]);
    eexists; (split; [done|]); by case_decide.
Qed.

Lemma included_embeds var b : included (absolutize <$> set_var var) = Some b → embeds var b.
Proof.
  unfold embeds, included. destruct (set_var var) as [p|]; cbn; [|by intros [= <-]].
  destruct (at_path _) as [[f|]|]; [|done..]. intros [= <-]. by exists f.
Qed.

(** rustc on the nine lines the script writes. *)
Lemma compiled_lines o1 o2 o3 o4 o5 s1 s2 s3 a :
  compiled [BytesConst (str "EMBED_CA") o1; BytesConst (str "EMBED_SERVER_CERT") o2;
            BytesConst (str "EMBED_SERVER_KEY") o3; BytesConst (str "EMBED_CLIENT_CERT") o4;
            BytesConst (str "EMBED_CLIENT_KEY") o5; StrConst (str "EMBED_SERVER_ADDR") s1;
            StrConst (str "EMBED_FINGERPRINT") s2; StrConst (str "EMBED_SERVER_NAME") s3; ArgsConst a] =
  (ca ← included o1; sc ← included o2; sk ← included o3; cc ← included o4; ck ← included o5;
   Some (mkConstants s1 (mkEmbedded ca sc sk cc ck s2 s3 a))).
Proof. vm_compute. reflexivity. Qed.

(** The generated constants in full. *)
Definition lines_of (o : option (list bytes)) : list Const :=
  let path var := absolutize <$> set_var var in
  [BytesConst (str "EMBED_CA") (path "RUSNEL_EMBED_CA");
   BytesConst (str "EMBED_SERVER_CERT") (path "RUSNEL_EMBED_SERVER_CERT");
   BytesConst (str "EMBED_SERVER_KEY") (path "RUSNEL_EMBED_SERVER_KEY");
   BytesConst (str "EMBED_CLIENT_CERT") (path "RUSNEL_EMBED_CLIENT_CERT");
   BytesConst (str "EMBED_CLIENT_KEY") (path "RUSNEL_EMBED_CLIENT_KEY");
   StrConst (str "EMBED_SERVER_ADDR") (set_var "RUSNEL_EMBED_SERVER_ADDR");
   StrConst (str "EMBED_FINGERPRINT") (set_var "RUSNEL_EMBED_FINGERPRINT");
   StrConst (str "EMBED_SERVER_NAME") (set_var "RUSNEL_EMBED_SERVER_NAME"); ArgsConst o]%string.

Lemma build_main_inv g : build_main = Returns g → ∃ o, consts g = lines_of o ∧ embeds_args o.
Proof.
  unfold build_main. destruct (path_consts PATH_VARS) as [g1|] eqn:E1; [|done]. cbn [mbind panicking_bind].
  destruct args_const as [c|] eqn:E2; [|done]. cbn [mbind panicking_bind]. intros [= <-].
  apply args_const_inv in E2 as (o & -> & Ho). exists o. split; [|done]. cbn [consts].
  by rewrite (path_consts_inv _ _ E1).
Qed.

(** What a build bakes in. When the script succeeds and its output compiles, the
    binary holds, for every variable of its documentation, the contents of the file it
    names (relative to the manifest) or its value, and the arguments split as a shell
    would; a variable that is unset or empty leaves nothing. *)
Theorem build_embeds g k :
  build_main = Returns g → compiled (consts g) = Some k →
  let e := credentials k in
  embeds "RUSNEL_EMBED_CA" (EMBED_CA e) ∧ embeds "RUSNEL_EMBED_SERVER_CERT" (EMBED_SERVER_CERT e) ∧
  embeds "RUSNEL_EMBED_SERVER_KEY" (EMBED_SERVER_KEY e) ∧
  embeds "RUSNEL_EMBED_CLIENT_CERT" (EMBED_CLIENT_CERT e) ∧
  embeds "RUSNEL_EMBED_CLIENT_KEY" (EMBED_CLIENT_KEY e) ∧
  EMBED_SERVER_ADDR k = set_var "RUSNEL_EMBED_SERVER_ADDR" ∧
  EMBED_FINGERPRINT e = set_var "RUSNEL_EMBED_FINGERPRINT" ∧
  EMBED_SERVER_NAME e = set_var "RUSNEL_EMBED_SERVER_NAME" ∧ embeds_args (EMBED_ARGS e).
Proof.
  intros (o & -> & Ho)%build_main_inv Ek. unfold lines_of in Ek. rewrite compiled_lines in Ek.
  repeat (apply bind_Some in Ek as (? & ?%included_embeds & Ek)). injection Ek as <-. done.
Qed.

(** *** When the script fails *)

Lemma path_const_panics var :
  path_const var = Panics ↔ ∃ p, set_var var = Some p ∧ at_path (absolutize p) = None.
Proof.
  unfold path_const. destruct (set_var var) as [p|]; [|naive_solver].
  destruct (at_path (absolutize p)) eqn:E; naive_solver.
Qed.

Lemma path_consts_panics vars :
  path_consts vars = Panics ↔
  ∃ var p, var ∈ vars ∧ set_var var = Some p ∧ at_path (absolutize p) = None.
Proof.
  induction vars as [|var vars IH]; cbn [path_consts].
  { split; [done|]. intros (? & ? & ?%elem_of_nil & _). done. }
  pose proof (path_const_panics var) as Hv. setoid_rewrite elem_of_cons.
  destruct (path_const var) as [g|]; cbn [mbind panicking_bind].
  - destruct (path_consts vars); cbn [mbind panicking_bind]; naive_solver.
  - naive_solver.
Qed.

Lemma args_const_panics :
  args_const = Panics ↔
  ∃ s, env (str "RUSNEL_EMBED_ARGS") = Some s ∧ trim s ≠ [] ∧ shlex_split s = None.
Proof.
  unfold args_const. destruct (env _) as [s|]; [|naive_solver].
  case_decide; [naive_solver|]. destruct (shlex_split s) as [[]|] eqn:?; naive_solver.
Qed.

Lemma build_main_panics :
  build_main = Panics ↔ path_consts PATH_VARS = Panics ∨ args_const = Panics.
Proof.
  unfold build_main. destruct (path_consts PATH_VARS); cbn [mbind panicking_bind]; [|naive_solver].
  destruct args_const; cbn [mbind panicking_bind]; naive_solver.
Qed.

(** Embedding is opt-in. A build with none of the variables set (or with empty
    values) always succeeds, embeds nothing and needs no file; and the script fails
    exactly when a variable names a file that does not exist, or the arguments are not
    properly quoted. *)
Theorem build_opt_in :
  ((∀ var, var ∈ PATH_VARS ++ STRING_VARS → set_var var = None) →
   default [] (env (str "RUSNEL_EMBED_ARGS")) = [] →
   ∃ g k, build_main = Returns g ∧ compiled (consts g) = Some k ∧ any_embedded k = false) ∧
  (build_main = Panics ↔
     (∃ var p, var ∈ PATH_VARS ∧ set_var var = Some p ∧ at_path (absolutize p) = None) ∨
     (∃ s, env (str "RUSNEL_EMBED_ARGS") = Some s ∧ trim s ≠ [] ∧ shlex_split s = None)).
Proof.
  split.
  - intros Hunset Hargs.
    assert (env (str "RUSNEL_EMBED_ARGS") = None ∨ env (str "RUSNEL_EMBED_ARGS") = Some []) as Ha.
    { destruct (env _); [right|by left]. by simplify_eq/=. }
    destruct build_main as [g|] eqn:E.
    + destruct (build_main_inv g E) as (o & Eg & Ho).
      assert (o = None) as -> by (unfold embeds_args in Ho; by destruct Ha as [Ha|Ha]; rewrite Ha in Ho).
      eexists g, _. split; [done|]. rewrite Eg. unfold lines_of.
      rewrite !Hunset by in_list. by rewrite compiled_lines.
    + apply build_main_panics in E as [(v & p & Hv & E & _)%path_consts_panics|(s & E & Ht & _)%args_const_panics].
      * rewrite Hunset in E; [done|]. apply elem_of_app. by left.
      * destruct Ha as [Ha|Ha]; rewrite Ha in E; by simplify_eq.
  - by rewrite build_main_panics, path_consts_panics, args_const_panics.
Qed.

End script.

(** ** Examples *)

(** The words of a text without quoting. *)
Fixpoint words (acc s : bytes) : list bytes :=
  match s with
  | [] => if decide (acc = []) then [] else [rev acc]
  | c :: s => if decide (c = " "%char) then (if decide (acc = []) then [] else [rev acc]) ++ words [] s
              else words (c :: acc) s
  end.
Definition demo_split (s : bytes) : option (list bytes) := Some (words [] s).

Definition demo_env (var : bytes) : option bytes :=
  if decide (var = str "CARGO_MANIFEST_DIR") then Some (str "/src")
  else if decide (var = str "RUSNEL_EMBED_SERVER_CERT") then Some (str "server.pem")
  else if decide (var = str "RUSNEL_EMBED_SERVER_KEY") then Some (str "/keys/server.key")
  else if decide (var = str "RUSNEL_EMBED_CA") then Some []
  else if decide (var = str "RUSNEL_EMBED_ARGS") then Some (str "server --port 9000")
  else None.
Definition demo_tree (p : PathBuf) : option BuildNode :=
  if decide (p = str "/src/server.pem") then Some (BuildFile (str "CERT"))
  else if decide (p = str "/keys/server.key") then Some (BuildFile (str "KEY"))
  else if decide (p = str "/src") then Some BuildDir else None.
Definition demo_generated : Generated :=
  match build_main demo_env demo_tree demo_split with Returns g => g | Panics => mkGenerated [] [] end.
Definition demo_constants : Constants :=
  default (mkConstants None (mkEmbedded None None None None None None None None))
    (compiled demo_tree (consts demo_generated)).

Lemma build_embeds_witness :
  embeds demo_env demo_tree "RUSNEL_EMBED_SERVER_CERT" (Some (str "CERT")) ∧
  embeds_args demo_env demo_split (Some (str <$> ["server"; "--port"; "9000"]%string)).
Proof.
  destruct (build_embeds demo_env demo_tree demo_split demo_generated demo_constants)
    as (_ & H & _ & _ & _ & _ & _ & _ & Ha); [by vm_compute|by vm_compute|].
  split; [exact H|exact Ha].
Defined.

Lemma build_opt_in_witness :
  build_main (λ _, None) (λ _, None) (λ _, None) ≠ Panics ∧
  build_main demo_env (λ _, None) demo_split = Panics.
Proof.
  split.
  - destruct (proj1 (build_opt_in (λ _, None) (λ _, None) (λ _, None))) as (g & k & E & _); [done|done|].
    by rewrite E.
  - apply build_opt_in. left. exists "RUSNEL_EMBED_SERVER_CERT"%string, (str "server.pem").
    split; [in_list|by vm_compute].
Defined.
