(* ===== verification/Main.v ===== *)
(** * Main: from the shell to a configuration ([main] of [src/main.rs], [src/config_file.rs])

    The configuration file as serde reads it from TOML, and [main] itself: the argv with
    the embedded arguments, clap, the file, the embedded credentials and the merge, in
    the order of the code and with the files it writes. The TOML parser and clap are
    interfaces. *)

From S2P Require Import Prelude Text NetAddr Remote Proxy Tls Client Cli Cert Args Build.

(** ** The configuration file *)

(** [toml::Value]; floats and dates are never accepted by the schema. *)
#[local] Unset Elimination Schemes.
Inductive Toml :=
| TStr (s : bytes)
| TInt (z : Z)
| TBool (b : bool)
| TArray (l : list Toml)
| TTable (t : gmap bytes Toml)
| TOther.
#[local] Set Elimination Schemes.

Class TomlParser := {
  (** The document of a text, or the parser's error. *)
  toml_parse : bytes → result bytes (gmap bytes Toml);
  (** The text of the error for a document that does not fit the schema. *)
  schema_error : gmap bytes Toml → bytes;
  (** The variant a value names for an enum of unit variants: a string does. *)
  unit_variant : Toml → option bytes;
  unit_variant_str s : unit_variant (TStr s) = Some s }.

Record ConfigFile := mkConfigFile { cf_server : option ServerSection; cf_client : option ClientSection }.

Definition SERVER_KEYS : list string :=
  ["host"; "port"; "allow_reverse"; "allow_socks"; "insecure"; "tls_self_signed"; "tls_state_dir";
   "tls_cert"; "tls_key"; "tls_ca"; "congestion"; "max_connections"; "admin_socket"; "no_admin_socket";
   "log_format"; "verbose"; "debug"; "quiet"]%string.
Definition CLIENT_KEYS : list string :=
  ["server"; "remotes"; "insecure"; "tls_fingerprint"; "tls_ca"; "tls_cert"; "tls_key";
   "tls_server_name"; "congestion"; "max_retry_count"; "max_retry_interval"; "proxy"; "log_format";
   "verbose"; "debug"; "quiet"]%string.

(** [#[serde(deny_unknown_fields)]] *)
Definition only_keys (keys : list string) (t : gmap bytes Toml) : bool :=
  forallb (λ kv, bool_decide (kv.1 ∈ str <$> keys)) (map_to_list t).

Definition get_str (v : Toml) : option bytes := match v with TStr s => Some s | _ => None end.
Definition get_bool (v : Toml) : option bool := match v with TBool b => Some b | _ => None end.
Definition get_int (v : Toml) : option Z := match v with TInt z => Some z | _ => None end.
Definition get_uint (max : N) (v : Toml) : option N :=
  z ← get_int v; if decide (0 ≤ z ≤ Z.of_N max)%Z then Some (Z.to_N z) else None.
Definition get_ip (v : Toml) : option IpAddr := get_str v ≫= parse_ipaddr.
Definition get_strs (v : Toml) : option (list bytes) :=
  match v with TArray l => mapM get_str l | _ => None end.

(** An [Option] field: absent, or of its type. *)
Definition key {A} (get : Toml → option A) (t : gmap bytes Toml) (k : string) : option (option A) :=
  match t !! str k with None => Some None | Some v => Some <$> get v end.

Section config_file.
Context `{TomlParser, Faults}.

(** [#[serde(rename_all = "lowercase")]] of [CongestionStr] and [LogFormatStr], with the
    conversion of [src/main.rs]. *)
Definition get_congestion (v : Toml) : option Congestion := unit_variant v ≫= parse_congestion.
Definition get_log_format (v : Toml) : option LogFormat := unit_variant v ≫= parse_log_format.

Definition server_section (v : Toml) : option ServerSection :=
  t ← match v with TTable t => if only_keys SERVER_KEYS t then Some t else None | _ => None end;
  host ← key get_ip t "host"; port ← key (get_uint u16_max) t "port";
  allow_reverse ← key get_bool t "allow_reverse"; allow_socks ← key get_bool t "allow_socks";
  insecure ← key get_bool t "insecure"; tls_self_signed ← key get_bool t "tls_self_signed";
  tls_state_dir ← key get_str t "tls_state_dir"; tls_cert ← key get_str t "tls_cert";
  tls_key ← key get_str t "tls_key"; tls_ca ← key get_str t "tls_ca";
  congestion ← key get_congestion t "congestion";
  max_connections ← key (get_uint u64_max) t "max_connections";
  admin_socket ← key get_str t "admin_socket"; no_admin_socket ← key get_bool t "no_admin_socket";
  log_format ← key get_log_format t "log_format"; verbose ← key get_bool t "verbose";
  debug ← key get_bool t "debug"; quiet ← key get_bool t "quiet";
  Some (mkServerSection host port allow_reverse allow_socks insecure tls_self_signed tls_state_dir
    tls_cert tls_key tls_ca congestion max_connections admin_socket no_admin_socket verbose debug
    quiet log_format).

Definition client_section (v : Toml) : option ClientSection :=
  t ← match v with TTable t => if only_keys CLIENT_KEYS t then Some t else None | _ => None end;
  server ← key get_str t "server"; remotes ← key get_strs t "remotes";
  insecure ← key get_bool t "insecure"; tls_fingerprint ← key get_str t "tls_fingerprint";
  tls_ca ← key get_str t "tls_ca"; tls_cert ← key get_str t "tls_cert"; tls_key ← key get_str t "tls_key";
  tls_server_name ← key get_str t "tls_server_name"; congestion ← key get_congestion t "congestion";
  max_retry_count ← key get_int t "max_retry_count";
  max_retry_interval ← key (get_uint u64_max) t "max_retry_interval"; proxy ← key get_str t "proxy";
  log_format ← key get_log_format t "log_format"; verbose ← key get_bool t "verbose";
  debug ← key get_bool t "debug"; quiet ← key get_bool t "quiet";
  Some (mkClientSection server remotes insecure tls_fingerprint tls_ca tls_cert tls_key tls_server_name
    congestion max_retry_count max_retry_interval proxy verbose debug quiet log_format).

Definition config_of (t : gmap bytes Toml) : option ConfigFile :=
  if only_keys ["server"; "client"]%string t then
    server ← key server_section t "server"; client ← key client_section t "client";
    Some (mkConfigFile server client)
  else None.

(** [toml::from_str::<ConfigFile>] *)
Definition toml_from_str (raw : bytes) : result bytes ConfigFile :=
  t ← toml_parse raw; ok_or (config_of t) (schema_error t).

(** [config_file::load] *)
Definition load (path : PathBuf) : fs ConfigFile :=
  raw ← with_context (str "failed to read config file `" ++ path ++ str "`") (read_to_string path);
  fs_lift (map_err (λ e, str "invalid config file `" ++ path ++ str "`:" ++ octets [10] ++ e)
             (toml_from_str raw)).

End config_file.

(** ** [main] *)

(** What the process goes on with: the library's server or client, or one of the
    one-shot tools ([Ctl], [Cert]) with the rest of the argv. *)
Inductive Started :=
| RunServer (cfg : ServerConfig)
| RunClient (cfg : ClientConfig)
| RunTool (subcommand : bytes) (args : list bytes).

Section main.
Context `{Clap, TomlParser, Faults}.
Variable lookup : bytes → N → result bytes (list SocketAddr).
Variable home_dir : option PathBuf.
Variable euid pid : N.
Variable temp_dir : PathBuf.
Variable pkg_name : bytes.

Definition config_section {A} (proj : ConfigFile → option A) (config : option PathBuf) : fs (option A) :=
  match config with Some path => cf ← load path; mret (proj cf) | None => mret None end.

(** The rest of the server's arm, after the file was read. *)
Definition server_finish (e : Embedded) (cli : ServerCli) (section : option ServerSection)
    (matches : ArgMatches) : fs ServerConfig := λ st,
  let '(st', mat) := materialize_uncached e temp_dir pid st in
  (st', server_main home_dir euid cli (Ok section) matches mat).

(** The server's arm: an [Err] is what clap prints before the process exits. *)
Definition server_arm (e : Embedded) (args : list bytes) : fs ServerConfig :=
  m ← fs_lift (try_get_matches server_args args);
  '(config, cli) ← fs_lift (ok_or (server_of_matches m) (str "invalid value"));
  section ← config_section cf_server config;
  server_finish e cli section (sources m).

(** The client has checked its server and its remotes before it writes anything. *)
Definition client_ready (cli : ClientCli) (section : option ClientSection) (matches : ArgMatches) : bool :=
  match merge_client_with_file lookup cli section matches with
  | Ok c => bool_decide (is_Some (cc_server c)) && bool_decide (cc_remotes c ≠ [])
  | Err _ => false
  end.

Definition client_inputs (args : list bytes) : fs (Matches * ClientCli * option ClientSection) :=
  m ← fs_lift (try_get_matches (client_args lookup) args);
  '(config, cli) ← fs_lift (ok_or (client_of_matches lookup m) (str "invalid value"));
  section ← config_section cf_client config;
  mret (m, cli, section).

Definition client_arm (e : Embedded) (args : list bytes) (st : Files) :
    Files * panicking (result bytes ClientConfig) :=
  match client_inputs args st with
  | (st', Err err) => (st', Returns (Err err))
  | (st', Ok (m, cli, section)) =>
      let '(st'', mat) := if client_ready cli section (sources m)
                          then materialize_uncached e temp_dir pid st'
                          else (st', Err []) in
      (st'', client_main lookup e cli (Ok section) (sources m) mat)
  end.

Definition main (e : Embedded) (raw : list bytes) (st : Files) :
    Files * panicking (result bytes Started) :=
  match tail (resolve_argv pkg_name e raw) with
  | [] => (st, Returns (Err (str "a subcommand is required")))
  | sub :: args =>
      if decide (sub = str "server") then
        let '(st', r) := server_arm e args st in (st', Returns (RunServer <$> r))
      else if decide (sub = str "client") then
        let '(st', r) := client_arm e args st in
        (st', match r with Panics => Panics | Returns r => Returns (RunClient <$> r) end)
      else if decide (sub = str "cert" ∨ sub = str "ctl") then (st, Returns (Ok (RunTool sub args)))
      else (st, Returns (Err (str "unrecognized subcommand")))
  end.

End main.

(** ** The keys of the file and the flags *)

(** The key of an argument in the file: its long name in snake case, or the name of the
    positional. *)
Definition file_key (a : Arg) : bytes :=
  match arg_spelling a with
  | Long name _ => (λ c, if decide (c = "-"%char) then "_"%char else c) <$> str name
  | Positional => if decide (arg_id a = "remote"%string) then str "remotes" else str (arg_id a)
  end.
Definition file_keys (decls : list Arg) : list bytes :=
  file_key <$> filter (λ a, arg_id a ≠ "config"%string) decls.

(** The schema mirrors the flags one for one. *)
Lemma keys_mirror_flags lookup :
  (∀ k, k ∈ file_keys server_args ↔ k ∈ str <$> SERVER_KEYS) ∧
  (∀ k, k ∈ file_keys (client_args lookup) ↔ k ∈ str <$> CLIENT_KEYS).
Proof.
  assert (∀ A B : list bytes, bool_decide (Forall (.∈ B) A ∧ Forall (.∈ A) B) = true →
    ∀ k, k ∈ A ↔ k ∈ B) as Hsub.
  { intros A B [HA HB]%bool_decide_eq_true k. rewrite Forall_forall in HA, HB. split; auto. }
  split; refine (Hsub _ _ _); by vm_compute.
Qed.

(** ** What [main] starts is well formed *)

Section wf.
Context `{Clap, TomlParser, Faults}.
Variable lookup : bytes → N → result bytes (list SocketAddr).
Variable home_dir : option PathBuf.
Variable euid pid : N.
Variable temp_dir : PathBuf.
Variable pkg_name : bytes.

Lemma ok_Some {E A} (r : result E A) a : ok r = Some a ↔ r = Ok a.
Proof. destruct r; split; intros; by simplify_eq/=. Qed.

Lemma mapM_parsed {A} (parse : bytes → option A) l rs :
  mapM parse l = Some rs → Forall (λ r, ∃ s, parse s = Some r) rs.
Proof.
  intros E%mapM_Some. induction E as [|v r l rs Ev _ IH]; constructor; [by exists v|done].
Qed.

Lemma client_of_matches_parsed m config cli :
  client_of_matches lookup m = Some (config, cli) → cli_parsed lookup cli.
Proof.
  unfold client_of_matches. intros E.
  apply bind_Some in E as (server & Es & E). apply bind_Some in E as (remotes & Er & E).
  apply bind_Some in E as (? & _ & E). apply bind_Some in E as (? & _ & E).
  apply bind_Some in E as (d & Ed & E). apply bind_Some in E as (? & _ & E).
  apply bind_Some in E as (? & _ & E). injection E as <- <-. split_and!; cbn.
  - intros ep ->. unfold one_opt in Es. destruct (one m "server") as [s|]; [|done]. exists s.
    by apply fmap_Some in Es as (ep' & ?%ok_Some & [= ->]).
  - eapply Forall_impl; [by apply mapM_parsed in Er|]. intros r (s & Hs). exists s.
    unfold parse_remote in Hs. by apply ok_Some, map_err_Ok in Hs.
  - apply bind_Some in Ed as (s & _ & Ed%ok_Some). by exists s.
Qed.

Lemma key_uint max t k n : key (get_uint max) t k = Some (Some n) → n ≤ max.
Proof.
  unfold key, get_uint. destruct (t !! str k) as [v|]; [|done]. cbn.
  destruct (get_int v) as [z|]; [|done]. cbn. case_decide; [|done]. intros [= <-]. lia.
Qed.

Lemma client_section_width v : section_width (client_section v).
Proof.
  intros g secs E Hs. unfold client_section in E.
  apply bind_Some in E as (t & _ & E). do 10 (apply bind_Some in E as (? & _ & E)).
  apply bind_Some in E as (i & Ei & E). do 5 (apply bind_Some in E as (? & _ & E)).
  injection E as <-. cbn in Hs. subst i. by eapply key_uint.
Qed.

Lemma server_section_port v g p : server_section v = Some g → ss_port g = Some p → p ≤ u16_max.
Proof.
  unfold server_section. intros E Hp. apply bind_Some in E as (t & _ & E).
  apply bind_Some in E as (? & _ & E). apply bind_Some in E as (port & Eport & E).
  do 16 (apply bind_Some in E as (? & _ & E)). injection E as <-. cbn in Hp. subst port.
  by eapply key_uint.
Qed.

(** What [load] gives back was read through the schema. *)
Lemma load_sections path st st' cf :
  load path st = (st', Ok cf) →
  (∀ g, cf_server cf = Some g → ∃ v, server_section v = Some g) ∧
  (∀ g, cf_client cf = Some g → ∃ v, client_section v = Some g).
Proof.
  unfold load. intros (st1 & raw & _ & E)%fs_bind_inv. unfold fs_lift in E. injection E as _ E.
  apply map_err_Ok in E. unfold toml_from_str in E. destruct (toml_parse raw) as [t|]; [|done].
  cbn in E. destruct (config_of t) as [cf'|] eqn:Ec; [|done]. injection E as ->.
  unfold config_of in Ec. destruct (only_keys _ t); [|done].
  apply bind_Some in Ec as (sv & Es & Ec). apply bind_Some in Ec as (cl & Ecl & Ec). injection Ec as <-.
  cbn. unfold key in Es, Ecl. split; intros g ->.
  - destruct (t !! str "server") as [v|]; [|done]. exists v. by destruct (server_section v); simplify_eq/=.
  - destruct (t !! str "client") as [v|]; [|done]. exists v. by destruct (client_section v); simplify_eq/=.
Qed.

Lemma config_section_inv {A} (proj : ConfigFile → option A) config st st' section :
  config_section proj config st = (st', Ok section) →
  section = None ∨ ∃ cf, section = proj cf ∧
    (∀ g, cf_server cf = Some g → ∃ v, server_section v = Some g) ∧
    (∀ g, cf_client cf = Some g → ∃ v, client_section v = Some g).
Proof.
  destruct config as [path|]; cbn; [|intros [= _ <-]; by left].
  intros (st1 & cf & El%load_sections & E)%fs_bind_inv. injection E as _ <-. right. by exists cf.
Qed.

Lemma server_arm_inv e args st st' cfg :
  server_arm home_dir euid pid temp_dir e args st = (st', Ok cfg) →
  ∃ m config cli section mat, try_get_matches server_args args = Ok m ∧
    server_of_matches m = Some (config, cli) ∧
    (∀ g, section = Some g → ∃ v, server_section v = Some g) ∧
    server_main home_dir euid cli (Ok section) (sources m) mat = Ok cfg.
Proof.
  unfold server_arm. intros (st1 & m & Em & E)%fs_bind_inv. unfold fs_lift in Em. injection Em as <- Em.
  apply fs_bind_inv in E as (st2 & [config cli] & Ec & E). unfold fs_lift in Ec. injection Ec as <- Ec.
  apply fs_bind_inv in E as (st3 & section & Es%config_section_inv & E).
  unfold server_finish in E. destruct (materialize_uncached e temp_dir pid st3) as [st4 mat].
  injection E as _ E. exists m, config, cli, section, mat. split_and!; [done| |  |done].
  - by destruct (server_of_matches m); simplify_eq/=.
  - intros g ->. destruct Es as [|(cf & Eg & Hcf & _)]; [done|]. by apply Hcf.
Qed.

Lemma client_arm_inv e args st st' cfg :
  client_arm lookup pid temp_dir e args st = (st', Returns (Ok cfg)) →
  ∃ m config cli section mat, try_get_matches (client_args lookup) args = Ok m ∧
    client_of_matches lookup m = Some (config, cli) ∧ section_width section ∧
    client_main lookup e cli (Ok section) (sources m) mat = Returns (Ok cfg).
Proof.
  unfold client_arm. intros E.
  destruct (client_inputs lookup args st) as [st1 [[[m cli] section]|err]] eqn:Ep; [|done].
  apply fs_bind_inv in Ep as (st2 & m' & Em & Ep). unfold fs_lift in Em. injection Em as <- Em.
  apply fs_bind_inv in Ep as (st3 & [config cli'] & Ec & Ep). unfold fs_lift in Ec. injection Ec as <- Ec.
  apply fs_bind_inv in Ep as (st4 & section' & Es%config_section_inv & Ep). injection Ep as -> -> -> ->.
  destruct (if client_ready lookup cli section (sources m) then _ else _) as [st5 mat].
  injection E as _ E. exists m, config, cli, section, mat. split_and!; [done| | |done].
  - by destruct (client_of_matches lookup m); simplify_eq/=.
  - destruct Es as [->|(cf & -> & _ & Hcf)]; [done|]. intros g secs Eg Hs.
    destruct (Hcf g Eg) as (v & Hv). by eapply client_section_width.
Qed.

Lemma server_of_matches_port m config cli : server_of_matches m = Some (config, cli) → sc_port cli ≤ u16_max.
Proof.
  unfold server_of_matches. intros E. apply bind_Some in E as (? & _ & E).
  apply bind_Some in E as (port & Ep & E). repeat (apply bind_Some in E as (? & _ & E)).
  injection E as <- <-. cbn. apply bind_Some in Ep as (v & _ & Ep%ok_Some).
  by apply from_str_radix_le in Ep.
Qed.

Lemma server_main_wf cli section matches mat cfg :
  server_main home_dir euid cli (Ok section) matches mat = Ok cfg → sc_port cli ≤ u16_max →
  (∀ g p, section = Some g → ss_port g = Some p → p ≤ u16_max) →
  cfg_port cfg ≤ u16_max ∧ cfg_max_connections cfg ≠ Some 0.
Proof.
  unfold server_main. intros E Hc Hs. destruct_ok. cbn. split.
  - destruct section as [g|]; [|done]. cbn. unfold pick. destruct (cli_explicit _ _); [done|].
    destruct (ss_port g) as [p|] eqn:Ep; [by eapply Hs|done].
  - destruct (sc_max_connections _ =? 0) eqn:Hz; [done|]. intros [= Hn]. by rewrite Hn in Hz.
Qed.

(** C25: whatever the command line, the configuration file, the embedded credentials and
    the file system are, what the process goes on with is well formed: a server has a
    16-bit port and no connection cap of zero; a client has an address to connect to, at
    least one declaration, every declaration well formed whether it came from the
    command line or the file, a retry limit that fits its 32 bits and backoffs within
    the range of a duration. *)
Theorem main_starts_wf e raw st st' started :
  main lookup home_dir euid pid temp_dir pkg_name e raw st = (st', Returns (Ok started)) →
  match started with
  | RunServer cfg => cfg_port cfg ≤ u16_max ∧ cfg_max_connections cfg ≠ Some 0
  | RunClient cfg =>
      (∃ a, primary (ccfg_server cfg) = Returns a) ∧
      ccfg_remotes cfg ≠ [] ∧ Forall remote_wf (ccfg_remotes cfg) ∧
      (∀ n, max_retries (ccfg_reconnect cfg) = Some n → n ≤ u32_max) ∧
      initial_backoff (ccfg_reconnect cfg) ≤ DURATION_MAX ∧
      max_backoff (ccfg_reconnect cfg) ≤ DURATION_MAX
  | RunTool sub _ => sub = str "cert" ∨ sub = str "ctl"
  end.
Proof.
  unfold main. destruct (tail _) as [|sub args]; [done|]. repeat case_decide; [..|done].
  - destruct (server_arm _ _ _ _ _ _ _) as [st1 [cfg|]] eqn:E; [|done]. intros [= <- <-].
    apply server_arm_inv in E as (m & config & cli & section & mat & _ & Ec & Hs & E).
    eapply server_main_wf; [done|by eapply server_of_matches_port|].
    intros g p Eg. destruct (Hs g Eg) as (v & Hv). by eapply server_section_port.
  - destruct (client_arm _ _ _ _ _ _) as [st1 [[cfg|]|]] eqn:E; [|done..]. intros [= <- <-].
    apply client_arm_inv in E as (m & config & cli & section & mat & _ & Ec & Hw & E).
    eapply client_config_wf; [by eapply client_of_matches_parsed|done|done].
  - by intros [= <- <-].
Qed.

End wf.

(** ** Embedded builds *)

(** Names in one directory are distinct files. *)
Lemma join_inj dir a b :
  starts_with "/"%char a = false → starts_with "/"%char b = false → join dir a = join dir b → a = b.
Proof.
  unfold join. intros -> ->. case_decide; [done|]. destruct (ends_with _ dir); intros E.
  - by apply app_inv_head in E.
  - by apply app_inv_head, app_inv_head in E.
Qed.

Section materialized.
Context `{Faults}.
Hypothesis no_write_fault : ∀ p, write_fault p = None.
Hypothesis no_mkdir_fault : ∀ p, mkdir_fault p = None.
Hypothesis no_chmod_fault : ∀ p, chmod_fault p = None.

(** One embedded file on a disk without faults. *)
Lemma write_if_some_ok dir name b secret st :
  ∃ st', write_if_some dir name b secret st = (st', Ok ((λ _, join dir name) <$> b)) ∧
    (∀ p, p ≠ join dir name → st' !! p = st !! p) ∧
    (∀ c, b = Some c → ∃ f, st' !! join dir name = Some f ∧ contents f = c ∧
       (secret = true → mode f = 0x180)).
Proof.
  destruct b as [c|]; [|by exists st]. unfold write_if_some.
  assert (∀ q, put_file (join dir name) c st !! q =
    if decide (join dir name = q) then Some (mkFile c (from_option mode default_mode (st !! join dir name)))
    else st !! q) as Hput.
  { intros q. unfold put_file. case_decide; subst; [by rewrite lookup_insert_eq|by rewrite lookup_insert_ne]. }
  unfold mbind, fs_bind, with_context, fs_write, set_mode, mret, fs_ret. rewrite no_write_fault. cbn [map_err].
  destruct secret; cbn.
  - rewrite no_chmod_fault, Hput, decide_True by done. cbn. eexists. split; [done|]. split.
    + intros p Hp. by rewrite lookup_insert_ne, Hput, decide_False by done.
    + intros c' [= <-]. rewrite lookup_insert_eq. by eexists.
  - eexists. split; [done|]. split.
    + intros p Hp. by rewrite Hput, decide_False.
    + intros c' [= <-]. rewrite Hput, decide_True by done. by eexists.
Qed.

Definition embed_dir (temp_dir : PathBuf) (pid : N) : PathBuf :=
  join temp_dir (str "rusnel-embed-" ++ fmt_dec pid).

(** Every embedded file is on disk afterwards, the keys for the owner only. *)
Lemma materialize_ok e temp_dir pid st :
  any_byte_embedded e = true →
  let file name := join (embed_dir temp_dir pid) (str name) in
  ∃ st', materialize_uncached e temp_dir pid st =
      (st', Ok (mkMaterialized ((λ _, file "ca.pem") <$> EMBED_CA e)
         ((λ _, file "server.pem") <$> EMBED_SERVER_CERT e) ((λ _, file "server.key") <$> EMBED_SERVER_KEY e)
         ((λ _, file "client.pem") <$> EMBED_CLIENT_CERT e)
         ((λ _, file "client.key") <$> EMBED_CLIENT_KEY e))) ∧
    (∀ c, EMBED_CA e = Some c → contents <$> st' !! file "ca.pem" = Some c) ∧
    (∀ c, EMBED_SERVER_CERT e = Some c → contents <$> st' !! file "server.pem" = Some c) ∧
    (∀ c, EMBED_SERVER_KEY e = Some c → st' !! file "server.key" = Some (mkFile c 0x180)).
Proof.
  intros He file. unfold materialize_uncached. rewrite He. fold (embed_dir temp_dir pid).
  set (dir := embed_dir temp_dir pid) in *.
  assert (∀ a b, bool_decide (str a ≠ str b) && negb (starts_with "/"%char (str a)) &&
    negb (starts_with "/"%char (str b)) = true → file a ≠ file b) as Hne.
  { intros a b Hb Hj. apply andb_prop in Hb as [[Hn%bool_decide_eq_true Ha%negb_true_iff]%andb_prop Hb%negb_true_iff].
    by apply join_inj in Hj. }
  destruct (write_if_some_ok dir (str "ca.pem") (EMBED_CA e) false st) as (s1 & E1 & K1 & F1).
  destruct (write_if_some_ok dir (str "server.pem") (EMBED_SERVER_CERT e) false s1) as (s2 & E2 & K2 & F2).
  destruct (write_if_some_ok dir (str "server.key") (EMBED_SERVER_KEY e) true s2) as (s3 & E3 & K3 & F3).
  destruct (write_if_some_ok dir (str "client.pem") (EMBED_CLIENT_CERT e) false s3) as (s4 & E4 & K4 & F4).
  destruct (write_if_some_ok dir (str "client.key") (EMBED_CLIENT_KEY e) true s4) as (s5 & E5 & K5 & F5).
  exists s5. split_and!.
  - erewrite fs_bind_ok; [|by unfold with_context, create_dir_all; rewrite no_mkdir_fault].
    by rewrite (fs_bind_ok _ _ _ _ _ E1), (fs_bind_ok _ _ _ _ _ E2), (fs_bind_ok _ _ _ _ _ E3),
      (fs_bind_ok _ _ _ _ _ E4), (fs_bind_ok _ _ _ _ _ E5).
  - intros c (f & Hf & <- & _)%F1. rewrite K5, K4, K3, K2 by (by apply Hne). unfold file. by rewrite Hf.
  - intros c (f & Hf & <- & _)%F2. rewrite K5, K4, K3 by (by apply Hne). unfold file. by rewrite Hf.
  - intros c (f & Hf & <- & Hmode)%F3. rewrite K5, K4 by (by apply Hne). unfold file. rewrite Hf.
    destruct f. cbn in *. by rewrite Hmode.
Qed.

End materialized.

Section embedded_runs.
Context `{Clap, TomlParser, Faults}.
Variable lookup : bytes → N → result bytes (list SocketAddr).
Variable home_dir : option PathBuf.
Variable euid pid : N.
Variable temp_dir : PathBuf.
Variable pkg_name : bytes.
Variable env : bytes → option bytes.
Variable at_path : PathBuf → option BuildNode.
Variable shlex_split : bytes → option (list bytes).

Abbreviation run e raw st := (main lookup home_dir euid pid temp_dir pkg_name e raw st).

Definition without_args (e : Embedded) : Embedded :=
  mkEmbedded (EMBED_CA e) (EMBED_SERVER_CERT e) (EMBED_SERVER_KEY e) (EMBED_CLIENT_CERT e)
    (EMBED_CLIENT_KEY e) (EMBED_FINGERPRINT e) (EMBED_SERVER_NAME e) None.

Lemma main_explicit e raw st : (1 < length raw)%nat → run e raw st = run (without_args e) raw st.
Proof. intros Hl. unfold main, resolve_argv. by rewrite (proj2 (Nat.ltb_lt _ _) Hl). Qed.

(** A drop-and-run build. Built with [RUSNEL_EMBED_ARGS], the binary started
    without arguments does exactly what it does when the same arguments are typed, as
    the shell would split them; and any argument at run time turns the embedded ones
    off. *)
Theorem drop_and_run g k prog args s parts st :
  build_main env at_path shlex_split = Returns g → compiled at_path (consts g) = Some k →
  env (str "RUSNEL_EMBED_ARGS") = Some s → trim s ≠ [] → shlex_split s = Some parts → parts ≠ [] →
  run (credentials k) [prog] st = run (without_args (credentials k)) (prog :: parts) st ∧
  (args ≠ [] → run (credentials k) (prog :: args) st = run (without_args (credentials k)) (prog :: args) st).
Proof.
  intros (o & -> & Ho)%build_main_inv Hk Henv Htrim Hsplit Hparts.
  assert (EMBED_ARGS (credentials k) = Some parts) as Eargs.
  { unfold lines_of in Hk. rewrite compiled_lines in Hk.
    repeat (apply bind_Some in Hk as (? & _ & Hk)). injection Hk as <-. cbn.
    unfold embeds_args in Ho. rewrite Henv, decide_False in Ho by done.
    destruct Ho as (parts' & E & ->). rewrite Hsplit in E. injection E as <-. by rewrite decide_False. }
  split.
  - assert (run (credentials k) [prog] st = run (credentials k) (prog :: parts) st) as ->.
    { unfold main, resolve_argv. rewrite Eargs. by destruct parts. }
    apply main_explicit. destruct parts; [done|]. cbn. lia.
  - intros Ha. apply main_explicit. destruct args; [done|]. cbn. lia.
Qed.

(** C24: a server with embedded credentials. Built with a certificate and a key, the
    binary run as [server] without a TLS flag and without a configuration file starts
    on a disk without faults, and serves with the files it was built from: the
    certificate and the key it is configured with hold the bytes of the build, the key
    is readable by the owner only, and clients must have a certificate exactly when a
    CA was embedded too. *)
Theorem embedded_server_starts g k raw args m pc pk st :
  build_main env at_path shlex_split = Returns g → compiled at_path (consts g) = Some k →
  set_var env "RUSNEL_EMBED_SERVER_CERT" = Some pc → set_var env "RUSNEL_EMBED_SERVER_KEY" = Some pk →
  tail (resolve_argv pkg_name (credentials k) raw) = str "server" :: args →
  try_get_matches server_args args = Ok m →
  server_set_tls (sources m) = false → given m "config" = false →
  (∀ p, write_fault p = None) → (∀ p, mkdir_fault p = None) → (∀ p, chmod_fault p = None) →
  ∃ st' cfg cert key fc fk,
    run (credentials k) raw st = (st', Returns (Ok (RunServer cfg))) ∧
    at_path (absolutize env pc) = Some (BuildFile fc) ∧ at_path (absolutize env pk) = Some (BuildFile fk) ∧
    contents <$> st' !! cert = Some fc ∧ st' !! key = Some (mkFile fk 0x180) ∧
    match EMBED_CA (credentials k) with
    | None => cfg_tls cfg = Provided cert key
    | Some fa => ∃ ca, cfg_tls cfg = ServerMtls cert key ca ∧ contents <$> st' !! ca = Some fa
    end.
Proof.
  intros Hg Hk Hpc Hpk Hargv Hm Hset Hcfg Hw Hd Hc.
  assert (matched server_args m = true) as Hmm by (by eapply clap_matched).
  assert (∃ fc fk, EMBED_SERVER_CERT (credentials k) = Some fc ∧ EMBED_SERVER_KEY (credentials k) = Some fk ∧
    at_path (absolutize env pc) = Some (BuildFile fc) ∧ at_path (absolutize env pk) = Some (BuildFile fk))
    as (fc & fk & Efc & Efk & Hfc & Hfk).
  { apply build_main_inv in Hg as (o & Eg & _). rewrite Eg in Hk. unfold lines_of in Hk. rewrite compiled_lines in Hk.
    repeat (apply bind_Some in Hk as (? & ?%included_embeds & Hk)). injection Hk as <-. cbn.
    unfold embeds in *. rewrite Hpc, Hpk in *. naive_solver. }
  destruct (server_of_matched m Hmm) as [[config cli] Ecli].
  assert (config = None) as ->.
  { pose proof (option_given _ m Hmm 0 _ eq_refl eq_refl eq_refl) as E. cbn [arg_id opt] in E.
    rewrite Hcfg in E. unfold server_of_matches in Ecli.
    repeat (apply bind_Some in Ecli as (? & _ & Ecli)). injection Ecli as <- <-. done. }
  destruct (materialize_ok Hw Hd Hc (credentials k) temp_dir pid st) as (st' & Emat & Fa & Fc & Fk).
  { unfold any_byte_embedded. rewrite Efc. by rewrite !orb_true_r. }
  rewrite Efc, Efk in Emat. cbn [fmap option_fmap option_map] in Emat.
  destruct (server_no_tls_flags m None cli Hmm Hset Ecli) as (Ei & Es & Ec & Ek & _).
  unfold main. rewrite Hargv, decide_True by done. unfold server_arm.
  rewrite (fs_bind_ok _ _ st st m), (fs_bind_ok _ _ st st (None, cli)), (fs_bind_ok _ _ st st None)
    by (unfold fs_lift; by rewrite ?Hm, ?Ecli).
  unfold server_finish. rewrite Emat. unfold server_main. cbn [mbind result_bind map_err merge_server_with_file].
  rewrite Ei, Es, Ec, Ek. cbn [resolve_server_tls mat_server_cert mat_server_key mat_ca mbind result_bind].
  destruct (EMBED_CA (credentials k)) as [fa|]; cbn [fmap option_fmap option_map result_fmap].
  all: eexists st', _, _, _, fc, fk; split_and!; [done|done|done|by apply Fc|by apply Fk|].
  - eexists. split; [done|]. by apply Fa.
  - done.
Qed.

End embedded_runs.

(** ** Examples *)

Section instances.
#[local] Existing Instance scanning_clap.
#[local] Existing Instance no_faults.

(** A parser that knows one document. *)
#[local] Instance demo_toml : TomlParser.
Proof.
  refine {| toml_parse := λ raw, if decide (raw = []) then Ok ∅ else Ok {[ str "client" := TTable
                {[ str "server" := TStr (str "127.0.0.1:8080"); str "remotes" := TArray [TStr (str "3000")] ]} ]};
            schema_error := λ _, str "unknown field";
            unit_variant := λ v, match v with TStr s => Some s | _ => None end |}.
  done.
Defined.

Definition demo_run (e : Embedded) (raw : list string) (st : Files) :=
  main no_lookup None 0 7 (str "/tmp") (str "rusnel") e (str <$> raw) st.

(** A file for the client. *)
Definition demo_disk : Files := {[ str "c.toml" := mkFile (str "x") 0x1a4 ]}.

Lemma main_starts_wf_witness :
  ∃ st' cfg, demo_run not_embedded ["rusnel"; "client"; "--config"; "c.toml"; "--insecure"] demo_disk =
      (st', Returns (Ok (RunClient cfg))) ∧ ccfg_remotes cfg ≠ [] ∧ Forall remote_wf (ccfg_remotes cfg).
Proof.
  destruct (demo_run not_embedded ["rusnel"; "client"; "--config"; "c.toml"; "--insecure"] demo_disk)
    as [st' r] eqn:E.
  assert (∃ cfg, r = Returns (Ok (RunClient cfg))) as [cfg ->].
  { apply (f_equal snd) in E. cbn [snd] in E. rewrite <-E. eexists. vm_compute. reflexivity. }
  exists st', cfg. split; [reflexivity|].
  pose proof (main_starts_wf no_lookup None 0 7 (str "/tmp") (str "rusnel") not_embedded _ _ _ _ E)
    as (_ & Hne & Hwf & _). split; [exact Hne|exact Hwf].
Defined.

Lemma drop_and_run_witness :
  demo_run (credentials demo_constants) ["rusnel"] ∅ =
  demo_run (without_args (credentials demo_constants)) ["rusnel"; "server"; "--port"; "9000"] ∅.
Proof.
  refine (proj1 (drop_and_run no_lookup None 0 7 (str "/tmp") (str "rusnel") demo_env demo_tree demo_split
    demo_generated demo_constants (str "rusnel") [] (str "server --port 9000")
    [str "server"; str "--port"; str "9000"] ∅ _ _ _ _ _ _)).
  - vm_cast_no_check (eq_refl (Returns demo_generated)).
  - vm_cast_no_check (eq_refl (Some demo_constants)).
  - reflexivity.
  - done.
  - reflexivity.
  - done.
Defined.

Lemma embedded_server_starts_witness :
  ∃ st' cfg cert key, demo_run (credentials demo_constants) ["rusnel"] ∅ =
      (st', Returns (Ok (RunServer cfg))) ∧ cfg_tls cfg = Provided cert key ∧
      contents <$> st' !! cert = Some (str "CERT") ∧ st' !! key = Some (mkFile (str "KEY") 0x180).
Proof.
  destruct (embedded_server_starts no_lookup None 0 7 (str "/tmp") (str "rusnel") demo_env demo_tree demo_split
    demo_generated demo_constants [str "rusnel"] (str <$> ["--port"; "9000"]%string)
    (argv_matches server_args (str <$> ["--port"; "9000"]%string)) (str "server.pem") (str "/keys/server.key") ∅)
    as (st' & cfg & cert & key & fc & fk & E & Hc & Hk & Fc & Fk & Hm);
    [by vm_compute|by vm_compute|by vm_compute|by vm_compute|by vm_compute| |by vm_compute|by vm_compute
    |done|done|done|].
  - vm_cast_no_check (eq_refl (try_get_matches server_args (str <$> ["--port"; "9000"]%string))).
  - exists st', cfg, cert, key. injection Hc as <-. injection Hk as <-.
    split_and!; [exact E|exact Hm|exact Fc|exact Fk].
Defined.

End instances.
