(* ===== verification/Service.v ===== *)
(** * Service: the life of a server process ([run_async] of [src/server/mod.rs],
      [serve] and [bind] of [src/server/admin.rs])

    The start of a server with the endpoint it creates, the accept loop of [Server] with
    its ^C branch, the admin task beside it and the unix socket both leave on the file
    system. A socket is a file whose contents name the process that listens on it. The
    admin task binds its socket with several system calls in one poll, on another thread
    than the loop: those calls, connections, signals and the steps of the shutdown come in
    any order. *)

From S2P Require Import Prelude Text NetAddr Tls Cli Server Ctl Cert.

Class SocketFaults := {
  remove_fault : PathBuf → option bytes;
  bind_fault : PathBuf → option bytes;
  metadata_fault : PathBuf → option bytes;
  socket_mode : N  (** what the umask leaves of a new socket's mode *) }.

Section sockets.
Context `{Faults, SocketFaults}.

(** [std::fs::remove_file] *)
Definition remove_file (p : PathBuf) : fs unit := λ st,
  match remove_fault p, st !! p with
  | Some e, _ => (st, Err e)
  | None, Some _ => (delete p st, Ok tt)
  | None, None => (st, Err (str "No such file or directory (os error 2)"))
  end.

(** [UnixListener::bind]: the path must be free. *)
Definition unix_bind (owner : bytes) (p : PathBuf) : fs unit := λ st,
  match bind_fault p, st !! p with
  | Some e, _ => (st, Err e)
  | None, Some _ => (st, Err (str "Address already in use (os error 98)"))
  | None, None => (<[p := mkFile owner socket_mode]> st, Ok tt)
  end.

(** [std::fs::metadata] *)
Definition metadata (p : PathBuf) : fs N := λ st,
  (st, match metadata_fault p, st !! p with
       | Some e, _ => Err e
       | None, Some f => Ok (mode f)
       | None, None => Err (str "No such file or directory (os error 2)")
       end).

(** [Path::parent] *)
Variable parent : PathBuf → option PathBuf.

Definition when (b : bool) (m : fs unit) : fs unit := if b then m else mret tt.

(** [admin::bind], by whether the path exists. *)
Definition bind_steps (stale : bool) (owner : bytes) (path : PathBuf) : fs unit :=
  when stale (with_context (str "removing stale admin socket " ++ path) (remove_file path));;
  match parent path with
  | Some dir =>
      when (bool_decide (dir ≠ []))
        (with_context (str "creating admin socket directory " ++ dir) (create_dir_all dir))
  | None => mret tt
  end;;
  with_context (str "binding admin socket " ++ path) (unix_bind owner path);;
  metadata path;;
  with_context (str "chmod 0600 " ++ path) (set_mode path 0x180).

Definition bind (owner : bytes) (path : PathBuf) : fs unit := λ st,
  bind_steps (exists_file path st) owner path st.

(** [admin::bind] call by call: where the poll of the admin task is. *)
Inductive BindPc := BExists | BRemove | BMkdir | BListen | BStat | BChmod.

Definition bind_call (owner : bytes) (path : PathBuf) (pc : BindPc) : fs (option BindPc) :=
  match pc with
  | BExists => λ st, (st, Ok (Some (if exists_file path st then BRemove else BMkdir)))
  | BRemove => with_context (str "removing stale admin socket " ++ path) (remove_file path);; mret (Some BMkdir)
  | BMkdir =>
      match parent path with
      | Some dir =>
          when (bool_decide (dir ≠ []))
            (with_context (str "creating admin socket directory " ++ dir) (create_dir_all dir))
      | None => mret tt
      end;;
      mret (Some BListen)
  | BListen => with_context (str "binding admin socket " ++ path) (unix_bind owner path);; mret (Some BStat)
  | BStat => metadata path;; mret (Some BChmod)
  | BChmod => with_context (str "chmod 0600 " ++ path) (set_mode path 0x180);; mret None
  end.

Fixpoint bind_calls (fuel : nat) (owner : bytes) (path : PathBuf) (pc : BindPc) : fs unit :=
  match fuel with
  | O => mret tt
  | S fuel =>
      next ← bind_call owner path pc;
      match next with Some pc => bind_calls fuel owner path pc | None => mret tt end
  end.

(** Without interruption the calls are [bind]. *)
Lemma bind_calls_bind o path st : bind_calls 6 o path BExists st = bind o path st.
Proof.
  unfold bind, bind_steps. cbn [bind_calls]. unfold mbind, fs_bind, mret, fs_ret. cbn [bind_call].
  destruct (exists_file path st); cbn [when bind_call];
    unfold mbind, fs_bind, mret, fs_ret;
    repeat match goal with
      | |- context [match ?m ?s with (_, _) => _ end] =>
          destruct (m s) as [? [?|?]]; cbn [bind_call]; unfold mbind, fs_bind, mret, fs_ret
      end; by repeat match goal with u : () |- _ => destruct u end.
Qed.

(** ** Serving *)

(** [accept_loop]: what [listener.accept] answers in turn; the streams handed to the
    HTTP server, and the result of the loop, [None] while it goes on. *)
Fixpoint accept_loop {Stream} (answers : list (result bytes Stream)) : list Stream * option (result bytes unit) :=
  match answers with
  | [] => ([], None)
  | Err _ :: answers => accept_loop answers
  | Ok stream :: answers => let '(served, r) := accept_loop answers in (stream :: served, r)
  end.

(** [admin::serve] *)
Definition serve {Stream} (owner : bytes) (path : PathBuf) (answers : list (result bytes Stream)) (st : Files) :
    Files * list Stream * option (result bytes unit) :=
  match bind owner path st with
  | (st, Err e) => (st, [], Some (Err e))
  | (st, Ok _) =>
      match accept_loop answers with
      | (served, None) => (st, served, None)
      | (served, Some r) => ((remove_file path st).1, served, Some r)
      end
  end.

(** The API is served on every stream that is accepted, errors of [accept] in between
    do not end it, and it never returns once the socket is bound: the removal of the
    socket after the loop is not reached. *)
Theorem serve_never_returns {Stream} o path (answers : list (result bytes Stream)) st st' :
  bind o path st = (st', Ok tt) → serve o path answers st = (st', omap ok answers, None).
Proof.
  intros Hb. unfold serve. rewrite Hb.
  assert (accept_loop answers = (omap ok answers, None)) as ->; [|done].
  induction answers as [|[x|e] answers IH]; cbn; [done| |done]. by rewrite IH.
Qed.

(** ** The process *)

Definition CLOSE_CODE_SERVER_SHUTDOWN : N := 0.

(** The task [spawn_admin] makes: not polled yet, in the middle of [bind], serving, ended
    with a logged error, or cancelled. *)
Inductive AdminTask := AdminSpawned | AdminBinding (pc : BindPc) | AdminServing | AdminExited (e : bytes) | AdminAborted.

Context `{Semaphore, Pki}.
(** [quinn::Endpoint::server], and [local_addr] of the endpoint. *)
Variable endpoint_server : TlsServerConfig → TransportConfig → SocketAddr → result bytes unit.
Variable local_addr : result bytes SocketAddr.

(** [admin_cancelled]: [h.abort()] was called; [caught_binding]: it found the task in the
    middle of [bind]. *)
Record Process := mkProcess {
  owner : bytes;
  listen_addr : SocketAddr;
  admin_socket : option PathBuf;
  admin_handle : option AdminTask;
  acceptor : Acceptor;
  endpoint_closed : option (N * bytes);
  admin_cancelled : bool;
  caught_binding : bool;
  exited : option (result bytes unit) }.

Definition set_admin (t : option AdminTask) (p : Process) : Process :=
  mkProcess (owner p) (listen_addr p) (admin_socket p) t (acceptor p) (endpoint_closed p) (admin_cancelled p)
    (caught_binding p) (exited p).
Definition set_acceptor (a : Acceptor) (p : Process) : Process :=
  mkProcess (owner p) (listen_addr p) (admin_socket p) (admin_handle p) a (endpoint_closed p) (admin_cancelled p)
    (caught_binding p) (exited p).
Definition set_exited (r : result bytes unit) (p : Process) : Process :=
  mkProcess (owner p) (listen_addr p) (admin_socket p) (admin_handle p) (acceptor p) (endpoint_closed p)
    (admin_cancelled p) (caught_binding p) (Some r).

(** [run_async] up to its loop: an [Err] is what the process ends with. *)
Definition run_async (config : ServerConfig) (owner : bytes) (generated : result bytes Generated) : fs Process :=
  tls ← create_server_endpoint generated (cfg_tls config);
  fs_lift (endpoint_server tls (build_transport_config (cfg_congestion config))
             (socket_addr_new (cfg_host config) (cfg_port config)));;
  listen_addr ← fs_lift local_addr;
  mret (mkProcess owner listen_addr (cfg_admin_socket config)
          ((λ _, AdminSpawned) <$> cfg_admin_socket config) (acceptor_new (cfg_max_connections config))
          None false false None).

Inductive ServiceEvent :=
| AdminPolled
| BindCall
| Incoming
| TaskEnded (id : N)
| CtrlC
| Drained
| Unlinked
| EndpointDone.

(** The ^C branch of the loop: the endpoint is closed; once it is idle the admin task is
    aborted, which ends it at its next await point and does not wait for it; then the
    socket is removed and the process returns. *)
Definition ctrl_c (p : Process) : Process :=
  mkProcess (owner p) (listen_addr p) (admin_socket p) (admin_handle p) (acceptor p)
    (Some (CLOSE_CODE_SERVER_SHUTDOWN, str "server received ^C")) (admin_cancelled p) (caught_binding p) None.

Definition abort_admin (t : AdminTask) : AdminTask :=
  match t with AdminSpawned | AdminServing => AdminAborted | _ => t end.

Definition drained (p : Process) : Process :=
  mkProcess (owner p) (listen_addr p) (admin_socket p) (abort_admin <$> admin_handle p) (acceptor p)
    (endpoint_closed p) true (match admin_handle p with Some (AdminBinding _) => true | _ => false end) (exited p).

Definition unlinked (p : Process) (st : Files) : Process * Files :=
  (set_exited (Ok tt) p,
   match admin_socket p with Some path => (remove_file path st).1 | None => st end).

(** How the poll of the admin task goes on after a call of [bind]. *)
Definition after_call (cancelled : bool) (r : result bytes (option BindPc)) : AdminTask :=
  match r with
  | Ok (Some pc) => AdminBinding pc
  | Ok None => if cancelled then AdminAborted else AdminServing
  | Err e => AdminExited e
  end.

(** A call of [bind] may still come when the process has returned: the runtime waits for
    the polls that are under way. *)
Definition service_step (e : ServiceEvent) (p : Process) (st : Files) : option (Process * Files) :=
  match e, exited p, endpoint_closed p with
  | AdminPolled, None, _ =>
      match admin_handle p with
      | Some AdminSpawned => Some (set_admin (Some (AdminBinding BExists)) p, st)
      | _ => None
      end
  | BindCall, _, _ =>
      match admin_handle p, admin_socket p with
      | Some (AdminBinding pc), Some path =>
          let '(st', r) := bind_call (owner p) path pc st in
          Some (set_admin (Some (after_call (admin_cancelled p) r)) p, st')
      | _, _ => None
      end
  | Incoming, None, None => Some (set_acceptor (accept (acceptor p)).1 p, st)
  | TaskEnded id, _, _ =>
      if decide (id ∈ running (acceptor p)) then Some (set_acceptor (finish id (acceptor p)) p, st) else None
  | CtrlC, None, None => Some (ctrl_c p, st)
  | Drained, None, Some _ => if admin_cancelled p then None else Some (drained p, st)
  | Unlinked, None, Some _ => if admin_cancelled p then Some (unlinked p st) else None
  | EndpointDone, None, None => Some (set_exited (Ok tt) p, st)
  | _, _, _ => None
  end.

Fixpoint service_run (es : list ServiceEvent) (p : Process) (st : Files) : option (Process * Files) :=
  match es with
  | [] => Some (p, st)
  | e :: es => '(p, st) ← service_step e p st; service_run es p st
  end.

(** ** The files of the start *)

(** The files in which a self-signed server keeps its identity. *)
Definition identity_files (tls : ServerTlsConfig) : list PathBuf :=
  match tls with
  | SelfSigned dir => [join dir (str "server.pem"); join dir (str "server.key")]
  | _ => []
  end.

#[export] Instance touches_load_certs (P : list PathBuf) q : Touches (load_pem_certs q) P.
Proof. unfold load_pem_certs. repeat (apply touches_bind; [apply _|intros]). case_decide; apply _. Qed.
#[export] Instance touches_load_identity (P : list PathBuf) c k : Touches (load_pem_identity c k) P.
Proof. unfold load_pem_identity. apply _. Qed.
#[export] Instance touches_add_roots (P : list PathBuf) p roots certs : Touches (add_roots p roots certs) P.
Proof. revert roots. induction certs as [|c certs IH]; intros roots; apply _. Qed.
#[export] Instance touches_root_store (P : list PathBuf) p : Touches (load_root_store p) P.
Proof. unfold load_root_store. apply _. Qed.

Lemma touches_if {A : Type} (b : Files → bool) (m1 m2 : fs A) P :
  Touches m1 P → Touches m2 P → Touches (λ st, if b st then m1 st else m2 st) P.
Proof. intros Ht Hf st q Hq. destruct (b st); [by apply Ht|by apply Hf]. Qed.

Lemma touches_endpoint generated tls : Touches (create_server_endpoint generated tls) (identity_files tls).
Proof.
  unfold create_server_endpoint. apply touches_bind; [|intros id; unfold build_quic_server_config; destruct tls; apply _].
  destruct tls as [|dir|cert key|cert key ca]; cbn [load_server_identity identity_files];
    [unfold generate_ephemeral_self_signed; apply _| |apply _..].
  unfold load_or_create_self_signed, write_secret_file. apply touches_if; apply _.
Qed.

Lemma touches_start config o generated : Touches (run_async config o generated) (identity_files (cfg_tls config)).
Proof. unfold run_async. apply touches_bind; [apply touches_endpoint|intros; apply _]. Qed.

(** ** Binding *)

#[export] Instance touches_remove (P : list PathBuf) q : TCElemOf q P → Touches (remove_file q) P.
Proof.
  intros HP%TCElemOf_in st p Hp. assert (q ≠ p) by (by intros ->).
  unfold remove_file. destruct (remove_fault q), (st !! q); simpl; by rewrite ?lookup_delete_ne.
Qed.
#[export] Instance touches_unix_bind (P : list PathBuf) o q : TCElemOf q P → Touches (unix_bind o q) P.
Proof.
  intros HP%TCElemOf_in st p Hp. assert (q ≠ p) by (by intros ->).
  unfold unix_bind. destruct (bind_fault q), (st !! q); simpl; by rewrite ?lookup_insert_ne.
Qed.
#[export] Instance touches_metadata (P : list PathBuf) q : Touches (metadata q) P.
Proof. by intros st p _. Qed.

#[export] Instance touches_when (P : list PathBuf) b m : Touches m P → Touches (when b m) P.
Proof. by destruct b. Qed.

(** A call of [bind] changes nothing but the path, whatever fails. *)
Lemma bind_call_touches o path pc : Touches (bind_call o path pc) [path].
Proof. destruct pc; cbn [bind_call]; [by intros st p _|..]; [|destruct (parent path)|..]; apply _. Qed.

(** What is at the path while the calls of [bind] go on and nobody else removes it. *)
Definition bound_so_far (o : bytes) (before now : option File) (pc : BindPc) : Prop :=
  match pc with
  | BExists | BRemove => now = before
  | BMkdir | BListen => True
  | BStat | BChmod => now = Some (mkFile o socket_mode)
  end.

Lemma bind_call_next o path pc st st' next before :
  bound_so_far o before (st !! path) pc → bind_call o path pc st = (st', Ok next) →
  match next with
  | Some pc' => bound_so_far o before (st' !! path) pc'
  | None => st' !! path = Some (mkFile o 0x180)
  end.
Proof.
  intros Hb E. destruct pc; cbn [bind_call] in E.
  - injection E as <- <-. by destruct (exists_file path st).
  - by apply fs_bind_inv in E as (? & ? & _ & [= <- <-]).
  - by apply fs_bind_inv in E as (? & ? & _ & [= <- <-]).
  - apply fs_bind_inv in E as (s1 & [] & E1 & [= <- <-]). apply with_context_inv in E1. unfold unix_bind in E1.
    destruct (bind_fault path), (st !! path); [done..|]. injection E1 as <-. apply lookup_insert_eq.
  - apply fs_bind_inv in E as (s1 & m & E1 & [= <- <-]). unfold metadata in E1. by injection E1 as <- _.
  - apply fs_bind_inv in E as (s1 & [] & E1 & [= <- <-]). apply with_context_inv in E1. unfold set_mode in E1.
    cbn in Hb. rewrite Hb in E1. destruct (chmod_fault path); [done|]. injection E1 as <-. apply lookup_insert_eq.
Qed.

(** When [bind] succeeds, the socket is this process's and for its owner only. *)
Lemma bind_Ok o path st st' : bind o path st = (st', Ok tt) → st' !! path = Some (mkFile o 0x180).
Proof.
  unfold bind, bind_steps. intros E.
  apply fs_bind_inv in E as (s1 & [] & _ & E). apply fs_bind_inv in E as (s2 & [] & _ & E).
  apply fs_bind_inv in E as (s3 & [] & Eb & E). apply fs_bind_inv in E as (s4 & m & Em & E).
  apply with_context_inv in Eb, E. unfold unix_bind in Eb.
  destruct (bind_fault path), (s2 !! path); [done..|]. injection Eb as <-.
  unfold metadata in Em. injection Em as <- _. unfold set_mode in E. destruct (chmod_fault path); [done|].
  rewrite lookup_insert_eq in E. injection E as <-. by rewrite lookup_insert_eq.
Qed.

(** ** Invariant of a process *)

(** The connections a run accepts depend on nothing but the connections. *)
Fixpoint accepts (es : list ServiceEvent) (a : Acceptor) : Acceptor :=
  match es with
  | [] => a
  | Incoming :: es => accepts es (accept a).1
  | TaskEnded id :: es => accepts es (finish id a)
  | _ :: es => accepts es a
  end.

(** The socket, as long as the process has not removed it; and after that, unless the
    admin task was caught in the middle of [bind]. *)
Definition socket_state (st0 : Files) (p : Process) (st : Files) : Prop :=
  ∀ path, admin_socket p = Some path →
    match exited p, endpoint_closed p with
    | Some _, Some _ => caught_binding p = false → remove_fault path = None → st !! path = None
    | _, _ =>
        match admin_handle p with
        | Some AdminSpawned => st !! path = st0 !! path
        | Some (AdminBinding pc) => bound_so_far (owner p) (st0 !! path) (st !! path) pc
        | Some AdminServing => st !! path = Some (mkFile (owner p) 0x180)
        | _ => True
        end
    end.

(** A task whose next poll does nothing any more. *)
Definition admin_over (t : AdminTask) : Prop :=
  match t with AdminExited _ | AdminAborted => True | _ => False end.

Record service_inv (st0 : Files) (p : Process) (st : Files) : Prop := {
  inv_others : ∀ q, admin_socket p ≠ Some q → st !! q = st0 !! q;
  inv_socket : socket_state st0 p st;
  inv_handle : is_Some (admin_handle p) ↔ is_Some (admin_socket p);
  inv_exit : ∀ r, exited p = Some r → r = Ok tt;
  inv_cancelled : admin_cancelled p = true → is_Some (endpoint_closed p) ∧
    ∀ t, admin_handle p = Some t → admin_over t ∨ caught_binding p = true ∧ ∃ pc, t = AdminBinding pc;
  inv_caught : caught_binding p = true → admin_cancelled p = true;
  inv_closed : ∀ c, endpoint_closed p = Some c →
    c = (CLOSE_CODE_SERVER_SHUTDOWN, str "server received ^C") ∧
    (is_Some (exited p) → admin_cancelled p = true) }.

Lemma start_inv config o generated st0 st p :
  run_async config o generated st0 = (st, Ok p) →
  service_inv st p st ∧ p = mkProcess o (listen_addr p) (cfg_admin_socket config)
    ((λ _, AdminSpawned) <$> cfg_admin_socket config) (acceptor_new (cfg_max_connections config)) None false false None.
Proof.
  unfold run_async. intros E. apply fs_bind_inv in E as (st1 & tls & _ & E).
  apply fs_bind_inv in E as (st2 & [] & E1 & E). unfold fs_lift in E1. injection E1 as <- _.
  apply fs_bind_inv in E as (st3 & addr & E1 & E). injection E1 as <- _. injection E as <- <-.
  split; [|done]. split; cbn; try done.
  - intros path Hp. cbn in Hp. by rewrite Hp.
  - by rewrite fmap_is_Some.
Qed.

Lemma service_inv_acceptor st0 p st a : service_inv st0 p st → service_inv st0 (set_acceptor a p) st.
Proof. by intros []; split. Qed.

(** A call of [bind], before or after the task was aborted. *)
Lemma service_inv_call st0 p st path pc st' r :
  service_inv st0 p st → admin_handle p = Some (AdminBinding pc) → admin_socket p = Some path →
  bind_call (owner p) path pc st = (st', r) →
  service_inv st0 (set_admin (Some (after_call (admin_cancelled p) r)) p) st'.
Proof.
  intros [Ho Hsock Hh He Hab Hca Hc] Ha Hp Hb. pose proof (bind_call_touches (owner p) path pc st) as Ht.
  rewrite Hb in Ht. cbn [fst] in Ht. split; cbn; try done.
  - intros q Hq. rewrite Ht; [by apply Ho|]. rewrite list_elem_of_singleton. congruence.
  - intros path' Hp'. cbn in Hp'. rewrite Hp in Hp'. injection Hp' as <-. specialize (Hsock path Hp). cbn.
    destruct (exited p) eqn:Hx, (endpoint_closed p) as [c|] eqn:Hcl.
    { destruct (Hc c eq_refl) as [_ Hcan]. specialize (Hcan ltac:(done)). destruct (Hab Hcan) as [_ Ht'].
      destruct (Ht' _ Ha) as [[]|[-> _]]. done. }
    all: rewrite Ha in Hsock; destruct r as [next|e]; cbn [after_call]; [|done];
      pose proof (bind_call_next _ _ _ _ _ _ _ Hsock Hb) as Hn; destruct next as [pc'|]; [exact Hn|];
      by destruct (admin_cancelled p).
  - intros Hcan. destruct (Hab Hcan) as [? Ht']. split; [done|]. intros t [= <-]. rewrite Hcan.
    destruct (Ht' _ Ha) as [[]|[Hca' _]]. destruct r as [[pc'|]|e]; cbn; [right; by eauto|by left..].
Qed.

Lemma service_inv_step st0 e p st p' st' :
  service_inv st0 p st → service_step e p st = Some (p', st') → service_inv st0 p' st'.
Proof.
  intros Hi Hs. unfold service_step in Hs. destruct e as [| | |id| | | |].
  - destruct (exited p) eqn:Hx; [done|]. destruct Hi as [Ho Hsock Hh He Hab Hca Hc].
    destruct (admin_handle p) as [[]|] eqn:Ha; try done. injection Hs as <- <-. split; cbn; try done.
    + intros path Hp. specialize (Hsock path Hp). cbn. by rewrite Hx, Ha in *.
    + by rewrite <-Hh.
    + intros Hcan. destruct (Hab Hcan) as [_ Ht]. destruct (Ht _ eq_refl) as [[]|(_ & pc & [=])].
  - destruct (admin_handle p) as [[]|] eqn:Ha; try (by destruct (exited p), (endpoint_closed p)).
    destruct (admin_socket p) as [path|] eqn:Hp; [|by destruct (exited p), (endpoint_closed p)].
    destruct (bind_call (owner p) path pc st) as [st1 r] eqn:Hb.
    assert (Some (set_admin (Some (after_call (admin_cancelled p) r)) p, st1) = Some (p', st')) as [= <- <-]
      by (by destruct (exited p), (endpoint_closed p)).
    by eapply service_inv_call.
  - destruct (exited p), (endpoint_closed p); try done. injection Hs as <- <-. by apply service_inv_acceptor.
  - case_decide; [|done]. injection Hs as <- <-. by apply service_inv_acceptor.
  - destruct (exited p) eqn:Hx, (endpoint_closed p) eqn:Hcl; try done. injection Hs as <- <-.
    destruct Hi as [Ho Hsock Hh He Hab Hca Hc]. split; cbn; try done.
    + intros path Hp. specialize (Hsock path Hp). cbn. by rewrite Hx in Hsock.
    + intros Hcan. destruct (Hab Hcan) as [[c Hcl'] _]. congruence.
    + intros c [= <-]. split; [done|]. by intros [].
  - destruct (exited p) eqn:Hx, (endpoint_closed p) as [cr|] eqn:Hcl; try done.
    destruct (admin_cancelled p) eqn:Hcan; [done|]. injection Hs as <- <-.
    destruct Hi as [Ho Hsock Hh He Hab Hca Hc]. split; cbn; try done.
    + intros path Hp. specialize (Hsock path Hp). cbn. rewrite Hx, Hcl in *.
      by destruct (admin_handle p) as [[]|].
    + by rewrite fmap_is_Some.
    + intros _. rewrite Hcl. split; [done|]. intros t Ht. destruct (admin_handle p) as [t0|]; [|done].
      injection Ht as <-. destruct t0; cbn; [by left|right; by eauto|by left..].
    + intros c Ec. destruct (Hc c Ec). by split.
  - destruct (exited p) eqn:Hx, (endpoint_closed p) as [cr|] eqn:Hcl; try done.
    destruct (admin_cancelled p) eqn:Hcan; [|done]. injection Hs as <- <-.
    destruct Hi as [Ho Hsock Hh He Hab Hca Hc]. split; cbn; try done.
    + intros q Hq. destruct (admin_socket p) as [path|] eqn:Hp; [|by apply Ho].
      rewrite <-(Ho q) by done. apply (touches_remove [path] path); [constructor|]. set_solver.
    + intros path Hp. cbn in Hp |- *. rewrite Hp, Hcl. intros _ Hf. unfold remove_file. rewrite Hf.
      destruct (st !! path) eqn:E; cbn; [apply lookup_delete_eq|done].
    + by intros r [= <-].
    + intros c Ec. destruct (Hc c Ec). by split.
  - destruct (exited p) eqn:Hx, (endpoint_closed p) eqn:Hcl; try done. injection Hs as <- <-.
    destruct Hi as [Ho Hsock Hh He Hab Hca Hc]. split; cbn; try done.
    + intros path Hp. specialize (Hsock path Hp). cbn. by rewrite Hx, Hcl in *.
    + by intros r [= <-].
    + intros c Ec. congruence.
Qed.

Lemma service_run_inv st0 es : ∀ p st p' st',
  service_inv st0 p st → service_run es p st = Some (p', st') →
  service_inv st0 p' st' ∧ acceptor p' = accepts es (acceptor p) ∧ admin_socket p' = admin_socket p ∧
  owner p' = owner p.
Proof.
  induction es as [|e es IH]; intros p st p' st' Hi Hr; simpl in Hr; [by simplify_eq|].
  destruct (service_step e p st) as [[p1 st1]|] eqn:Hs; [|done]. simpl in Hr.
  destruct (IH p1 st1 p' st' (service_inv_step _ _ _ _ _ _ Hi Hs) Hr) as (Hi' & Ha & Hp & Ho).
  split; [done|]. rewrite Ha, Hp, Ho. clear - Hs. unfold service_step, ctrl_c, drained, unlinked in Hs.
  destruct e, (exited p), (endpoint_closed p); simpl; repeat case_match; by simplify_eq/=.
Qed.

(** C17: the life of a server process, whatever fails on disk or in the network. Its start
    may fail (a certificate, a key or the port), and then it has touched nothing but the
    identity files of a self-signed server. From a start that succeeds, whatever the order
    of connections, signals, the calls of the admin task and the steps of the shutdown: it
    touches no file but those and its admin socket; while the admin API serves, the socket
    is its own and for its owner only; a failing admin task neither ends the process nor
    changes which connections are accepted; it never exits with an error; on ^C the
    endpoint is closed with the code and the reason clients are told, and once the process
    has exited, unless the abort caught the admin task in the middle of [bind], that task
    is over and the socket is gone if it could be removed. *)
Theorem service_life config o generated st0 :
  let '(st1, r) := run_async config o generated st0 in
  (∀ q, q ∉ identity_files (cfg_tls config) → st1 !! q = st0 !! q) ∧
  ∀ p0, r = Ok p0 → ∀ es p st, service_run es p0 st1 = Some (p, st) →
    (∀ q, q ∉ identity_files (cfg_tls config) → cfg_admin_socket config ≠ Some q → st !! q = st0 !! q) ∧
    (∀ q, cfg_admin_socket config = Some q → admin_handle p = Some AdminServing → exited p = None →
       st !! q = Some (mkFile o 0x180)) ∧
    acceptor p = accepts es (acceptor_new (cfg_max_connections config)) ∧
    (∀ r, exited p = Some r → r = Ok tt) ∧
    (∀ c, endpoint_closed p = Some c → c = (0, str "server received ^C") ∧
       (is_Some (exited p) → caught_binding p = false → ∀ q, cfg_admin_socket config = Some q →
          (∃ t, admin_handle p = Some t ∧ admin_over t) ∧ (remove_fault q = None → st !! q = None))).
Proof.
  pose proof (touches_start config o generated st0) as Htouch.
  destruct (run_async config o generated st0) as [st1 r] eqn:Es. cbn [fst] in Htouch. split; [done|].
  intros p0 -> es p st Hr. destruct (start_inv _ _ _ _ _ _ Es) as [Hi0 E0].
  destruct (service_run_inv st1 es _ _ _ _ Hi0 Hr) as ([Ho Hs Hh He Hab Hca Hc] & Ha & Hp & Hw).
  rewrite E0 in Ha, Hp, Hw. cbn in Hp, Hw, Ha. unfold socket_state in Hs. rewrite Hp in *. split_and!; [| |done|done|].
  - intros q Hq Hn. by rewrite (Ho q Hn), Htouch.
  - intros q Hq Hserv Hx. specialize (Hs q Hq). by rewrite Hx, Hserv, Hw in Hs.
  - intros c Hcl. destruct (Hc c Hcl) as (-> & Hcan). split; [done|]. intros Hx Hcaught q Hq.
    specialize (Hcan Hx). destruct (Hab Hcan) as [_ Ht]. specialize (Hs q Hq). rewrite Hcl in Hs.
    destruct Hx as [x Hx]. rewrite Hx in Hs. split; [|by apply Hs].
    destruct Hh as [_ [t Et]]; [by rewrite Hq|]. exists t. split; [done|].
    destruct (Ht t Et) as [?|[? _]]; [done|congruence].
Qed.

(** Two servers on one socket path. The second one takes the socket of the first,
    which is alive, for a stale one; and when the first is stopped it removes the
    socket of the second, which goes on serving an API nobody can reach. *)
Theorem shared_socket_lost a o path st st1 :
  admin_socket a = Some path → exited a = None → is_Some (endpoint_closed a) → admin_cancelled a = true →
  bind o path st = (st1, Ok tt) → remove_fault path = None →
  st1 !! path = Some (mkFile o 0x180) ∧
  ∃ a' st2, service_step Unlinked a st1 = Some (a', st2) ∧ is_ok (ensure_socket_exists path st2) = false.
Proof.
  intros Ha Hx [cr Hcr] Hcan Hbind Hrm. pose proof (bind_Ok _ _ _ _ Hbind) as Hst1. split; [done|].
  unfold service_step. rewrite Hx, Hcr, Hcan. eexists _, _. split; [done|].
  unfold ensure_socket_exists, exists_file. cbn. rewrite Ha. unfold remove_file. rewrite Hrm, Hst1. cbn.
  by rewrite lookup_delete_eq.
Qed.

End sockets.

(** ** Examples *)

Section instances.
#[local] Existing Instance no_faults.
#[local] Existing Instance demo_pki.
#[local] Instance no_socket_faults : SocketFaults :=
  {| remove_fault _ := None; bind_fault _ := None; metadata_fault _ := None; socket_mode := 0x1ed |}.
#[local] Existing Instance counting.

Definition demo_parent (p : PathBuf) : option PathBuf := Some (str "/run").
Definition demo_path : PathBuf := str "/run/admin.sock".
Definition demo_disk : Files := {[ demo_path := mkFile (str "old") 0x1ed; str "/etc/x" := mkFile [] 0x1a4 ]}.
Definition demo_listen : SocketAddr := socket_addr_new (IpV4 v4_unspecified) 8080.
Definition demo_server_config : ServerConfig :=
  mkServerConfig (IpV4 v4_unspecified) 8080 false false (SelfSigned (str "/state")) Cubic (Some 1) (Some demo_path).
Definition demo_start : Files * result bytes Process :=
  run_async (λ _ _ _, Ok tt) (Ok demo_listen) demo_server_config (str "a") (Ok demo_generated) demo_disk.
Definition demo_process : Process :=
  mkProcess (str "a") demo_listen (Some demo_path) (Some AdminSpawned) (acceptor_new (Some 1)) None false false None.

Definition demo_events : list ServiceEvent :=
  [Incoming; AdminPolled; BindCall; Incoming] ++ replicate 5 BindCall ++ [CtrlC; TaskEnded 1; Drained; Unlinked].
Definition demo_end : Process * Files :=
  default (demo_process, demo_disk) (service_run demo_parent demo_events demo_process demo_start.1).

Lemma service_life_witness :
  demo_end.2 !! demo_path = None ∧ demo_end.2 !! str "/etc/x" = Some (mkFile [] 0x1a4).
Proof.
  pose proof (service_life demo_parent (λ _ _ _, Ok tt) (Ok demo_listen) demo_server_config (str "a") (Ok demo_generated) demo_disk) as H.
  fold demo_start in H. rewrite (surjective_pairing demo_start) in H. destruct H as (_ & H).
  destruct (H demo_process ltac:(vm_cast_no_check (eq_refl (@Ok bytes _ demo_process))) demo_events demo_end.1 demo_end.2)
    as (Ho & _ & _ & _ & Hc).
  - vm_cast_no_check (eq_refl (Some demo_end)).
  - split.
    + destruct (Hc (0, str "server received ^C")) as (_ & Hr).
      * vm_cast_no_check (eq_refl (endpoint_closed demo_end.1)).
      * destruct (Hr ltac:(by vm_compute; eexists) eq_refl demo_path eq_refl) as (_ & Hd). apply Hd. reflexivity.
    + rewrite Ho; [vm_cast_no_check (eq_refl (demo_disk !! str "/etc/x"))| |done].
      apply (bool_decide_unpack _). vm_compute. exact I.
Defined.

(** The abort does not wait for a [bind] under way: when the socket is made after the
    process has removed it, it stays behind. *)
Lemma socket_left_behind :
  let '(p, st) := default (demo_process, demo_disk) (service_run demo_parent
    ([AdminPolled; BindCall; BindCall; CtrlC; Drained; Unlinked] ++ replicate 4 BindCall) demo_process demo_disk) in
  exited p = Some (Ok tt) ∧ admin_handle p = Some AdminAborted ∧ st !! demo_path = Some (mkFile (str "a") 0x180).
Proof. vm_compute. done. Qed.

Lemma shared_socket_lost_witness :
  ∃ st2, is_ok (ensure_socket_exists demo_path st2) = false.
Proof.
  destruct (shared_socket_lost demo_parent (drained (ctrl_c demo_process)) (str "b") demo_path
    demo_disk (bind demo_parent (str "b") demo_path demo_disk).1)
    as (_ & a' & st2 & _ & He); [reflexivity|reflexivity|by eexists|reflexivity| |reflexivity|].
  - vm_cast_no_check (eq_refl (bind demo_parent (str "b") demo_path demo_disk)).
  - exists st2. exact He.
Defined.

End instances.
