(* ===== verification/Connect.v ===== *)
(** * Connect: how the client gets a connection ([src/client/mod.rs],
      [src/common/quic.rs], [src/common/proxy.rs])

    The two strategies of the reconnect loop, direct with the endpoint pool and through
    the SOCKS5 proxy, down to the endpoint with its TLS configuration and its socket.
    quinn's handshake is the class [Quinn]: it succeeds only with a certificate the
    verifier of the endpoint accepts for the name it was given, and with a signature of
    the handshake that the verifier accepts for that certificate. *)

From S2P Require Import Prelude Text NetAddr Remote Framing Socks Proxy Tls Client Cli.

(** The UDP socket under an endpoint: its own, or the one that wraps datagrams for the
    relay of a proxy. *)
Inductive ClientSocket :=
| DirectSocket (local : SocketAddr)
| ProxiedSocket (s : Socks5UdpSocket) (local : SocketAddr).

Record QuicEndpoint := mkQuicEndpoint {
  qe_socket : ClientSocket; qe_config : TlsClientConfig; qe_transport : TransportConfig }.

(** rustls' crypto provider: the check of a handshake signature against the key of a
    certificate, for the two protocol versions. *)
Class CryptoProvider := {
  DigitallySignedStruct : Type;
  crypto_verify_tls12 : bytes → bytes → DigitallySignedStruct → result bytes unit;
  crypto_verify_tls13 : bytes → bytes → DigitallySignedStruct → result bytes unit;
  crypto_schemes : list N }.

(** The signature checks of the verifiers. [SkipServerVerification] and
    [FingerprintVerifier] delegate them to the provider, like the verifier of rustls. *)
Definition verify_tls12_signature `{CryptoProvider} (v : ServerCertVerifier) (message cert : bytes)
    (dss : DigitallySignedStruct) : result bytes unit :=
  match v with
  | SkipServerVerification | FingerprintVerifier _ | WebPkiVerifier _ => crypto_verify_tls12 message cert dss
  end.
Definition verify_tls13_signature `{CryptoProvider} (v : ServerCertVerifier) (message cert : bytes)
    (dss : DigitallySignedStruct) : result bytes unit :=
  match v with
  | SkipServerVerification | FingerprintVerifier _ | WebPkiVerifier _ => crypto_verify_tls13 message cert dss
  end.
Definition supported_verify_schemes `{CryptoProvider} (v : ServerCertVerifier) : list N := crypto_schemes.

Class Quinn `{Pki, CryptoProvider} := {
  Connection : Type;
  (** the certificate chain the peer presented *)
  peer_leaf : Connection → bytes;
  peer_intermediates : Connection → list bytes;
  (** the handshake as the peer signed it *)
  transcript : Connection → bytes;
  peer_signature : Connection → DigitallySignedStruct;
  (** [Endpoint::connect], which only starts *)
  start_connect : QuicEndpoint → SocketAddr → result bytes unit;
  (** the handshake, by the server name *)
  handshake : QuicEndpoint → SocketAddr → bytes → result bytes Connection;
  handshake_verified e addr name c : handshake e addr name = Ok c →
    verify_server_cert (tc_verifier (qe_config e)) (peer_leaf c) (peer_intermediates c) name = Ok tt;
  (** QUIC is TLS 1.3 *)
  handshake_signed e addr name c : handshake e addr name = Ok c →
    verify_tls13_signature (tc_verifier (qe_config e)) (transcript c) (peer_leaf c) (peer_signature c) = Ok tt }.

Section connect.
Context `{Faults, ByteStreams, Quinn}.
(** [UdpSocket::bind]; [TcpStream::connect], with what [peer_addr] answers. *)
Variable udp_bind : SocketAddr → result bytes unit.
Variable tcp_connect : bytes → result bytes (Duplex * result bytes SocketAddr).

(** [create_client_endpoint] *)
Definition create_client_endpoint (tls : ClientTlsConfig) (congestion : Congestion) (st : Files)
    (server_addr : SocketAddr) : result bytes QuicEndpoint :=
  client_config ← (build_quic_client_config tls st).2;
  bind_addr ← ok_or (client_bind_addr server_addr) (str "invalid socket address syntax");
  _ ← udp_bind bind_addr;
  Ok (mkQuicEndpoint (DirectSocket bind_addr) client_config (build_transport_config congestion)).

(** [create_socks5_proxied_socket] *)
Definition create_socks5_proxied_socket (proxy : ProxyConfig) (server : SocketAddr) :
    result bytes ClientSocket :=
  let 'ProxySocks5 addr auth := proxy in
  '(tcp, peer_addr) ← map_err (λ _, str "failed to connect to SOCKS5 proxy at " ++ addr) (tcp_connect addr);
  relay ← (establish_socks5_udp_associate auth peer_addr tcp).2;
  let bind_addr := proxied_bind_addr relay in
  _ ← map_err (λ _, str "failed to bind local UDP socket " ++ fmt_socket bind_addr) (udp_bind bind_addr);
  Ok (ProxiedSocket (mkSocks5UdpSocket relay server) bind_addr).

(** [create_client_endpoint_via_proxy] *)
Definition create_client_endpoint_via_proxy (tls : ClientTlsConfig) (congestion : Congestion) (st : Files)
    (server_addr : SocketAddr) (proxy : ProxyConfig) : result bytes QuicEndpoint :=
  client_config ← (build_quic_client_config tls st).2;
  socket ← create_socks5_proxied_socket proxy server_addr;
  Ok (mkQuicEndpoint socket client_config (build_transport_config congestion)).

Definition sni (config : ClientConfig) : bytes :=
  client_server_name (ccfg_tls config) (ep_host (ccfg_server config)).

(** [proxied_connect] *)
Definition proxied_connect (proxy : ProxyConfig) (config : ClientConfig) (st : Files) :
    result bytes Connection :=
  server ← ok_or (head (ep_addrs (ccfg_server config))) (str "no candidate addresses to connect to");
  endpoint ← create_client_endpoint_via_proxy (ccfg_tls config) (ccfg_congestion config) st server proxy;
  _ ← start_connect endpoint server;
  handshake endpoint server (sni config).

(** The endpoint the pool has for the family of an address. *)
Definition endpoint_of {E} (pool : EndpointPool (Endpoint := E)) (addr : SocketAddr) : option E :=
  if is_ipv6 addr then pool_v6 pool else pool_v4 pool.

(** How the started attempts end, in the order [order] they do. *)
Definition completions (name : bytes) (pool : EndpointPool (Endpoint := QuicEndpoint))
    (order : list SocketAddr) (races : list (SocketAddr * N)) : list (SocketAddr * result bytes Connection) :=
  (λ addr, (addr, match endpoint_of pool addr with
                  | Some e => handshake e addr name
                  | None => Err []
                  end)) <$> filter (λ addr, addr ∈ races.*1) order.

(** The direct strategy: [happy_eyeballs_connect] on the pool. *)
Definition direct_connect (config : ClientConfig) (st : Files) (order : list SocketAddr)
    (pool : EndpointPool (Endpoint := QuicEndpoint)) :
    EndpointPool (Endpoint := QuicEndpoint) * result bytes Connection :=
  let create := create_client_endpoint (ccfg_tls config) (ccfg_congestion config) st in
  let addrs := ep_addrs (ccfg_server config) in
  let started := start_attempts create start_connect 0 addrs pool None in
  happy_eyeballs_connect create start_connect addrs pool (completions (sni config) started.1.1 order).

(** The connect of one round of [run_with_reconnect]; without a proxy the pool is
    there ([expect]). *)
Definition connect_once (config : ClientConfig) (st : Files) (order : list SocketAddr)
    (endpoints : option (EndpointPool (Endpoint := QuicEndpoint))) :
    panicking (option (EndpointPool (Endpoint := QuicEndpoint)) * result bytes Connection) :=
  match ccfg_proxy config, endpoints with
  | Some proxy, _ => Returns (endpoints, proxied_connect proxy config st)
  | None, Some pool =>
      let '(pool, r) := direct_connect config st order pool in Returns (Some pool, r)
  | None, None => Panics
  end.

(** [run_async] up to the reconnect loop: the pool, for a direct client. *)
Definition client_run_async (config : ClientConfig) (st : Files) :
    panicking (result bytes (option (EndpointPool (Endpoint := QuicEndpoint)))) :=
  match ccfg_proxy config with
  | None =>
      addr ← primary (ccfg_server config);
      Returns (Some <$> pool_new
        (create_client_endpoint (ccfg_tls config) (ccfg_congestion config) st) addr)
  | Some _ => Returns (Ok None)
  end.

(** The connects of a run, each with the files and the order of completion of its
    time. *)
Fixpoint connects (config : ClientConfig) (rounds : list (Files * list SocketAddr))
    (endpoints : option (EndpointPool (Endpoint := QuicEndpoint))) : panicking (list (result bytes Connection)) :=
  match rounds with
  | [] => Returns []
  | (st, order) :: rounds =>
      '(endpoints, r) ← connect_once config st order endpoints;
      rs ← connects config rounds endpoints;
      Returns (r :: rs)
  end.

(** ** Every endpoint verifies as configured *)

(** The configuration of an endpoint was built from one of these states of the files. *)
Definition configured (tls : ClientTlsConfig) (disks : list Files) (e : QuicEndpoint) : Prop :=
  ∃ st st', st ∈ disks ∧ build_quic_client_config tls st = (st', Ok (qe_config e)).

Definition pool_configured (tls : ClientTlsConfig) (disks : list Files)
    (pool : EndpointPool (Endpoint := QuicEndpoint)) : Prop :=
  ∀ addr e, endpoint_of pool addr = Some e → configured tls disks e.

Lemma configured_mono tls disks disks' e : disks ⊆ disks' → configured tls disks e → configured tls disks' e.
Proof. intros Hsub (st & st' & Hst & Hb). exists st, st'. split; [by apply Hsub|done]. Qed.

Lemma create_configured tls congestion st addr e :
  create_client_endpoint tls congestion st addr = Ok e → configured tls [st] e.
Proof.
  unfold create_client_endpoint. intros E. destruct (build_quic_client_config tls st) as [st' r] eqn:Eb.
  cbn [snd] in E. destruct_ok. exists st, st'. split; [left|by rewrite Eb].
Qed.

Lemma create_proxied_configured tls congestion st addr proxy e :
  create_client_endpoint_via_proxy tls congestion st addr proxy = Ok e → configured tls [st] e.
Proof.
  unfold create_client_endpoint_via_proxy. intros E.
  destruct (build_quic_client_config tls st) as [st' r] eqn:Eb. cbn [snd] in E. destruct_ok.
  exists st, st'. split; [left|by rewrite Eb].
Qed.

Lemma get_for_configured tls congestion disks st addr pool :
  st ∈ disks → pool_configured tls disks pool →
  pool_configured tls disks (get_for (create_client_endpoint tls congestion st) addr pool).1.
Proof.
  intros Hst Hp. unfold get_for.
  destruct (if is_ipv6 addr then _ else _) as [e0|] eqn:E0; [done|].
  destruct (create_client_endpoint tls congestion st addr) as [e|] eqn:E; [|done].
  apply create_configured in E. apply (configured_mono _ _ disks) in E; [|by intros x ->%list_elem_of_singleton]. cbn [fst]. intros addr' e' He'. unfold endpoint_of in He'.
  destruct (is_ipv6 addr), (is_ipv6 addr') eqn:E6; cbn in He'; simplify_eq; try done;
    apply (Hp addr'); unfold endpoint_of; by rewrite E6.
Qed.

Lemma start_attempts_configured tls congestion disks st addrs : st ∈ disks → ∀ idx pool err,
  pool_configured tls disks pool →
  pool_configured tls disks
    (start_attempts (create_client_endpoint tls congestion st) start_connect idx addrs pool err).1.1.
Proof.
  intros Hst. induction addrs as [|addr addrs IH]; intros idx pool err Hp; [done|]. cbn [start_attempts].
  pose proof (get_for_configured tls congestion disks st addr pool Hst Hp) as Hg.
  destruct (get_for _ addr pool) as [pool' [e|e]]; [|by apply IH].
  destruct (start_connect e addr) as [[]|e']; [|by apply IH].
  specialize (IH (idx + 1) pool' err Hg).
  by destruct (start_attempts _ _ (idx + 1) addrs pool' err) as [[? ?] ?].
Qed.

(** In every mode the peer has signed the handshake with the key of the certificate it
    presented; what the configured mode says of that certificate. The bundle of a CA file
    is the one the file held in one of the states [disks]. *)
Definition authenticated (config : ClientConfig) (disks : list Files) (c : Connection) : Prop :=
  crypto_verify_tls13 (transcript c) (peer_leaf c) (peer_signature c) = Ok tt ∧
  match ccfg_tls config with
  | ClientInsecure => True
  | Fingerprint sha _ => cert_sha256 (peer_leaf c) = sha
  | Ca ca _ | ClientMtls ca _ _ _ => ∃ st roots, st ∈ disks ∧ bundle st ca roots ∧
      webpki_verify roots (peer_leaf c) (peer_intermediates c) (sni config) = Ok tt
  end.

Lemma handshake_authenticated config disks e addr c :
  configured (ccfg_tls config) disks e → handshake e addr (sni config) = Ok c → authenticated config disks c.
Proof.
  intros (st & st' & Hst & Eb) Hhs. pose proof (handshake_verified _ _ _ _ Hhs) as Hh. apply handshake_signed in Hhs.
  apply client_verifies in Eb as (_ & _ & Hv).
  unfold authenticated. split; [by destruct (tc_verifier (qe_config e))|]. destruct (ccfg_tls config) as [|sha n|ca n|ca cert key n]; [done|by apply Hv in Hh|..];
    destruct Hv as (roots & Hb & Hv); exists st, roots; (split; [done|]); by rewrite <-Hv.
Qed.

Lemma proxied_connect_authenticated proxy config st c :
  proxied_connect proxy config st = Ok c → authenticated config [st] c.
Proof.
  unfold proxied_connect. intros E.
  destruct (head _) as [server|]; [|done]. cbn [ok_or mbind result_bind] in E.
  destruct (create_client_endpoint_via_proxy _ _ _ _ _) as [e|] eqn:Ee; [|done]. cbn [mbind result_bind] in E.
  destruct (start_connect e server); [|done]. cbn [mbind result_bind] in E.
  eapply handshake_authenticated; [by eapply create_proxied_configured|done].
Qed.

Lemma happy_eyeballs_pool {C} create addrs pool (complete : list (SocketAddr * N) → list (SocketAddr * result bytes C)) :
  (happy_eyeballs_connect create start_connect addrs pool complete).1 =
  (start_attempts create start_connect 0 addrs pool None).1.1.
Proof.
  unfold happy_eyeballs_connect. destruct addrs; [done|].
  by destruct (start_attempts _ _ _ _ _ _) as [[? ?] ?].
Qed.

Lemma direct_connect_authenticated config disks st order pool :
  st ∈ disks → pool_configured (ccfg_tls config) disks pool →
  pool_configured (ccfg_tls config) disks (direct_connect config st order pool).1 ∧
  ∀ c, (direct_connect config st order pool).2 = Ok c → authenticated config disks c.
Proof.
  intros Hst Hp. unfold direct_connect. set (create := create_client_endpoint _ _ st).
  set (addrs := ep_addrs _).
  assert (pool_configured (ccfg_tls config) disks (start_attempts create start_connect 0 addrs pool None).1.1) as Hs
    by (by apply start_attempts_configured).
  split; [by rewrite happy_eyeballs_pool|]. intros c. unfold happy_eyeballs_connect.
  destruct addrs as [|a addrs']; [done|].
  destruct (start_attempts create start_connect 0 (a :: addrs') pool None) as [[pool' races] err].
  cbn [fst snd] in *. intros E.
  pose proof (await_races_spec (completions (sni config) pool' order races) err) as Hr. rewrite E in Hr.
  destruct Hr as (pre & addr & post & Ec & _).
  assert ((addr, Ok c) ∈ completions (sni config) pool' order races) as Hin
    by (rewrite Ec; apply elem_of_app; right; left).
  unfold completions in Hin. apply list_elem_of_fmap in Hin as (addr' & [= -> Eh] & _).
  destruct (endpoint_of pool' addr') as [e|] eqn:Ee; [|done].
  eapply handshake_authenticated; [by eapply Hs|done].
Qed.

(** The files a connect of round [i] may have read its CA bundle from: those of its own
    time; a direct client keeps its endpoints, so also those of the start and of the
    earlier rounds. *)
Definition read_by (config : ClientConfig) (st0 : Files) (rounds : list (Files * list SocketAddr)) (i : nat) :
    list Files :=
  match ccfg_proxy config with
  | Some _ => option_list (fst <$> rounds !! i)
  | None => st0 :: (take (S i) rounds).*1
  end.

(** The connects of a proxied client. *)
Lemma proxied_connects config proxy endpoints rounds :
  ccfg_proxy config = Some proxy →
  ∃ rs, connects config rounds endpoints = Returns rs ∧ length rs = length rounds ∧
    ∀ i c, rs !! i = Some (Ok c) → ∃ st order, rounds !! i = Some (st, order) ∧ authenticated config [st] c.
Proof.
  intros Hp. induction rounds as [|[st order] rounds IH]; [by exists []|]. cbn [connects]. unfold connect_once.
  rewrite Hp. cbn [mbind panicking_bind]. destruct IH as (rs & -> & Hl & Ha). cbn [mbind panicking_bind].
  eexists. split; [done|]. split; [by cbn; rewrite Hl|]. intros [|i] c Hi; [|by apply Ha].
  injection Hi as Hi. exists st, order. split; [done|]. by eapply proxied_connect_authenticated.
Qed.

(** The connects of a direct client, whose pool was configured from [disks]. *)
Lemma direct_connects config rounds : ccfg_proxy config = None → ∀ disks pool,
  pool_configured (ccfg_tls config) disks pool →
  ∃ rs, connects config rounds (Some pool) = Returns rs ∧ length rs = length rounds ∧
    ∀ i c, rs !! i = Some (Ok c) → authenticated config (disks ++ (take (S i) rounds).*1) c.
Proof.
  intros Hp. induction rounds as [|[st order] rounds IH]; intros disks pool Hpool; [by exists []|].
  cbn [connects]. unfold connect_once. rewrite Hp.
  destruct (direct_connect_authenticated config (disks ++ [st]) st order pool) as [Hp' Hc]; [set_solver| |].
  { intros addr e He. eapply configured_mono; [|by eapply Hpool]. set_solver. }
  destruct (direct_connect config st order pool) as [pool' r]. cbn [fst snd mbind panicking_bind] in *.
  destruct (IH (disks ++ [st]) pool' Hp') as (rs & -> & Hl & Ha). cbn [mbind panicking_bind].
  eexists. split; [done|]. split; [by cbn; rewrite Hl|]. intros [|i] c Hi.
  - injection Hi as ->. cbn. by apply Hc.
  - cbn. specialize (Ha i c Hi). by rewrite <-app_assoc in Ha.
Qed.

(** C21: no route around the verification. From any start that succeeds, over any
    number of reconnects, with files that may change in between, directly with the
    cached endpoints and in any order of completion, or through a SOCKS5 proxy: every
    connect of the run is made (nothing panics), and every connection the client gets
    is with a server that holds the key of a certificate the configured mode accepts: the
    pinned one, or one with a chain, for the name of the configuration, to the
    certificates the configured CA file held when this run read it (through a proxy at
    the time of the connect, directly at the start or at one of the connects so far);
    with --insecure any certificate, but still one whose key the server holds. *)
Theorem connection_authenticated config st0 endpoints rounds :
  client_run_async config st0 = Returns (Ok endpoints) →
  ∃ rs, connects config rounds endpoints = Returns rs ∧ length rs = length rounds ∧
    ∀ i c, rs !! i = Some (Ok c) → authenticated config (read_by config st0 rounds i) c.
Proof.
  intros Hstart. unfold read_by. unfold client_run_async in Hstart. destruct (ccfg_proxy config) as [proxy|] eqn:Eproxy.
  - destruct (proxied_connects config proxy endpoints rounds Eproxy) as (rs & -> & Hl & Ha).
    exists rs. split_and!; [done..|]. intros i c (st & order & -> & Hc)%Ha. exact Hc.
  - destruct (primary _) as [addr|]; [|done]. cbn [mbind panicking_bind] in Hstart. unfold pool_new in Hstart.
    destruct (create_client_endpoint _ _ st0 addr) as [e|] eqn:Ee; [|done].
    apply create_configured in Ee. cbn in Hstart. injection Hstart as <-.
    apply (direct_connects config rounds Eproxy [st0]).
    intros addr' e' He'. unfold endpoint_of in He'. by destruct (is_ipv6 addr), (is_ipv6 addr'); simplify_eq/=.
Qed.

(** A configuration that cannot be built (a missing CA file, say) stops a direct client
    at its start; through a proxy it is found out at every connect only, which the
    reconnect loop takes for a failed attempt. *)
Lemma proxy_tls_checked_late config st err addr rest :
  (build_quic_client_config (ccfg_tls config) st).2 = Err err → ep_addrs (ccfg_server config) = addr :: rest →
  match ccfg_proxy config with
  | None => client_run_async config st = Returns (Err err)
  | Some proxy => client_run_async config st = Returns (Ok None) ∧ proxied_connect proxy config st = Err err
  end.
Proof.
  intros Eb Ea. unfold client_run_async, proxied_connect, primary. rewrite Ea.
  destruct (ccfg_proxy config); cbn.
  - unfold create_client_endpoint_via_proxy. by rewrite Eb.
  - unfold pool_new, create_client_endpoint. by rewrite Eb.
Qed.

End connect.

(** ** Examples *)

Section instances.
#[local] Existing Instance no_faults.
#[local] Existing Instance demo_pki.
#[local] Existing Instance memory_streams.

(** A signature is the certificate and the message, side by side. *)
#[local] Instance demo_crypto : CryptoProvider :=
  {| DigitallySignedStruct := bytes * bytes;
     crypto_verify_tls12 m c s := if decide (s = (c, m)) then Ok tt else Err (str "bad signature");
     crypto_verify_tls13 m c s := if decide (s = (c, m)) then Ok tt else Err (str "bad signature");
     crypto_schemes := [0x403; 0x804; 0x807] |}.

(** A server that presents one certificate. *)
#[local] Instance demo_quinn : Quinn.
Proof.
  refine {| Connection := bytes; peer_leaf c := c; peer_intermediates _ := [];
            transcript _ := str "hs"; peer_signature c := (c, str "hs");
            start_connect _ _ := Ok tt;
            handshake e _ name :=
              match verify_server_cert (tc_verifier (qe_config e)) (str "CERT") [] name with
              | Ok _ => Ok (str "CERT") | Err err => Err err end |}.
  - intros e addr name c. by destruct (verify_server_cert _ _ _ _) as [[]|] eqn:E; intros [= <-].
  - intros e addr name c _. unfold verify_tls13_signature. destruct (tc_verifier (qe_config e)); simpl; by rewrite decide_True.
Defined.

Definition demo_direct : ClientConfig :=
  mkClientConfig demo_endpoint [demo_remote] (Fingerprint (cert_sha256 (str "CERT")) None) Cubic
    reconnect_default None.
Definition demo_bind (a : SocketAddr) : result bytes unit := Ok tt.
Definition demo_dial (a : bytes) : result bytes (Duplex * result bytes SocketAddr) := Err (str "refused").

Lemma connection_authenticated_witness :
  ∃ endpoints c, client_run_async demo_bind demo_direct ∅ = Returns (Ok endpoints) ∧
    connects demo_bind demo_dial demo_direct [(∅, ep_addrs demo_endpoint)] endpoints = Returns [Ok c] ∧
    authenticated demo_direct [∅; ∅] c.
Proof.
  destruct (client_run_async demo_bind demo_direct ∅) as [[endpoints|err]|] eqn:E; [|by vm_compute in E..].
  destruct (connection_authenticated demo_bind demo_dial demo_direct ∅ endpoints [(∅, ep_addrs demo_endpoint)] E)
    as (rs & Hrs & _ & Ha).
  assert (rs = [Ok (str "CERT")]) as ->.
  { vm_compute in E. injection E as <-. vm_compute in Hrs. by injection Hrs as <-. }
  exists endpoints, (str "CERT"). split_and!; [reflexivity|exact Hrs|]. apply (Ha 0%nat). reflexivity.
Defined.

End instances.
