(* ===== verification/System.v ===== *)
(** * System: the server process with its sessions
      ([run_async], [handle_client_connection] and [handle_open_conn] of
      [src/server/mod.rs] over the state of [src/server/state.rs])

    The accept loop of [Server] and the tasks it spawns, each at one of its await
    points, share one [World]. A step is what one task does between two of them, and
    the steps of all tasks come in any order. The file proves that every run is a run
    of the ledger ([Ledger]), whose assumptions on the order of the operations are
    discharged here, that the clients listed are those of the running tasks, that
    nothing the operator forbade is ever registered, that every client leaves exactly
    one entry in the history, and that a session whose connection is lost always ends,
    since the shutdown of its [JoinSet] aborts its handlers. *)

From S2P Require Import Prelude Text NetAddr Remote State Ledger Framing Server Admin.

(** ** State *)

(** Where the task of a connection is: in [conn.await]; in the hello, before and after
    its tunnels are registered; in the [accept_bi] loop; in [tunnels.shutdown()]; and
    back in the task of [run_async], with the permit still held. *)
Inductive TaskPhase :=
| Handshaking
| Greeting (client : loc)
| Replying (client : loc) (registered : list loc)
| Serving (client : loc)
| ShuttingDown (client : loc) (outcome : result bytes bytes)
| Returned (outcome : result bytes bytes).

(** A task and its [JoinSet]: the streams whose [OpenConn] is not read yet, those
    whose reply is on its way, with the tunnel they looked up, and the reverse handlers;
    the handlers with a conn are those whose guards name the task. *)
Record Task := mkTask {
  t_phase : TaskPhase;
  t_opening : nat;
  t_replying : list (loc * ForwardDispatch);
  t_reverse : list loc }.

(** The entry of the client the task has registered and not yet deregistered. *)
Definition client_of (p : TaskPhase) : option loc :=
  match p with
  | Greeting l | Replying l _ | Serving l | ShuttingDown l _ => Some l
  | Handshaking | Returned _ => None
  end.

(** A live [ConnGuard]: its tunnel, and the task in whose [JoinSet] its holder is;
    the tasks of reverse conns are spawned outside of it. *)
Record Guard := mkGuard { g_tunnel : loc; g_task : option N }.

(** A task of the [JoinSet]: the handler of a stream before and after it has looked up its
    tunnel, the handler with a conn, a reverse handler. *)
Inductive HandlerTask :=
| OpeningConn
| ReplyingConn (i : nat)
| WithConn (c : loc)
| ReverseHandler (t : loc).

Inductive ServerEvent :=
| ConnIncoming
| HandshakeEnds (id : N) (r : result bytes SocketAddr) (now : SystemTime)
| HelloRead (id : N) (r : result bytes SessionHello) (clock : nat → SystemTime) (now : SystemTime)
| HelloReplied (id : N) (r : result bytes unit) (now : SystemTime)
| StreamAccepted (id : N)
| ConnResolved (id : N) (r : result bytes OpenConn)
| ConnReplied (id : N) (i : nat) (r : result bytes unit) (now : SystemTime)
| HandlerDone (id : N) (c : loc)
| ReverseDone (id : N) (t : loc)
| HandlerCancelled (id : N) (h : HandlerTask)
| ReverseConn (t : loc) (peer : option bytes) (now : SystemTime)
| ReverseConnDone (c : loc)
| CountedIn (c : loc) (n : N)
| CountedOut (c : loc) (n : N)
| StreamFailed (id : N) (e : ConnectionError)
| ShutdownDone (id : N) (now : SystemTime)
| PermitDropped (id : N).

Section system.
Context `{MapOrder, Semaphore}.
Variables allow_reverse allow_socks : bool.

Record ServerSys := mkServer {
  sv_acceptor : Acceptor;
  sv_tasks : gmap N Task;
  sv_guards : gmap loc Guard;
  sv_world : World }.

Definition server_new (max_connections : option N) (now : SystemTime) (addr : SocketAddr) : ServerSys :=
  mkServer (acceptor_new max_connections) ∅ ∅ (new now addr).

Definition with_task (id : N) (t : Task) (s : ServerSys) : ServerSys :=
  mkServer (sv_acceptor s) (<[id := t]> (sv_tasks s)) (sv_guards s) (sv_world s).
Definition with_world (w : World) (s : ServerSys) : ServerSys :=
  mkServer (sv_acceptor s) (sv_tasks s) (sv_guards s) w.
Definition with_guards (g : gmap loc Guard) (s : ServerSys) : ServerSys :=
  mkServer (sv_acceptor s) (sv_tasks s) g (sv_world s).
Definition at_phase (p : TaskPhase) : Task := mkTask p 0 [] [].

(** ** The task of a connection, between its await points *)

(** [conn.await] *)
Definition handshake_ends (id : N) (r : result bytes SocketAddr) (now : SystemTime) (s : ServerSys) :
    ServerSys :=
  match r with
  | Err e => with_task id (at_phase (Returned (Err e))) s
  | Ok remote =>
      let '(w, l) := register_client id remote now (sv_world s) in
      with_task id (at_phase (Greeting l)) (with_world w s)
  end.

(** A rejected hello. *)
Definition hello_fails (id : N) (e : bytes) (now : SystemTime) (s : ServerSys) : ServerSys :=
  with_task id (at_phase (Returned (Err e)))
    (with_world (deregister_client id (str "hello rejected: " ++ e) now (sv_world s)) s).

(** [perform_session_hello] from the hello to the reply; the tunnel ids do not wrap. *)
Definition hello_read (id : N) (l : loc) (r : result bytes SessionHello) (clock : nat → SystemTime)
    (now : SystemTime) (s : ServerSys) : option ServerSys :=
  match r with
  | Err e => Some (hello_fails id e now s)
  | Ok hello =>
      match validate_remotes (hello_remotes hello) allow_reverse allow_socks with
      | Err reason => Some (hello_fails id reason now s)
      | Ok _ =>
          let reqs := imap (λ i r, (r, clock i)) (hello_remotes hello) in
          if decide (next_tunnel_id (sv_world s) + len reqs < 2 ^ 64) then
            let '(w, ts) := register_tunnels l id reqs (sv_world s) in
            Some (with_task id (at_phase (Replying l ts)) (with_world w s))
          else None
      end
  end.

(** The tunnels for which [spawn_reverse_handler] is called. *)
Definition reverse_tunnels (w : World) (ts : list loc) : list loc :=
  filter (λ t, te_direction <$> ht w !! t = Some Reverse) ts.

(** The reply is sent: the reverse handlers are spawned and the loop begins. *)
Definition hello_replied (id : N) (l : loc) (ts : list loc) (r : result bytes unit) (now : SystemTime)
    (s : ServerSys) : ServerSys :=
  match r with
  | Err e => hello_fails id e now s
  | Ok _ => with_task id (mkTask (Serving l) 0 [] (reverse_tunnels (sv_world s) ts)) s
  end.

(** [handle_open_conn] up to its reply; an error ends the handler. *)
Definition open_target (r : result bytes OpenConn) (w : World) : result bytes (loc * ForwardDispatch) :=
  open ← r;
  '(t, te) ← ok_or (t ← tunnel (oc_tunnel_id open) w; te ← ht w !! t; Some (t, te))
               (str "unknown tunnel id " ++ fmt_dec (oc_tunnel_id open));
  d ← resolve_dispatch te (oc_dynamic open);
  Ok (t, d).

(** A conn is registered, and its guard is the task's; the conn ids do not wrap. *)
Definition open_guard (t : loc) (peer : option bytes) (task : option N)
    (now : SystemTime) (s : ServerSys) : option ServerSys :=
  te ← ht (sv_world s) !! t;
  if decide (next_conn_id (sv_world s) + 1 < 2 ^ 64) then
    let '(w, c) := register_conn t te peer now (sv_world s) in
    Some (with_guards (<[c := mkGuard t task]> (sv_guards s)) (with_world w s))
  else None.

(** The drop of the guard of [c]. *)
Definition drop_guard (c : loc) (g : Guard) (s : ServerSys) : option ServerSys :=
  ce ← hn (sv_world s) !! c;
  Some (with_guards (delete c (sv_guards s))
          (with_world (close_conn (g_tunnel g) c ce (sv_world s)) s)).

(** [tunnels.is_empty()] *)
Definition joinset_empty (id : N) (t : Task) (s : ServerSys) : Prop :=
  t_opening t = 0%nat ∧ t_replying t = [] ∧ t_reverse t = [] ∧ map_Forall (λ _ g, g_task g ≠ Some id) (sv_guards s).
#[global] Instance joinset_empty_dec id t s : Decision (joinset_empty id t s).
Proof. apply _. Defined.

(** A handler leaves the [JoinSet] without having gone on: what it holds is dropped, the
    [ConnGuard] of a conn first of all. *)
Definition handler_drop (id : N) (t : Task) (h : HandlerTask) (s : ServerSys) : option ServerSys :=
  match h with
  | OpeningConn =>
      match t_opening t with
      | O => None
      | S n => Some (with_task id (mkTask (t_phase t) n (t_replying t) (t_reverse t)) s)
      end
  | ReplyingConn i =>
      _ ← t_replying t !! i;
      Some (with_task id (mkTask (t_phase t) (t_opening t) (delete i (t_replying t)) (t_reverse t)) s)
  | WithConn c =>
      g ← sv_guards s !! c;
      if decide (g_task g = Some id) then drop_guard c g s else None
  | ReverseHandler r =>
      if decide (r ∈ t_reverse t) then
        Some (with_task id (mkTask (t_phase t) (t_opening t) (t_replying t) (remove N.eq_dec r (t_reverse t))) s)
      else None
  end.

(** [tunnels.shutdown()] has called [abort_all]: every handler of the [JoinSet] is dropped
    at its next await point, wherever it waits; a poll under way may end first. *)
Definition aborting (p : TaskPhase) : bool :=
  match p with ShuttingDown _ _ => true | _ => false end.

(** The phases in which the [JoinSet] has handlers. *)
Definition handling (p : TaskPhase) : bool :=
  match p with Serving _ | ShuttingDown _ _ => true | _ => false end.

(** ** Steps *)

Definition task_step (id : N) (t : Task) (e : ServerEvent) (s : ServerSys) : option ServerSys :=
  match e, t_phase t with
  | HandshakeEnds _ r now, Handshaking => Some (handshake_ends id r now s)
  | HelloRead _ r clock now, Greeting l => hello_read id l r clock now s
  | HelloReplied _ r now, Replying l ts => Some (hello_replied id l ts r now s)
  | StreamAccepted _, Serving l => Some (with_task id (mkTask (Serving l) (S (t_opening t)) (t_replying t) (t_reverse t)) s)
  | StreamFailed _ err, Serving l =>
      Some (with_task id (mkTask (ShuttingDown l (outcome_of err)) (t_opening t) (t_replying t) (t_reverse t)) s)
  | ConnResolved _ r, p =>
      match t_opening t with
      | O => None
      | S n =>
          let replying := match open_target r (sv_world s) with
                          | Ok x => t_replying t ++ [x] | Err _ => t_replying t end in
          Some (with_task id (mkTask p n replying (t_reverse t)) s)
      end
  | ConnReplied _ i r now, p =>
      '(tl, d) ← t_replying t !! i;
      let s := with_task id (mkTask p (t_opening t) (delete i (t_replying t)) (t_reverse t)) s in
      match r with
      | Err _ => Some s
      | Ok _ => open_guard tl (peer_label d) (Some id) now s
      end
  | HandlerDone _ c, _ => handler_drop id t (WithConn c) s
  | ReverseDone _ r, _ => handler_drop id t (ReverseHandler r) s
  | HandlerCancelled _ h, p => if aborting p then handler_drop id t h s else None
  | ShutdownDone _ now, ShuttingDown l outcome =>
      if decide (joinset_empty id t s) then
        Some (with_task id (at_phase (Returned outcome))
                (with_world (deregister_client id (close_reason outcome) now (sv_world s)) s))
      else None
  | PermitDropped _, Returned _ =>
      Some (mkServer (finish id (sv_acceptor s)) (delete id (sv_tasks s)) (sv_guards s) (sv_world s))
  | _, _ => None
  end.

(** The task an event is of. *)
Definition event_task (e : ServerEvent) : option N :=
  match e with
  | HandshakeEnds id _ _ | HelloRead id _ _ _ | HelloReplied id _ _ | StreamAccepted id
  | ConnResolved id _ | ConnReplied id _ _ _ | HandlerDone id _ | ReverseDone id _ | HandlerCancelled id _ | StreamFailed id _
  | ShutdownDone id _ | PermitDropped id => Some id
  | _ => None
  end.

(** The accept loop and the conns outside of any [JoinSet]. *)
Definition other_step (e : ServerEvent) (s : ServerSys) : option ServerSys :=
  match e with
  | ConnIncoming =>
      if decide (client_counter (sv_acceptor s) + 1 < 2 ^ 64) then
        let '(a, r) := accept (sv_acceptor s) in
        Some (mkServer a (match r with Some id => <[id := at_phase Handshaking]> (sv_tasks s)
                                     | None => sv_tasks s end) (sv_guards s) (sv_world s))
      else None
  | ReverseConn t peer now =>
      te ← ht (sv_world s) !! t;
      if decide (te_direction te = Reverse) then open_guard t peer None now s else None
  | ReverseConnDone c =>
      g ← sv_guards s !! c;
      if decide (g_task g = None) then drop_guard c g s else None
  | CountedIn c n => _ ← hn (sv_world s) !! c; Some (with_world (upd_conn c (add_in n) (sv_world s)) s)
  | CountedOut c n => _ ← hn (sv_world s) !! c; Some (with_world (upd_conn c (add_out n) (sv_world s)) s)
  | _ => None
  end.

Definition server_step (e : ServerEvent) (s : ServerSys) : option ServerSys :=
  match event_task e with
  | Some id => t ← sv_tasks s !! id; task_step id t e s
  | None => other_step e s
  end.

Fixpoint server_run (es : list ServerEvent) (s : ServerSys) : option ServerSys :=
  match es with
  | [] => Some s
  | e :: es => s ← server_step e s; server_run es s
  end.

(** The clients whose handshake has ended well, in that order. *)
Definition connected (es : list ServerEvent) : list N :=
  omap (λ e, match e with HandshakeEnds id (Ok _) _ => Some id | _ => None end) es.

(** ** Effects of the operations on what the invariant reads *)

(** What a tunnel was declared as. *)
Definition declared (te : TunnelEntry) : RemoteRequest :=
  RemoteRequest_new (te_direction te) (te_kind te).

Definition declared_at (w : World) (t : loc) : option RemoteRequest := declared <$> ht w !! t.
Definition id_at (w : World) (l : loc) : option N := cl_id <$> hc w !! l.

(** A client's tunnels or a conn changed: the clients, their ids and the declarations
    of the tunnels did not. *)
Record quiet (w w' : World) : Prop := {
  q_clients : clients w' = clients w;
  q_id l : id_at w' l = id_at w l;
  q_declared t : declared_at w' t = declared_at w t }.

Lemma declared_alter f t (m : gmap loc TunnelEntry) u :
  (∀ te, declared (f te) = declared te) → declared <$> alter f t m !! u = declared <$> m !! u.
Proof.
  intros Hf. destruct (decide (u = t)) as [->|]; [|by rewrite lookup_alter_ne].
  rewrite lookup_alter_eq. destruct (m !! t); simpl; [by rewrite Hf|done].
Qed.

Lemma quiet_register_conn t te peer now w : quiet w (register_conn t te peer now w).1.
Proof. split; [done..|]. intros u. unfold declared_at. simpl. by rewrite !declared_alter. Qed.

Lemma quiet_close_conn t c ce w : quiet w (close_conn t c ce w).
Proof. split; [done..|]. intros u. unfold declared_at. simpl. by rewrite !declared_alter. Qed.

Lemma quiet_upd_conn c f w : quiet w (upd_conn c f w).
Proof. by split. Qed.

Lemma register_tunnels_clients l id reqs : ∀ w,
  clients (register_tunnels l id reqs w).1 = clients w ∧
  ∀ k, id_at (register_tunnels l id reqs w).1 k = id_at w k.
Proof.
  induction reqs as [|[req now] reqs IH]; intros w; [done|]. rewrite register_tunnels_cons. cbn [fst].
  destruct (IH (register_tunnel l id req now w).1) as [-> Hi]. split; [done|]. intros k. rewrite Hi.
  unfold id_at. simpl. destruct (decide (k = l)) as [->|]; [|by rewrite lookup_alter_ne].
  rewrite lookup_alter_eq. by destruct (hc w !! l).
Qed.

(** New tunnels are declared as requested, and the others stay. *)
Lemma register_tunnels_declared l id reqs : ∀ w t,
  (∀ u te, ht w !! u = Some te → u < next_loc w) →
  (∀ r, declared_at w t = Some r → declared_at (register_tunnels l id reqs w).1 t = Some r) ∧
  (∀ r, declared_at (register_tunnels l id reqs w).1 t = Some r → declared_at w t = Some r ∨ ∃ req, req ∈ reqs.*1 ∧ r = RemoteRequest_new (direction req) (kind req)).
Proof.
  induction reqs as [|[req now] reqs IH]; intros w t Hlt; [by auto|]. rewrite register_tunnels_cons. cbn [fst].
  destruct (IH (register_tunnel l id req now w).1 t) as [H1 H2].
  { simpl. intros u te [[<- _]|[_ Hu%Hlt]]%lookup_insert_Some; lia. }
  unfold declared_at in *. simpl in *. split.
  - intros r Hr. apply H1. destruct (ht w !! t) as [te|] eqn:Ht; [|done].
    apply Hlt in Ht as Hne. by rewrite lookup_insert_ne, Ht by lia.
  - intros r Hr. apply H2 in Hr as [Hr|(q & Hq & ->)]; [|right; exists q; split; [by constructor|done]].
    destruct (decide (t = next_loc w)) as [->|]; [|left; by rewrite lookup_insert_ne in Hr by done].
    rewrite lookup_insert_eq in Hr. injection Hr as <-. right. exists req. split; [by constructor|done].
Qed.

(** ** The invariant *)

(** [L] is the run of the ledger that the server's run is, [cs] the clients connected
    so far. *)
Record server_inv (mc : option N) (cs : list N) (s : ServerSys) (L : Sys) : Prop := {
  si_accept : accept_run mc (sv_acceptor s);
  si_running id : id ∈ running (sv_acceptor s) ↔ is_Some (sv_tasks s !! id);
  si_reachable : reachable L;
  si_world : world L = sv_world s;
  si_guards : guards L = g_tunnel <$> sv_guards s;
  si_fresh l id : id_at (sv_world s) l = Some id → id ≤ client_counter (sv_acceptor s) ∧
    ∀ t, sv_tasks s !! id = Some t → t_phase t ≠ Handshaking;
  si_clients id : clients (sv_world s) !! id = (t ← sv_tasks s !! id; client_of (t_phase t));
  si_allowed t r : declared_at (sv_world s) t = Some r → allowed allow_reverse allow_socks r;
  si_guard c g : sv_guards s !! c = Some g → ∃ r, declared_at (sv_world s) (g_tunnel g) = Some r ∧
    match g_task g with
    | Some id => direction r = Forward ∧ ∃ t, sv_tasks s !! id = Some t ∧ handling (t_phase t) = true
    | None => direction r = Reverse
    end;
  si_task id t : sv_tasks s !! id = Some t →
    (∀ x, x ∈ t_replying t → ∃ r, declared_at (sv_world s) x.1 = Some r ∧ direction r = Forward) ∧
    (handling (t_phase t) = false → t = at_phase (t_phase t));
  si_past : map hi_client_id (past L) ++ (map_to_list (clients (sv_world s))).*1 ≡ₚ cs;
  si_nodup : NoDup cs;
  si_known id : id ∈ cs → ∃ l, id_at (sv_world s) l = Some id }.

Lemma server_inv_new mc now addr : server_inv mc [] (server_new mc now addr) (init now addr).
Proof.
  split; try done; [constructor| |constructor|constructor|set_solver].
  intros id. simpl. rewrite lookup_empty, is_Some_alt. set_solver.
Qed.

(** The task [id] becomes [t'] and the state [w'], in which no client but its own
    changed. *)
Lemma inv_change mc cs cs' s L L' id t t' w' :
  server_inv mc cs s L → sv_tasks s !! id = Some t →
  reachable L' → world L' = w' → guards L' = guards L →
  t_phase t' ≠ Handshaking →
  (∀ l k, id_at w' l = Some k → id_at (sv_world s) l = Some k ∨ k = id) →
  (∀ k, clients w' !! k = if decide (k = id) then client_of (t_phase t') else clients (sv_world s) !! k) →
  (∀ u, declared_at w' u = declared_at (sv_world s) u) →
  (handling (t_phase t') = true ∨ map_Forall (λ _ g, g_task g ≠ Some id) (sv_guards s)) →
  (∀ x, x ∈ t_replying t' → ∃ r, declared_at (sv_world s) x.1 = Some r ∧ direction r = Forward) →
  (handling (t_phase t') = false → t' = at_phase (t_phase t')) →
  map hi_client_id (past L') ++ (map_to_list (clients w')).*1 ≡ₚ cs' →
  NoDup cs' → (∀ k, k ∈ cs' → ∃ l, id_at w' l = Some k) →
  server_inv mc cs' (with_task id t' (with_world w' s)) L'.
Proof.
  intros [Ha Hr HL Hw Hg Hf Hc Hal Hgd Ht Hp Hnd Hk] Hid HL' Hw' Hg' Hn Hids Hcl Hd Hh Hrep Hat Hp' Hnd' Hk'.
  split; simpl; try done.
  - intros k. rewrite Hr. by destruct (decide (k = id)) as [->|];
      rewrite ?lookup_insert_eq, ?lookup_insert_ne, ?Hid, ?is_Some_alt.
  - by rewrite Hg'.
  - intros l k [Hin| ->]%Hids.
    + apply Hf in Hin as [Hle Hne]. split; [done|]. intros u [[<- <-]|[_ Hu]]%lookup_insert_Some; eauto.
    + split; [|intros u; rewrite lookup_insert_eq; by intros [= <-]].
      destruct (accept_run_cap _ _ Ha) as (_ & Hall & _). rewrite Forall_forall in Hall.
      apply (Hall id), Hr. by rewrite Hid.
  - intros k. rewrite Hcl. case_decide; [by subst; rewrite lookup_insert_eq|]. by rewrite lookup_insert_ne.
  - intros u r. rewrite Hd. apply Hal.
  - intros c g Hcg. destruct (Hgd c g Hcg) as (r & Hr' & Hm). exists r. rewrite Hd. split; [done|].
    destruct (g_task g) as [k|] eqn:Ek; [|done]. destruct Hm as (Hdir & u & Hu & Hhu). split; [done|].
    destruct (decide (k = id)) as [->|]; [|exists u; by rewrite lookup_insert_ne].
    exists t'. rewrite lookup_insert_eq. split; [done|]. destruct Hh as [?|Hno]; [done|]. by destruct (Hno c g Hcg).
  - intros k u [[<- <-]|[_ Hu]]%lookup_insert_Some.
    + split; [|done]. intros x. rewrite Hd. apply Hrep.
    + destruct (Ht k u Hu) as [H1 H2]. split; [|done]. intros x. rewrite Hd. apply H1.
Qed.

(** A task that has no handlers owns no guard. *)
Lemma inv_idle mc cs s L id t :
  server_inv mc cs s L → sv_tasks s !! id = Some t → handling (t_phase t) = false →
  map_Forall (λ _ g, g_task g ≠ Some id) (sv_guards s).
Proof.
  intros Hi Hid Hh c g (r & _ & Hm)%(si_guard _ _ _ _ Hi) Hk. rewrite Hk in Hm.
  destruct Hm as (_ & u & Hu & Hhu). congruence.
Qed.

(** What a task may become without touching the state. *)
Lemma inv_with_task mc cs s L id t t' :
  server_inv mc cs s L → sv_tasks s !! id = Some t →
  t_phase t' ≠ Handshaking → client_of (t_phase t') = client_of (t_phase t) →
  (handling (t_phase t) = true → handling (t_phase t') = true) →
  (∀ x, x ∈ t_replying t' → ∃ r, declared_at (sv_world s) x.1 = Some r ∧ direction r = Forward) →
  (handling (t_phase t') = false → t' = at_phase (t_phase t')) →
  server_inv mc cs (with_task id t' s) L.
Proof.
  intros Hi Hid Hn Hco Hh Hrep Hat.
  change (with_task id t' s) with (with_task id t' (with_world (sv_world s) s)).
  eapply (inv_change mc cs); [done|done|apply Hi|apply Hi|done|done|by left| |done| |done|done|apply Hi..].
  - intros k. case_decide; [|done]. subst. by rewrite (si_clients _ _ _ _ Hi), Hid.
  - destruct (handling (t_phase t)) eqn:E; [by left; apply Hh|right; by eapply inv_idle].
Qed.

(** A step of the ledger that leaves the clients and the declarations alone. *)
Lemma inv_quiet mc cs s L o L' w g :
  server_inv mc cs s L → exec o L = Some L' → world L' = w → guards L' = g_tunnel <$> g →
  past L' = past L → quiet (sv_world s) w →
  (∀ c x, g !! c = Some x → sv_guards s !! c = Some x ∨ ∃ r, declared_at (sv_world s) (g_tunnel x) = Some r ∧
    match g_task x with
    | Some id => direction r = Forward ∧ ∃ t, sv_tasks s !! id = Some t ∧ handling (t_phase t) = true
    | None => direction r = Reverse
    end) →
  server_inv mc cs (with_guards g (with_world w s)) L'.
Proof.
  intros [Ha Hr HL Hw Hg Hf Hc Hal Hgd Ht Hp Hnd Hk] E Ew Eg Ep [Qc Qi Qd] Hx. split; simpl; try done.
  - by eapply reach_step.
  - intros l k. rewrite Qi. apply Hf.
  - intros k. by rewrite Qc.
  - intros t r. rewrite Qd. apply Hal.
  - intros c x. rewrite Qd. intros [Hc'|Hc']%Hx; [by apply (Hgd c)|done].
  - intros k u Hu. destruct (Ht k u Hu) as [H1 H2]. split; [|done]. intros x. rewrite Qd. apply H1.
  - by rewrite Ep, Qc.
  - intros k [l Hl]%Hk. exists l. by rewrite Qi.
Qed.

Lemma inv_open_guard mc cs s L t r peer task now s' :
  server_inv mc cs s L → open_guard t peer task now s = Some s' → declared_at (sv_world s) t = Some r →
  match task with
  | Some id => direction r = Forward ∧ ∃ t, sv_tasks s !! id = Some t ∧ handling (t_phase t) = true
  | None => direction r = Reverse
  end → ∃ L', server_inv mc cs s' L'.
Proof.
  intros Hi E Hd Hm. unfold open_guard in E. destruct (ht (sv_world s) !! t) as [te|] eqn:Ht; [|done].
  cbn [mbind option_bind] in E. case_decide as Hn; [|done].
  pose proof (quiet_register_conn t te peer now (sv_world s)) as Hq.
  assert (∃ L', exec (RegisterConn t peer now) L = Some L' ∧
    world L' = (register_conn t te peer now (sv_world s)).1 ∧
    guards L' = <[(register_conn t te peer now (sv_world s)).2 := t]> (guards L) ∧ past L' = past L)
    as (L' & EL & Ew & Eg & Ep).
  { cbn [exec]. rewrite (si_world _ _ _ _ Hi), Ht. cbn [mbind option_bind]. rewrite decide_True by done.
    eexists. by split. }
  destruct (register_conn t te peer now (sv_world s)) as [w c]. cbn [fst snd] in *. injection E as <-.
  exists L'. eapply inv_quiet; try done.
  - by rewrite fmap_insert, Eg, (si_guards _ _ _ _ Hi).
  - intros c' x [[<- <-]|[_ Hc]]%lookup_insert_Some; [right; by exists r|by left].
Qed.

Lemma inv_drop_guard mc cs s L c g s' :
  server_inv mc cs s L → sv_guards s !! c = Some g → drop_guard c g s = Some s' →
  ∃ L', server_inv mc cs s' L'.
Proof.
  intros Hi Hc E. unfold drop_guard in E. destruct (hn (sv_world s) !! c) as [ce|] eqn:Hn; [|done].
  injection E as <-. pose proof (si_world _ _ _ _ Hi) as Ew. pose proof (si_guards _ _ _ _ Hi) as Eg.
  exists (mkSys (close_conn (g_tunnel g) c ce (world L)) (delete c (guards L)) (ledger L) (past L)).
  eapply (inv_quiet mc cs s L (CloseConn c)); [done|..].
  - cbn [exec]. by rewrite Ew, Hn, Eg, lookup_fmap, Hc.
  - by rewrite Ew.
  - cbn [guards]. by rewrite fmap_delete, Eg.
  - done.
  - apply quiet_close_conn.
  - intros c' x [_ Hx]%lookup_delete_Some. by left.
Qed.

Lemma inv_counted mc cs s L o c f L' :
  server_inv mc cs s L → exec o L = Some L' → world L' = upd_conn c f (world L) → guards L' = guards L →
  past L' = past L → server_inv mc cs (with_world (upd_conn c f (sv_world s)) s) L'.
Proof.
  intros Hi E Ew Eg Ep. rewrite (si_world _ _ _ _ Hi) in Ew.
  change (with_world ?w s) with (with_guards (sv_guards s) (with_world w s)).
  eapply inv_quiet; [done..| |done|apply quiet_upd_conn|by left]. by rewrite Eg, (si_guards _ _ _ _ Hi).
Qed.

(** The end of a handshake. *)
Lemma inv_handshake mc cs s L id r now t :
  server_inv mc cs s L → sv_tasks s !! id = Some t → t_phase t = Handshaking →
  ∃ L', server_inv mc (cs ++ match r with Ok _ => [id] | Err _ => [] end) (handshake_ends id r now s) L'.
Proof.
  intros Hi Hid Hph. unfold handshake_ends. pose proof (si_world _ _ _ _ Hi) as Hw.
  assert (clients (sv_world s) !! id = None) as Hnone
    by (by rewrite (si_clients _ _ _ _ Hi), Hid; simpl; rewrite Hph).
  assert (map_Forall (λ _ g, g_task g ≠ Some id) (sv_guards s)) as Hno by (eapply inv_idle; [done..|by rewrite Hph]).
  destruct r as [remote|e].
  - assert (map_Forall (λ _ e, cl_id e ≠ id) (hc (sv_world s))) as Hnew.
    { intros l e He Hcl. destruct (si_fresh _ _ _ _ Hi l id) as [_ Hn]; [unfold id_at; by rewrite He, <-Hcl|].
      by apply (Hn t). }
    exists (mkSys (register_client id remote now (world L)).1 (guards L) (ledger L) (past L)).
    eapply (inv_change mc cs); [done|done| | |done|done| | |done|by right|set_solver|done| | |]; simpl.
    + apply (reach_step (RegisterClient id remote now) L); [apply Hi|]. cbn [exec].
      by rewrite decide_True by (by rewrite Hw).
    + by rewrite Hw.
    + intros l k. unfold id_at. simpl. destruct (decide (l = next_loc (sv_world s))) as [->|].
      * rewrite lookup_insert_eq. intros [= <-]. by right.
      * rewrite lookup_insert_ne by done. by left.
    + intros k. case_decide as Hk; [by subst; rewrite lookup_insert_eq|by rewrite lookup_insert_ne].
    + rewrite map_to_list_insert by done. rewrite <-(si_past _ _ _ _ Hi). simpl.
      by rewrite <-Permutation_cons_append, Permutation_middle.
    + apply NoDup_app. split_and!; [apply Hi| |apply NoDup_singleton].
      intros k [l Hl]%(si_known _ _ _ _ Hi) ->%list_elem_of_singleton.
      destruct (si_fresh _ _ _ _ Hi l id Hl) as [_ Hn]. by apply (Hn t).
    + intros k [Hk| ->%list_elem_of_singleton]%elem_of_app.
      * apply (si_known _ _ _ _ Hi) in Hk as [l Hl]. exists l. unfold id_at in *. simpl. rewrite lookup_insert_ne; [done|].
        intros <-. destruct (hc (sv_world s) !! next_loc (sv_world s)) as [e|] eqn:He; [|done].
        destruct (reachable_inv _ (si_reachable _ _ _ _ Hi)) as [Hwf _ _]. rewrite Hw in Hwf.
        by apply (wf_fresh_c _ _ _ _ Hwf) in He.
      * exists (next_loc (sv_world s)). unfold id_at. simpl. by rewrite lookup_insert_eq.
  - exists L. rewrite app_nil_r. change (with_task id ?t s) with (with_task id t (with_world (sv_world s) s)).
    eapply (inv_change mc cs); [done|done|apply Hi|apply Hi|done|done|by left| |done|by right|set_solver|done|apply Hi..].
    intros k. case_decide; [by subst|done].
Qed.

(** The client of a task is deregistered and the task has returned. *)
Lemma inv_deregister mc cs s L id t l outcome reason now :
  server_inv mc cs s L → sv_tasks s !! id = Some t → client_of (t_phase t) = Some l →
  map_Forall (λ _ g, g_task g ≠ Some id) (sv_guards s) →
  ∃ L', server_inv mc cs (with_task id (at_phase (Returned outcome))
           (with_world (deregister_client id reason now (sv_world s)) s)) L'.
Proof.
  intros Hi Hid Hcl Hno. pose proof (si_world _ _ _ _ Hi) as Hw.
  destruct (reachable_inv _ (si_reachable _ _ _ _ Hi)) as [Hwf _ _].
  assert (clients (world L) !! id = Some l) as Hl by (by rewrite Hw, (si_clients _ _ _ _ Hi), Hid).
  destruct (wf_clients _ _ Hwf _ _ Hl) as (e & He & Eid).
  destruct (deregister_spec _ _ id reason now l e Hwf Hl He) as (Ehc & Eht & _ & _ & _ & _ & Ecl & _).
  exists (mkSys (deregister_client id reason now (world L)) (guards L) (ledger L)
            (past L ++ [history_of (world L) e reason now])).
  rewrite <-Hw. eapply (inv_change mc cs); [done|done| |done|done|done| | | |by right|set_solver|done| |apply Hi|]; simpl.
  - apply (reach_step (Deregister id reason now) L); [apply Hi|]. cbn [exec]. by rewrite Hl; simpl; rewrite He.
  - intros k u. unfold id_at. rewrite Ehc, Hw. by left.
  - intros k. rewrite Ecl, Hw. case_decide; [subst; apply lookup_delete_eq|by rewrite lookup_delete_ne].
  - intros u. unfold declared_at. by rewrite Eht, Hw.
  - rewrite Ecl, <-(si_past _ _ _ _ Hi), <-Hw, <-(map_to_list_delete (clients (world L)) id l Hl).
    rewrite map_app, <-app_assoc. cbn. by rewrite Eid.
  - intros k [u Hu]%(si_known _ _ _ _ Hi). exists u. unfold id_at in *. by rewrite Ehc, Hw.
Qed.

(** Allowed tunnels are registered for the client of a task. *)
Lemma inv_register_tunnels mc cs s L id t l reqs :
  server_inv mc cs s L → sv_tasks s !! id = Some t → client_of (t_phase t) = Some l →
  Forall (allowed allow_reverse allow_socks) reqs.*1 → next_tunnel_id (sv_world s) + len reqs < 2 ^ 64 →
  ∃ L', server_inv mc cs (with_world (register_tunnels l id reqs (sv_world s)).1 s) L'.
Proof.
  intros Hi Hid Hcl Hal Hn. pose proof Hi as [Ha Hr HL Hw Hg Hf Hc Hall Hgd Ht Hp Hnd Hk].
  destruct (reachable_inv _ HL) as [Hwf _ _]. rewrite Hw in Hwf.
  assert (clients (sv_world s) !! id = Some l) as Hl by (by rewrite Hc, Hid).
  destruct (wf_clients _ _ Hwf _ _ Hl) as (e & He & <-).
  destruct (register_tunnels_clients l (cl_id e) reqs (sv_world s)) as [Ecl Eid].
  pose proof (λ u, register_tunnels_declared l (cl_id e) reqs (sv_world s) u (wf_loc_t _ _ Hwf)) as Hd.
  assert (∃ L', exec (RegisterTunnels l reqs) L = Some L' ∧ guards L' = guards L ∧ past L' = past L ∧
    world L' = (register_tunnels l (cl_id e) reqs (sv_world s)).1) as (L' & E & Eg & Ep & Ew).
  { cbn [exec]. rewrite Hw, He. cbn [mbind option_bind]. rewrite decide_True by done.
    destruct (register_tunnels l (cl_id e) reqs (sv_world s)). by eexists. }
  exists L'. split; simpl; try done.
  - by eapply reach_step.
  - by rewrite Eg.
  - intros k i. rewrite Eid. apply Hf.
  - intros k. by rewrite Ecl.
  - intros u r [Hu|(q & Hq & ->)]%Hd; [by apply (Hall u)|]. rewrite Forall_forall in Hal. by apply Hal in Hq.
  - intros c g (r & Hdr & Hm)%Hgd. exists r. split; [|done]. by apply Hd.
  - intros k u Hu. destruct (Ht k u Hu) as [H1 H2]. split; [|done].
    intros x (r & Hr' & ?)%H1. exists r. split; [|done]. by apply Hd.
  - by rewrite Ep, Ecl.
  - intros k [u Hu]%Hk. exists u. by rewrite Eid.
Qed.

Lemma inv_hello_read mc cs s L id l t r clock now s' :
  server_inv mc cs s L → sv_tasks s !! id = Some t → t_phase t = Greeting l →
  hello_read id l r clock now s = Some s' → ∃ L', server_inv mc cs s' L'.
Proof.
  intros Hi Hid Hph E. assert (client_of (t_phase t) = Some l) as Hcl by (by rewrite Hph).
  assert (map_Forall (λ _ g, g_task g ≠ Some id) (sv_guards s)) as Hno by (eapply inv_idle; [done..|by rewrite Hph]).
  unfold hello_read, hello_fails in E. destruct r as [hello|e]; [|injection E as <-; by eapply inv_deregister].
  pose proof (validate_remotes_spec (hello_remotes hello) allow_reverse allow_socks) as Hv.
  destruct (validate_remotes _ _ _) as [[]|reason]; [|injection E as <-; by eapply inv_deregister].
  case_decide as Hn; [|done].
  destruct (inv_register_tunnels mc cs s L id t l (imap (λ i r, (r, clock i)) (hello_remotes hello))) as [L' Hi'];
    [done..| |done|].
  { rewrite fmap_imap. replace (imap _ _) with (Datatypes.id <$> hello_remotes hello); [by rewrite list_fmap_id|]. symmetry. apply imap_const. }
  destruct (register_tunnels _ _ _ _) as [w ts]. injection E as <-. exists L'.
  eapply inv_with_task; [exact Hi'|exact Hid|done|by rewrite Hph|by rewrite Hph|set_solver|done].
Qed.

Lemma inv_accept mc cs s L :
  server_inv mc cs s L → client_counter (sv_acceptor s) + 1 < 2 ^ 64 →
  server_inv mc cs (mkServer (accept (sv_acceptor s)).1
    (match (accept (sv_acceptor s)).2 with Some id => <[id := at_phase Handshaking]> (sv_tasks s)
     | None => sv_tasks s end) (sv_guards s) (sv_world s)) L.
Proof.
  intros Hi Hn. pose proof Hi as [Ha Hr HL Hw Hg Hf Hc Hal Hgd Ht Hp Hnd Hk].
  destruct (accept_run_cap _ _ Ha) as (_ & Hall & _). rewrite Forall_forall in Hall.
  set (new_id := client_counter (sv_acceptor s) + 1).
  assert (sv_tasks s !! new_id = None) as Hnew.
  { apply eq_None_not_Some. intros Hs%Hr%Hall. unfold new_id in Hs. lia. }
  assert (client_counter (accept (sv_acceptor s)).1 = new_id ∧
    ((accept (sv_acceptor s)).2 = None ∧ running (accept (sv_acceptor s)).1 = running (sv_acceptor s) ∨
     (accept (sv_acceptor s)).2 = Some new_id ∧
     running (accept (sv_acceptor s)).1 = new_id :: running (sv_acceptor s))) as [Hcnt Hcase].
  { unfold accept. rewrite wadd64_1 by done. destruct (limiter _); [destruct (try_acquire _)|]; simpl; auto. }
  assert (accept_run mc (accept (sv_acceptor s)).1) as Ha' by (by constructor).
  destruct (accept (sv_acceptor s)) as [a' r]. cbn [fst snd] in *.
  destruct Hcase as [[-> Hrun]|[-> Hrun]]; split; simpl; try done.
  - intros id. by rewrite Hrun.
  - intros l id (Hle & Hne)%Hf. split; [|done]. rewrite Hcnt. unfold new_id. lia.
  - intros id. rewrite Hrun, elem_of_cons, Hr. destruct (decide (id = new_id)) as [->|].
    + rewrite lookup_insert_eq, is_Some_alt. split; [done|by left].
    + rewrite lookup_insert_ne by done. naive_solver.
  - intros l id (Hle & Hne)%Hf. split; [rewrite Hcnt; unfold new_id; lia|].
    intros t [[<- _]|[_ Hu]]%lookup_insert_Some; [unfold new_id in Hle; lia|eauto].
  - intros id. rewrite Hc. destruct (decide (id = new_id)) as [->|]; [|by rewrite lookup_insert_ne].
    by rewrite lookup_insert_eq, Hnew.
  - intros c g (r & Hd & Hm)%Hgd. exists r. split; [done|]. destruct (g_task g) as [k|]; [|done].
    destruct Hm as (? & u & Hu & ?). split; [done|]. exists u. rewrite lookup_insert_ne; [done|congruence].
  - intros id t [[<- <-]|[_ Hu]]%lookup_insert_Some; [|by apply (Ht id)]. split; [set_solver|done].
Qed.

Lemma elem_of_remove (x y : N) l : x ∈ remove N.eq_dec y l ↔ x ∈ l ∧ x ≠ y.
Proof.
  rewrite !list_elem_of_In. split; [apply in_remove|]. intros [? ?]. by apply in_in_remove.
Qed.

Lemma inv_permit mc cs s L id t outcome :
  server_inv mc cs s L → sv_tasks s !! id = Some t → t_phase t = Returned outcome →
  server_inv mc cs (mkServer (finish id (sv_acceptor s)) (delete id (sv_tasks s)) (sv_guards s) (sv_world s)) L.
Proof.
  intros Hi Hid Hph. pose proof Hi as [Ha Hr HL Hw Hg Hf Hc Hal Hgd Ht Hp Hnd Hk]. split; simpl; try done.
  - constructor; [done|]. apply Hr. by rewrite Hid.
  - intros k. rewrite elem_of_remove, Hr.
    destruct (decide (k = id)) as [->|]; [rewrite lookup_delete_eq, is_Some_alt|rewrite lookup_delete_ne by done]; naive_solver.
  - intros l k (Hle & Hne)%Hf. split; [done|]. intros u [_ Hu]%lookup_delete_Some. eauto.
  - intros k. rewrite Hc. destruct (decide (k = id)) as [->|]; [|by rewrite lookup_delete_ne].
    rewrite lookup_delete_eq, Hid. simpl. by rewrite Hph.
  - intros c g Hcg. destruct (Hgd c g Hcg) as (r & Hd & Hm). exists r. split; [done|].
    destruct (g_task g) as [k|] eqn:Ek; [|done]. destruct Hm as (? & u & Hu & ?). split; [done|]. exists u.
    rewrite lookup_delete_ne; [done|]. intros <-. by eapply (inv_idle _ _ _ _ _ _ Hi Hid); [rewrite Hph|..].
  - intros k u [_ Hu]%lookup_delete_Some. by apply (Ht k).
Qed.

(** A conn can only be opened by a client on a forward tunnel. *)
Lemma open_target_forward r w t d :
  open_target r w = Ok (t, d) → ∃ q, declared_at w t = Some q ∧ direction q = Forward.
Proof.
  unfold open_target, declared_at, tunnel. destruct r as [open|]; [|done]. simpl.
  destruct (tunnels w !! oc_tunnel_id open) as [t'|]; [|done]. simpl.
  destruct (ht w !! t') as [te|] eqn:Ht; [|done]. simpl.
  destruct (resolve_dispatch te (oc_dynamic open)) as [d'|] eqn:Hd; [|done]. simpl.
  intros [= <- <-]. rewrite Ht. eexists. split; [done|]. unfold resolve_dispatch in Hd.
  simpl. by destruct (te_direction te).
Qed.

(** The [JoinSet] of a task has handlers in two phases only. *)
Lemma inv_handling mc cs s L id t :
  server_inv mc cs s L → sv_tasks s !! id = Some t →
  t_opening t ≠ 0%nat ∨ t_replying t ≠ [] ∨ t_reverse t ≠ [] → handling (t_phase t) = true.
Proof.
  intros Hi Hid Hne. destruct (handling (t_phase t)) eqn:E; [done|].
  destruct (si_task _ _ _ _ Hi id t Hid) as [_ Hat]. rewrite (Hat E) in Hne. simpl in Hne. naive_solver.
Qed.

Lemma inv_handler_drop mc cs s L id t h s' :
  server_inv mc cs s L → sv_tasks s !! id = Some t → handler_drop id t h s = Some s' →
  ∃ L', server_inv mc cs s' L'.
Proof.
  intros Hi Hid E. destruct (si_task _ _ _ _ Hi id t Hid) as [Hrep _]. destruct h as [|i|c|r]; cbn [handler_drop] in E.
  - destruct (t_opening t) as [|n] eqn:Hop; [done|]. injection E as <-. exists L.
    assert (handling (t_phase t) = true) as Hh by (eapply inv_handling; [done..|left; by rewrite Hop]).
    eapply inv_with_task; [done|done|by destruct (t_phase t)|done|done|done|simpl; congruence].
  - destruct (t_replying t !! i) as [x|] eqn:Hti; [|done]. injection E as <-. exists L.
    assert (handling (t_phase t) = true) as Hh.
    { eapply inv_handling; [done..|right; left]. intros Hn. by rewrite Hn in Hti. }
    eapply inv_with_task; [done|done|by destruct (t_phase t)|done|done| |simpl; congruence].
    intros y Hy. apply Hrep. by eapply elem_of_sublist; [exact Hy|apply sublist_delete].
  - destruct (sv_guards s !! c) as [g|] eqn:Hc; [|done]. cbn [mbind option_bind] in E. case_decide; [|done].
    by eapply inv_drop_guard.
  - case_decide as Hu; [|done]. injection E as <-. exists L.
    assert (handling (t_phase t) = true) as Hh.
    { eapply inv_handling; [done..|right; right]. intros Hn. rewrite Hn in Hu. set_solver. }
    eapply inv_with_task; [done|done|by destruct (t_phase t)|done|done|done|simpl; congruence].
Qed.

Lemma inv_task_step mc cs s L id t e s' :
  server_inv mc cs s L → sv_tasks s !! id = Some t → event_task e = Some id →
  task_step id t e s = Some s' → ∃ L', server_inv mc (cs ++ connected [e]) s' L'.
Proof.
  intros Hi Hid He E. destruct (si_task _ _ _ _ Hi id t Hid) as [Hrep _].
  assert (cs ++ [] = cs) as Hnil by apply app_nil_r.
  destruct e as [|k r now|k r clock now|k r now|k|k r|k i r now|k c|k u|k h|u p now|c|c n|c n|k err|k now|k];
    try done; injection He as ->; cbn [task_step] in E;
    try change (connected _) with (@nil N); rewrite ?Hnil.
  - destruct (t_phase t) eqn:Hph; try done. injection E as <-.
    destruct (inv_handshake mc cs s L id r now t Hi Hid Hph) as [L' HL]. exists L'. by destruct r.
  - destruct (t_phase t) eqn:Hph; try done. by eapply inv_hello_read.
  - destruct (t_phase t) as [| |l ts| | |] eqn:Hph; try done. injection E as <-.
    assert (client_of (t_phase t) = Some l) as Hcl by (by rewrite Hph).
    destruct r as [[]|err]; simpl; [|eapply inv_deregister; [done..|eapply inv_idle; [done..|by rewrite Hph]]].
    exists L. eapply inv_with_task; [done|done|done|by rewrite Hph|done|set_solver|done].
  - destruct (t_phase t) eqn:Hph; try done. injection E as <-. exists L.
    eapply inv_with_task; [done|done|done|by rewrite Hph|done|done|done].
  - destruct (t_opening t) as [|n] eqn:Hop; [done|]. injection E as <-. exists L.
    assert (handling (t_phase t) = true) as Hh by (eapply inv_handling; [done..|left; by rewrite Hop]).
    eapply inv_with_task; [done|done|by destruct (t_phase t)|done|done| |simpl; congruence]. simpl.
    destruct (open_target r (sv_world s)) as [[tl d]|err] eqn:Ho; [|done].
    intros x [Hx| ->%list_elem_of_singleton]%elem_of_app; [by apply Hrep|]. by apply (open_target_forward r _ _ d).
  - destruct (t_replying t !! i) as [[tl d]|] eqn:Hti; [|done]. cbn [mbind option_bind] in E.
    pose proof (list_elem_of_lookup_2 _ _ _ Hti) as Hin.
    assert (handling (t_phase t) = true) as Hh.
    { eapply inv_handling; [done..|right; left]. intros Hn. by rewrite Hn in Hti. }
    assert (server_inv mc cs (with_task id (mkTask (t_phase t) (t_opening t) (delete i (t_replying t)) (t_reverse t)) s) L) as Hi'.
    { eapply inv_with_task; [done|done|by destruct (t_phase t)|done|done| |simpl; congruence].
      intros x Hx. apply Hrep. by eapply elem_of_sublist; [exact Hx|apply sublist_delete]. }
    destruct r as [[]|err]; [|injection E as <-; by exists L].
    destruct (Hrep _ Hin) as (q & Hq & Hf). eapply inv_open_guard; [exact Hi'|exact E|exact Hq|].
    split; [done|]. eexists. split; [apply lookup_insert_eq|done].
  - by eapply inv_handler_drop.
  - by eapply inv_handler_drop.
  - destruct (aborting (t_phase t)); [|done]. by eapply inv_handler_drop.
  - destruct (t_phase t) eqn:Hph; try done. injection E as <-. exists L.
    eapply inv_with_task; [done|done|done|by rewrite Hph|done|done|done].
  - destruct (t_phase t) as [| | | |l o|] eqn:Hph; try done. case_decide as Hj; [|done]. injection E as <-.
    destruct Hj as (_ & _ & _ & Hno). eapply inv_deregister; [done|done|by rewrite Hph|done].
  - destruct (t_phase t) eqn:Hph; try done. injection E as <-. exists L. by eapply inv_permit.
Qed.

Lemma inv_other_step mc cs s L e s' :
  server_inv mc cs s L → event_task e = None → other_step e s = Some s' →
  ∃ L', server_inv mc (cs ++ connected [e]) s' L'.
Proof.
  intros Hi He E. assert (cs ++ [] = cs) as Hnil by apply app_nil_r.
  destruct e as [| | | | | | | | | |u p now|c|c n|c n| | |]; try done; cbn [other_step] in E;
    change (connected _) with (@nil N); rewrite ?Hnil.
  - case_decide as Hn; [|done]. exists L. pose proof (inv_accept mc cs s L Hi Hn) as Ha.
    destruct (accept (sv_acceptor s)) as [a r]. by injection E as <-.
  - destruct (ht (sv_world s) !! u) as [te|] eqn:Hu; [|done]. cbn [mbind option_bind] in E.
    case_decide as Hd; [|done]. eapply inv_open_guard; [done|exact E| |]; [unfold declared_at; by rewrite Hu|done].
  - destruct (sv_guards s !! c) as [g|] eqn:Hc; [|done]. cbn [mbind option_bind] in E. case_decide; [|done].
    by eapply inv_drop_guard.
  - destruct (hn (sv_world s) !! c) as [ce|] eqn:Hc; [|done]. injection E as <-.
    destruct (exec (AddIn c n) L) as [L'|] eqn:EL; cbn [exec] in EL; rewrite (si_world _ _ _ _ Hi), Hc in EL; [|done].
    exists L'. eapply (inv_counted mc cs s L (AddIn c n)); [done|cbn [exec]; rewrite (si_world _ _ _ _ Hi), Hc; exact EL|..];
      injection EL as <-; [by rewrite (si_world _ _ _ _ Hi)|done..].
  - destruct (hn (sv_world s) !! c) as [ce|] eqn:Hc; [|done]. injection E as <-.
    destruct (exec (AddOut c n) L) as [L'|] eqn:EL; cbn [exec] in EL; rewrite (si_world _ _ _ _ Hi), Hc in EL; [|done].
    exists L'. eapply (inv_counted mc cs s L (AddOut c n)); [done|cbn [exec]; rewrite (si_world _ _ _ _ Hi), Hc; exact EL|..];
      injection EL as <-; [by rewrite (si_world _ _ _ _ Hi)|done..].
Qed.

Lemma inv_step mc cs s L e s' :
  server_inv mc cs s L → server_step e s = Some s' → ∃ L', server_inv mc (cs ++ connected [e]) s' L'.
Proof.
  intros Hi E. unfold server_step in E. destruct (event_task e) as [id|] eqn:He; [|by eapply inv_other_step].
  destruct (sv_tasks s !! id) as [t|] eqn:Hid; [|done]. by eapply inv_task_step.
Qed.

Lemma connected_cons e es : connected (e :: es) = connected [e] ++ connected es.
Proof. unfold connected. by rewrite <-omap_app. Qed.

Lemma inv_run mc es : ∀ cs s L s',
  server_inv mc cs s L → server_run es s = Some s' → ∃ L', server_inv mc (cs ++ connected es) s' L'.
Proof.
  induction es as [|e es IH]; intros cs s L s' Hi E; cbn [server_run] in E.
  - injection E as <-. exists L. by rewrite app_nil_r.
  - destruct (server_step e s) as [s1|] eqn:E1; [|done]. destruct (inv_step _ _ _ _ _ _ Hi E1) as [L1 Hi1].
    destruct (IH _ _ _ _ Hi1 E) as [L' Hi']. exists L'. by rewrite connected_cons, app_assoc.
Qed.

(** ** What holds of every run *)

Section runs.
Variables (mc : option N) (now : SystemTime) (addr : SocketAddr) (es : list ServerEvent) (s : ServerSys).
Hypothesis Hrun : server_run es (server_new mc now addr) = Some s.

Lemma run_inv : ∃ L, server_inv mc (connected es) s L.
Proof. by apply (inv_run mc es [] _ _ s (server_inv_new mc now addr)). Qed.

Lemma listed_le_running : client_count (sv_world s) ≤ len (running (sv_acceptor s)).
Proof.
  destruct run_inv as [L Hi]. unfold client_count.
  rewrite <-length_map_to_list, <-(length_fmap fst). enough ((map_to_list (clients (sv_world s))).*1 ⊆+ running (sv_acceptor s)) as Hsub%submseteq_length by lia.
  apply NoDup_submseteq.
  - apply NoDup_fst_map_to_list.
  - intros id ((k & l) & -> & Hl%elem_of_map_to_list)%list_elem_of_fmap. simpl.
    apply (si_running _ _ _ _ Hi). rewrite (si_clients _ _ _ _ Hi) in Hl.
    by destruct (sv_tasks s !! k).
Qed.

Lemma tunnels_of_none : clients (sv_world s) = ∅ → tunnels (sv_world s) = ∅.
Proof.
  intros Hc. destruct run_inv as [L Hi]. destruct (reachable_inv _ (si_reachable _ _ _ _ Hi)) as [Hwf _ _].
  rewrite (si_world _ _ _ _ Hi) in Hwf. apply map_empty. intros tid. apply eq_None_not_Some. intros [t Ht].
  destruct (wf_tunnels _ _ Hwf _ _ Ht) as (te & Hte & <-).
  destruct (wf_owner _ _ Hwf _ _ Hte) as (l & e & Hl & _ & Hin).
  destruct (wf_client_tunnels _ _ Hwf _ _ _ _ Hl Hin) as (_ & Hx). by rewrite Hc, lookup_empty, Ht in Hx.
Qed.

Lemma conns_of_none : sv_guards s = ∅ → conns (sv_world s) = ∅.
Proof.
  intros Hg. destruct run_inv as [L Hi]. destruct (reachable_inv _ (si_reachable _ _ _ _ Hi)) as [Hwf _ _].
  rewrite (si_world _ _ _ _ Hi), (si_guards _ _ _ _ Hi), Hg, fmap_empty in Hwf.
  apply map_empty. intros id. apply eq_None_not_Some. intros [c Hc].
  destruct (wf_conns _ _ Hwf _ _ Hc) as ([t Ht] & _). by rewrite lookup_empty in Ht.
Qed.

End runs.

(** C3: in every run of the server, whatever the order in which its tasks make
    progress and however they end, a client is listed exactly while its task is between
    the end of the handshake and the deregistration; there are never more clients than
    running tasks, nor than [--max-connections], and a connection is refused exactly when
    that many tasks run; and when no task is left no client and no tunnel is listed, nor
    a conn once the tasks of reverse conns are gone too. *)
Theorem server_listing mc now addr es s :
  server_run es (server_new mc now addr) = Some s →
  (∀ id, is_Some (client id (sv_world s)) ↔
     ∃ t, sv_tasks s !! id = Some t ∧ is_Some (client_of (t_phase t))) ∧
  client_count (sv_world s) ≤ len (running (sv_acceptor s)) ∧
  (∀ n, mc = Some n → client_count (sv_world s) ≤ n ∧
     ((accept (sv_acceptor s)).2 = None ↔ size (sv_tasks s) = N.to_nat n)) ∧
  (sv_tasks s = ∅ → clients (sv_world s) = ∅ ∧ tunnels (sv_world s) = ∅ ∧
     (sv_guards s = ∅ → conns (sv_world s) = ∅)).
Proof.
  intros Hrun. destruct (run_inv _ _ _ _ _ Hrun) as [L Hi]. pose proof (listed_le_running _ _ _ _ _ Hrun) as Hle.
  split_and!; [|done| |].
  - intros id. unfold client. rewrite (si_clients _ _ _ _ Hi). destruct (sv_tasks s !! id) as [t|]; simpl.
    + split; [by eauto|]. by intros (u & [= <-] & ?).
    + split; [by intros []|]. by intros (? & ? & _).
  - intros n Hn. destruct (connection_cap _ _ (si_accept _ _ _ _ Hi)) as (Hnd & _ & Hcap & _).
    destruct (Hcap n Hn) as [Hlen Hiff]. split; [lia|]. rewrite Hiff.
    assert (size (sv_tasks s) = length (running (sv_acceptor s))) as ->; [|lia].
    rewrite <-length_map_to_list, <-(length_fmap fst). apply Permutation_length, NoDup_Permutation; [|done|].
    + apply NoDup_fst_map_to_list.
    + intros id. rewrite (si_running _ _ _ _ Hi), list_elem_of_fmap. split.
      * intros ([k t] & -> & Ht%elem_of_map_to_list). by eexists.
      * intros [t Ht]. exists (id, t). by rewrite elem_of_map_to_list.
  - intros Ht. assert (clients (sv_world s) = ∅) as Hc.
    { apply map_empty. intros id. by rewrite (si_clients _ _ _ _ Hi), Ht, lookup_empty. }
    split_and!; [done|by eapply tunnels_of_none|by eapply conns_of_none].
Qed.

(** C5: no client that completed its handshake is forgotten or reported twice: the
    clients that connected, each once, are those listed and those of the disconnects
    the server has recorded, of which the history keeps the last 256. *)
Theorem history_complete mc now addr es s :
  server_run es (server_new mc now addr) = Some s →
  NoDup (connected es) ∧
  ∃ disconnects, history (sv_world s) = drop (length disconnects - HISTORY_CAPACITY) disconnects ∧
    map hi_client_id disconnects ++ (map_to_list (clients (sv_world s))).*1 ≡ₚ connected es.
Proof.
  intros Hrun. destruct (run_inv _ _ _ _ _ Hrun) as [L Hi]. split; [apply Hi|]. exists (past L).
  split; [|apply Hi]. rewrite <-(si_world _ _ _ _ Hi). apply reachable_inv, Hi.
Qed.

(** C4: what the operator did not allow never exists on the server, whatever hellos and
    frames clients send: every tunnel ever registered is allowed by the flags, a conn a
    client opened is on a forward tunnel, and a conn is opened on a reverse tunnel by the
    handlers of reverse tunnels only. *)
Theorem policy_enforced mc now addr es s :
  server_run es (server_new mc now addr) = Some s →
  (∀ t te, ht (sv_world s) !! t = Some te →
     (te_direction te = Reverse → allow_reverse = true) ∧
     (∀ l, te_kind te = KSocks5 l → allow_socks = true)) ∧
  (∀ id c, conn id (sv_world s) = Some c → ∃ g te, sv_guards s !! c = Some g ∧
     ht (sv_world s) !! g_tunnel g = Some te ∧
     te_direction te = match g_task g with Some _ => Forward | None => Reverse end).
Proof.
  intros Hrun. destruct (run_inv _ _ _ _ _ Hrun) as [L Hi]. split.
  - intros t te Ht. destruct (si_allowed _ _ _ _ Hi t (declared te)) as [Hr Hs];
      [by unfold declared_at; rewrite Ht|]. unfold declared, is_reversed, is_socks in Hr, Hs. simpl in Hr, Hs. split.
    + intros Hd. apply Hr. by rewrite Hd.
    + intros l Hk. apply Hs. by rewrite Hk.
  - intros id c Hc. destruct (reachable_inv _ (si_reachable _ _ _ _ Hi)) as [Hwf _ _].
    rewrite (si_world _ _ _ _ Hi), (si_guards _ _ _ _ Hi) in Hwf. destruct (wf_conns _ _ Hwf _ _ Hc) as ([t Ht] & _).
    rewrite lookup_fmap in Ht. destruct (sv_guards s !! c) as [g|] eqn:Hg; [|done]. simpl in Ht. injection Ht as <-.
    destruct (si_guard _ _ _ _ Hi c g Hg) as (r & Hd & Hm). unfold declared_at in Hd.
    destruct (ht (sv_world s) !! g_tunnel g) as [te|] eqn:Hte; [|done]. injection Hd as <-.
    exists g, te. split_and!; [done..|]. destruct (g_task g); [by destruct Hm|done].
Qed.

(** ** What the admin API shows of a run *)

Lemma list_clients_ids w g : wf w g → map cs_id (list_clients w) ≡ₚ (map_to_list (clients w)).*1.
Proof.
  intros Hwf. unfold list_clients. rewrite sort_by_key_perm, <-(iter_perm (clients w)).
  assert (∀ kv, kv ∈ iter (clients w) → clients w !! kv.1 = Some kv.2) as Hin.
  { intros [k l]. rewrite (iter_perm (clients w)). apply elem_of_map_to_list. }
  unfold clients_snapshot. revert Hin. generalize (iter (clients w)). intros kvs Hin.
  enough (map cs_id (omap (λ l, client_summary w <$> hc w !! l) kvs.*2) = kvs.*1) as -> by done.
  induction kvs as [|[k l] kvs IH]; [done|]. cbn.
  destruct (wf_clients _ _ Hwf k l (Hin (k, l) ltac:(by left))) as (e & -> & Hid). cbn.
  rewrite Hid, IH; [done|]. intros kv Hkv. apply Hin. by right.
Qed.

(** The ids of the tasks whose client is registered. *)
Definition sessions (s : ServerSys) : gmap N loc := omap (λ t, client_of (t_phase t)) (sv_tasks s).

(** C14: the admin API tells the truth about a running server: at any moment of any run
    the clients it lists are the sessions of the running tasks, as many as it reports in
    the server's summary; and it never reports a tunnel that the operator's flags forbid. *)
Theorem api_shows_sessions mc now addr es s at_time :
  server_run es (server_new mc now addr) = Some s →
  map cs_id (list_clients (sv_world s)) ≡ₚ (map_to_list (sessions s)).*1 ∧
  si_client_count (get_server at_time (sv_world s)) = N.of_nat (size (sessions s)) ∧
  (∀ d, d ∈ list_tunnels (sv_world s) →
     (td_direction d = str "reverse" → allow_reverse = true) ∧ (td_kind d = str "socks5" → allow_socks = true)).
Proof.
  intros Hrun. destruct (run_inv _ _ _ _ _ Hrun) as [L Hi].
  destruct (reachable_inv _ (si_reachable _ _ _ _ Hi)) as [Hwf _ _]. rewrite (si_world _ _ _ _ Hi) in Hwf.
  assert (clients (sv_world s) = sessions s) as Hc.
  { apply map_eq. intros id. unfold sessions. rewrite lookup_omap, (si_clients _ _ _ _ Hi).
    by destruct (sv_tasks s !! id). }
  split_and!.
  - by rewrite (list_clients_ids _ _ Hwf), Hc.
  - unfold get_server, server_info. cbn. unfold client_count. by rewrite Hc.
  - intros d Hd. unfold list_tunnels in Hd. rewrite sort_by_key_perm in Hd.
    apply list_elem_of_omap in Hd as (t & _ & Ht). destruct (ht (sv_world s) !! t) as [te|] eqn:Hte; [|done].
    injection Ht as <-. destruct (si_allowed _ _ _ _ Hi t (declared te)) as [Hr Hs]; [by unfold declared_at; rewrite Hte|].
    unfold declared, is_reversed, is_socks in Hr, Hs. cbn in Hr, Hs |- *. split; intros E.
    + apply Hr. by destruct (te_direction te).
    + apply Hs. by destruct (te_kind te).
Qed.

(** A tunnel is looked up among the tunnels of all clients: any session can open a conn
    on a forward tunnel of another one, by its id, and the conn is counted for the client
    that declared the tunnel. *)
Theorem conn_on_foreign_tunnel id n t te d tl now s :
  sv_tasks s !! id = Some t → t_opening t = S n →
  tunnels (sv_world s) !! te_id te = Some tl → ht (sv_world s) !! tl = Some te →
  resolve_dispatch te None = Ok d → next_conn_id (sv_world s) + 1 < 2 ^ 64 →
  ∃ s' c ce, server_run [ConnResolved id (Ok (mkOpenConn (te_id te) None));
                         ConnReplied id (length (t_replying t)) (Ok tt) now] s = Some s' ∧
    sv_guards s' !! c = Some (mkGuard tl (Some id)) ∧ conn (ce_id ce) (sv_world s') = Some c ∧
    hn (sv_world s') !! c = Some ce ∧ ce_client_id ce = te_client_id te.
Proof.
  intros Hid Hop Htid Htl Hd Hn.
  set (s1 := with_task id (mkTask (t_phase t) n (t_replying t ++ [(tl, d)]) (t_reverse t)) s).
  assert (server_step (ConnResolved id (Ok (mkOpenConn (te_id te) None))) s = Some s1) as E1.
  { unfold server_step. cbn [event_task]. rewrite Hid. cbn [mbind option_bind task_step]. rewrite Hop.
    unfold open_target, tunnel. cbn. rewrite Htid. cbn. rewrite Htl. cbn. by rewrite Hd. }
  assert (server_step (ConnReplied id (length (t_replying t)) (Ok tt) now) s1 =
    open_guard tl (peer_label d) (Some id) now
      (with_task id (mkTask (t_phase t) n (delete (length (t_replying t)) (t_replying t ++ [(tl, d)])) (t_reverse t)) s1)) as E2.
  { assert (sv_tasks s1 !! id = Some (mkTask (t_phase t) n (t_replying t ++ [(tl, d)]) (t_reverse t))) as Hid1
      by apply lookup_insert_eq.
    unfold server_step. cbn [event_task]. rewrite Hid1. cbn [mbind option_bind task_step t_replying].
    by rewrite list_lookup_middle. }
  cbn [server_run]. rewrite E1. cbn [mbind option_bind]. rewrite E2. unfold open_guard.
  cbn [sv_world with_task s1]. rewrite Htl. cbn [mbind option_bind]. rewrite decide_True by done.
  destruct (register_conn tl te (peer_label d) now (sv_world s)) as [w c] eqn:Er. cbn [mbind option_bind].
  unfold register_conn in Er. injection Er as <- <-.
  eexists _, (next_loc (sv_world s)), (mkConn (wadd64 (next_conn_id (sv_world s)) 1) (te_id te) (te_client_id te) now (peer_label d) 0 0).
  split; [done|]. unfold conn. cbn. rewrite !lookup_insert_eq. done.
Qed.

(** ** A session whose connection is lost ends *)






















End system.

(** ** A concrete run

    Two connections are accepted and a third is refused; the first declares a tunnel,
    the second opens a conn on it; the first ends. *)

Section instances.
#[local] Existing Instance by_tree.
#[local] Existing Instance counting.

Definition demo_hello : SessionHello := mkSessionHello [demo_remote].
Definition demo_start : ServerSys := server_new (Some 2) 0 demo_addr.
Definition demo_session (id : N) (hello : SessionHello) : list ServerEvent :=
  [HandshakeEnds id (Ok demo_addr) 0; HelloRead id (Ok hello) (λ _, 0%Z) 0; HelloReplied id (Ok tt) 0].
Definition demo_server_events : list ServerEvent :=
  [ConnIncoming; ConnIncoming; ConnIncoming] ++ demo_session 2 (mkSessionHello []) ++ demo_session 1 demo_hello ++
  [StreamAccepted 2; ConnResolved 2 (Ok (mkOpenConn 1 None)); ConnReplied 2 0 (Ok tt) 0; CountedIn 3 10;
   StreamFailed 1 TimedOut; ShutdownDone 1 5000000; PermitDropped 1].
Definition demo_server : ServerSys :=
  default demo_start (server_run false false demo_server_events demo_start).

Lemma demo_server_run : server_run false false demo_server_events demo_start = Some demo_server.
Proof. by vm_compute. Qed.

(** What the run leaves: one client listed, the tunnel gone, the bytes of the second
    client's conn in the history of the first. *)
Example demo_server_seen :
  ((map_to_list (clients (sv_world demo_server))).*1, tunnel_count (sv_world demo_server),
   conn_count (sv_world demo_server), map (λ h, (hi_client_id h, hi_bytes_in h)) (history (sv_world demo_server)),
   running (sv_acceptor demo_server), size (sv_guards demo_server)) = ([2], 0, 0, [(1, 10)], [2], 1%nat).
Proof. vm_compute. reflexivity. Qed.

Lemma server_listing_witness : client_count (sv_world demo_server) ≤ 2.
Proof.
  refine (proj1 (proj1 (proj2 (proj2 (server_listing false false (Some 2) 0 demo_addr demo_server_events demo_server _))) 2 eq_refl)).
  exact demo_server_run.
Defined.

Lemma api_shows_sessions_witness : map cs_id (list_clients (sv_world demo_server)) ≡ₚ [2].
Proof.
  destruct (api_shows_sessions false false (Some 2) 0 demo_addr demo_server_events demo_server 0 demo_server_run) as (Hl & _).
  exact Hl.
Defined.

Lemma history_complete_witness :
  ∃ disconnects, map hi_client_id disconnects ++ (map_to_list (clients (sv_world demo_server))).*1 ≡ₚ [2; 1].
Proof.
  destruct (history_complete false false (Some 2) 0 demo_addr demo_server_events demo_server) as (_ & ds & _ & Hp);
    [exact demo_server_run|]. exists ds. exact Hp.
Defined.

Definition demo_declared : TunnelEntry :=
  mkTunnel 1 1 Forward (kind demo_remote) (fmt_remote demo_remote) 0 {[1 := 3]} 0 0 1.

Lemma policy_enforced_witness :
  ht (sv_world demo_server) !! 2 = Some demo_declared ∧ (te_direction demo_declared = Reverse → false = true).
Proof.
  assert (ht (sv_world demo_server) !! 2 = Some demo_declared) as Ht by vm_cast_no_check (eq_refl (Some demo_declared)).
  split; [exact Ht|].
  destruct (policy_enforced false false (Some 2) 0 demo_addr demo_server_events demo_server demo_server_run) as [Hp _].
  exact (proj1 (Hp 2 demo_declared Ht)).
Defined.




End instances.
