(* ===== verification/UdpConn.v ===== *)
(** * UdpConn: the life of one UDP conn
      ([spawn_udp_conn] and [run_udp_conn] of [src/common/udp.rs],
      [spawn_socks_udp_conn] and [run_socks_udp_conn] of [src/common/socks.rs])

    What the relay of [Udp] spawns for a source: a task that registers a conn, opens and
    announces a stream, and then selects between the two directions until one of them
    ends. The direction from the local sender has a timeout, so the model has a clock, in
    milliseconds: an event is what the task sees at an instant. *)

From Stdlib Require Import Sorted.
From S2P Require Import Prelude Text NetAddr Remote State Ledger Framing Server Socks Udp Tunnel.

Definition CONN_IDLE_TIMEOUT : N := 60000.
Definition SOCKS_UDP_IDLE_TIMEOUT : N := 60000.

(** What becomes ready for the task: a datagram of the local sender, the loss of the
    last sender of the channel, or what [read_datagram] returns. *)
Inductive ConnEvent :=
| FromLocal (p : bytes)
| SendersGone
| FromQuic (r : result bytes bytes).

Section life.
Context `{ByteStreams}.

(** The timeout, the header put before replies and the socket back to the sender. *)
Variables (IDLE_TIMEOUT : N) (wrap : bytes → bytes) (send_to : bytes → result bytes unit).

(** The stream, the instant at which the pending [timeout] expires, the bytes counted in
    both directions, what was sent to the local sender, and when and with which result
    the [select!] ended. *)
Record Life := mkLife {
  lf_send : SendStream;
  lf_deadline : N;
  lf_out : N;
  lf_in : N;
  lf_replies : list bytes;
  lf_end : option (N * result bytes unit) }.

Definition life_start (send : SendStream) (now : N) : Life :=
  mkLife send (now + IDLE_TIMEOUT) 0 0 [] None.

Definition end_life (t : N) (r : result bytes unit) (lf : Life) : Life :=
  mkLife (lf_send lf) (lf_deadline lf) (lf_out lf) (lf_in lf) (lf_replies lf) (Some (t, r)).

(** The timer: the timeout has expired before [t]. *)
Definition timer (t : N) (lf : Life) : Life :=
  match lf_end lf with
  | Some _ => lf
  | None => if lf_deadline lf <? t then end_life (lf_deadline lf) (Ok tt) lf else lf
  end.

(** [local_to_quic] and [quic_to_local] take an event at [t]. *)
Definition take_event (t : N) (e : ConnEvent) (lf : Life) : Life :=
  match e with
  | FromLocal p =>
      match write_datagram (lf_send lf) p with
      | Ok send => mkLife send (t + IDLE_TIMEOUT) (wadd64 (lf_out lf) (len p)) (lf_in lf) (lf_replies lf) None
      | Err e => end_life t (Err e) lf
      end
  | SendersGone => end_life t (Ok tt) lf
  | FromQuic (Err e) => end_life t (Err e) lf
  | FromQuic (Ok p) =>
      match send_to (wrap p) with
      | Ok _ => mkLife (lf_send lf) (lf_deadline lf) (lf_out lf) (wadd64 (lf_in lf) (len p))
                  (lf_replies lf ++ [wrap p]) None
      | Err e => end_life t (Err e) lf
      end
  end.

Definition life_step (lf : Life) (te : N * ConnEvent) : Life :=
  let lf := timer te.1 lf in
  match lf_end lf with Some _ => lf | None => take_event te.1 te.2 lf end.

(** The conn as it is at [horizon]. *)
Definition life (lf : Life) (events : list (N * ConnEvent)) (horizon : N) : Life :=
  timer horizon (foldl life_step lf events).

(** ** How long a conn lives *)

(** The instants at which the local sender is heard. *)
Definition local_times (events : list (N * ConnEvent)) : list N :=
  omap (λ te, match te.2 with FromLocal _ => Some te.1 | _ => None end) events.

(** The reference: the first silence of the local sender longer than the timeout, looking
    at the instants at which it is heard. *)
Fixpoint silence (since : N) (heard : list N) (horizon : N) : option N :=
  match heard with
  | [] => if since + IDLE_TIMEOUT <? horizon then Some (since + IDLE_TIMEOUT) else None
  | t :: heard =>
      if since + IDLE_TIMEOUT <? t then Some (since + IDLE_TIMEOUT) else silence t heard horizon
  end.

(** Every event is one that does not fail. *)
Definition harmless (e : ConnEvent) : Prop :=
  match e with FromLocal p => len p < 65536 | FromQuic (Ok p) => send_to (wrap p) = Ok tt | _ => False end.

Lemma life_ended lf events horizon : lf_end lf ≠ None → life lf events horizon = lf.
Proof.
  intros He. destruct (lf_end lf) as [[d r]|] eqn:E; [|done]. unfold life.
  assert (∀ te, life_step lf te = lf) as Hs by (intros te; unfold life_step, timer; by rewrite E, E).
  assert (foldl life_step lf events = lf) as ->.
  { clear He. induction events as [|te events IH]; simpl; [done|]. by rewrite Hs. }
  unfold timer. by rewrite E.
Qed.

Lemma life_cons lf te events horizon : life lf (te :: events) horizon = life (life_step lf te) events horizon.
Proof. done. Qed.

Lemma write_datagram_live s p : live s → len p < 65536 → ∃ s', write_datagram s p = Ok s' ∧ live s'.
Proof.
  intros Hl Hp. unfold write_datagram. rewrite (proj2 (N.leb_gt _ _)) by done.
  destruct (write_all_live (to_le16 (len p)) s Hl) as (s1 & -> & Hl1). cbn.
  destruct (write_all_live p s1 Hl1) as (s2 & -> & Hl2). cbn. eauto.
Qed.

Definition locals (events : list (N * ConnEvent)) : list bytes :=
  omap (λ te, match te.2 with FromLocal p => Some p | _ => None end) events.
Definition replies (events : list (N * ConnEvent)) : list bytes :=
  omap (λ te, match te.2 with FromQuic (Ok p) => Some p | _ => None end) events.
Definition by_time (u : N) (events : list (N * ConnEvent)) : list (N * ConnEvent) :=
  filter (λ te, te.1 ≤ u) events.

(** The instant up to which events reach the conn. *)
Definition served_until (since : N) (events : list (N * ConnEvent)) (horizon : N) : N :=
  default horizon (silence since (local_times events) horizon).

(** Time goes forward, from [since] through the events to [horizon]. *)
Definition in_order (since : N) (events : list (N * ConnEvent)) (horizon : N) : Prop :=
  StronglySorted N.le (since :: events.*1 ++ [horizon]).

Lemma in_order_cons since te events horizon :
  in_order since (te :: events) horizon →
  since ≤ te.1 ∧ in_order te.1 events horizon ∧ in_order since events horizon ∧
  Forall (λ x, te.1 ≤ x.1) events ∧ te.1 ≤ horizon.
Proof.
  unfold in_order. simpl. intros Ho. apply StronglySorted_inv in Ho as [Ho Hs].
  inversion Hs as [|? ? Hle Hs']; subst. apply StronglySorted_inv in Ho as [Ho1 Ho2].
  split; [done|]. split; [by constructor|]. split; [by constructor|].
  apply Forall_app in Ho2 as [Hall Hh]. rewrite Forall_fmap in Hall. split; [exact Hall|]. by inversion Hh.
Qed.

Lemma served_until_ge since events horizon :
  in_order since events horizon →
  since + IDLE_TIMEOUT ≤ served_until since events horizon ∨ served_until since events horizon = horizon.
Proof.
  unfold served_until. revert since. induction events as [|[t e] events IH]; intros since Ho; simpl.
  - destruct (N.ltb_spec (since + IDLE_TIMEOUT) horizon); simpl; [by left|by right].
  - apply in_order_cons in Ho as (Hle & Ht & Hsince & _). simpl in Hle, Ht.
    destruct e as [p| |r]; simpl; try by apply IH.
    destruct (N.ltb_spec (since + IDLE_TIMEOUT) t); simpl; [by left|].
    destruct (IH t Ht) as [?|?]; [left; lia|by right].
Qed.

Lemma silence_late since heard horizon :
  Forall (λ t, since + IDLE_TIMEOUT < t) heard → since + IDLE_TIMEOUT < horizon →
  silence since heard horizon = Some (since + IDLE_TIMEOUT).
Proof. intros [|t h Ht _] Hh; simpl; by rewrite (proj2 (N.ltb_lt _ _)). Qed.

(** What a conn has done when it is looked at. *)
Record life_spec (lf lf' : Life) (since : N) (events : list (N * ConnEvent)) (horizon : N) : Prop := {
  ls_end : lf_end lf' = (λ d, (d, Ok tt)) <$> silence since (local_times events) horizon;
  ls_sent : sent (lf_send lf') =
    sent (lf_send lf) ++ (locals (by_time (served_until since events horizon) events) ≫= datagram_frame);
  ls_replies : lf_replies lf' =
    lf_replies lf ++ map wrap (replies (by_time (served_until since events horizon) events));
  ls_out : lf_out lf' = foldl (λ n p, wadd64 n (len p)) (lf_out lf)
    (locals (by_time (served_until since events horizon) events));
  ls_in : lf_in lf' = foldl (λ n p, wadd64 n (len p)) (lf_in lf)
    (replies (by_time (served_until since events horizon) events)) }.

Lemma by_time_cons u t e events : t ≤ u → by_time u ((t, e) :: events) = (t, e) :: by_time u events.
Proof. intros Hu. unfold by_time. by rewrite filter_cons_True. Qed.

Lemma by_time_late u events : Forall (λ x, u < x.1) events → by_time u events = [].
Proof.
  unfold by_time. induction 1 as [|x events Hx _ IH]; [done|]. rewrite filter_cons_False; [done|lia].
Qed.

(** The timer has fired: nothing that comes later is taken. *)
Lemma life_late lf since events horizon :
  lf_end lf = None → lf_deadline lf = since + IDLE_TIMEOUT →
  Forall (λ x, since + IDLE_TIMEOUT < x.1) events → since + IDLE_TIMEOUT < horizon →
  life_spec lf (life lf events horizon) since events horizon.
Proof.
  intros He Hd Hl Hh. assert (life lf events horizon = end_life (since + IDLE_TIMEOUT) (Ok tt) lf) as ->.
  { unfold life. destruct Hl as [|te events Ht Hl].
    - cbn [foldl]. unfold timer. rewrite He, Hd, (proj2 (N.ltb_lt _ _)) by done. done.
    - change (life lf (te :: events) horizon = end_life (since + IDLE_TIMEOUT) (Ok tt) lf). rewrite life_cons.
      unfold life_step at 1, timer. rewrite He, Hd, (proj2 (N.ltb_lt _ _)) by done. cbn. by apply life_ended. }
  assert (silence since (local_times events) horizon = Some (since + IDLE_TIMEOUT)) as Hsil.
  { apply silence_late; [|done]. clear - Hl. induction Hl as [|[t []] ? ? _ IH]; simpl; [constructor|by constructor|done|done]. }
  split; unfold served_until; rewrite Hsil; cbn; [done|..]; rewrite by_time_late by done; cbn; by rewrite ?app_nil_r.
Qed.

Lemma life_correct events horizon : ∀ lf since,
  lf_end lf = None → live (lf_send lf) → lf_deadline lf = since + IDLE_TIMEOUT →
  in_order since events horizon → Forall harmless events.*2 →
  life_spec lf (life lf events horizon) since events horizon.
Proof.
  induction events as [|[t e] events IH]; intros lf since He Hl Hd Ho Hh.
  - destruct (N.ltb_spec (since + IDLE_TIMEOUT) horizon) as [Hlt|Hge]; [by apply life_late|].
    assert (life lf [] horizon = lf) as -> by (unfold life, timer; cbn; by rewrite He, Hd, (proj2 (N.ltb_ge _ _))).
    split; unfold served_until; cbn; rewrite ?(proj2 (N.ltb_ge _ _)) by done; by rewrite ?app_nil_r.
  - destruct (N.ltb_spec (since + IDLE_TIMEOUT) t) as [Hlt|Hge].
    { apply in_order_cons in Ho as (_ & _ & _ & Hall & Hhor). simpl in Hall, Hhor.
      apply life_late; [done..| |lia]. constructor; [done|]. eapply Forall_impl; [exact Hall|]. simpl. lia. }
    pose proof (served_until_ge _ _ _ Ho) as Hu. pose proof Ho as (Hle & Ht & Hs & Hall & Hhor)%in_order_cons.
    cbn [fst] in *. inversion Hh as [|? ? He1 Hh1]; subst. rewrite life_cons. unfold life_step.
    assert (timer (t, e).1 lf = lf) as -> by (unfold timer; by rewrite He, Hd, (proj2 (N.ltb_ge _ _))).
    rewrite He. cbn [fst snd]. destruct e as [p| |[p|err]]; cbn [harmless] in He1; try done; cbn [take_event].
    + destruct (write_datagram_live _ p Hl He1) as (s' & E & Hl'). rewrite E.
      destruct (IH (mkLife s' (t + IDLE_TIMEOUT) (wadd64 (lf_out lf) (len p)) (lf_in lf) (lf_replies lf) None) t)
        as [E1 E2 E3 E4 E5]; [done..|]. pose proof (served_until_ge _ _ _ Ht) as Hu'.
      apply write_datagram_sent in E as [_ Es].
      assert (served_until since ((t, FromLocal p) :: events) horizon = served_until t events horizon) as Eu
        by (unfold served_until; cbn; by rewrite (proj2 (N.ltb_ge _ _))).
      split; rewrite ?Eu, ?by_time_cons by lia; cbn [local_times locals replies omap list_omap snd fst].
      * rewrite E1. cbn. by rewrite (proj2 (N.ltb_ge _ _)).
      * rewrite E2. cbn [lf_send]. rewrite Es, bind_cons, <-app_assoc. done.
      * exact E3.
      * exact E4.
      * exact E5.
    + rewrite He1.
      destruct (IH (mkLife (lf_send lf) (lf_deadline lf) (lf_out lf) (wadd64 (lf_in lf) (len p)) (lf_replies lf ++ [wrap p]) None) since)
        as [E1 E2 E3 E4 E5]; [done..|].
      assert (served_until since ((t, FromQuic (Ok p)) :: events) horizon = served_until since events horizon) as Eu by done.
      rewrite Eu in Hu. split; rewrite ?Eu, ?by_time_cons by lia; cbn [local_times locals replies omap list_omap snd fst].
      * exact E1.
      * exact E2.
      * rewrite E3. cbn [lf_replies map]. by rewrite <-app_assoc.
      * exact E4.
      * exact E5.
Qed.

(** The datagrams a harmless conn is given fit in a frame. *)
Lemma locals_small u events : Forall harmless events.*2 → Forall (λ p, len p < 65536) (locals (by_time u events)).
Proof.
  unfold by_time. induction events as [|[t e] events IH]; simpl; [by constructor|].
  inversion 1 as [|? ? He Hh]; subst. rewrite filter_cons. destruct (decide _); [|by apply IH].
  destruct e as [p| |r]; simpl; [constructor; [done|]|..]; by apply IH.
Qed.

(** The exact end of a conn on which nothing fails: the first silence of its local sender
    longer than the timeout, however busy the other direction is. *)
Lemma udp_conn_exact send now events horizon :
  live send → in_order now events horizon → Forall harmless events.*2 →
  let lf := life (life_start send now) events horizon in
  let u := served_until now events horizon in
  lf_end lf = (λ d, (d, Ok tt)) <$> silence now (local_times events) horizon ∧
  sent (lf_send lf) = sent send ++ (locals (by_time u events) ≫= datagram_frame) ∧
  lf_replies lf = map wrap (replies (by_time u events)) ∧
  lf_out lf = wrap64 (nsum (map (λ p, len p) (locals (by_time u events)))) ∧
  lf_in lf = wrap64 (nsum (map (λ p, len p) (replies (by_time u events)))).
Proof.
  intros Hl Ho Hh. cbn zeta.
  destruct (life_correct events horizon (life_start send now) now) as [E1 E2 E3 E4 E5]; [done..|].
  split_and!; [exact E1|exact E2|exact E3|rewrite E4|rewrite E5]; apply (foldl_wadd64 (λ p, len p) _ 0).
Qed.

(** A silence is one: the sender was not heard for as long as the timeout before its end. *)
Lemma silence_Some horizon events : ∀ since d,
  in_order since events horizon → silence since (local_times events) horizon = Some d →
  since + IDLE_TIMEOUT ≤ d ∧ d < horizon ∧ ∀ t, t ∈ local_times events → t ≤ d → t + IDLE_TIMEOUT ≤ d.
Proof.
  induction events as [|[t e] events IH]; intros since d Ho Hs.
  - cbn in Hs. destruct (N.ltb_spec (since + IDLE_TIMEOUT) horizon); [|done]. injection Hs as <-.
    split_and!; [done..|]. intros t Ht. cbn in Ht. set_solver.
  - apply in_order_cons in Ho as (Hle & Ht & Hsince & Hall & Hhor). cbn [fst] in *.
    destruct e as [p| |r]; [|by apply IH..]. cbn in Hs |- *.
    destruct (N.ltb_spec (since + IDLE_TIMEOUT) t) as [Hlt|Hge].
    + injection Hs as <-. split_and!; [done|lia|]. intros x [->|Hx]%elem_of_cons Hxd; [lia|].
      apply list_elem_of_omap in Hx as (te & Hte & Ex). rewrite Forall_forall in Hall. specialize (Hall te Hte).
      assert (x = te.1) by (destruct te as [? []]; cbn in *; congruence). lia.
    + destruct (IH t d Ht Hs) as (H1 & H2 & H3). split_and!; [lia|done|].
      intros x [->|Hx]%elem_of_cons Hxd; [lia|by apply H3].
Qed.

(** A sender that is not heard for as long as the timeout is silent by then. *)
Lemma silence_window horizon heard : ∀ since x,
  since ≤ x → x + IDLE_TIMEOUT < horizon → Forall (λ t, t ≤ x ∨ x + IDLE_TIMEOUT < t) heard →
  ∃ d, silence since heard horizon = Some d ∧ d ≤ x + IDLE_TIMEOUT.
Proof.
  induction heard as [|t heard IH]; intros since x Hs Hx Hh; cbn.
  - exists (since + IDLE_TIMEOUT). rewrite (proj2 (N.ltb_lt _ _)) by lia. split; [done|lia].
  - inversion Hh as [|? ? Ht Hh']; subst. destruct (N.ltb_spec (since + IDLE_TIMEOUT) t) as [Hlt|Hge].
    + exists (since + IDLE_TIMEOUT). split; [done|lia].
    + destruct Ht as [Ht|Ht]; [by apply IH|lia].
Qed.

(** C12: how long a UDP conn lives and what it carries meanwhile, as long as nothing fails.
    It ends without an error, not before the timeout has passed since its start and since
    the last datagram of its local sender; so it stays open while the sender is never
    silent for longer than the timeout; and when for as long as the timeout nothing passes
    in either direction, it has ended. Up to its end every datagram of the sender goes onto
    the stream, in order and with its boundaries, every datagram of the stream goes back to
    the sender, and both are counted; afterwards nothing is. *)
Theorem udp_conn_life send now events horizon :
  live send → in_order now events horizon → Forall harmless events.*2 →
  let lf := life (life_start send now) events horizon in
  let u := match lf_end lf with Some (d, _) => d | None => horizon end in
  (∀ d r, lf_end lf = Some (d, r) → r = Ok tt ∧ now + IDLE_TIMEOUT ≤ d ∧
     ∀ t, t ∈ local_times events → t ≤ d → t + IDLE_TIMEOUT ≤ d) ∧
  ((∀ x, now ≤ x → x + IDLE_TIMEOUT < horizon → ∃ t, t ∈ local_times events ∧ x < t ≤ x + IDLE_TIMEOUT) →
     lf_end lf = None) ∧
  (∀ x, now ≤ x → x + IDLE_TIMEOUT < horizon → Forall (λ te, te.1 ≤ x ∨ x + IDLE_TIMEOUT < te.1) events →
     ∃ d, lf_end lf = Some (d, Ok tt) ∧ d ≤ x + IDLE_TIMEOUT) ∧
  sent (lf_send lf) = sent send ++ (locals (by_time u events) ≫= datagram_frame) ∧
  lf_replies lf = map wrap (replies (by_time u events)) ∧
  lf_out lf = wrap64 (nsum (map (λ p, len p) (locals (by_time u events)))) ∧
  lf_in lf = wrap64 (nsum (map (λ p, len p) (replies (by_time u events)))).
Proof.
  intros Hl Ho Hh lf. destruct (udp_conn_exact send now events horizon Hl Ho Hh) as (Eend & E). fold lf in Eend, E.
  assert (match lf_end lf with Some (d, _) => d | None => horizon end = served_until now events horizon) as ->.
  { unfold served_until. rewrite Eend. by destruct (silence now (local_times events) horizon). }
  assert (∀ d r, lf_end lf = Some (d, r) → r = Ok tt ∧ silence now (local_times events) horizon = Some d) as Hsil.
  { intros d r Hd. rewrite Eend in Hd. destruct (silence _ _ _); [|done]. by injection Hd as <- <-. }
  cbn zeta. split; [|split; [|split; [|exact E]]].
  - intros d r [-> Hd]%Hsil. destruct (silence_Some _ _ _ _ Ho Hd) as (? & _ & ?). by split_and!.
  - intros Hact. destruct (lf_end lf) as [[d r]|] eqn:Ed; [|done]. destruct (Hsil d r eq_refl) as [_ Hd].
    destruct (silence_Some _ _ _ _ Ho Hd) as (H1 & H2 & H3).
    destruct (Hact (d - IDLE_TIMEOUT)) as (t & Ht & Hlt & Hle); [lia..|]. specialize (H3 t Ht ltac:(lia)). lia.
  - intros x Hx Hxh Hall. destruct (silence_window horizon (local_times events) now x Hx Hxh) as (d & Hd & Hle).
    { clear -Hall. induction Hall as [|[t []] events Ht _ IH]; cbn; [constructor|by constructor|done|done]. }
    exists d. by rewrite Eend, Hd.
Qed.

(** A conn that has not ended waits for its sender until some deadline. *)
Lemma life_deadline events : ∀ lf T,
  Forall (λ t, t + IDLE_TIMEOUT < T) (local_times events) → lf_deadline lf < T ∨ lf_end lf ≠ None →
  lf_deadline (foldl life_step lf events) < T ∨ lf_end (foldl life_step lf events) ≠ None.
Proof.
  induction events as [|[t e] events IH]; intros lf T Hl Hd; [done|].
  assert (Forall (λ t, t + IDLE_TIMEOUT < T) (local_times events)) as Hl'.
  { destruct e; [|done..]. by inversion Hl. }
  cbn [foldl]. apply IH; [done|]. unfold life_step, timer, end_life. cbn [fst snd].
  destruct (lf_end lf) as [x|] eqn:He; [right; cbn; rewrite He; congruence|]. destruct Hd as [Hd|]; [|done].
  destruct (lf_deadline lf <? t); cbn; [by right|]. rewrite He.
  destruct e as [p| |[p|err]]; cbn [take_event].
  - destruct (write_datagram (lf_send lf) p); cbn; [left; by inversion Hl|by right].
  - by right.
  - destruct (send_to (wrap p)); cbn; [by left|by right].
  - by right.
Qed.

(** No UDP conn is kept for ever: whatever comes back on its stream and whatever
    fails, it has ended when the timeout has passed since its start and since the last
    datagram of its local sender. *)
Theorem silent_conn_ends send now events horizon :
  now + IDLE_TIMEOUT < horizon → Forall (λ t, t + IDLE_TIMEOUT < horizon) (local_times events) →
  is_Some (lf_end (life (life_start send now) events horizon)).
Proof.
  intros Hn Hl. destruct (life_deadline events (life_start send now) horizon Hl ltac:(by left)) as [Hd|He].
  - unfold life, timer. destruct (lf_end (foldl life_step (life_start send now) events)) as [x|] eqn:E; [rewrite E; by eexists|].
    rewrite (proj2 (N.ltb_lt _ _)) by done. by eexists.
  - unfold life, timer. destruct (lf_end (foldl life_step (life_start send now) events)) as [x|] eqn:E; [rewrite E; by eexists|done].
Qed.

End life.

(** ** The tasks *)

Section tasks.
Context `{MapOrder} `{ByteStreams} `{SerdeHelper OpenConn, SerdeHelper OpenConnResponse}.

(** How the task of a conn stands: its result, and the bytes it counted out and in. *)
Record TaskState := mkTaskState { ts_result : option (result bytes unit); ts_out : N; ts_in : N }.

(** The stream is opened and announced before anything is taken from the channel. *)
Definition run_conn (idle : N) (wrap : bytes → bytes) (dynamic : option DynamicTarget)
    (bi : result bytes (SendStream * RecvStream)) (tunnel_id : N) (send_to : bytes → result bytes unit)
    (now : N) (events : list (N * ConnEvent)) (horizon : N) : TaskState :=
  match udp_conn_open tunnel_id dynamic bi with
  | Err e => mkTaskState (Some (Err e)) 0 0
  | Ok (send, _) =>
      let lf := life idle wrap send_to (life_start idle send now) events horizon in
      mkTaskState (snd <$> lf_end lf) (lf_out lf) (lf_in lf)
  end.

Definition run_socks_udp_conn (target : HostPort) :=
  run_conn SOCKS_UDP_IDLE_TIMEOUT (wrap_socks_udp_reply target) (Some (DynUdp target)).

(** The conn is registered first and its guard dropped last, also when the stream is
    refused. *)
Definition spawn_conn (handle : option (loc * TunnelEntry)) (peer : bytes) (now : SystemTime) (ts : TaskState)
    (w : World) : World * option (result bytes unit) :=
  tracked handle peer now
    (λ c w, (match c with
             | Some c => upd_conn c (λ ce, add_out (ts_out ts) (add_in (ts_in ts) ce)) w
             | None => w
             end, ts_result ts)) w.

Definition spawn_socks_udp_conn (handle : option (loc * TunnelEntry)) (socks_peer : SocketAddr) (target : HostPort) :=
  spawn_conn handle (fmt_socket socks_peer ++ str "=>" ++ to_addr_string target).


(** C35: a UDP tunnel from one end to the other. Whatever happens on the relay, the
    datagrams that the task of one source took while it lived are sent by the far end to
    the address of the declared target, unchanged, in order and with their boundaries, and
    nothing else is; the far end counts the bytes that the near end counted; and they are
    datagrams that this source sent, in its order, each at most once. *)
Theorem udp_tunnel_end_to_end `{Mpsc bytes} cap es st i c idle wrap send_to send start events horizon
    request target bind_addr bind far_send_to back r arrivals :
  relay_run udp_key cap es relay_init = Some st → spawned st !! i = Some c →
  live send → in_order start events horizon → Forall (harmless wrap send_to) events.*2 →
  locals (by_time (served_until idle start events horizon) events) = c_taken c →
  udp_target request = Ok (target, bind_addr) → bind bind_addr = Ok tt → (∀ p, far_send_to target p = Ok tt) →
  let lf := life idle wrap send_to (life_start idle send start) events horizon in
  sent send ++ unread r = sent (lf_send lf) →
  (tunnel_udp_server bind far_send_to request back r (S (length (c_taken c))) arrivals).1 =
    (λ p, (target, p)) <$> c_taken c ∧
  (pump_stream_to_socket (far_send_to target) (S (length (c_taken c))) r 0).1.2 = lf_out lf ∧
  c_taken c `sublist_of` received udp_key es (c_key c).
Proof.
  intros Hrun%relay_run_inv Hi Hl Ho Hh Htk Htgt Hbind Hfar. cbn zeta. intros Hr.
  destruct (life_correct idle wrap send_to events horizon (life_start idle send start) start) as [_ Es _ Eo _]; [done..|].
  rewrite Htk in Es, Eo. rewrite Es in Hr. apply app_inv_head in Hr.
  assert (Forall (λ p, len p < 65536) (c_taken c)) as Hsm by (rewrite <-Htk; by eapply locals_small).
  destruct (pump_frames (far_send_to target) (c_taken c) [] r 0 (S (length (c_taken c)))) as [e E];
    [done..|simpl; lia|by rewrite app_nil_r|lia|].
  split_and!.
  - unfold tunnel_udp_server. rewrite Htgt. cbn [mbind result_bind]. rewrite Hbind. cbn [mbind result_bind]. by rewrite E.
  - by rewrite E, Eo.
  - etrans; [|by apply (inv_order _ _ _ Hrun i)]. by apply sublist_inserts_r.
Qed.

End tasks.

(** ** Examples *)

(** A sender that asks once and a stream that answers every 20 seconds: the conn is cut
    60 seconds after the question, between two answers. *)
Definition demo_stream_events : list (N * ConnEvent) :=
  [(5, FromLocal (str "get")); (20000, FromQuic (Ok (str "a"))); (40000, FromQuic (Ok (str "b")));
   (60000, FromQuic (Ok (str "c"))); (80000, FromQuic (Ok (str "d")))].

Definition demo_socket (p : bytes) : result bytes unit := Ok tt.

Lemma demo_in_order : in_order 0 demo_stream_events 100000.
Proof. unfold in_order. simpl. repeat (constructor; [|repeat (constructor; [lia|]); constructor]). constructor. Qed.

Lemma demo_harmless : Forall (harmless (λ p, p) demo_socket) demo_stream_events.*2.
Proof. repeat (constructor; [done|]). constructor. Qed.

Definition demo_life : @Life memory_streams :=
  @life memory_streams CONN_IDLE_TIMEOUT (λ p, p) demo_socket (@life_start memory_streams CONN_IDLE_TIMEOUT [] 0)
    demo_stream_events 100000.

Lemma udp_conn_exact_witness : lf_end demo_life = Some (60005, Ok tt) ∧ lf_replies demo_life = [str "a"; str "b"; str "c"].
Proof.
  destruct (@udp_conn_exact memory_streams CONN_IDLE_TIMEOUT (λ p, p) demo_socket [] 0 demo_stream_events 100000)
    as (E1 & _ & E3 & _); [exact I|exact demo_in_order|exact demo_harmless|].
  split; [exact E1|exact E3].
Defined.

(** A question, its answer and then nothing. *)
Definition demo_quiet_events : list (N * ConnEvent) := [(5, FromLocal (str "get")); (20, FromQuic (Ok (str "a")))].
Definition demo_quiet : @Life memory_streams :=
  @life memory_streams CONN_IDLE_TIMEOUT (λ p, p) demo_socket (@life_start memory_streams CONN_IDLE_TIMEOUT [] 0)
    demo_quiet_events 100000.

Lemma udp_conn_life_witness :
  (∃ d, lf_end demo_quiet = Some (d, Ok tt) ∧ d ≤ 60020) ∧ lf_replies demo_quiet = [str "a"].
Proof.
  destruct (@udp_conn_life memory_streams CONN_IDLE_TIMEOUT (λ p, p) demo_socket [] 0 demo_quiet_events 100000)
    as (_ & _ & E1 & _ & E3 & _).
  - exact I.
  - unfold in_order. simpl. repeat (constructor; [|repeat (constructor; [lia|]); constructor]). constructor.
  - repeat (constructor; [done|]). constructor.
  - split; [|exact E3]. apply (E1 20); [lia|reflexivity|]. repeat (constructor; [left; cbn; lia|]). constructor.
Defined.

Lemma silent_conn_ends_witness :
  is_Some (lf_end demo_life).
Proof.
  apply (@silent_conn_ends memory_streams CONN_IDLE_TIMEOUT (λ p, p) demo_socket [] 0 demo_stream_events 100000);
    [by vm_compute|]. repeat (constructor; [by vm_compute|]). constructor.
Defined.


(** The conn of [demo_relay] sees the one datagram it has taken and then nothing more. *)
Definition one_event : list (N * ConnEvent) := [(5, FromLocal (str "a"))].

Definition dns_request : RemoteRequest :=
  RemoteRequest_new Forward (KUdp (socket_addr_new (IpV4 v4_localhost) 5353) (mkHostPort (str "10.0.0.9") 53)).
Definition dns_target : SocketAddr := match udp_target dns_request with Ok (a, _) => a | Err _ => src1 end.

Lemma udp_tunnel_end_to_end_witness :
  (@tunnel_udp_server memory_streams (λ _, Ok tt) (λ _, demo_socket) dns_request [] (datagram_frame (str "a")) 2 []).1 =
    [(dns_target, str "a")] ∧
  [str "a"] `sublist_of` received udp_key demo_events src1.
Proof.
  destruct (@udp_tunnel_end_to_end memory_streams Udp.queue_channel 4 demo_events demo_relay 0 demo_conn CONN_IDLE_TIMEOUT
    (λ p, p) demo_socket [] 0 one_event 100000 dns_request dns_target (str "0.0.0.0:0") (λ _, Ok tt) (λ _, demo_socket) []
    (datagram_frame (str "a")) []) as (H1 & _ & H3).
  - vm_cast_no_check (eq_refl (Some demo_relay)).
  - vm_cast_no_check (eq_refl (Some demo_conn)).
  - exact I.
  - unfold in_order. simpl. repeat (constructor; [|repeat (constructor; [lia|]); constructor]). constructor.
  - repeat (constructor; [done|]). constructor.
  - reflexivity.
  - vm_compute. reflexivity.
  - reflexivity.
  - done.
  - vm_compute. reflexivity.
  - split; [exact H1|exact H3].
Defined.
