(* ===== verification/Exit.v ===== *)
(** * Exit: what the process leaves behind ([run_server] and [run_client] of
      [src/lib.rs], the one-shot arms and the loggers of [src/main.rs], [materialize] of
      [src/embedded.rs])

    The parts of a run around the server and the client: the log set-up, the cell of the
    embedded credentials, the secret files, and the exit status. *)

From S2P Require Import Prelude Text Tls Cli Cert Ctl.

(** ** Logging *)

(** [tracing_subscriber::EnvFilter]: [try_from_default_env] on the value of RUST_LOG,
    and [new] on a directive; whether a filter lets this crate's INFO events through, as
    the directive of [rusnel cert] says. *)
Class EnvFilters := {
  EnvFilter : Type;
  env_filter_parse : bytes → option EnvFilter;
  env_filter_new : bytes → EnvFilter;
  enables_info : EnvFilter → bool;
  info_directive : enables_info (env_filter_new (str "rusnel=info,warn")) = true }.

Inductive Writer := ToStdout | ToStderr.

Record LoggingOpts := mkLoggingOpts { lo_verbose : bool; lo_debug : bool; lo_quiet : bool; lo_format : LogFormat }.

Section logging.
Context `{EnvFilters}.

Record Subscriber := mkSubscriber {
  su_filter : EnvFilter; su_writer : Writer; su_ansi : bool; su_time : bool; su_format : option LogFormat }.

(** [EnvFilter::try_from_default_env().unwrap_or_else(..)] *)
Definition env_filter (rust_log : option bytes) (default_directive : bytes) : EnvFilter :=
  match rust_log ≫= env_filter_parse with Some f => f | None => env_filter_new default_directive end.

(** The formatter colours and has its full format by default. *)
Definition init_simple_logger (rust_log : option bytes) (directive : bytes) : Subscriber :=
  mkSubscriber (env_filter rust_log directive) ToStderr true false None.

Definition init_logging (rust_log : option bytes) (stderr_is_terminal : bool) (opts : LoggingOpts) : Subscriber :=
  mkSubscriber (env_filter rust_log (default_directive (lo_verbose opts) (lo_debug opts) (lo_quiet opts)))
    ToStderr stderr_is_terminal true (Some (lo_format opts)).

(** A valid RUST_LOG wins over the flags; otherwise the most talkative of the flags
    decides, and a RUST_LOG that does not parse counts as none. *)
Lemma rust_log_wins rust_log terminal opts f :
  rust_log ≫= env_filter_parse = Some f → su_filter (init_logging rust_log terminal opts) = f.
Proof. intros E. cbn. unfold env_filter. by rewrite E. Qed.

(** [tracing_subscriber]'s text of an INFO event. *)
Class EventFormat := { fmt_info : Subscriber → bytes → bytes }.

(** What the messages an operation logs at INFO leave on the subscriber's writer. *)
Definition emit `{EventFormat} (su : Subscriber) (messages : list bytes) : bytes :=
  if enables_info (su_filter su) then concat (map (fmt_info su) messages) else [].

End logging.

(** ** The embedded credentials *)

Section embedded.
Context `{Faults}.
Variables (e : Embedded) (temp_dir : PathBuf) (pid : N).

(** [embedded::materialize]: the cell, and the files. *)
Definition materialize (cell : option Materialized) (st : Files) :
    option Materialized * Files * result bytes Materialized :=
  match cell with
  | Some m => (Some m, st, Ok m)
  | None =>
      match materialize_uncached e temp_dir pid st with
      | (st, Ok m) => (Some m, st, Ok m)
      | (st, Err err) => (None, st, Err err)
      end
  end.

(** Calls in turn, with whatever the files have become in between. *)
Fixpoint materialize_calls (cell : option Materialized) (disks : list Files) :
    list (Files * result bytes Materialized) :=
  match disks with
  | [] => []
  | st :: disks => let '(cell, st, r) := materialize cell st in (st, r) :: materialize_calls cell disks
  end.

(** The credentials are written once: after the first call that succeeds every call
    returns the same paths and touches nothing, and a call that fails is tried anew. *)
Theorem materialize_once disks i st st1 m :
  disks !! i = Some st → materialize_calls None disks !! i = Some (st1, Ok m) →
  (∀ j, (j < i)%nat → ∃ st' err, materialize_calls None disks !! j = Some (st', Err err)) →
  materialize_uncached e temp_dir pid st = (st1, Ok m) ∧
  ∀ j st', (i < j)%nat → disks !! j = Some st' → materialize_calls None disks !! j = Some (st', Ok m).
Proof.
  assert (∀ m ds j st', ds !! j = Some st' → materialize_calls (Some m) ds !! j = Some (st', Ok m)) as Hsome.
  { intros m0. induction ds as [|d ds IH]; intros j st' Hj; [done|]. destruct j as [|j]; cbn in *; [by injection Hj as ->|by apply IH]. }
  revert i. induction disks as [|d disks IH]; intros i Hi Hr Hprev; [done|].
  cbn [materialize_calls materialize] in *. destruct (materialize_uncached e temp_dir pid d) as [st2 [m0|err]] eqn:E.
  - destruct i as [|i].
    + cbn in Hi, Hr. injection Hi as ->. injection Hr as -> ->. split; [done|].
      intros [|j] st' Hj Hd; [lia|]. by apply Hsome.
    + destruct (Hprev 0%nat) as (? & ? & Hbad); [lia|]. cbn in Hbad. by simplify_eq.
  - destruct i as [|i]; [done|]. cbn in Hi, Hr. destruct (IH i Hi Hr) as [Hm Hl].
    + intros j Hj. apply (Hprev (S j)). lia.
    + split; [done|]. intros [|j] st' Hj Hd; [lia|]. apply Hl; [lia|done].
Qed.

End embedded.

(** ** Secret files *)

(** A key is written with the mode the umask leaves and restricted afterwards: when the
    second step fails, the error is reported and the key stays on disk, readable by
    whoever the default mode lets read it. *)
Theorem secret_left_readable `{Faults} path b st err :
  write_fault path = None → chmod_fault path = Some err → st !! path = None →
  ∃ st', write_secret_file path b st = (st', Err err) ∧ st' !! path = Some (mkFile b default_mode).
Proof.
  intros Hw Hc Hn. exists (<[path := mkFile b default_mode]> st). split; [|apply lookup_insert_eq].
  unfold write_secret_file. cbn. unfold fs_write, set_mode, put_file. rewrite Hw, Hc. unfold mbind, fs_bind. by rewrite Hn.
Qed.

(** ** Exit statuses *)

(** A line of the log: its message and the error it carries. *)
Record LogLine := mkLogLine { ll_message : bytes; ll_error : option bytes }.

Section exits.
Context `{EnvFilters, !EventFormat}.
(** [clap::Error::exit] on an error: nothing goes to standard output and the status is
    not zero. *)
Variable exit_error : bytes → Exit.
Hypothesis exit_error_spec : ∀ e, stdout (exit_error e) = [] ∧ status_code (exit_error e) ≠ 0.

(** [run_server], [run_client]: [build_runtime] and the run; they return nothing, and so
    does [main]. *)
Definition run_to_completion (message : bytes) (runtime run : result bytes unit) : list LogLine * N :=
  match (_ ← runtime; run) with
  | Err e => ([mkLogLine message (Some e)], 0)
  | Ok _ => ([], 0)
  end.
Definition run_server := run_to_completion (str "server exited with error").
Definition run_client := run_to_completion (str "client exited with error").

(** The [Mode::Cert] arm: what is printed, and what is logged on standard error. *)
Definition cert_main (rust_log : option bytes) (r : result bytes (bytes * list bytes)) : Exit :=
  let su := init_simple_logger rust_log (str "rusnel=info,warn") in
  match r with
  | Ok (out, messages) => mkExit out (emit su messages) 0
  | Err e => exit_error e
  end.

(** What the exit status says. For the one-shot tools it is zero exactly when they
    have done their work, and nothing is printed on standard output otherwise; a server
    or a client exits with zero however its run ended, and its error is one line of the
    log. *)
Theorem exit_statuses `{Rcgen, Pki, Faults} rust_log key nonce action st runtime run :
  (let r := (run_cert key nonce action st).2 in
   status_code (cert_main rust_log r) = 0 ↔ is_ok r = true) ∧
  (let r := (run_cert key nonce action st).2 in is_ok r = false → stdout (cert_main rust_log r) = []) ∧
  (run_server runtime run).2 = 0 ∧ (run_client runtime run).2 = 0 ∧
  (∀ e, runtime = Ok tt → run = Err e →
     (run_server runtime run).1 = [mkLogLine (str "server exited with error") (Some e)]).
Proof.
  cbn zeta. destruct (run_cert key nonce action st).2 as [[out log]|e]; cbn [cert_main status_code is_ok stdout];
    [|destruct (exit_error_spec e) as [Hout Hstatus]].
  all: split_and!; try done; unfold run_server, run_client, run_to_completion;
    try (by destruct runtime, run); try by intros e0 -> ->.
Qed.

End exits.
