(* ===== verification/Tools.v ===== *)
(** * Tools: the command lines of [rusnel ctl] and [rusnel cert] ([src/main.rs])

    The two one-shot tools from their arguments to what they print: the subcommands they
    declare to clap, the actions the derived code reads from the matches, and the arms of
    [main] that run them ([Ctl], [Cert]) and end the process. *)

From S2P Require Import Prelude Text NetAddr State Ledger Tls Cli Json Admin Ctl Cert Args Exit.

(** ** Declarations *)

(** A command with subcommands: its own arguments, and those of each subcommand. *)
Record Command := mkCommand { cmd_args : list Arg; cmd_subs : list (bytes * list Arg) }.

(** A field without [Option] and without a default. *)
Definition required (id long : string) (valid : bytes → bool) : Arg :=
  mkArg id (Long long None) Single None [] [] valid true.
Definition positional (id : string) (valid : bytes → bool) : Arg :=
  mkArg id Positional Single None [] [] valid true.
Definition repeated (id long : string) (valid : bytes → bool) : Arg :=
  mkArg id (Long long None) Many None [] [] valid false.

Definition is_u64 : bytes → bool := by_parser (λ v, ok (parse_u64 v)).

(** [Mode::Ctl] and [CtlAction] *)
Definition ctl_command : Command :=
  mkCommand [ opt "socket" "socket" [] [] is_path; flag "json" "json" None [] ]%string
    [ (str "server", []);
      (str "clients", []);
      (str "client", [positional "id" is_u64]);
      (str "client-conns", [positional "id" is_u64]);
      (str "tunnels", []);
      (str "tunnel", [positional "id" is_u64]);
      (str "tunnel-conns", [positional "id" is_u64]);
      (str "conns", []);
      (str "history", [opt "limit" "limit" [] [] is_u64]) ].

(** [CaArgs], [ServerCertArgs] and [ClientCertArgs] *)
Definition ca_args : list Arg :=
  [ opt_default "out_dir" "out-dir" "./pki" is_path;
    opt_default "common_name" "common-name" "rusnel-ca" is_string ]%string.
Definition server_cert_args : list Arg :=
  [ opt_default "out_dir" "out-dir" "./pki" is_path;
    required "ca" "ca" is_path;
    required "ca_key" "ca-key" is_path;
    opt "common_name" "common-name" [] [] is_string;
    repeated "names" "name" is_string;
    repeated "ips" "ip" (by_parser parse_ipaddr);
    opt_default "file_stem" "file-stem" "server" is_string ]%string.
Definition client_cert_args : list Arg :=
  [ opt_default "out_dir" "out-dir" "./pki" is_path;
    required "ca" "ca" is_path;
    required "ca_key" "ca-key" is_path;
    opt_default "common_name" "common-name" "rusnel-client" is_string;
    opt "file_stem" "file-stem" [] [] is_string ]%string.

(** [Mode::Cert] and [CertAction] *)
Definition cert_command : Command :=
  mkCommand []
    [ (str "ca", ca_args);
      (str "server", server_cert_args);
      (str "client", client_cert_args);
      (str "fingerprint", [positional "cert" is_path]) ].

(** ** clap *)

(** [clap::Error]: what it prints, and whether it displays the help or the version. *)
Record ClapError := mkClapError { err_text : bytes; err_help : bool }.

(** [Error::exit]: help goes to standard output with status 0, an error to standard error
    with status 2. *)
Definition clap_exit (e : ClapError) : Exit :=
  if err_help e then mkExit (err_text e) [] 0 else mkExit [] (err_text e) 2.

(** The parser of a command with subcommands: the matches of the command, the subcommand
    and its matches. *)
Class ClapCommand := {
  get_subcommand : Command → list bytes → sum ClapError (Matches * bytes * Matches);
  subcommand_matched c argv m name sm : get_subcommand c argv = inr (m, name, sm) →
    matched (cmd_args c) m = true ∧ ∃ decls, (name, decls) ∈ cmd_subs c ∧ matched decls sm = true;
  (** [Command::error]: an error that displays no help *)
  command_error : bytes → ClapError;
  command_error_help msg : err_help (command_error msg) = false }.

(** ** [from_arg_matches] as derived *)

Definition ctl_of_matches (name : bytes) (sm : Matches) : option CtlAction :=
  let id := one sm "id" ≫= λ v, ok (parse_u64 v) in
  if decide (name = str "server") then Some CServer
  else if decide (name = str "clients") then Some CClients
  else if decide (name = str "client") then CClient <$> id
  else if decide (name = str "client-conns") then CClientConns <$> id
  else if decide (name = str "tunnels") then Some CTunnels
  else if decide (name = str "tunnel") then CTunnel <$> id
  else if decide (name = str "tunnel-conns") then CTunnelConns <$> id
  else if decide (name = str "conns") then Some CConns
  else if decide (name = str "history") then CHistory <$> one_opt (λ v, ok (parse_u64 v)) sm "limit"
  else None.

Definition cert_of_matches (name : bytes) (sm : Matches) : option CertAction :=
  if decide (name = str "ca") then
    out_dir ← one sm "out_dir"; common_name ← one sm "common_name"; Some (ACa out_dir common_name)
  else if decide (name = str "server") then
    out_dir ← one sm "out_dir"; ca ← one sm "ca"; ca_key ← one sm "ca_key";
    ips ← mapM parse_ipaddr (values sm "ips"); file_stem ← one sm "file_stem";
    Some (AServer out_dir ca ca_key (one sm "common_name") (values sm "names") ips file_stem)
  else if decide (name = str "client") then
    out_dir ← one sm "out_dir"; ca ← one sm "ca"; ca_key ← one sm "ca_key";
    common_name ← one sm "common_name";
    Some (AClient out_dir ca ca_key common_name (one sm "file_stem"))
  else if decide (name = str "fingerprint") then cert ← one sm "cert"; Some (AFingerprint cert)
  else None.

(** ** What is read from matches *)

Section reading.
Context (decls : list Arg) (m : Matches).
Hypothesis Hm : matched decls m = true.

(** An argument that must be given has a value its parser accepts. *)
Lemma required_value i a :
  decls !! i = Some a → arg_arity a = Single → arg_required a = true →
  ∃ v, one m (arg_id a) = Some v ∧ arg_valid a v = true.
Proof.
  intros Hi Ha Hr. pose proof (required_given decls m Hm i a Hi Hr) as Hg.
  destruct (arg_given decls m Hm i a Hi Hg) as (Hv & _ & Hs & _). destruct (Hs Ha) as [v E].
  unfold one. rewrite E in *. exists v. split; [done|]. by inversion Hv.
Qed.

(** A path, given or by default. *)
Lemma path_value i a d :
  decls !! i = Some a → arg_arity a = Single → arg_default a = Some d → arg_valid a = is_path → d ≠ [] →
  ∃ v, one m (arg_id a) = Some v ∧ v ≠ [].
Proof.
  intros Hi Ha Hd Hp Hne. destruct (option_default decls m Hm i a d Hi Ha Hd) as (v & E & Hv).
  - rewrite Hp. by apply bool_decide_true.
  - exists v. split; [done|]. rewrite Hp in Hv. by apply bool_decide_eq_true in Hv.
Qed.

Lemma required_path i a :
  decls !! i = Some a → arg_arity a = Single → arg_required a = true → arg_valid a = is_path →
  ∃ v, one m (arg_id a) = Some v ∧ v ≠ [].
Proof.
  intros Hi Ha Hr Hp. destruct (required_value i a Hi Ha Hr) as (v & E & Hv). exists v. split; [done|].
  rewrite Hp in Hv. by apply bool_decide_eq_true in Hv.
Qed.

Lemma string_value i a d :
  decls !! i = Some a → arg_arity a = Single → arg_default a = Some d → arg_valid a d = true →
  is_Some (one m (arg_id a)).
Proof. intros Hi Ha Hd Hv. destruct (option_default decls m Hm i a d Hi Ha Hd Hv) as (v & -> & _). by eexists. Qed.

End reading.

Lemma parse_u64_lt v n : ok (parse_u64 v) = Some n → n < 2 ^ 64.
Proof.
  destruct (parse_u64 v) as [k|] eqn:E; [|done]. intros [= <-]. apply from_str_radix_le in E. unfold u64_max in E. lia.
Qed.

(** What an action is called on the command line, and the number it takes there. *)
Definition action_name (a : CtlAction) : bytes :=
  match a with
  | CServer => str "server" | CClients => str "clients" | CClient _ => str "client"
  | CClientConns _ => str "client-conns" | CTunnels => str "tunnels" | CTunnel _ => str "tunnel"
  | CTunnelConns _ => str "tunnel-conns" | CConns => str "conns" | CHistory _ => str "history"
  end.
Definition action_number (a : CtlAction) : option (string * option N) :=
  match a with
  | CClient n | CClientConns n | CTunnel n | CTunnelConns n => Some ("id"%string, Some n)
  | CHistory limit => Some ("limit"%string, limit)
  | _ => None
  end.

(** The command line spells the action. *)
Definition spells (name : bytes) (sm : Matches) (a : CtlAction) : Prop :=
  name = action_name a ∧
  match action_number a with
  | Some (id, n) => one_opt (λ v, ok (parse_u64 v)) sm id = Some n
  | None => True
  end.

(** A subcommand with an id has one, and it is a [u64]. *)
Lemma id_value sm : matched [positional "id" is_u64] sm = true →
  ∃ n, one sm "id" ≫= (λ v, ok (parse_u64 v)) = Some n ∧ n < 2 ^ 64 ∧
       one_opt (λ v, ok (parse_u64 v)) sm "id" = Some (Some n).
Proof.
  intros Hm. destruct (required_value _ _ Hm 0 (positional "id" is_u64) eq_refl eq_refl eq_refl) as (v & E & Hv).
  apply bool_decide_eq_true in Hv as [n Hn]. exists n. cbn in E. unfold one_opt. rewrite E. cbn [mbind option_bind].
  rewrite Hn. split_and!; [done|by eapply parse_u64_lt|done].
Qed.

(** What clap matches is always read, and the numbers are in range. *)
Lemma ctl_action_read name decls sm :
  (name, decls) ∈ cmd_subs ctl_command → matched decls sm = true →
  ∃ a, ctl_of_matches name sm = Some a ∧ action_ok a ∧ spells name sm a.
Proof.
  intros Hin Hm. cbn in Hin.
  repeat (apply elem_of_cons in Hin as [[= -> ->]|Hin]); [..|by apply elem_of_nil in Hin];
    try (by eexists); try (destruct (id_value sm Hm) as (n & E & Hn & E'); unfold ctl_of_matches; rewrite E; by eexists).
  destruct (option_parsed _ _ Hm (λ v, ok (parse_u64 v)) 0 (opt "limit" "limit" [] [] is_u64) eq_refl eq_refl eq_refl eq_refl)
    as [l Hl]. cbn [arg_id opt] in Hl. exists (CHistory l). split_and!; [unfold ctl_of_matches; rewrite Hl; by vm_compute| |by split].
  unfold one_opt in Hl. destruct (one sm "limit") as [v|]; [|by simplify_eq].
  destruct (ok (parse_u64 v)) as [n|] eqn:En; [|done]. injection Hl as <-. by eapply parse_u64_lt.
Qed.

(** The paths of an action of [rusnel cert], and the files it may write. *)
Definition paths_ok (a : CertAction) : Prop :=
  match a with
  | ACa out_dir _ => out_dir ≠ []
  | AServer out_dir ca ca_key _ _ _ _ | AClient out_dir ca ca_key _ _ => out_dir ≠ [] ∧ ca ≠ [] ∧ ca_key ≠ []
  | AFingerprint cert => cert ≠ []
  end.
Definition action_outputs (a : CertAction) : list PathBuf :=
  match a with
  | ACa out_dir _ => pair_paths out_dir (str "ca")
  | AServer out_dir _ _ _ _ _ file_stem => pair_paths out_dir file_stem
  | AClient out_dir _ _ common_name file_stem => pair_paths out_dir (default common_name file_stem)
  | AFingerprint _ => []
  end.

Lemma cert_action_read name decls sm :
  (name, decls) ∈ cmd_subs cert_command → matched decls sm = true →
  ∃ a, cert_of_matches name sm = Some a ∧ paths_ok a.
Proof.
  intros Hin Hm. cbn in Hin. repeat (apply elem_of_cons in Hin as [[= -> ->]|Hin]); [..|by apply elem_of_nil in Hin].
  - destruct (path_value _ _ Hm 0 _ _ eq_refl eq_refl eq_refl eq_refl ltac:(done)) as (out & E1 & H1).
    destruct (string_value _ _ Hm 1 _ _ eq_refl eq_refl eq_refl eq_refl) as [cn E2]. cbn [arg_id opt_default] in E1, E2.
    unfold cert_of_matches. rewrite decide_True by done. rewrite E1, E2. by eexists.
  - destruct (path_value _ _ Hm 0 _ _ eq_refl eq_refl eq_refl eq_refl ltac:(done)) as (out & E1 & H1).
    destruct (required_path _ _ Hm 1 _ eq_refl eq_refl eq_refl eq_refl) as (ca & E2 & H2).
    destruct (required_path _ _ Hm 2 _ eq_refl eq_refl eq_refl eq_refl) as (key & E3 & H3).
    destruct (many_parsed _ _ Hm parse_ipaddr 5 _ eq_refl eq_refl eq_refl) as [ips E4].
    destruct (string_value _ _ Hm 6 _ _ eq_refl eq_refl eq_refl eq_refl) as [stem E5].
    cbn [arg_id opt_default required repeated] in E1, E2, E3, E4, E5.
    unfold cert_of_matches. rewrite decide_False, decide_True by done. rewrite E1, E2, E3, E4, E5. by eexists.
  - destruct (path_value _ _ Hm 0 _ _ eq_refl eq_refl eq_refl eq_refl ltac:(done)) as (out & E1 & H1).
    destruct (required_path _ _ Hm 1 _ eq_refl eq_refl eq_refl eq_refl) as (ca & E2 & H2).
    destruct (required_path _ _ Hm 2 _ eq_refl eq_refl eq_refl eq_refl) as (key & E3 & H3).
    destruct (string_value _ _ Hm 3 _ _ eq_refl eq_refl eq_refl eq_refl) as [cn E4].
    cbn [arg_id opt_default required] in E1, E2, E3, E4.
    unfold cert_of_matches. do 2 rewrite decide_False by done. rewrite decide_True by done. rewrite E1, E2, E3, E4. by eexists.
  - destruct (required_path _ _ Hm 0 _ eq_refl eq_refl eq_refl eq_refl) as (cert & E1 & H1). cbn [arg_id positional] in E1.
    unfold cert_of_matches. do 3 rewrite decide_False by done. rewrite decide_True by done. rewrite E1. by eexists.
Qed.

(** ** The arms of [main] *)

Section arms.
Context `{ClapCommand}.

(** [Mode::Ctl] *)
Definition ctl_arm `{AdminHttp} (default_socket : PathBuf) (argv : list bytes) : panicking Exit :=
  match get_subcommand ctl_command argv with
  | inl e => Returns (clap_exit e)
  | inr (m, name, sm) =>
      match ctl_of_matches name sm with
      | None => Returns (clap_exit (command_error (str "invalid value")))
      | Some action => ctl_main (one m "socket") default_socket (is_set m "json") action
      end
  end.

(** [Mode::Cert] *)
Definition cert_arm `{EnvFilters, !EventFormat, Faults, Rcgen, Pki} (rust_log : option bytes)
    (key : result bytes KeyPair) (nonce : bytes) (argv : list bytes) (st : Files) : Files * Exit :=
  match get_subcommand cert_command argv with
  | inl e => (st, clap_exit e)
  | inr (_, name, sm) =>
      match cert_of_matches name sm with
      | None => (st, clap_exit (command_error (str "invalid value")))
      | Some action =>
          let '(st', r) := run_cert key nonce action st in
          (st', cert_main (λ e, clap_exit (command_error e)) rust_log r)
      end
  end.

(** C15: [rusnel ctl] from its command line to the end of the process. Every command line
    that clap accepts is read as the action it spells, with its number; without [--json],
    against a running server, the process prints the table of what the server's state
    holds for it, nothing on standard error, and exits with 0; and for an id that does not
    exist it prints nothing on standard output, the server's answer on standard error, and
    exits with 1. *)
Theorem ctl_end_to_end `{Axum, MapOrder} default_socket argv m name sm now w :
  get_subcommand ctl_command argv = inr (m, name, sm) → is_set m "json" = false →
  serving (default default_socket (one m "socket")) now w →
  ∃ a, spells name sm a ∧
    match document now w a with
    | Ok v => ∃ out, ctl_arm default_socket argv = Returns (mkExit (end_line out) [] 0) ∧
                     shown now w a = Ok (Returns out)
    | Err _ => ctl_arm default_socket argv =
                 Returns (mkExit [] (str "ctl: " ++ flatten_error not_found_error ++ newline) 1)
    end.
Proof.
  intros Hg Hj Hs. destruct (subcommand_matched _ _ _ _ _ Hg) as (_ & decls & Hin & Hm).
  destruct (ctl_action_read name decls sm Hin Hm) as (a & Ha & Hok & Hsp). exists a. split; [done|].
  pose proof (ctl_shows_state _ now w a Hs Hok) as Hsh. unfold ctl_arm, ctl_main. rewrite Hg, Ha, Hj.
  destruct (document now w a) as [v|e].
  - destruct Hsh as [_ (out & Hout & Ht)]. exists out. by rewrite Ht.
  - by rewrite Hsh.
Qed.

(** With [--json] the document is parsed and printed again, not passed on as it came. *)
Lemma ctl_json_reprinted `{Axum, MapOrder} default_socket argv m name sm now w :
  get_subcommand ctl_command argv = inr (m, name, sm) → is_set m "json" = true →
  serving (default default_socket (one m "socket")) now w →
  ∃ a, spells name sm a ∧
    ∀ v, document now w a = Ok v → ctl_arm default_socket argv = Returns (mkExit (end_line (pretty v)) [] 0).
Proof.
  intros Hg Hj Hs. destruct (subcommand_matched _ _ _ _ _ Hg) as (_ & decls & Hin & Hm).
  destruct (ctl_action_read name decls sm Hin Hm) as (a & Ha & Hok & Hsp). exists a. split; [done|]. intros v Hv.
  pose proof (ctl_shows_state _ now w a Hs Hok) as Hsh. rewrite Hv in Hsh. destruct Hsh as [E _].
  unfold ctl_arm, ctl_main. by rewrite Hg, Ha, Hj, E.
Qed.

(** The two ends of [rusnel ctl]: a result on standard output and status 0, or nothing on
    standard output and another status. *)
Definition clean (x : Exit) : Prop :=
  (status_code x = 0 ∧ stderr x = []) ∨ (status_code x ≠ 0 ∧ stdout x = []).

Lemma clap_exit_clean e : clean (clap_exit e).
Proof. unfold clap_exit, clean. destruct (err_help e); cbn; [by left|by right]. Qed.

Lemma touches_run_cert `{Faults, Rcgen, Pki} key nonce a : Touches (run_cert key nonce a) (action_outputs a).
Proof.
  destruct a as [out cn|out ca cak cn names ips stem|out ca cak cn stem|cert]; cbn [run_cert action_outputs].
  - apply touches_bind; [apply touches_ca|apply _].
  - apply touches_bind; [apply touches_server|apply _].
  - apply touches_bind; [apply touches_client|apply _].
  - unfold print_fingerprint. apply _.
Qed.

(** What a successful action of [rusnel cert] leaves: a fingerprint is printed, and
    nothing is logged; a generated pair is on disk, the key for its owner only, nothing is
    printed, and the log names both files unless RUST_LOG silences it. *)
Definition reported `{EnvFilters, !EventFormat, Pki} (rust_log : option bytes) (a : CertAction) (st : Files)
    (x : Exit) : Prop :=
  match a with
  | AFingerprint cert => stderr x = [] ∧ ∃ f leaf rest, st !! cert = Some f ∧
      pem_certs (contents f) = Ok (leaf :: rest) ∧ stdout x = format_fingerprint (cert_sha256 leaf) ++ newline
  | _ => stdout x = [] ∧ ∃ out, [cert_path out; key_path out] = action_outputs a ∧
      is_Some (st !! cert_path out) ∧ mode <$> st !! key_path out = Some 0x180 ∧
      let su := init_simple_logger rust_log (str "rusnel=info,warn") in
      stderr x = (if enables_info (su_filter su) then fmt_info su (wrote out) else []) ∧
      (rust_log ≫= env_filter_parse = None → stderr x = fmt_info su (wrote out))
  end.

Lemma emit_one `{EnvFilters, !EventFormat} su msg :
  emit su [msg] = if enables_info (su_filter su) then fmt_info su msg else [].
Proof. unfold emit. cbn. by rewrite app_nil_r. Qed.

Lemma unset_logs `{EnvFilters} rust_log :
  rust_log ≫= env_filter_parse = None →
  enables_info (su_filter (init_simple_logger rust_log (str "rusnel=info,warn"))) = true.
Proof. intros E. cbn. unfold env_filter. rewrite E. apply info_directive. Qed.

Lemma pair_reported `{EnvFilters, !EventFormat, Pki} rust_log exit_error a dir stem st out :
  action_outputs a = pair_paths dir stem → (∀ cert, a ≠ AFingerprint cert) → pair_written dir stem st out →
  reported rust_log a st (cert_main exit_error rust_log (Ok ([], [wrote out]))).
Proof.
  intros Ha Hn (Ep & Hc & Hk). unfold reported, cert_main. destruct a as [| | |cert]; [..|by destruct (Hn cert)];
    (split; [done|]; exists out; rewrite Ha; split_and!; [done..|cbn [stderr]; apply emit_one|];
     cbn [stderr]; intros E; by rewrite emit_one, unset_logs).
Qed.

Lemma run_cert_reported `{EnvFilters, !EventFormat, Faults, Rcgen, Pki} rust_log exit_error key nonce a st st' r :
  run_cert key nonce a st = (st', Ok r) → reported rust_log a st' (cert_main exit_error rust_log (Ok r)).
Proof.
  destruct a as [dir cn|dir ca cak cn names ips stem|dir ca cak cn stem|cert]; cbn [run_cert]; intros E.
  - apply fs_bind_inv in E as (st1 & out & E & [= <- <-]). apply generate_ca_out in E. by eapply pair_reported.
  - apply fs_bind_inv in E as (st1 & out & E & [= <- <-]). apply generate_server_out in E. by eapply pair_reported.
  - apply fs_bind_inv in E as (st1 & out & E & [= <- <-]). apply generate_client_out in E. by eapply pair_reported.
  - apply fs_bind_inv in E as (st1 & fp & E & [= <- <-]). unfold print_fingerprint in E.
    apply fs_bind_inv in E as (st2 & b & E1 & E). apply with_context_inv, fs_read_inv in E1 as (-> & f & Hf & <-).
    apply fs_bind_inv in E as (st3 & certs & E1 & E). apply with_context_inv in E1. unfold fs_lift in E1.
    injection E1 as -> Hcerts. apply fs_bind_inv in E as (st4 & leaf & E1 & E). unfold fs_lift in E1.
    injection E1 as -> Hleaf. injection E as <- <-. destruct certs as [|c rest]; simplify_eq/=.
    unfold reported, cert_main, emit. cbn [stderr stdout map concat]. split; [by destruct (enables_info _)|].
    by exists f, leaf, rest.
Qed.

(** C29: how the tools report. A run of [rusnel ctl] that ends either exits with 0 and has
    said nothing on standard error, or exits with another status and has said nothing on
    standard output. A command line of [rusnel cert] that clap refuses changes no file; any
    other is an action with non-empty paths, which changes no file but its own outputs. If
    the action fails, the process has printed nothing on standard output and exits with
    another status than 0; if it succeeds it exits with 0, a fingerprint is on standard
    output alone, and a generated pair is on disk with its key for the owner only, while
    standard error has the log line that names its two files (by default; RUST_LOG may
    silence it). *)
Theorem tools_report `{AdminHttp, EnvFilters, !EventFormat, Faults, Rcgen, Pki} default_socket rust_log key nonce argv st :
  (∀ x, ctl_arm default_socket argv = Returns x → clean x) ∧
  match get_subcommand cert_command argv with
  | inl e => cert_arm rust_log key nonce argv st = (st, clap_exit e)
  | inr (_, name, sm) => ∃ a, cert_of_matches name sm = Some a ∧ paths_ok a ∧
      let '(st', x) := cert_arm rust_log key nonce argv st in
      (∀ p, p ∉ action_outputs a → st' !! p = st !! p) ∧
      if is_ok (run_cert key nonce a st).2 then status_code x = 0 ∧ reported rust_log a st' x
      else status_code x ≠ 0 ∧ stdout x = []
  end.
Proof.
  split.
  - intros x. unfold ctl_arm, ctl_main. destruct (get_subcommand ctl_command argv) as [e|[[m name] sm]].
    { intros [= <-]. apply clap_exit_clean. }
    destruct (ctl_of_matches name sm) as [a|]; [|intros [= <-]; apply clap_exit_clean].
    destruct (run_ctl _ _ a) as [r|]; [|done]. intros [= <-]. destruct r; [by left|by right].
  - unfold cert_arm. destruct (get_subcommand cert_command argv) as [e|[[m name] sm]] eqn:Hg; [done|].
    destruct (subcommand_matched _ _ _ _ _ Hg) as (_ & decls & Hin & Hm).
    destruct (cert_action_read name decls sm Hin Hm) as (a & Ha & Hp). exists a. rewrite Ha. split_and!; [done..|].
    pose proof (touches_run_cert key nonce a st) as Hframe.
    destruct (run_cert key nonce a st) as [st' r] eqn:Er. cbn [snd fst] in *. split; [by apply Hframe|].
    destruct r as [r|e]; cbn [is_ok].
    + split; [by destruct r|]. by eapply run_cert_reported.
    + cbn [cert_main]. unfold clap_exit. by rewrite command_error_help.
Qed.

End arms.

(** ** Examples *)

(** A parser that takes the first word that names a subcommand for it. *)
Fixpoint split_sub (subs : list (bytes * list Arg)) (pre argv : list bytes) :
    option (list bytes * (bytes * list Arg) * list bytes) :=
  match argv with
  | [] => None
  | w :: argv =>
      match filter (λ s, s.1 = w) subs with
      | s :: _ => Some (pre, s, argv)
      | [] => split_sub subs (pre ++ [w]) argv
      end
  end.

Lemma split_sub_in subs argv : ∀ pre p s r, split_sub subs pre argv = Some (p, s, r) → s ∈ subs.
Proof.
  induction argv as [|w argv IH]; intros pre p s r; cbn; [done|].
  destruct (filter _ subs) as [|x l] eqn:E; [apply IH|]. intros [= _ <- _].
  assert (x ∈ filter (λ s : bytes * list Arg, s.1 = w) subs) as Hx by (rewrite E; left). by apply list_elem_of_filter in Hx as [_ ?].
Qed.

#[local] Existing Instance Args.scanning_clap.

#[local] Instance scanning_command : ClapCommand.
Proof.
  refine {| get_subcommand := λ c argv,
      match split_sub (cmd_subs c) [] argv with
      | Some (pre, s, post) =>
          match try_get_matches (cmd_args c) pre, try_get_matches s.2 post with
          | Ok m, Ok sm => inr (m, s.1, sm)
          | Err e, _ | _, Err e => inl (mkClapError e false)
          end
      | None => inl (mkClapError (str "usage") false)
      end;
    command_error := λ msg, mkClapError (str "error: " ++ msg) false |}; [|done].
  intros c argv m name sm. destruct (split_sub (cmd_subs c) [] argv) as [[[pre s] post]|] eqn:E; [|done].
  destruct (try_get_matches (cmd_args c) pre) as [m'|] eqn:E1; [|by destruct (try_get_matches s.2 post)].
  destruct (try_get_matches s.2 post) as [sm'|] eqn:E2; [|done]. intros [= <- <- <-].
  split; [by eapply clap_matched|]. exists s.2. split; [|by eapply clap_matched].
  rewrite <-surjective_pairing. by eapply split_sub_in.
Defined.

Definition ctl_argv : list bytes := str <$> ["--socket"; "admin.sock"; "tunnel"; "9"]%string.

Definition ctl_found : Matches * bytes * Matches :=
  match get_subcommand ctl_command ctl_argv with inr x => x | inl _ => (λ _, None, [], λ _, None) end.

Lemma ctl_found_eq : get_subcommand ctl_command ctl_argv = inr (ctl_found.1.1, ctl_found.1.2, ctl_found.2).
Proof. vm_cast_no_check (eq_refl (get_subcommand ctl_command ctl_argv)). Qed.
Lemma ctl_found_socket : one ctl_found.1.1 "socket" = Some (str "admin.sock").
Proof. vm_cast_no_check (eq_refl (Some (str "admin.sock"))). Qed.
Lemma ctl_found_table : is_set ctl_found.1.1 "json" = false.
Proof. vm_cast_no_check (eq_refl false). Qed.
Lemma ctl_found_document : @document by_tree 0 (world demo_state) (CTunnel 9) = Err NotFound.
Proof. vm_cast_no_check (eq_refl (@Err ApiError Value NotFound)). Qed.

Lemma ctl_end_to_end_witness :
  @ctl_arm scanning_command demo_http (str "/run/rusnel.sock") ctl_argv =
    Returns (mkExit [] (str "ctl: " ++ flatten_error (@not_found_error demo_http) ++ newline) 1).
Proof.
  destruct (@ctl_end_to_end scanning_command demo_http (Ctl.memory_axum _) by_tree (str "/run/rusnel.sock") ctl_argv
    ctl_found.1.1 ctl_found.1.2 ctl_found.2 0 (world demo_state) ctl_found_eq ctl_found_table) as (a & Ha & Hd).
  - rewrite ctl_found_socket. exact demo_serving.
  - assert (a = CTunnel 9) as ->.
    { destruct Ha as [En Hn]. assert (ctl_found.1.2 = str "tunnel") as Et by (vm_cast_no_check (eq_refl (str "tunnel"))).
      rewrite Et in En. destruct a as [| |n|n| |n|n| |l]; try discriminate En. cbn [action_number] in Hn.
      assert (one_opt (λ v, ok (parse_u64 v)) ctl_found.2 "id" = Some (Some 9)) as E9
        by (vm_cast_no_check (eq_refl (Some (Some 9)))). rewrite E9 in Hn. by injection Hn as <-. }
    rewrite ctl_found_document in Hd. exact Hd.
Defined.

#[local] Instance plain_filters : EnvFilters :=
  {| EnvFilter := bool; env_filter_parse s := Some (bool_decide (s = str "info")); env_filter_new _ := true;
     enables_info f := f; info_directive := eq_refl |}.
#[local] Instance plain_format : EventFormat := {| fmt_info _ msg := str " INFO " ++ msg ++ newline |}.

Definition ca_argv : list bytes := str <$> ["ca"; "--out-dir"; "pki"]%string.
Definition ca_end : Files * Exit :=
  @cert_arm scanning_command plain_filters plain_format mini_faults mini_rcgen mini_pki None (Ok (str "k1")) [] ca_argv ∅.

(** A CA is made: nothing but its pair is written, and the log says where. *)
Lemma tools_report_witness :
  ∃ a, paths_ok a ∧ (∀ p, p ∉ action_outputs a → ca_end.1 !! p = None) ∧
    stderr ca_end.2 = str " INFO wrote pki/ca.pem and pki/ca.key" ++ newline.
Proof.
  destruct (@tools_report scanning_command demo_http plain_filters plain_format mini_faults mini_rcgen mini_pki
    (str "admin.sock") None (Ok (str "k1")) [] ca_argv ∅) as (_ & H).
  destruct (get_subcommand cert_command ca_argv) as [e|[[m name] sm]] eqn:E; [vm_compute in E; discriminate E|].
  destruct H as (a & _ & Hp & H). fold ca_end in H. rewrite (surjective_pairing ca_end) in H. destruct H as [Hf _].
  exists a. split; [exact Hp|]. split; [intros p Hn; rewrite (Hf p Hn); apply lookup_empty|]. vm_compute. reflexivity.
Defined.
